(** * species.plot.plot_spectrum: a shallow embedding of [plot_spectrum]

    The function under study composes spectra, photometry, synthetic
    photometry, filter profiles and fit residuals into one figure.  It is a
    single Python routine that threads two pieces of mutable state through
    all of its branches: the list [plot_kwargs] (and the dictionaries it
    holds), and the matplotlib figure.  Both are modelled explicitly:

    - Python objects that can be aliased (lists, dictionaries) live in a
      [heap] indexed by addresses; dynamic values are [pyval]s;
    - the figure is a record of axes, each with its limits, labels and the
      ordered log of draw calls issued on it;
    - the routine itself runs in a state-and-exception monad [M]: an
      exception keeps the state reached so far, as in Python.

    Numbers.  Binary64 values are modelled by exact rationals extended with
    NaN and the two infinities ([f64]); rounding and signed zeros are not
    modelled.  The one integer the routine takes from a rounded
    transcendental function, [math.floor(math.log10(x))], is a collaborator,
    so that nothing is assumed about the rounding of the logarithm.

    Collaborators that are not part of this module (the filter lookup
    [ReadFilter], [create_model_label], [numpy.percentile], the colour
    cycle of the plotting backend and the decimal logarithm) are the fields
    of the class [Collab].
    Draw primitives are recorded, not interpreted: a draw call appends a
    record to the log of its axes and never raises, except that Python
    itself rejects a call whose explicit keywords collide with the keys of
    a [**kwargs] dictionary.  The limits of an axes are read back as they
    were set; the backend expands identical limits, ignores a non-positive
    limit of a log axis and refuses NaN and the infinities, so statements
    that read limits back are made for the limits the backend takes as
    given.  Calls that only decorate the figure (tick
    parameters, minor locators, label offsets, formatters and the legend)
    leave no trace in the model. *)

From Stdlib Require Import ZArith QArith Qround Qabs String Ascii List Bool Lia.
From Stdlib Require Import DecimalString.
From stdpp Require Import base option list.

Import ListNotations.
Local Open Scope string_scope.
Local Open Scope list_scope.

Infix "+:+" := String.append (at level 60, right associativity).

(** ** Numbers *)

Module F64.

Inductive f64 : Type :=
| NaN
| PInf
| NInf
| Fin (q : Q).

Definition of_Z (z : Z) : f64 := Fin (inject_Z z).

Definition zero : f64 := Fin 0.
Definition one : f64 := Fin 1.

Definition isnan (x : f64) : bool :=
  match x with NaN => true | _ => false end.

Definition isfinite (x : f64) : bool :=
  match x with Fin _ => true | _ => false end.

(** Sign of a rational: [Lt], [Eq] or [Gt] with respect to zero. *)
Definition qsign (q : Q) : comparison := (0 ?= Qnum q)%Z.

Definition neg (x : f64) : f64 :=
  match x with
  | NaN => NaN
  | PInf => NInf
  | NInf => PInf
  | Fin q => Fin (Qopp q)
  end.

Definition abs (x : f64) : f64 :=
  match x with
  | NaN => NaN
  | PInf | NInf => PInf
  | Fin q => Fin (Qabs q)
  end.

(** [inf * q] and [q * inf]: the sign of [q] decides, zero gives NaN. *)
Definition scale_inf (pos : bool) (q : Q) : f64 :=
  match qsign q with
  | Eq => NaN
  | Lt => if pos then PInf else NInf     (* 0 < q *)
  | Gt => if pos then NInf else PInf     (* q < 0 *)
  end.

Definition mul (x y : f64) : f64 :=
  match x, y with
  | NaN, _ | _, NaN => NaN
  | Fin a, Fin b => Fin (Qred (a * b))
  | PInf, Fin b | Fin b, PInf => scale_inf true b
  | NInf, Fin b | Fin b, NInf => scale_inf false b
  | PInf, PInf | NInf, NInf => PInf
  | PInf, NInf | NInf, PInf => NInf
  end.

(** numpy division: no exception, [x / 0] is an infinity (NaN for [0 / 0]). *)
Definition div (x y : f64) : f64 :=
  match x, y with
  | NaN, _ | _, NaN => NaN
  | Fin a, Fin b =>
      match qsign b with
      | Eq => scale_inf true a
      | _ => Fin (Qred (a / b))
      end
  | Fin _, (PInf | NInf) => Fin 0
  | (PInf | NInf), (PInf | NInf) => NaN
  | PInf, Fin b =>
      match qsign b with Gt => NInf | _ => PInf end
  | NInf, Fin b =>
      match qsign b with Gt => PInf | _ => NInf end
  end.

(** [x < y]; every comparison with NaN is false. *)
Definition ltb (x y : f64) : bool :=
  match x, y with
  | NaN, _ | _, NaN => false
  | Fin a, Fin b => negb (Qle_bool b a)
  | NInf, (Fin _ | PInf) => true
  | Fin _, PInf => true
  | _, _ => false
  end.

Definition gtb (x y : f64) : bool := ltb y x.

(** [x >= y]. *)
Definition geb (x y : f64) : bool :=
  match x, y with
  | NaN, _ | _, NaN => false
  | Fin a, Fin b => Qle_bool b a
  | PInf, _ => true
  | _, NInf => true
  | _, _ => false
  end.

(** Python [==] on floats. *)
Definition eqb (x y : f64) : bool :=
  match x, y with
  | Fin a, Fin b => Qeq_bool a b
  | PInf, PInf | NInf, NInf => true
  | _, _ => false
  end.

(** The same binary64 value (two NaNs are the same value here). *)
Definition same (x y : f64) : Prop :=
  match x, y with
  | NaN, NaN | PInf, PInf | NInf, NInf => True
  | Fin a, Fin b => Qeq a b
  | _, _ => False
  end.

(** [10.0 ** e] for an integer [e]. *)
Definition pow10q (e : Z) : Q :=
  match e with
  | Z0 => 1
  | Zpos p => inject_Z (10 ^ Zpos p)
  | Zneg p => Qmake 1 (Z.to_pos (10 ^ Zpos p))
  end.

Definition pow10 (e : Z) : f64 := Fin (pow10q e).

(** The largest [k] with [d * 10^k <= n], searched upwards from [k];
    the caller supplies [d <= n]. *)
Fixpoint ilog10_up (fuel : nat) (n d k : Z) : Z :=
  match fuel with
  | O => k
  | S fuel' =>
      if (d * 10 <=? n)%Z then ilog10_up fuel' n (d * 10) (k + 1) else k
  end.

(** The smallest [k] with [d <= n * 10^k], searched upwards from [k + 1];
    the caller supplies [n < d]. *)
Fixpoint ilog10_down (fuel : nat) (n d k : Z) : Z :=
  match fuel with
  | O => k
  | S fuel' =>
      if (d <=? n * 10)%Z then k + 1 else ilog10_down fuel' (n * 10) d (k + 1)
  end.

(** The floor of the decimal logarithm of a positive rational [q], without
    rounding. *)
Definition floor_log10q (q : Q) : Z :=
  let n := Qnum q in
  let d := Zpos (Qden q) in
  if (d <=? n)%Z
  then ilog10_up (S (Z.to_nat (Z.log2 n))) n d 0
  else Z.opp (ilog10_down (S (Z.to_nat (Z.log2 d))) n d 0).

(** [np.finfo(float).tiny], the smallest positive normal binary64. *)
Definition tiny : Q := Qmake 1 (Z.to_pos (2 ^ 1022)).

End F64.

Export F64.

(** ** Python values and the object store *)

(** Dynamic values.  Lists and dictionaries are held by reference, so
    that two names for one object see each other's updates. *)
Inductive pyval : Type :=
| VNone
| VBool (b : bool)
| VNum (x : f64)
| VStr (s : string)
| VPair (a b : f64)
| VRef (a : nat).

(** Dictionaries keep insertion order; their keys are strings. *)
Abbreviation pydict := (list (string * pyval)).

Inductive pyobj : Type :=
| ODict (d : pydict)
| OList (l : list pyval).

Abbreviation heap := (list pyobj).

Section Dict.
Context {V : Type}.

Fixpoint dict_get (k : string) (d : list (string * V)) : option V :=
  match d with
  | [] => None
  | (k', v) :: d' => if String.eqb k k' then Some v else dict_get k d'
  end.

Definition dict_mem (k : string) (d : list (string * V)) : bool :=
  match dict_get k d with Some _ => true | None => false end.

(** [d[k] = v]: an existing key keeps its position. *)
Fixpoint dict_set (k : string) (v : V) (d : list (string * V))
  : list (string * V) :=
  match d with
  | [] => [(k, v)]
  | (k', v') :: d' =>
      if String.eqb k k' then (k, v) :: d' else (k', v') :: dict_set k v d'
  end.

(** [del d[k]] for a key that is present. *)
Fixpoint dict_del (k : string) (d : list (string * V)) : list (string * V) :=
  match d with
  | [] => []
  | (k', v') :: d' =>
      if String.eqb k k' then d' else (k', v') :: dict_del k d'
  end.

Definition dict_keys (d : list (string * V)) : list string := map fst d.
End Dict.

(** Python [==], as far as the routine uses it (membership of a label in
    a list of labels).  Two references are compared by identity. *)
Definition num_of_bool (b : bool) : f64 := if b then F64.one else F64.zero.

Definition py_eqb (u v : pyval) : bool :=
  match u, v with
  | VNone, VNone => true
  | VBool a, VBool b => Bool.eqb a b
  | VBool a, VNum y => F64.eqb (num_of_bool a) y
  | VNum x, VBool b => F64.eqb x (num_of_bool b)
  | VNum x, VNum y => F64.eqb x y
  | VStr s, VStr t => String.eqb s t
  | VPair a b, VPair c d => F64.eqb a c && F64.eqb b d
  | VRef a, VRef b => Nat.eqb a b
  | _, _ => false
  end.

Definition py_in (v : pyval) (l : list pyval) : bool := existsb (py_eqb v) l.

(** ** Exceptions *)

Inductive value_error : Type :=
| LenMismatch (n_boxes n_kwargs : nat)
    (* "The number of 'boxes' should be equal to the number of items in
       'plot_kwargs'" *)
| ListRequired (filter_name : string) (n_values : nat)
    (* "A list with n dictionaries are required because the filter has n
       values" *)
| NoObjectBox
    (* "ObjectBox not found so can not create residuals" *)
| MathDomain
    (* math.log10 of a non-positive number, math.floor or math.ceil of NaN *)
| EmptyReduction
    (* numpy: zero-size array to reduction operation maximum *)
| Broadcast.
    (* numpy: operands could not be broadcast together *)

Inductive exn : Type :=
| ValueError (why : value_error)
| TypeError
| KeyError
| IndexError
| AttributeError
| UnboundLocalError
| OverflowError.

Inductive outcome (A : Type) : Type :=
| Ok (a : A)
| Raise (e : exn).

Arguments Ok {A} a.
Arguments Raise {A} e.

(** ** The figure *)

(** An entry of a (masked) array handed to a draw call. *)
Inductive cell : Type :=
| Masked
| Val (x : f64).

(** One call of a draw primitive, with its keyword arguments in call
    order (explicit keywords first, then the entries of [**kwargs]). *)
Inductive draw : Type :=
| Plot (x y : list cell) (fmt : option string) (kw : pydict)
| Errorbar (x y : list cell) (xerr : option f64) (yerr : option (list cell))
    (kw : pydict)
| FillBetween (x y1 y2 : list cell) (kw : pydict)
| Axhline (y : f64) (kw : pydict).

Record axes : Type := mk_axes {
  a_xscale : string;
  a_yscale : string;
  a_xlabel : option string;
  a_ylabel : option string;
  a_title : option string;
  a_xlim : option (f64 * f64);
  a_ylim : option (f64 * f64);
  a_draws : list draw
}.

Definition new_axes : axes :=
  mk_axes "linear" "linear" None None None None None [].

Definition set_xscale (s : string) (a : axes) : axes :=
  mk_axes s (a_yscale a) (a_xlabel a) (a_ylabel a) (a_title a) (a_xlim a)
    (a_ylim a) (a_draws a).
Definition set_yscale (s : string) (a : axes) : axes :=
  mk_axes (a_xscale a) s (a_xlabel a) (a_ylabel a) (a_title a) (a_xlim a)
    (a_ylim a) (a_draws a).
Definition set_xlabel (s : string) (a : axes) : axes :=
  mk_axes (a_xscale a) (a_yscale a) (Some s) (a_ylabel a) (a_title a)
    (a_xlim a) (a_ylim a) (a_draws a).
Definition set_ylabel (s : string) (a : axes) : axes :=
  mk_axes (a_xscale a) (a_yscale a) (a_xlabel a) (Some s) (a_title a)
    (a_xlim a) (a_ylim a) (a_draws a).
Definition set_title (s : string) (a : axes) : axes :=
  mk_axes (a_xscale a) (a_yscale a) (a_xlabel a) (a_ylabel a) (Some s)
    (a_xlim a) (a_ylim a) (a_draws a).
Definition set_xlim (lo hi : f64) (a : axes) : axes :=
  mk_axes (a_xscale a) (a_yscale a) (a_xlabel a) (a_ylabel a) (a_title a)
    (Some (lo, hi)) (a_ylim a) (a_draws a).
Definition set_ylim (lo hi : f64) (a : axes) : axes :=
  mk_axes (a_xscale a) (a_yscale a) (a_xlabel a) (a_ylabel a) (a_title a)
    (a_xlim a) (Some (lo, hi)) (a_draws a).
Definition add_draw (d : draw) (a : axes) : axes :=
  mk_axes (a_xscale a) (a_yscale a) (a_xlabel a) (a_ylabel a) (a_title a)
    (a_xlim a) (a_ylim a) (a_draws a ++ [d]).

(** [ax1] is the main panel, [ax2] the filter panel and [ax3] the residual
    panel; [f_ratios] are the height ratios of the grid rows, top down. *)
Record figure : Type := mk_figure {
  f_ratios : list nat;
  ax1 : axes;
  ax2 : option axes;
  ax3 : option axes
}.

Inductive panel : Type := Main | Filters | Resid.

Definition panel_eq_dec (p q : panel) : {p = q} + {p <> q}.
Proof. decide equality. Defined.

Definition get_panel (p : panel) (f : figure) : option axes :=
  match p with
  | Main => Some (ax1 f)
  | Filters => ax2 f
  | Resid => ax3 f
  end.

Definition set_panel (p : panel) (a : axes) (f : figure) : figure :=
  match p with
  | Main => mk_figure (f_ratios f) a (ax2 f) (ax3 f)
  | Filters => mk_figure (f_ratios f) (ax1 f) (Some a) (ax3 f)
  | Resid => mk_figure (f_ratios f) (ax1 f) (ax2 f) (Some a)
  end.

(** Where the finished figure went: [plt.show()] or [plt.savefig(path)]. *)
Inductive sink : Type :=
| Shown
| Saved (path : string).

(** ** State and the monad *)

Record state : Type := mk_state {
  st_heap : heap;
  st_rc : pydict;              (* plt.rcParams, as far as the routine sets it *)
  st_fig : option figure;      (* None until plt.figure() has run *)
  st_out : option sink         (* None until the figure is shown or saved *)
}.

Definition init_state (h : heap) : state := mk_state h [] None None.

Definition M (A : Type) : Type := state -> outcome A * state.

Definition ret {A} (a : A) : M A := fun s => (Ok a, s).

Definition bind {A B} (m : M A) (k : A -> M B) : M B :=
  fun s =>
    match m s with
    | (Ok a, s') => k a s'
    | (Raise e, s') => (Raise e, s')
    end.

Definition raise {A} (e : exn) : M A := fun s => (Raise e, s).

Declare Scope py_scope.
Delimit Scope py_scope with py.
Notation "x <- m ;; k" := (bind m (fun x => k))
  (at level 100, m at next level, right associativity) : py_scope.
Notation "m ;; k" := (bind m (fun _ => k))
  (at level 100, right associativity) : py_scope.
Open Scope py_scope.

Definition get_heap : M heap := fun s => (Ok (st_heap s), s).

Definition put_heap (h : heap) : M unit :=
  fun s => (Ok tt, mk_state h (st_rc s) (st_fig s) (st_out s)).

Definition set_rc (k : string) (v : pyval) : M unit :=
  fun s => (Ok tt, mk_state (st_heap s) (dict_set k v (st_rc s)) (st_fig s)
                     (st_out s)).

Definition put_fig (f : figure) : M unit :=
  fun s => (Ok tt, mk_state (st_heap s) (st_rc s) (Some f) (st_out s)).

Definition put_out (o : sink) : M unit :=
  fun s => (Ok tt, mk_state (st_heap s) (st_rc s) (st_fig s) (Some o)).

(** A method call on one of the axes; the filter and residual axes are
    [None] when their panel was not requested. *)
Definition on_axes (p : panel) (f : axes -> axes) : M unit :=
  fun s =>
    match st_fig s with
    | None => (Raise UnboundLocalError, s)
    | Some fg =>
        match get_panel p fg with
        | None => (Raise AttributeError, s)
        | Some a =>
            (Ok tt, mk_state (st_heap s) (st_rc s)
                      (Some (set_panel p (f a) fg)) (st_out s))
        end
    end.

Definition read_axes {A} (p : panel) (f : axes -> A) : M A :=
  fun s =>
    match st_fig s with
    | None => (Raise UnboundLocalError, s)
    | Some fg =>
        match get_panel p fg with
        | None => (Raise AttributeError, s)
        | Some a => (Ok (f a), s)
        end
    end.

Definition when (b : bool) (m : M unit) : M unit := if b then m else ret tt.

(** [for x in l: body x] *)
Fixpoint for_each {A} (l : list A) (body : A -> M unit) : M unit :=
  match l with
  | [] => ret tt
  | x :: l' => body x ;; for_each l' body
  end.

(** A loop that carries the local variables [acc] from one round to the
    next. *)
Fixpoint for_fold {A S} (l : list A) (acc : S) (body : S -> A -> M S) : M S :=
  match l with
  | [] => ret acc
  | x :: l' => acc' <- body acc x ;; for_fold l' acc' body
  end.

(** [enumerate l] *)
Definition enumerate {A} (l : list A) : list (nat * A) :=
  combine (seq 0 (length l)) l.

(** ** Operations on Python objects *)

Definition alloc (o : pyobj) : M pyval :=
  h <- get_heap ;;
  put_heap (h ++ [o]) ;;
  ret (VRef (length h)).

(** The object a value refers to; [None] for a value that is not a
    container. *)
Definition deref (v : pyval) : M (option pyobj) :=
  match v with
  | VRef a => h <- get_heap ;; ret (h !! a)
  | _ => ret None
  end.

Definition store (v : pyval) (o : pyobj) : M unit :=
  match v with
  | VRef a => h <- get_heap ;; put_heap (<[a := o]> h)
  | _ => raise TypeError
  end.

(** [bool(v)], as in [if v:]. *)
Definition truthy (v : pyval) : M bool :=
  match v with
  | VNone => ret false
  | VBool b => ret b
  | VNum x => ret (negb (F64.eqb x F64.zero))
  | VStr s => ret (negb (String.eqb s ""))
  | VPair _ _ => ret true
  | VRef _ =>
      o <- deref v ;;
      match o with
      | Some (ODict d) => ret (negb (Nat.eqb (length d) 0))
      | Some (OList l) => ret (negb (Nat.eqb (length l) 0))
      | None => ret true
      end
  end.

(** [k in v] for a string [k].  On a value that is no container the test
    raises TypeError.  (For a string [v] Python tests for a substring; every
    use in the routine then fails with TypeError at the next statement,
    before any further effect, so the two are merged here.) *)
Definition contains (k : string) (v : pyval) : M bool :=
  o <- deref v ;;
  match o with
  | Some (ODict d) => ret (dict_mem k d)
  | Some (OList l) => ret (py_in (VStr k) l)
  | None => raise TypeError
  end.

(** [v[k]] for a string [k]. *)
Definition getitem (v : pyval) (k : string) : M pyval :=
  o <- deref v ;;
  match o with
  | Some (ODict d) =>
      match dict_get k d with
      | Some x => ret x
      | None => raise KeyError
      end
  | _ => raise TypeError
  end.

(** [v[i]] for an index [i]. *)
Definition getindex (v : pyval) (i : nat) : M pyval :=
  o <- deref v ;;
  match o with
  | Some (OList l) =>
      match l !! i with
      | Some x => ret x
      | None => raise IndexError
      end
  | Some (ODict _) => raise KeyError
  | None => raise TypeError
  end.

(** [v[k] = x] for a string [k]. *)
Definition setitem (v : pyval) (k : string) (x : pyval) : M unit :=
  o <- deref v ;;
  match o with
  | Some (ODict d) => store v (ODict (dict_set k x d))
  | _ => raise TypeError
  end.

(** [v[i] = x] for an index [i] of a list. *)
Definition setindex (v : pyval) (i : nat) (x : pyval) : M unit :=
  o <- deref v ;;
  match o with
  | Some (OList l) =>
      if Nat.ltb i (length l) then store v (OList (<[i := x]> l))
      else raise IndexError
  | _ => raise TypeError
  end.

(** [del v[k]] *)
Definition delitem (v : pyval) (k : string) : M unit :=
  o <- deref v ;;
  match o with
  | Some (ODict d) =>
      if dict_mem k d then store v (ODict (dict_del k d)) else raise KeyError
  | _ => raise TypeError
  end.

(** [v.append(x)] *)
Definition append (v : pyval) (x : pyval) : M unit :=
  o <- deref v ;;
  match o with
  | Some (OList l) => store v (OList (l ++ [x]))
  | _ => raise AttributeError
  end.

(** [len(v)] *)
Definition len (v : pyval) : M nat :=
  o <- deref v ;;
  match o with
  | Some (OList l) => ret (length l)
  | Some (ODict d) => ret (length d)
  | None => raise TypeError
  end.

(** [v.copy()]: a new dictionary with the entries of [v].  The copy is
    only ever used locally, so it is a value of the model rather than an
    object of the store.  A list also has [copy], but every use of the
    result as a dictionary then raises TypeError. *)
Definition copy (v : pyval) : M pydict :=
  o <- deref v ;;
  match o with
  | Some (ODict d) => ret d
  | Some (OList _) => raise TypeError
  | None => raise AttributeError
  end.

(** The entries of [**v]. *)
Definition star (v : pyval) : M pydict :=
  o <- deref v ;;
  match o with
  | Some (ODict d) => ret d
  | _ => raise TypeError
  end.

Definition isinstance_list (v : pyval) : M bool :=
  o <- deref v ;;
  match o with
  | Some (OList _) => ret true
  | _ => ret false
  end.

(** Keyword arguments of a call [f(..., k1=v1, ..., **d)]: Python raises
    TypeError when a key of [d] repeats a keyword written in the call.
    [reserved] are the keywords whose values the model keeps in fields of
    the draw record, [explicit] those it keeps in the keyword list. *)
Definition keywords (reserved : list string) (explicit d : pydict) : M pydict :=
  if existsb (fun k => dict_mem k d) (reserved ++ dict_keys explicit)
  then raise TypeError
  else ret (explicit ++ d).

(** ** Inputs: the boxes and the arguments of [plot_spectrum] *)

(** The data of a [SpectrumBox] or [ModelBox]: one spectrum (the first
    wavelength is a float) or several stacked spectra with their names (the
    first wavelength is itself an array). *)
Inductive spectrum_data : Type :=
| Spec1D (wavelength flux : list f64)
| Spec2D (wavelength flux : list (list f64)) (name : list string).

(** An element of a list of [ModelBox] samples. *)
Record model_item : Type := mk_model_item {
  mi_wavelength : list f64;
  mi_flux : list f64
}.

(** The value stored for a filter in [ObjectBox.flux]: a (flux, error)
    pair, or a 2 x N array whose column [i] is measurement [i]. *)
Inductive phot_value : Type :=
| One (flux error : f64)
| Many (columns : list (f64 * f64)).

(** The value stored for a filter in [ResidualsBox.photometry]: a
    (wavelength, residual) pair or a 2 x N array of such columns. *)
Inductive res_value : Type :=
| ROne (wavelength residual : f64)
| RMany (columns : list (f64 * f64)).

Inductive box : Type :=
| SpectrumBox (d : spectrum_data)
| ModelBox (d : spectrum_data) (model : string)
    (parameters : list (string * f64))
| BoxList (items : list model_item)
| PhotometryBox (wavelength : list f64) (filter_name : list string)
    (flux : list (f64 * option f64))
| ObjectBox (spectrum : option (list (string * list (f64 * f64 * f64))))
    (flux : option (list (string * phot_value)))
| SynphotBox (flux : list (string * f64))
| OtherBox.

Record residuals_box : Type := mk_residuals {
  res_photometry : option (list (string * res_value));
  res_spectrum : option (list (string * list (f64 * f64)))
}.

Record args : Type := mk_args {
  boxes : list box;
  filters : option (list string);
  residuals : option residuals_box;
  plot_kwargs : option nat;          (* address of the caller's list *)
  envelope : bool;
  xlim : option (f64 * f64);
  ylim : option (f64 * f64);
  ylim_res : option (f64 * f64);
  scale : option (string * string);
  title : option string;
  object_type : string;
  quantity : string;
  output : option string;
  leg_param : option (list string);
  param_fmt : option (list (string * string));
  inc_model_name : bool
}.

(** The defaults of the signature. *)
Definition default_args (bs : list box) : args :=
  mk_args bs None None None false None None None None None "planet"
    "flux density" None None None false.

(** ** Collaborators *)

Class Collab : Type := {
  (* ReadFilter(name).mean_wavelength() *)
  mean_wavelength : string -> f64;
  (* ReadFilter(name).filter_fwhm() *)
  filter_fwhm : string -> f64;
  (* ReadFilter(name).get_filter(): rows of (wavelength, transmission) *)
  get_filter : string -> list (f64 * f64);
  (* species.util.plot_util.create_model_label *)
  create_model_label :
    list (string * f64) -> string -> string -> bool -> list string ->
    list (string * string) -> option string;
  (* np.percentile(a, q, axis=0) for one percentage q *)
  percentile : list (list f64) -> Q -> list f64;
  (* the colour the property cycle of an axes hands out after the draw
     calls made so far *)
  next_color : list draw -> string;
  (* math.floor(math.log10(x)) for a float x > 0, as the log10 of the
     platform rounds it *)
  log10_floor : Q -> Z
}.

(** ** Small numeric helpers *)

Definition is_quantity (q : string) (a : args) : bool :=
  String.eqb (quantity a) q.

(** [str(n)] for a Python int. *)
Definition str_of_Z (z : Z) : string := NilZero.string_of_int (Z.to_int z).

(** The letter mu, in UTF-8. *)
Definition mu : string :=
  String (ascii_of_nat 206) (String (ascii_of_nat 188) EmptyString).

(** [math.floor(math.log10(x))]: log10 raises ValueError outside its
    domain, log10 of NaN is NaN and floor of NaN raises ValueError, floor of
    infinity raises OverflowError. *)
Definition floor_log10 `{C : Collab} (x : f64) : outcome Z :=
  match x with
  | NaN => Raise (ValueError MathDomain)
  | PInf => Raise OverflowError
  | NInf => Raise (ValueError MathDomain)
  | Fin q =>
      if Qle_bool q 0 then Raise (ValueError MathDomain)
      else Ok (log10_floor q)
  end.

(** [math.ceil(x)] *)
Definition math_ceil (x : f64) : outcome Z :=
  match x with
  | NaN => Raise (ValueError MathDomain)
  | PInf | NInf => Raise OverflowError
  | Fin q => Ok (Qceiling q)
  end.

Definition lift {A} (o : outcome A) : M A :=
  match o with
  | Ok a => ret a
  | Raise e => raise e
  end.

(** [np.max(l)] over values none of which is NaN; [None] for an empty
    array. *)
Definition np_max (l : list f64) : option f64 :=
  match l with
  | [] => None
  | x :: l' => Some (fold_left (fun m y => if F64.ltb m y then y else m) l' x)
  end.

(** [np.nanmax(l)]: NaN entries are ignored; an array of NaNs gives NaN
    (with a warning), an empty array raises ValueError. *)
Definition np_nanmax (l : list f64) : outcome f64 :=
  match l with
  | [] => Raise (ValueError EmptyReduction)
  | _ =>
      match np_max (List.filter (fun x => negb (isnan x)) l) with
      | Some m => Ok m
      | None => Ok NaN
      end
  end.

(** numpy broadcasting of two one-dimensional operands. *)
Definition broadcast2 {A B C} (f : A -> B -> C) (a : list A) (b : list B)
  : outcome (list C) :=
  if Nat.eqb (length a) (length b) then Ok (zip_with f a b)
  else match a, b with
       | [x], _ => Ok (map (f x) b)
       | _, [y] => Ok (map (fun x => f x y) a)
       | _, _ => Raise (ValueError Broadcast)
       end.

(** [np.ma.array(data, mask=np.isnan(data))] *)
Definition mask_nan (x : f64) : cell := if isnan x then Masked else Val x.

Definition plain (x : f64) : cell := Val x.

(** Multiplication of masked arrays: an entry is masked when either
    operand is. *)
Definition ma_mul (a b : cell) : cell :=
  match a, b with
  | Val x, Val y => Val (F64.mul x y)
  | _, _ => Masked
  end.

(** Division of a masked array by a scalar ([np.ma.true_divide]): besides
    the masked entries of the operand, numpy masks every entry whose
    quotient is not finite and every entry outside the safe-division domain
    [|a| * tiny >= |b|]. *)
Definition unsafe_divide (a b : f64) : bool :=
  F64.geb (F64.mul (F64.abs a) (Fin F64.tiny)) (F64.abs b).

Definition ma_div (a : cell) (b : f64) : cell :=
  match a with
  | Masked => Masked
  | Val x =>
      let r := F64.div x b in
      if negb (isfinite r) || unsafe_divide x b then Masked else Val r
  end.

(** The multiplier [flux_scaling]: the float 1.0, or the wavelengths of the
    item when the quantity is the flux. *)
Inductive fscale : Type :=
| Unit
| Waves (w : list cell).

(** [flux_scaling * m / scaling] for a masked array [m]. *)
Definition scaled_masked (fs : fscale) (m : list cell) (scaling : f64)
  : outcome (list cell) :=
  match fs with
  | Unit => Ok (map (fun c => ma_div (ma_mul (Val F64.one) c) scaling) m)
  | Waves w =>
      match broadcast2 ma_mul w m with
      | Ok p => Ok (map (fun c => ma_div c scaling) p)
      | Raise e => Raise e
      end
  end.

(** [flux_scaling * a / scaling] for a plain array [a]. *)
Definition scaled_plain (fs : option (list f64)) (a : list f64) (scaling : f64)
  : outcome (list cell) :=
  match fs with
  | None => Ok (map (fun x => Val (F64.div (F64.mul F64.one x) scaling)) a)
  | Some w =>
      match broadcast2 F64.mul w a with
      | Ok p => Ok (map (fun x => Val (F64.div x scaling)) p)
      | Raise e => Raise e
      end
  end.

(** [flux_scaling * x / scaling] for floats. *)
Definition scaled (fs x scaling : f64) : f64 := F64.div (F64.mul fs x) scaling.

(** [np.argsort]: the indices that sort the keys in ascending order, NaN
    last, ties in input order. *)
Definition key_le (x y : f64) : bool :=
  match x, y with
  | _, NaN => true
  | NaN, _ => false
  | _, _ => negb (F64.ltb y x)
  end.

Fixpoint insert_sorted {A} (k : f64) (a : A) (l : list (f64 * A))
  : list (f64 * A) :=
  match l with
  | [] => [(k, a)]
  | (k', a') :: l' =>
      if key_le k' k then (k', a') :: insert_sorted k a l'
      else (k, a) :: (k', a') :: l'
  end.

Definition sort_by_key {A} (l : list (f64 * A)) : list A :=
  map snd (fold_left (fun acc ka => insert_sorted (fst ka) (snd ka) acc) l []).

(** ** The routine *)

Section PlotSpectrum.
Context `{C : Collab}.

Definition num (q : Q) : pyval := VNum (Fin q).

(** The banner: for a list among the boxes the class name of its first
    element is printed. *)
Definition print_boxes (bs : list box) : M unit :=
  for_each bs (fun item =>
    match item with
    | BoxList [] => raise IndexError
    | _ => ret tt
    end).

(** [plot_kwargs] as used by the body: a new empty list when the
    argument is [None], the caller's own list otherwise. *)
Definition init_plot_kwargs (a : args) : M pyval :=
  match plot_kwargs a with
  | None => alloc (OList [])
  | Some addr =>
      n <- len (VRef addr) ;;
      if negb (Nat.eqb (length (boxes a)) n)
      then raise (ValueError (LenMismatch (length (boxes a)) n))
      else ret (VRef addr)
  end.

(** Missing parameter formats are added. *)
Definition add_formats (names : list string) (fmt : string)
    (p : list (string * string)) : list (string * string) :=
  fold_left (fun p n => if dict_mem n p then p else dict_set n fmt p)
    names p.

Definition fill_param_fmt (p : list (string * string))
  : list (string * string) :=
  let p := add_formats ["teff"; "disk_teff"; "disk_radius"] ".0f" p in
  let p := add_formats
             ["radius"; "logg"; "feh"; "metallicity"; "fsed"; "distance";
              "parallax"; "mass"; "ism_ext"; "lognorm_ext"; "powerlaw_ext";
              "log_flux_scaling"] ".1f" p in
  let p := add_formats ["co"; "c_o_ratio"; "ad_index"; "luminosity"] ".2f" p in
  add_formats ["flux_scaling"; "flux_offset"] ".2e" p.

Definition is_some {A} (o : option A) : bool :=
  match o with Some _ => true | None => false end.

(** The grid of one, two or three stacked panels. *)
Definition make_figure (a : args) : M unit :=
  match residuals a, filters a with
  | Some _, Some _ =>
      put_fig (mk_figure [1; 3; 1]%nat new_axes (Some new_axes) (Some new_axes))
  | Some _, None =>
      put_fig (mk_figure [4; 1]%nat new_axes None (Some new_axes))
  | None, Some _ =>
      put_fig (mk_figure [1; 4]%nat new_axes (Some new_axes) None)
  | None, None =>
      put_fig (mk_figure [1]%nat new_axes None None)
  end.

Definition the_scale (a : args) : string * string :=
  match scale a with
  | None => ("linear", "linear")
  | Some s => s
  end.

Definition set_scales (a : args) : M unit :=
  on_axes Main (set_xscale (fst (the_scale a))) ;;
  on_axes Main (set_yscale (snd (the_scale a))) ;;
  when (is_some (filters a))
    (on_axes Filters (set_xscale (fst (the_scale a)))) ;;
  when (is_some (residuals a))
    (on_axes Resid (set_xscale (fst (the_scale a)))).

Definition wavelength_label : string := "Wavelength (" +:+ mu +:+ "m)".

Definition set_xlabels (a : args) : M unit :=
  match residuals a, filters a with
  | Some _, Some _ =>
      on_axes Main (set_xlabel "") ;;
      on_axes Filters (set_xlabel "") ;;
      on_axes Resid (set_xlabel wavelength_label)
  | Some _, None =>
      on_axes Main (set_xlabel "") ;;
      on_axes Resid (set_xlabel wavelength_label)
  | None, Some _ =>
      on_axes Main (set_xlabel wavelength_label) ;;
      on_axes Filters (set_xlabel "")
  | None, None =>
      on_axes Main (set_xlabel wavelength_label)
  end.

Definition set_panel_ylabels (a : args) : M unit :=
  when (is_some (filters a)) (on_axes Filters (set_ylabel "$T_\lambda$")) ;;
  when (is_some (residuals a))
    (if is_quantity "flux density" a
     then on_axes Resid (set_ylabel "$\Delta$$F_\lambda$ ($\sigma$)")
     else if is_quantity "flux" a
     then on_axes Resid (set_ylabel "$\Delta$$F_\lambda$ ($\sigma$)")
     else ret tt).

Definition set_main_xlim (a : args) : M unit :=
  match xlim a with
  | None => on_axes Main (set_xlim (Fin (1 # 2)) (Fin (5 # 1)))
  | Some (lo, hi) => on_axes Main (set_xlim lo hi)
  end.

(** [ax.get_ylim()] and [ax.get_xlim()]: the limits set last; the
    backend starts from (0, 1). *)
Definition get_ylim (p : panel) : M (f64 * f64) :=
  read_axes p (fun ax =>
    match a_ylim ax with Some l => l | None => (F64.zero, F64.one) end).

Definition get_xlim (p : panel) : M (f64 * f64) :=
  read_axes p (fun ax =>
    match a_xlim ax with Some l => l | None => (F64.zero, F64.one) end).

Definition zero_line : draw :=
  Axhline F64.zero
    [("ls", VStr "--"); ("lw", num (7 # 10)); ("color", VStr "gray");
     ("dashes", VPair (Fin 2) (Fin 4)); ("zorder", num (1 # 2))].

Definition five_line (y : f64) : draw :=
  Axhline y
    [("ls", VStr ":"); ("lw", num (7 # 10)); ("color", VStr "gray");
     ("dashes", VPair (Fin 1) (Fin 4)); ("zorder", num (1 # 2))].

(** The label of the flux axis; [exponent] is [None] when no power of
    ten is factored out. *)
Definition density_label (exponent : option Z) : string :=
  match exponent with
  | None => "$F_\lambda$ (W m$^{-2}$ " +:+ mu +:+ "m$^{-1}$)"
  | Some e =>
      "$F_\lambda$ (10$^{" +:+ str_of_Z e +:+ "}$" +:+ " W m$^{-2}$ "
      +:+ mu +:+ "m$^{-1}$)"
  end.

Definition lambda_label (exponent : option Z) : string :=
  match exponent with
  | None => "$\lambda$$F_\lambda$ (W m$^{-2}$)"
  | Some e => "$\lambda$$F_\lambda$ (10$^{" +:+ str_of_Z e +:+ "}$ W m$^{-2}$)"
  end.

(** For another quantity than the two fluxes the variable [ylabel] is
    never bound. *)
Definition flux_ylabel (a : args) (exponent : option Z) : M string :=
  if is_quantity "flux density" a then ret (density_label exponent)
  else if is_quantity "flux" a then ret (lambda_label exponent)
  else raise UnboundLocalError.

(** The exponent and the scaling factor for an explicit y-limit. *)
Definition exponent_and_scaling (a : args) (upper : f64)
  : M (option Z * f64) :=
  if String.eqb (snd (the_scale a)) "linear" then
    e <- lift (floor_log10 upper) ;;
    ret (Some e, pow10 e)
  else ret (None, F64.one).

(** The y-axis of the main panel; the result is [scaling]. *)
Definition set_main_yaxis (a : args) : M f64 :=
  if is_quantity "magnitude" a then
    on_axes Main (set_ylabel "Contrast (mag)") ;;
    match ylim a with
    | Some (lo, hi) => on_axes Main (set_ylim lo hi)
    | None => ret tt
    end ;;
    ret F64.one
  else
    match ylim a with
    | Some (lo0, hi0) =>
        on_axes Main (set_ylim lo0 hi0) ;;
        yl <- get_ylim Main ;;
        es <- exponent_and_scaling a (snd yl) ;;
        ylabel <- flux_ylabel a (fst es) ;;
        on_axes Main (set_ylabel ylabel) ;;
        on_axes Main
          (set_ylim (F64.div (fst yl) (snd es)) (F64.div (snd yl) (snd es))) ;;
        when (F64.ltb (fst yl) F64.zero) (on_axes Main (add_draw zero_line)) ;;
        ret (snd es)
    | None =>
        (if is_quantity "flux density" a then
           on_axes Main
             (set_ylabel ("$F_\lambda$" +:+ " (W m$^{-2}$ " +:+ mu +:+ "m$^{-1}$)"))
         else if is_quantity "flux" a then
           on_axes Main (set_ylabel "$\lambda$$F_\lambda$ (W m$^{-2}$)")
         else ret tt) ;;
        ret F64.one
    end.

(** The other panels take over the x-range of the main panel. *)
Definition share_xlim (a : args) : M unit :=
  xl <- get_xlim Main ;;
  when (is_some (filters a))
    (on_axes Filters (set_xlim (fst xl) (snd xl)) ;;
     on_axes Filters (set_ylim F64.zero F64.one)) ;;
  when (is_some (residuals a)) (on_axes Resid (set_xlim (fst xl) (snd xl))).

(** *** Items of the main panel *)

(** A default that is written only when the key is missing. *)
Definition setdefault (k : string) (v : pyval) (d : pydict) : pydict :=
  if dict_mem k d then d else dict_set k v d.

(** [if k not in target: target[k] = v], on an object of the store. *)
Definition default_in_place (target : pyval) (k : string) (v : pyval)
  : M unit :=
  present <- contains k target ;;
  if present then ret tt else setitem target k v.

Definition model_label (a : args) (model : option (string * list (string * f64)))
  : pyval :=
  match model with
  | Some (name, parameters) =>
      match create_model_label parameters (object_type a) name
              (inc_model_name a)
              (match leg_param a with Some l => l | None => [] end)
              (fill_param_fmt
                 (match param_fmt a with Some p => p | None => [] end)) with
      | Some s => VStr s
      | None => VNone
      end
  | None => VNone
  end.

Definition waves_if_flux (a : args) (w : list cell) : fscale :=
  if is_quantity "flux" a then Waves w else Unit.

(** A [SpectrumBox] or a [ModelBox]; [model] carries the name and the
    parameters of a [ModelBox]. *)
Definition draw_spectrum (a : args) (pk : pyval) (scaling : f64) (j : nat)
    (d : spectrum_data) (model : option (string * list (string * f64)))
  : M unit :=
  match d with
  | Spec1D [] _ => raise IndexError
  | Spec1D wavelength flux =>
      let masked := map mask_nan flux in
      let label := model_label a model in
      kj <- getindex pk j ;;
      given <- truthy kj ;;
      if given then
        kwargs_copy <- copy kj ;;
        let label :=
          match dict_get "label" kwargs_copy with
          | Some v => v
          | None => label
          end in
        let kwargs_copy :=
          if dict_mem "label" kwargs_copy then dict_del "label" kwargs_copy
          else kwargs_copy in
        let flux_scaling := waves_if_flux a (map plain wavelength) in
        let kwargs_copy := setdefault "zorder" (num 2) kwargs_copy in
        y <- lift (scaled_masked flux_scaling masked scaling) ;;
        kw <- keywords [] [("label", label)] kwargs_copy ;;
        on_axes Main (add_draw (Plot (map plain wavelength) y None kw))
      else
        let flux_scaling := waves_if_flux a (map plain wavelength) in
        y <- lift (scaled_masked flux_scaling masked scaling) ;;
        on_axes Main
          (add_draw (Plot (map plain wavelength) y None
                       [("lw", num (1 # 2)); ("label", label);
                        ("zorder", num 2)]))
  | Spec2D [] _ _ => raise IndexError
  | Spec2D wavelength flux name =>
      for_each (enumerate wavelength) (fun ix =>
        match flux !! fst ix with
        | None => raise IndexError
        | Some row =>
            let masked := map mask_nan row in
            match name !! fst ix with
            | None => raise IndexError
            | Some label =>
                let flux_scaling := waves_if_flux a (map plain (snd ix)) in
                y <- lift (scaled_masked flux_scaling masked scaling) ;;
                on_axes Main
                  (add_draw (Plot (map plain (snd ix)) y None
                               [("lw", num (1 # 2)); ("label", VStr label)]))
            end
        end)
  end.

(** [spec_list[i] = flux], a row of [size] entries. *)
Definition assign_row (size : nat) (flux : list f64) : outcome (list f64) :=
  if Nat.eqb (length flux) size then Ok flux
  else match flux with
       | [x] => Ok (replicate size x)
       | _ => Raise (ValueError Broadcast)
       end.

Definition flux_if_flux (a : args) (w : list f64) : option (list f64) :=
  if is_quantity "flux" a then Some w else None.

(** One of the two shaded bands of an envelope:
    [fill_between(x=, y1=, y2=, explicit..., **d)]. *)
Definition fill_band (a : args) (scaling : f64) (wavelength : list f64)
    (rows : list (list f64)) (p_lo p_hi : Q) (explicit d : pydict)
  : M unit :=
  y1 <- lift (scaled_plain (flux_if_flux a wavelength)
                (percentile rows p_lo) scaling) ;;
  y2 <- lift (scaled_plain (flux_if_flux a wavelength)
                (percentile rows p_hi) scaling) ;;
  kw <- keywords ["x"; "y1"; "y2"] explicit d ;;
  on_axes Main (add_draw (FillBetween (map plain wavelength) y1 y2 kw)).

(** A Python list of [ModelBox] samples. *)
Definition draw_box_list (a : args) (pk : pyval) (scaling : f64) (j : nat)
    (box_item : list model_item) : M unit :=
  size <- (if envelope a then
             match box_item with
             | [] => raise IndexError
             | first :: _ => ret (length (mi_flux first))
             end
           else ret 0%nat) ;;
  rows <- for_fold box_item [] (fun rows item =>
    let wavelength := mi_wavelength item in
    let flux := mi_flux item in
    let masked := map mask_nan flux in
    let flux_scaling := waves_if_flux a (map plain wavelength) in
    if envelope a then
      row <- lift (assign_row size flux) ;;
      ret (rows ++ [row])
    else
      kj <- getindex pk j ;;
      given <- truthy kj ;;
      (if given then
         default_in_place kj "zorder" (num 1) ;;
         y <- lift (scaled_masked flux_scaling masked scaling) ;;
         d <- star kj ;;
         kw <- keywords [] [] d ;;
         on_axes Main (add_draw (Plot (map plain wavelength) y None kw))
       else
         y <- lift (scaled_masked flux_scaling masked scaling) ;;
         on_axes Main
           (add_draw (Plot (map plain wavelength) y None
                        [("color", VStr "gray"); ("lw", num (1 # 5));
                         ("alpha", num (1 # 2)); ("zorder", num 1)]))) ;;
      ret rows) ;;
  if envelope a then
    let wavelength :=
      match last box_item with
      | Some item => mi_wavelength item
      | None => []
      end in
    kj <- getindex pk j ;;
    given <- truthy kj ;;
    if given then
      default_in_place kj "zorder" (num 1) ;;
      has_alpha <- contains "alpha" kj ;;
      when has_alpha (delitem kj "alpha") ;;
      d <- star kj ;;
      fill_band a scaling wavelength rows (3 # 10) (997 # 10)
        [("alpha", num (2 # 5))] d ;;
      d <- star kj ;;
      fill_band a scaling wavelength rows 16 84 [("alpha", num 1)] d
    else
      fill_band a scaling wavelength rows (3 # 10) (997 # 10)
        [("color", VStr "peachpuff"); ("alpha", num (2 # 5));
         ("zorder", num 1); ("linewidth", num 0)] [] ;;
      fill_band a scaling wavelength rows 16 84
        [("color", VStr "peachpuff"); ("alpha", num 1);
         ("zorder", num 1); ("linewidth", num 0)] []
  else ret tt.

Definition half (x : f64) : f64 := F64.div x (Fin 2).

(** A [PhotometryBox]: one error bar per point. *)
Definition draw_photometry (a : args) (pk : pyval) (scaling : f64) (j : nat)
    (wavelength : list f64) (filter_name : list string)
    (flux : list (f64 * option f64)) : M unit :=
  for_fold (enumerate wavelength) [] (fun label_check ix =>
    let item := snd ix in
    match filter_name !! fst ix with
    | None => raise IndexError
    | Some fname =>
        let fwhm := filter_fwhm fname in
        let flux_scaling := if is_quantity "flux" a then item else F64.one in
        kj <- getindex pk j ;;
        given <- truthy kj ;;
        if given then
          has_label <- contains "label" kj ;;
          label_check <-
            (if has_label then
               label <- getitem kj "label" ;;
               if negb (py_in label label_check)
               then ret (label_check ++ [label])
               else delitem kj "label" ;; ret label_check
             else ret label_check) ;;
          match flux !! fst ix with
          | None => raise IndexError
          | Some (value, error) =>
              default_in_place kj "zorder" (num 3) ;;
              d <- star kj ;;
              kw <- keywords ["xerr"; "yerr"] [] d ;;
              on_axes Main
                (add_draw
                   (Errorbar [Val item]
                      [Val (scaled flux_scaling value scaling)]
                      (Some (half fwhm))
                      (option_map
                         (fun e => [Val (scaled flux_scaling e scaling)])
                         error)
                      kw)) ;;
              ret label_check
          end
        else
          match flux !! fst ix with
          | None => raise IndexError
          | Some (value, error) =>
              on_axes Main
                (add_draw
                   (Errorbar [Val item]
                      [Val (scaled flux_scaling value scaling)]
                      (Some (half fwhm))
                      (option_map
                         (fun e => [Val (scaled flux_scaling e scaling)])
                         error)
                      [("marker", VStr "s"); ("ms", num 6);
                       ("color", VStr "black"); ("zorder", num 3)])) ;;
              ret label_check
          end
    end) ;;
  ret tt.

(** The colour reported by [get_color()] for the line a call creates: the
    [color] keyword when there is one, else the next colour of the
    cycle. *)
Definition line_color (kw : pydict) (before : list draw) : pyval :=
  match dict_get "color" kw with
  | Some c => c
  | None => VStr (next_color before)
  end.

Definition cycle_color : M pyval :=
  read_axes Main (fun ax => VStr (next_color (a_draws ax))).

(** [not plot_kwargs[j] or key not in plot_kwargs[j]] *)
Definition no_style_for (pk : pyval) (j : nat) (key : string) : M bool :=
  kj <- getindex pk j ;;
  given <- truthy kj ;;
  if given then
    present <- contains key kj ;;
    ret (negb present)
  else ret true.

(** The keys of a dictionary, ordered by a wavelength attached to each. *)
Definition sorted_keys (keyed : list (f64 * string)) : list string :=
  sort_by_key keyed.

(** The spectra of an [ObjectBox].  [plot_obj] is the colour of the
    object bound to the variable of that name, if any. *)
Definition draw_object_spectra (a : args) (pk : pyval) (scaling : f64)
    (j : nat) (spectrum : list (string * list (f64 * f64 * f64)))
    (plot_obj : option pyval) : M (option pyval) :=
  keyed <- for_fold spectrum [] (fun acc entry =>
    match snd entry with
    | [] => raise IndexError
    | (w, _, _) :: _ => ret (acc ++ [(w, fst entry)])
    end) ;;
  for_fold (sorted_keys keyed) plot_obj (fun plot_obj key =>
    match dict_get key spectrum with
    | None => raise KeyError
    | Some rows =>
        let col0 := map (fun r => mask_nan (fst (fst r))) rows in
        let col1 := map (fun r => mask_nan (snd (fst r))) rows in
        let col2 := map (fun r => mask_nan (snd r)) rows in
        let flux_scaling := waves_if_flux a col0 in
        absent <- no_style_for pk j key ;;
        if absent then
          y <- lift (scaled_masked flux_scaling col1 scaling) ;;
          yerr <- lift (scaled_masked flux_scaling col2 scaling) ;;
          color <- cycle_color ;;
          on_axes Main
            (add_draw
               (Errorbar col0 y None (Some yerr)
                  [("ms", num 2); ("marker", VStr "s");
                   ("zorder", num (5 # 2)); ("ls", VStr "none")])) ;;
          kj <- getindex pk j ;;
          match kj with
          | VNone => d <- alloc (ODict []) ;; setindex pk j d
          | _ => ret tt
          end ;;
          kj <- getindex pk j ;;
          style <- alloc (ODict [("marker", VStr "s"); ("ms", num 2);
                                 ("ls", VStr "none"); ("color", color)]) ;;
          setitem kj key style ;;
          ret (Some color)
        else
          kj <- getindex pk j ;;
          style <- getitem kj key ;;
          has_marker <- contains "marker" style ;;
          if negb has_marker then
            y <- lift (scaled_masked flux_scaling col1 scaling) ;;
            d <- star style ;;
            kw <- keywords [] [] d ;;
            color <- read_axes Main (fun ax => line_color d (a_draws ax)) ;;
            on_axes Main (add_draw (Plot col0 y None kw)) ;;
            ret (Some color)
          else
            default_in_place style "zorder" (num (5 # 2)) ;;
            y <- lift (scaled_masked flux_scaling col1 scaling) ;;
            yerr <- lift (scaled_masked flux_scaling col2 scaling) ;;
            d <- star style ;;
            kw <- keywords ["yerr"] [] d ;;
            on_axes Main (add_draw (Errorbar col0 y None (Some yerr) kw)) ;;
            ret plot_obj
    end).

(** An error bar of one photometric point of the main panel. *)
Definition point (x y : f64) (fwhm : f64) (yerr : option f64) (kw : pydict)
  : draw :=
  Errorbar [Val x] [Val y] (Some (half fwhm))
    (option_map (fun e => [Val e]) yerr) kw.

(** One filter of the photometry of an [ObjectBox]. *)
Definition draw_object_filter (a : args) (pk : pyval) (scaling : f64)
    (j : nat) (flux : list (string * phot_value))
    (plot_obj : option pyval) (item : string) : M (option pyval) :=
    match dict_get item flux with
    | None => raise KeyError
    | Some value =>
        let wavelength := mean_wavelength item in
        let fwhm := filter_fwhm item in
        let flux_scaling :=
          if is_quantity "flux" a then wavelength else F64.one in
        absent <- no_style_for pk j item ;;
        if absent then
          kj <- getindex pk j ;;
          given <- truthy kj ;;
          (if given then ret tt
           else d <- alloc (ODict []) ;; setindex pk j d) ;;
          let scale_tmp := F64.div flux_scaling scaling in
          let style :=
            [("marker", VStr "s"); ("ms", num 5); ("zorder", num 3);
             ("color", VStr "black")] in
          plot_obj <-
            match value with
            | Many columns =>
                for_fold columns plot_obj (fun _ col =>
                  on_axes Main
                    (add_draw
                       (point wavelength (F64.mul scale_tmp (fst col)) fwhm
                          (Some (F64.mul scale_tmp (snd col))) style)) ;;
                  ret (Some (VStr "black")))
            | One value error =>
                on_axes Main
                  (add_draw
                     (point wavelength (F64.mul scale_tmp value) fwhm
                        (Some (F64.mul scale_tmp error)) style)) ;;
                ret (Some (VStr "black"))
            end ;;
          match plot_obj with
          | None => raise UnboundLocalError
          | Some color =>
              kj <- getindex pk j ;;
              style <- alloc (ODict [("marker", VStr "s"); ("ms", num 5);
                                     ("color", color)]) ;;
              setitem kj item style ;;
              ret plot_obj
          end
        else
          kj <- getindex pk j ;;
          match value with
          | Many columns =>
              style <- getitem kj item ;;
              is_list <- isinstance_list style ;;
              if negb is_list
              then raise (ValueError (ListRequired item (length columns)))
              else
                for_each (enumerate columns) (fun ic =>
                  style <- getitem kj item ;;
                  style_i <- getindex style (fst ic) ;;
                  default_in_place style_i "zorder" (num 3) ;;
                  d <- star style_i ;;
                  kw <- keywords ["xerr"; "yerr"] [] d ;;
                  on_axes Main
                    (add_draw
                       (point wavelength
                          (scaled flux_scaling (fst (snd ic)) scaling) fwhm
                          (Some (scaled flux_scaling (snd (snd ic)) scaling))
                          kw))) ;;
                ret plot_obj
          | One value error =>
              style <- getitem kj item ;;
              default_in_place style "zorder" (num 3) ;;
              d <- star style ;;
              (if F64.eqb error F64.zero then
                 kw <- keywords ["xerr"; "yerr"]
                         [("uplims", VBool true); ("capsize", num 2);
                          ("capthick", num 0)] d ;;
                 on_axes Main
                   (add_draw
                      (point wavelength (scaled flux_scaling value scaling)
                         fwhm
                         (Some (F64.div
                                  (F64.mul
                                     (F64.mul (Fin (1 # 2)) flux_scaling)
                                     value) scaling))
                         kw))
               else
                 kw <- keywords ["xerr"; "yerr"] [] d ;;
                 on_axes Main
                   (add_draw
                      (point wavelength (scaled flux_scaling value scaling)
                         fwhm (Some (scaled flux_scaling error scaling))
                         kw))) ;;
              ret plot_obj
          end
    end.

(** The photometry of an [ObjectBox], by ascending mean wavelength of
    the filters. *)
Definition draw_object_photometry (a : args) (pk : pyval) (scaling : f64)
    (j : nat) (flux : list (string * phot_value))
    (plot_obj : option pyval) : M (option pyval) :=
  let keyed :=
    map (fun entry => (mean_wavelength (fst entry), fst entry)) flux in
  for_fold (sorted_keys keyed) plot_obj
    (draw_object_filter a pk scaling j flux).

Definition is_object_box (b : box) : bool :=
  match b with ObjectBox _ _ => true | _ => false end.

(** The index of the first [ObjectBox] among the boxes. *)
Fixpoint find_object_from (i : nat) (bs : list box) : option nat :=
  match bs with
  | [] => None
  | b :: bs' => if is_object_box b then Some i else find_object_from (S i) bs'
  end.

Definition find_object (bs : list box) : option nat := find_object_from 0 bs.

(** The style a synthetic point borrows from the [ObjectBox]: the entry
    of the same filter, or the first entry when that is a list. *)
Definition borrowed_style (style : pyval) : M pydict :=
  is_list <- isinstance_list style ;;
  if is_list then
    first <- getindex style 0 ;;
    kwargs_copy <- copy first ;;
    let kwargs_copy :=
      if dict_mem "label" kwargs_copy then dict_del "label" kwargs_copy
      else kwargs_copy in
    ret (setdefault "zorder" (num 4) kwargs_copy)
  else
    kwargs_copy <- copy style ;;
    let kwargs_copy :=
      if dict_mem "label" kwargs_copy then dict_del "label" kwargs_copy
      else kwargs_copy in
    let kwargs_copy :=
      if dict_mem "mfc" kwargs_copy then dict_del "mfc" kwargs_copy
      else kwargs_copy in
    ret (setdefault "zorder" (num 4) kwargs_copy).

(** A [SynphotBox]: one open marker per filter. *)
Definition draw_synphot (a : args) (pk : pyval) (scaling : f64) (j : nat)
    (flux : list (string * f64)) : M unit :=
  let obj_index := find_object (boxes a) in
  for_each flux (fun entry =>
    let item := fst entry in
    let wavelength := mean_wavelength item in
    let fwhm := filter_fwhm item in
    let flux_scaling :=
      if is_quantity "flux" a then wavelength else F64.one in
    let y := scaled flux_scaling (snd entry) scaling in
    kj <- getindex pk j ;;
    own <- match kj with
           | VNone => ret false
           | _ => contains item kj
           end ;;
    if own then
      style <- getitem kj item ;;
      kwargs_copy <- copy style ;;
      let kwargs_copy := setdefault "zorder" (num 4) kwargs_copy in
      kw <- keywords ["xerr"; "yerr"] [] kwargs_copy ;;
      on_axes Main (add_draw (point wavelength y fwhm None kw))
    else
      absent <- match obj_index with
                | None => ret true
                | Some oi => no_style_for pk oi item
                end ;;
      if absent then
        on_axes Main
          (add_draw
             (point wavelength y fwhm None
                [("alpha", num (7 # 10)); ("marker", VStr "s");
                 ("ms", num 5); ("zorder", num 4); ("mfc", VStr "white")]))
      else
        match obj_index with
        | None => raise UnboundLocalError
        | Some oi =>
            ko <- getindex pk oi ;;
            style <- getitem ko item ;;
            kwargs_copy <- borrowed_style style ;;
            kw <- keywords ["xerr"; "yerr"] [("mfc", VStr "white")]
                    kwargs_copy ;;
            on_axes Main (add_draw (point wavelength y fwhm None kw))
        end).

(** One round of the loop over the boxes. *)
Definition draw_box (a : args) (pk : pyval) (scaling : f64)
    (plot_obj : option pyval) (jb : nat * box) : M (option pyval) :=
  let j := fst jb in
  when (Nat.ltb j (length (boxes a))) (append pk VNone) ;;
  match snd jb with
  | SpectrumBox d => draw_spectrum a pk scaling j d None ;; ret plot_obj
  | ModelBox d model parameters =>
      draw_spectrum a pk scaling j d (Some (model, parameters)) ;;
      ret plot_obj
  | BoxList items => draw_box_list a pk scaling j items ;; ret plot_obj
  | PhotometryBox wavelength filter_name flux =>
      draw_photometry a pk scaling j wavelength filter_name flux ;;
      ret plot_obj
  | ObjectBox spectrum flux =>
      plot_obj <- match spectrum with
                  | Some sp => draw_object_spectra a pk scaling j sp plot_obj
                  | None => ret plot_obj
                  end ;;
      match flux with
      | Some fl => draw_object_photometry a pk scaling j fl plot_obj
      | None => ret plot_obj
      end
  | SynphotBox flux => draw_synphot a pk scaling j flux ;; ret plot_obj
  | OtherBox => ret plot_obj
  end.

Definition draw_boxes (a : args) (pk : pyval) (scaling : f64) : M unit :=
  for_fold (enumerate (boxes a)) None (draw_box a pk scaling) ;;
  ret tt.

(** *** The filter panel *)

Definition draw_filters (a : args) : M unit :=
  match filters a with
  | None => ret tt
  | Some names =>
      for_each names (fun item =>
        let data := get_filter item in
        on_axes Filters
          (add_draw
             (Plot (map (fun r => Val (fst r)) data)
                (map (fun r => Val (snd r)) data) (Some "-")
                [("lw", num (7 # 10)); ("color", VStr "tab:gray");
                 ("zorder", num 1)])))
  end.

(** *** The residual panel *)

(** The residuals stored for one filter. *)
Definition residual_values (v : res_value) : list f64 :=
  match v with
  | ROne _ r => [r]
  | RMany columns => map snd columns
  end.

Definition residual_waves (v : res_value) : list f64 :=
  match v with
  | ROne w _ => [w]
  | RMany columns => map fst columns
  end.

(** [np.max(np.abs(values[np.isfinite(values)]))] *)
Definition max_abs_finite (values : list f64) : outcome f64 :=
  match np_max (map F64.abs (List.filter isfinite values)) with
  | Some m => Ok m
  | None => Raise (ValueError EmptyReduction)
  end.

(** [if max_tmp > res_max: res_max = max_tmp] *)
Definition update_max (res_max max_tmp : f64) : f64 :=
  if F64.gtb max_tmp res_max then max_tmp else res_max.

Definition draw_residual_photometry (pk : pyval) (obj_index : nat)
    (photometry : list (string * res_value)) (res_max : f64) : M f64 :=
  for_fold photometry res_max (fun res_max entry =>
    let item := fst entry in
    absent <- no_style_for pk obj_index item ;;
    (if absent then
       on_axes Resid
         (add_draw
            (Plot (map plain (residual_waves (snd entry)))
               (map plain (residual_values (snd entry))) None
               [("marker", VStr "s"); ("ms", num 5);
                ("linestyle", VStr "none"); ("zorder", num 2)]))
     else
       ko <- getindex pk obj_index ;;
       match snd entry with
       | ROne w r =>
           style <- getitem ko item ;;
           default_in_place style "zorder" (num 2) ;;
           d <- star style ;;
           kw <- keywords [] [] d ;;
           on_axes Resid (add_draw (Errorbar [Val w] [Val r] None None kw))
       | RMany columns =>
           for_each (enumerate columns) (fun ic =>
             style <- getitem ko item ;;
             is_list <- isinstance_list style ;;
             target <- (if is_list then getindex style (fst ic)
                        else ret style) ;;
             default_in_place target "zorder" (num 2) ;;
             d <- star target ;;
             kw <- keywords [] [] d ;;
             on_axes Resid
               (add_draw
                  (Errorbar [Val (fst (snd ic))] [Val (snd (snd ic))]
                     None None kw)))
       end) ;;
    max_tmp <- lift (max_abs_finite (residual_values (snd entry))) ;;
    ret (update_max res_max max_tmp)).

Definition draw_residual_spectra (pk : pyval) (obj_index : nat)
    (spectrum : list (string * list (f64 * f64))) (res_max : f64) : M f64 :=
  for_fold spectrum res_max (fun res_max entry =>
    let key := fst entry in
    let value := snd entry in
    absent <- no_style_for pk obj_index key ;;
    (if absent then
       on_axes Resid
         (add_draw
            (Errorbar (map (fun r => Val (fst r)) value)
               (map (fun r => Val (snd r)) value) None None
               [("marker", VStr "o"); ("ms", num 2); ("ls", VStr "none");
                ("zorder", num 1)]))
     else
       ko <- getindex pk obj_index ;;
       style <- getitem ko key ;;
       default_in_place style "zorder" (num 1) ;;
       d <- star style ;;
       kw <- keywords [] [] d ;;
       on_axes Resid
         (add_draw
            (Errorbar (map (fun r => Val (fst r)) value)
               (map (fun r => Val (snd r)) value) None None kw))) ;;
    max_tmp <- lift (np_nanmax (map (fun r => F64.abs (snd r)) value)) ;;
    ret (update_max res_max max_tmp)).

(** [res_lim = math.ceil(1.1 * res_max)], reset to 5 above 10. *)
Definition residual_limit (res_max : f64) : outcome f64 :=
  match math_ceil (F64.mul (Fin (11 # 10)) res_max) with
  | Ok res_lim =>
      if (10 <? res_lim)%Z then Ok (Fin 5) else Ok (F64.of_Z res_lim)
  | Raise e => Raise e
  end.

(** Whether the dotted lines at -5 and +5 are drawn. *)
Definition wants_five_lines (res_lim : f64) (ylim_res : option (f64 * f64))
  : bool :=
  F64.gtb res_lim (Fin 5)
  || match ylim_res with
     | Some (lo, hi) => F64.ltb lo (Fin (-5)) && F64.gtb hi (Fin 5)
     | None => false
     end.

Definition draw_residuals (a : args) (pk : pyval) (r : residuals_box)
  : M unit :=
  match find_object (boxes a) with
  | None => raise (ValueError NoObjectBox)
  | Some obj_index =>
      res_max <- match res_photometry r with
                 | Some photometry =>
                     draw_residual_photometry pk obj_index photometry F64.zero
                 | None => ret F64.zero
                 end ;;
      res_max <- match res_spectrum r with
                 | Some spectrum =>
                     draw_residual_spectra pk obj_index spectrum res_max
                 | None => ret res_max
                 end ;;
      res_lim <- lift (residual_limit res_max) ;;
      on_axes Resid (add_draw zero_line) ;;
      when (wants_five_lines res_lim (ylim_res a))
        (on_axes Resid (add_draw (five_line (Fin (-5)))) ;;
         on_axes Resid (add_draw (five_line (Fin 5)))) ;;
      match ylim_res a with
      | None => on_axes Resid (set_ylim (F64.neg res_lim) res_lim)
      | Some (lo, hi) => on_axes Resid (set_ylim lo hi)
      end
  end.

(** *** The end of the routine *)

Definition finish (a : args) : M unit :=
  when (is_some (filters a))
    (on_axes Filters (set_ylim F64.zero (Fin (11 # 10)))) ;;
  match title a with
  | None => ret tt
  | Some t =>
      match filters a with
      | Some (_ :: _) => on_axes Filters (set_title t)
      | _ => on_axes Main (set_title t)
      end
  end ;;
  match output a with
  | None => put_out Shown
  | Some path => put_out (Saved path)
  end.

(** The start of the routine: the banner, the global style, the check of
    [plot_kwargs] and the grid of panels.  The result is the list
    [plot_kwargs]. *)
Definition open_figure (a : args) : M pyval :=
  print_boxes (boxes a) ;;
  set_rc "font.family" (VStr "serif") ;;
  set_rc "mathtext.fontset" (VStr "dejavuserif") ;;
  set_rc "axes.axisbelow" (VBool false) ;;
  pk <- init_plot_kwargs a ;;
  make_figure a ;;
  ret pk.

(** The scales, labels and limits of the axes.  The result is the factor
    [scaling]. *)
Definition setup_axes (a : args) : M f64 :=
  set_scales a ;;
  set_xlabels a ;;
  set_panel_ylabels a ;;
  set_main_xlim a ;;
  scaling <- set_main_yaxis a ;;
  share_xlim a ;;
  ret scaling.

(** Everything before the first item is drawn. *)
Definition setup (a : args) : M (pyval * f64) :=
  pk <- open_figure a ;;
  scaling <- setup_axes a ;;
  ret (pk, scaling).

(** The main panel and the filter panel. *)
Definition draw_main (a : args) : M pyval :=
  ps <- setup a ;;
  draw_boxes a (fst ps) (snd ps) ;;
  draw_filters a ;;
  ret (fst ps).

(** [plot_spectrum]; the figure it returns is the one in the state. *)
Definition plot_spectrum (a : args) : M unit :=
  pk <- draw_main a ;;
  match residuals a with
  | Some r => draw_residuals a pk r
  | None => ret tt
  end ;;
  finish a.

End PlotSpectrum.


(** ** Observations on a state *)

(** The draw calls issued so far on one of the panels. *)
Definition panel_draws (p : panel) (s : state) : list draw :=
  match st_fig s with
  | Some fg =>
      match get_panel p fg with
      | Some ax => a_draws ax
      | None => []
      end
  | None => []
  end.

Definition main_draws (s : state) : list draw := panel_draws Main s.

(** The y-values of a draw call that plots data. *)
Definition plotted_values (d : draw) : list cell :=
  match d with
  | Plot _ y _ _ => y
  | Errorbar _ y _ _ _ => y
  | FillBetween _ y1 y2 _ => y1 ++ y2
  | Axhline _ _ => []
  end.

(** The state in which a later call of the routine starts: the objects of
    the store and the global style persist, the figure is a new one. *)
Definition next_call (s : state) : state :=
  mk_state (st_heap s) (st_rc s) None None.

Definition with_heap (h : heap) (s : state) : state :=
  mk_state h (st_rc s) (st_fig s) (st_out s).

Definition with_rc (rc : pydict) (s : state) : state :=
  mk_state (st_heap s) rc (st_fig s) (st_out s).

Definition with_fig (f : option figure) (s : state) : state :=
  mk_state (st_heap s) (st_rc s) f (st_out s).

Definition with_out (o : option sink) (s : state) : state :=
  mk_state (st_heap s) (st_rc s) (st_fig s) o.

(** A property of states that every run of [m] maintains, whether [m]
    returns or raises. *)
Definition preserves {A} (I : state -> Prop) (m : M A) : Prop :=
  forall s, I s -> I (snd (m s)).

(** Properties that do not look at one of the components of the state. *)
Class HeapBlind (I : state -> Prop) : Prop :=
  heap_blind : forall s h, I s -> I (with_heap h s).

Class RcBlind (I : state -> Prop) : Prop :=
  rc_blind : forall s rc, I s -> I (with_rc rc s).

Class FigBlind (I : state -> Prop) : Prop :=
  fig_blind : forall s f, I s -> I (with_fig f s).

Class OutBlind (I : state -> Prop) : Prop :=
  out_blind : forall s o, I s -> I (with_out o s).

(** The figure has been neither shown nor saved beyond [o]. *)
Definition out_is (o : option sink) (s : state) : Prop := st_out s = o.

(** ** A sample instance of the collaborators, and sample inputs *)

Module Sample.

(** Every filter has its mean wavelength at the length of its name and a
    width of 0.2; models carry no label; the percentile of a set of rows is
    its first row; the colour cycle always answers "C0"; the decimal
    logarithm is not rounded. *)
#[export] Instance collab : Collab := {
  mean_wavelength := fun s => Fin (inject_Z (Z.of_nat (String.length s)));
  filter_fwhm := fun _ => Fin (1 # 5);
  get_filter := fun _ => [(Fin 1, Fin (1 # 2))];
  create_model_label := fun _ _ _ _ _ _ => None;
  percentile := fun rows _ => match rows with r :: _ => r | [] => [] end;
  next_color := fun _ => "C0";
  log10_floor := floor_log10q
}.

(** [a] with [plot_kwargs] bound to the list at address [k]. *)
Definition with_kwargs (a : args) (k : nat) : args :=
  mk_args (boxes a) (filters a) (residuals a) (Some k) (envelope a) (xlim a)
    (ylim a) (ylim_res a) (scale a) (title a) (object_type a) (quantity a)
    (output a) (leg_param a) (param_fmt a) (inc_model_name a).

Definition with_residuals (a : args) (r : residuals_box) : args :=
  mk_args (boxes a) (filters a) (Some r) (plot_kwargs a) (envelope a) (xlim a)
    (ylim a) (ylim_res a) (scale a) (title a) (object_type a) (quantity a)
    (output a) (leg_param a) (param_fmt a) (inc_model_name a).

Definition with_ylim (a : args) (lo hi : f64) : args :=
  mk_args (boxes a) (filters a) (residuals a) (plot_kwargs a) (envelope a)
    (xlim a) (Some (lo, hi)) (ylim_res a) (scale a) (title a) (object_type a)
    (quantity a) (output a) (leg_param a) (param_fmt a) (inc_model_name a).

Definition with_quantity (a : args) (q : string) : args :=
  mk_args (boxes a) (filters a) (residuals a) (plot_kwargs a) (envelope a)
    (xlim a) (ylim a) (ylim_res a) (scale a) (title a) (object_type a)
    q (output a) (leg_param a) (param_fmt a) (inc_model_name a).

(** A spectrum of three samples at 1, 2 and 3 micron. *)
Definition spectrum3 (f1 f2 f3 : f64) : box :=
  SpectrumBox (Spec1D [Fin 1; Fin 2; Fin 3] [f1; f2; f3]).

(** An object with two measurements in the filter "X". *)
Definition object_twice : box :=
  ObjectBox None
    (Some [("X", Many [(Fin 1, Fin (1 # 10)); (Fin 2, Fin (1 # 10))])]).

(** An object with one measurement in the filter "X". *)
Definition object_once : box :=
  ObjectBox None (Some [("X", One (Fin 1) (Fin (1 # 10)))]).

Definition synphot : box := SynphotBox [("X", Fin (3 # 2))].

End Sample.

(** * Vocabulary of the statements *)

(** The global style after the preamble. *)
Definition style_set (s : state) : state :=
  with_rc
    (dict_set "axes.axisbelow" (VBool false)
       (dict_set "mathtext.fontset" (VStr "dejavuserif")
          (dict_set "font.family" (VStr "serif") (st_rc s)))) s.

(** ** The style of a filter with repeated measurements *)

Section RepeatedFilterDefs.
Context `{C : Collab}.
Variables (a : args) (scaling : f64) (j : nat) (item : string).
Variables (apk akj als : nat) (lpk elems : list pyval).

(** The shape of the store while the measurements of [item] are drawn:
    [plot_kwargs[j]] is a dictionary whose entry for [item] is the list
    [elems]; entry [k + i] of that list is a dictionary that, once its
    [zorder] default is filled in, reads as [Ds !! i] with its default. *)
Definition styled (k : nat) (Ds : list pydict) (s : state) : Prop :=
  st_heap s !! apk = Some (OList lpk)
  /\ lpk !! j = Some (VRef akj)
  /\ (exists dj, st_heap s !! akj = Some (ODict dj)
                 /\ dict_get item dj = Some (VRef als))
  /\ st_heap s !! als = Some (OList elems)
  /\ (forall i D, Ds !! i = Some D ->
        exists ad D', elems !! (k + i)%nat = Some (VRef ad)
                      /\ st_heap s !! ad = Some (ODict D')
                      /\ setdefault "zorder" (num 3) D'
                         = setdefault "zorder" (num 3) D)
  /\ (exists fg, st_fig s = Some fg).

(** The error bar of measurement [col] drawn with the style [D]. *)
Definition measurement (col : f64 * f64) (D : pydict) : draw :=
  let flux_scaling :=
    if is_quantity "flux" a then mean_wavelength item else F64.one in
  point (mean_wavelength item) (scaled flux_scaling (fst col) scaling)
    (filter_fwhm item) (Some (scaled flux_scaling (snd col) scaling))
    (setdefault "zorder" (num 3) D).

(** The round of the loop over the measurements of a styled filter. *)
Definition measurement_body (ic : nat * (f64 * f64)) : M unit :=
  style <- getitem (VRef akj) item ;;
  style_i <- getindex style (fst ic) ;;
  default_in_place style_i "zorder" (num 3) ;;
  d <- star style_i ;;
  kw <- keywords ["xerr"; "yerr"] [] d ;;
  on_axes Main
    (add_draw
       (point (mean_wavelength item)
          (scaled (if is_quantity "flux" a then mean_wavelength item
                   else F64.one) (fst (snd ic)) scaling)
          (filter_fwhm item)
          (Some (scaled (if is_quantity "flux" a then mean_wavelength item
                         else F64.one) (snd (snd ic)) scaling))
          kw)).

End RepeatedFilterDefs.

(** A style that names neither of the keywords the routine passes itself
    for a photometric point. *)
Definition plain_style (D : pydict) : Prop :=
  dict_mem "xerr" D = false /\ dict_mem "yerr" D = false.

(** The entries of a list that refer to dictionaries, with the contents of
    these dictionaries. *)
Definition dicts_at (h : heap) (elems : list pyval) (Ds : list pydict) : Prop :=
  forall i D, Ds !! i = Some D ->
    exists ad, elems !! i = Some (VRef ad) /\ h !! ad = Some (ODict D).

(** ** Draw calls added to a panel *)

(** Since the panel held the draw calls [before], only draw calls that
    satisfy [P] have been added to it. *)
Definition panel_grows (p : panel) (P : draw -> Prop) (before : list draw)
    (s : state) : Prop :=
  exists added, panel_draws p s = before ++ added /\ Forall P added.

(** A draw call that plots data, as opposed to a reference line. *)
Definition is_data (d : draw) : Prop :=
  match d with
  | Axhline _ _ => False
  | _ => True
  end.

(** ** Spectra and their gaps *)

(** The (wavelength, flux) arrays of a [SpectrumBox] or [ModelBox]. *)
Definition spectrum_rows (d : spectrum_data) : list (list f64 * list f64) :=
  match d with
  | Spec1D wavelength flux => [(wavelength, flux)]
  | Spec2D wavelength flux _ => zip wavelength flux
  end.

(** Two boxes that differ in the values of their flux samples only. *)
Definition same_shape (d d' : spectrum_data) : Prop :=
  match d, d' with
  | Spec1D w fl, Spec1D w' fl' => w = w' /\ length fl = length fl'
  | Spec2D w fl n, Spec2D w' fl' n' =>
      w = w' /\ n = n' /\ Forall2 (fun r r' => length r = length r') fl fl'
  | _, _ => False
  end.

Section SpectrumDefs.
Context `{C : Collab}.
Variables (a : args) (scaling : f64).

(** What the routine hands to the backend for the flux sample [f] at the
    wavelength [w]. *)
Definition drawn_cell (w f : f64) : cell :=
  ma_div
    (ma_mul (if is_quantity "flux" a then Val w else Val F64.one) (mask_nan f))
    scaling.

(** [dr] is the line of one of the spectra of [d]. *)
Definition plots_spectrum (d : spectrum_data) (dr : draw) : Prop :=
  exists w fl y kw,
    dr = Plot (map plain w) y None kw
    /\ In (w, fl) (spectrum_rows d)
    /\ scaled_masked (waves_if_flux a (map plain w)) (map mask_nan fl) scaling
       = Ok y.

End SpectrumDefs.

(** ** Runs that raise alike *)

(** Two states with the same store and the same panels, whatever has been
    drawn on them. *)
Definition alike (s s' : state) : Prop :=
  st_heap s = st_heap s'
  /\ match st_fig s, st_fig s' with
     | None, None => True
     | Some f, Some f' =>
         forall p, is_some (get_panel p f) = is_some (get_panel p f')
     | _, _ => False
     end.

(** From alike states, [m] and [m'] return the same value or raise the
    same exception, and leave alike states. *)
Definition sim_eq {A} (m m' : M A) : Prop :=
  forall s s', alike s s' ->
    fst (m s) = fst (m' s') /\ alike (snd (m s)) (snd (m' s')).

Definition same_outcome {A B} (o : outcome A) (o' : outcome B) : Prop :=
  match o, o' with
  | Ok _, Ok _ => True
  | Raise e, Raise e' => e = e'
  | _, _ => False
  end.

(** ** The residual panel *)

(** All residuals of a [ResidualsBox]: the photometric ones, then the
    spectral ones. *)
Definition photometric_residuals (r : residuals_box) : list f64 :=
  match res_photometry r with
  | Some photometry => concat (map (fun e => residual_values (snd e)) photometry)
  | None => []
  end.

Definition spectral_residuals (r : residuals_box) : list f64 :=
  match res_spectrum r with
  | Some spectrum => concat (map (fun e => map snd (snd e)) spectrum)
  | None => []
  end.

Definition all_residuals (r : residuals_box) : list f64 :=
  photometric_residuals r ++ spectral_residuals r.

(** [m] is the largest absolute value among the finite entries of [vals],
    and zero when there is none. *)
Definition is_max_abs_finite (vals : list f64) (m : f64) : Prop :=
  (m = F64.zero
   \/ exists v, In v vals /\ isfinite v = true /\ m = F64.abs v)
  /\ (forall v, In v vals -> isfinite v = true -> F64.ltb m (F64.abs v) = false).

(** The running maximum [m1] after the entries [vals] that [keep] selects
    have been compared with the running maximum [m0]. *)
Definition max_after (keep : f64 -> bool) (m0 : f64) (vals : list f64)
    (m1 : f64) : Prop :=
  isnan m1 = false
  /\ (m1 = m0 \/ exists v, In v vals /\ keep v = true /\ m1 = F64.abs v)
  /\ F64.ltb m1 m0 = false
  /\ (forall v, In v vals -> keep v = true -> F64.ltb m1 (F64.abs v) = false).

(** The y-limits set on a panel, if any. *)
Definition panel_ylim (p : panel) (s : state) : option (f64 * f64) :=
  match st_fig s with
  | Some fg =>
      match get_panel p fg with
      | Some ax => a_ylim ax
      | None => None
      end
  | None => None
  end.

(** The panel [p] of the figure is [ax]. *)
Definition panel_is (p : panel) (ax : axes) (s : state) : Prop :=
  exists fg, st_fig s = Some fg /\ get_panel p fg = Some ax.

(** [float('nan')] apart. *)
Definition not_nan (x : f64) : bool := negb (isnan x).

(** ** Plotted flux values *)

Definition spectrum_flux (d : spectrum_data) : list f64 :=
  match d with
  | Spec1D _ flux => flux
  | Spec2D _ flux _ => concat flux
  end.

Definition phot_flux (v : phot_value) : list f64 :=
  match v with
  | One flux _ => [flux]
  | Many columns => map fst columns
  end.

(** The flux values a box carries. *)
Definition box_flux (b : box) : list f64 :=
  match b with
  | SpectrumBox d => spectrum_flux d
  | ModelBox d _ _ => spectrum_flux d
  | BoxList items => concat (map mi_flux items)
  | PhotometryBox _ _ flux => map fst flux
  | ObjectBox spectrum flux =>
      match spectrum with
      | Some sp => concat (map (fun e => map (fun r => snd (fst r)) (snd e)) sp)
      | None => []
      end
      ++ match flux with
         | Some fl => concat (map (fun e => phot_flux (snd e)) fl)
         | None => []
         end
  | SynphotBox flux => map snd flux
  | OtherBox => []
  end.

Section PlottedDefs.
Context `{C : Collab}.
Variables (a : args) (scaling : f64).

(** A raw flux value of the call: a flux value of one of the boxes or, for
    an envelope, a percentile of an ensemble. *)
Definition raw_flux (v : f64) : Prop :=
  (exists b, In b (boxes a) /\ In v (box_flux b))
  \/ (envelope a = true /\ exists rows q, In v (percentile rows q)).

(** The multiplier [flux_scaling] is 1 unless the quantity is the flux. *)
Definition multiplier_ok (fs : f64) : Prop :=
  is_quantity "flux" a = false -> fs = F64.one.

(** A plotted value: a gap, or [flux_scaling * v / scaling] for a raw flux
    value [v]. *)
Definition good_cell (c : cell) : Prop :=
  c = Masked
  \/ exists fs v x, c = Val x /\ raw_flux v /\ multiplier_ok fs
                    /\ F64.same x (scaled fs v scaling).

Definition good_draw (d : draw) : Prop := Forall good_cell (plotted_values d).

(** A masked array of raw flux values. *)
Definition raw_cells (m : list cell) : Prop :=
  forall c, In c m -> c = Masked \/ exists v, c = Val v /\ raw_flux v.

End PlottedDefs.

(** ** The y-axis of the main panel *)

(** The label and the limits of the y-axis of the main panel. *)
Definition main_axis_is (label : option string) (limits : option (f64 * f64))
    (s : state) : Prop :=
  exists fg, st_fig s = Some fg
             /\ a_ylabel (ax1 fg) = label /\ a_ylim (ax1 fg) = limits.

(** The label of the y-axis for a flux quantity. *)
Definition flux_label (density : bool) (exponent : option Z) : string :=
  if density then density_label exponent else lambda_label exponent.

Section Stages.
Context `{C : Collab}.

(** The statements between the creation of the figure and the y-axis of
    the main panel, and those after it. *)
Definition before_yaxis (a : args) : M unit :=
  set_scales a ;;
  set_xlabels a ;;
  set_panel_ylabels a ;;
  set_main_xlim a.

Definition after_yaxis (a : args) (pk : pyval) (scaling : f64) : M unit :=
  share_xlim a ;;
  draw_boxes a pk scaling ;;
  draw_filters a ;;
  match residuals a with
  | Some r => draw_residuals a pk r
  | None => ret tt
  end ;;
  finish a.

(** The call completes from [s], and the variable [scaling] is bound to
    [scaling] on the way. *)
Definition completes_with_scaling (a : args) (s : state) (scaling : f64)
  : Prop :=
  exists pk s0 s4 s5,
    open_figure a s = (Ok pk, s0)
    /\ before_yaxis a s0 = (Ok tt, s4)
    /\ set_main_yaxis a s4 = (Ok scaling, s5)
    /\ after_yaxis a pk scaling s5 = (Ok tt, snd (plot_spectrum a s)).

(** A value of the main panel that is plotted as it was given. *)
Definition unscaled_cell (a : args) (c : cell) : Prop :=
  c = Masked \/ exists v x, c = Val x /\ raw_flux a v /\ F64.same x v.

Definition unscaled_draw (a : args) (d : draw) : Prop :=
  Forall (unscaled_cell a) (plotted_values d).

End Stages.

(** ** The caller's style overrides *)


(** The object [o'] is [o], or the list [o] with [None] appended some
    number of times. *)
Definition grown (o o' : pyobj) : Prop :=
  o' = o \/ exists l n, o = OList l /\ o' = OList (l ++ replicate n VNone).

(** Every object of the store [h0] is still what it was, apart from the
    list [plot_kwargs], which may have grown. *)
Definition store_kept (a : args) (h0 : heap) (s : state) : Prop :=
  forall addr o,
    h0 !! addr = Some o ->
    exists o', st_heap s !! addr = Some o'
               /\ (plot_kwargs a <> Some addr -> o' = o)
               /\ (plot_kwargs a = Some addr -> grown o o').


(** ** A completed call, stage by stage *)

(** A property of one of the panels of the figure. *)
Definition panel_has (p : panel) (P : axes -> Prop) (s : state) : Prop :=
  exists ax, panel_is p ax s /\ P ax.

(** A field of one of the panels; [None] without that panel. *)
Definition panel_get {X} (p : panel) (field : axes -> X) (s : state)
  : option X :=
  match st_fig s with
  | Some fg => option_map field (get_panel p fg)
  | None => None
  end.

Section CompletedDefs.
Context `{C : Collab}.

(** The residual panel, when residuals were asked for. *)
Definition residual_stage (a : args) (pk : pyval) : M unit :=
  match residuals a with
  | Some r => draw_residuals a pk r
  | None => ret tt
  end.

(** The states between the stages of a call that completes in [final]. *)
Inductive completed (a : args) (s final : state) : Prop :=
| Completed (pk : pyval) (scaling : f64)
    (s0 s1 s2 s3 s4 s5 s6 s7 s8 s9 : state) :
    open_figure a s = (Ok pk, s0) ->
    set_scales a s0 = (Ok tt, s1) ->
    set_xlabels a s1 = (Ok tt, s2) ->
    set_panel_ylabels a s2 = (Ok tt, s3) ->
    set_main_xlim a s3 = (Ok tt, s4) ->
    set_main_yaxis a s4 = (Ok scaling, s5) ->
    share_xlim a s5 = (Ok tt, s6) ->
    draw_boxes a pk scaling s6 = (Ok tt, s7) ->
    draw_filters a s7 = (Ok tt, s8) ->
    residual_stage a pk s8 = (Ok tt, s9) ->
    finish a s9 = (Ok tt, final) ->
    completed a s final.

End CompletedDefs.

(** The transmission curve of a filter, as drawn on the filter panel. *)
Definition filter_curve (data : list (f64 * f64)) : draw :=
  Plot (map (fun r => Val (fst r)) data) (map (fun r => Val (snd r)) data)
    (Some "-")
    [("lw", VNum (Fin (7 # 10))); ("color", VStr "tab:gray");
     ("zorder", VNum (Fin 1))].

(** The shape of the grid: which panels there are, and the height ratios
    of the rows. *)
Definition grid_of (a : args) (fg : figure) : Prop :=
  (ax2 fg <> None <-> filters a <> None)
  /\ (ax3 fg <> None <-> residuals a <> None)
  /\ f_ratios fg
     = match residuals a, filters a with
       | Some _, Some _ => [1; 3; 1]%nat
       | Some _, None => [4; 1]%nat
       | None, Some _ => [1; 4]%nat
       | None, None => [1]%nat
       end.

(** The panel at the bottom of the grid. *)
Definition bottom_panel (a : args) : panel :=
  match residuals a with
  | Some _ => Resid
  | None => Main
  end.

(** The x-range of the main panel. *)
Definition x_range (a : args) : f64 * f64 :=
  match xlim a with
  | Some l => l
  | None => (Fin (1 # 2), Fin 5)
  end.

(** ** Calls that get as far as the axes *)

(** The figure has the grid of the call. *)
Definition has_grid (a : args) (s : state) : Prop :=
  exists fg, st_fig s = Some fg /\ grid_of a fg.

(** The panels of the grid of a call. *)
Definition in_grid (a : args) (p : panel) : Prop :=
  match p with
  | Main => True
  | Filters => filters a <> None
  | Resid => residuals a <> None
  end.

(** A computation that cannot raise from a state that satisfies [I], and
    that keeps [I]. *)
Definition succeeds {A} (I : state -> Prop) (m : M A) : Prop :=
  forall s, I s -> exists x s', m s = (Ok x, s') /\ I s'.

(** The preamble passes: no empty list among the boxes, and [plot_kwargs]
    is [None] or a list with one entry for each box. *)
Definition preamble_passes (a : args) (s : state) : Prop :=
  Forall (fun b => b <> BoxList []) (boxes a)
  /\ match plot_kwargs a with
     | None => True
     | Some addr =>
         exists l, st_heap s !! addr = Some (OList l)
                   /\ length l = length (boxes a)
     end.

(** A range that the plotting backend takes as it is: finite, with the
    lower limit below the upper one, and positive on a logarithmic axis. *)
Definition proper_range (log : bool) (l : option (f64 * f64)) : Prop :=
  match l with
  | None => True
  | Some (Fin lo, Fin hi) => (lo < hi)%Q /\ (log = true -> (0 < lo)%Q)
  | Some _ => False
  end.

(** Scales and limits that the plotting backend accepts without raising
    and without adjusting them. *)
Definition backend_accepts (a : args) : Prop :=
  (fst (the_scale a) = "linear" \/ fst (the_scale a) = "log")
  /\ (snd (the_scale a) = "linear" \/ snd (the_scale a) = "log")
  /\ proper_range (String.eqb (fst (the_scale a)) "log") (xlim a)
  /\ proper_range (String.eqb (snd (the_scale a)) "log") (ylim a).

(** ** Parameter formats *)

(** The format that the routine adds for a parameter without one. *)
Definition default_format (k : string) : option string :=
  if existsb (String.eqb k) ["teff"; "disk_teff"; "disk_radius"]
  then Some ".0f"
  else if existsb (String.eqb k)
            ["radius"; "logg"; "feh"; "metallicity"; "fsed"; "distance";
             "parallax"; "mass"; "ism_ext"; "lognorm_ext"; "powerlaw_ext";
             "log_flux_scaling"]
  then Some ".1f"
  else if existsb (String.eqb k) ["co"; "c_o_ratio"; "ad_index"; "luminosity"]
  then Some ".2f"
  else if existsb (String.eqb k) ["flux_scaling"; "flux_offset"]
  then Some ".2e"
  else None.

(** ** The items of the main panel without style overrides *)

(** The draw calls of the elements of a list, when each element has its
    draw calls. *)
Fixpoint collect {A} (f : A -> option (list draw)) (l : list A)
  : option (list draw) :=
  match l with
  | [] => Some []
  | x :: l' =>
      match f x, collect f l' with
      | Some ds, Some ds' => Some (ds ++ ds')
      | _, _ => None
      end
  end.

(** [spec_list[i] = flux] for every sample. *)
Fixpoint sample_rows (size : nat) (items : list model_item)
  : option (list (list f64)) :=
  match items with
  | [] => Some []
  | item :: items' =>
      match assign_row size (mi_flux item), sample_rows size items' with
      | Ok row, Some rows => Some (row :: rows)
      | _, _ => None
      end
  end.

Section DefaultDraws.
Context `{C : Collab}.
Variables (a : args) (scaling : f64).

(** A line through the samples of a spectrum. *)
Definition default_line (wavelength flux : list f64) (style : pydict)
  : option (list draw) :=
  match scaled_masked (waves_if_flux a (map plain wavelength))
          (map mask_nan flux) scaling with
  | Ok y => Some [Plot (map plain wavelength) y None style]
  | Raise _ => None
  end.

(** A [SpectrumBox] or [ModelBox] without override: one line of width 0.5
    for a single spectrum, one line for each of several stacked spectra. *)
Definition default_spectrum (d : spectrum_data) (label : pyval)
  : option (list draw) :=
  match d with
  | Spec1D [] _ => None
  | Spec1D wavelength flux =>
      default_line wavelength flux
        [("lw", num (1 # 2)); ("label", label); ("zorder", num 2)]
  | Spec2D [] _ _ => None
  | Spec2D wavelength flux name =>
      collect
        (fun ix =>
           match flux !! fst ix, name !! fst ix with
           | Some row, Some label =>
               default_line (snd ix) row
                 [("lw", num (1 # 2)); ("label", VStr label)]
           | _, _ => None
           end)
        (enumerate wavelength)
  end.

(** One of the two bands of an envelope. *)
Definition default_band (wavelength : list f64) (rows : list (list f64))
    (p_lo p_hi : Q) (style : pydict) : option draw :=
  match scaled_plain (flux_if_flux a wavelength) (percentile rows p_lo) scaling,
        scaled_plain (flux_if_flux a wavelength) (percentile rows p_hi) scaling
  with
  | Ok y1, Ok y2 => Some (FillBetween (map plain wavelength) y1 y2 style)
  | _, _ => None
  end.

(** A list of model samples without override: a thin gray line for each
    sample, or the two bands of the envelope. *)
Definition default_samples (items : list model_item) : option (list draw) :=
  if envelope a then
    match items with
    | [] => None
    | first :: _ =>
        match sample_rows (length (mi_flux first)) items with
        | Some rows =>
            let wavelength :=
              match last items with
              | Some item => mi_wavelength item
              | None => []
              end in
            match default_band wavelength rows (3 # 10) (997 # 10)
                    [("color", VStr "peachpuff"); ("alpha", num (2 # 5));
                     ("zorder", num 1); ("linewidth", num 0)],
                  default_band wavelength rows 16 84
                    [("color", VStr "peachpuff"); ("alpha", num 1);
                     ("zorder", num 1); ("linewidth", num 0)]
            with
            | Some outer, Some inner => Some [outer; inner]
            | _, _ => None
            end
        | None => None
        end
    end
  else
    collect
      (fun item =>
         default_line (mi_wavelength item) (mi_flux item)
           [("color", VStr "gray"); ("lw", num (1 # 5));
            ("alpha", num (1 # 2)); ("zorder", num 1)])
      items.

(** A [PhotometryBox] without override: a black square with error bars
    for each point. *)
Definition default_photometry (wavelength : list f64)
    (filter_name : list string) (flux : list (f64 * option f64))
  : option (list draw) :=
  collect
    (fun ix =>
       match filter_name !! fst ix, flux !! fst ix with
       | Some fname, Some (value, error) =>
           let flux_scaling :=
             if is_quantity "flux" a then snd ix else F64.one in
           Some [Errorbar [Val (snd ix)]
                   [Val (scaled flux_scaling value scaling)]
                   (Some (half (filter_fwhm fname)))
                   (option_map
                      (fun e => [Val (scaled flux_scaling e scaling)]) error)
                   [("marker", VStr "s"); ("ms", num 6);
                    ("color", VStr "black"); ("zorder", num 3)]]
       | _, _ => None
       end)
    (enumerate wavelength).

(** A [SynphotBox] without a style of its own or of an [ObjectBox]: an
    open square for each filter. *)
Definition default_synphot (flux : list (string * f64)) : option (list draw) :=
  collect
    (fun entry =>
       let wavelength := mean_wavelength (fst entry) in
       let flux_scaling :=
         if is_quantity "flux" a then wavelength else F64.one in
       Some [point wavelength (scaled flux_scaling (snd entry) scaling)
               (filter_fwhm (fst entry)) None
               [("alpha", num (7 # 10)); ("marker", VStr "s");
                ("ms", num 5); ("zorder", num 4); ("mfc", VStr "white")]])
    flux.

(** The draw calls of a box without overrides; an [ObjectBox] is not
    covered. *)
Definition default_draws (b : box) : option (list draw) :=
  match b with
  | SpectrumBox d => default_spectrum d VNone
  | ModelBox d model parameters =>
      default_spectrum d (model_label a (Some (model, parameters)))
  | BoxList items => default_samples items
  | PhotometryBox wavelength filter_name flux =>
      default_photometry wavelength filter_name flux
  | SynphotBox flux => default_synphot flux
  | OtherBox => Some []
  | ObjectBox _ _ => None
  end.

End DefaultDraws.

(** When [m] returns from a state with the store [h], it has added the
    draw calls [f] to the main panel and left the store as it was. *)
Definition renders {A} (h : heap) (m : M A) (f : option (list draw)) : Prop :=
  forall s x s',
    st_heap s = h -> m s = (Ok x, s') ->
    exists ds, f = Some ds
               /\ panel_draws Main s' = panel_draws Main s ++ ds
               /\ st_heap s' = h.

(** The reference line that the set-up of the y-axis leaves on the main
    panel. *)
Definition reference_lines (a : args) : list draw :=
  if is_quantity "magnitude" a then []
  else match ylim a with
       | Some (lo, _) => if F64.ltb lo F64.zero then [zero_line] else []
       | None => []
       end.

(** ** The growth of the caller's list *)

(** The list at [addr] has [n] entries followed by [k] entries [None]. *)
Definition list_shape (addr n k : nat) (s : state) : Prop :=
  exists l1, st_heap s !! addr = Some (OList (l1 ++ replicate k VNone))
             /\ length l1 = n.

(** ** Items with a style override *)

Section StyledDraws.
Context `{C : Collab}.
Variables (a : args) (scaling : f64).

(** A point of a [PhotometryBox] drawn with the keywords [kw]. *)
Definition photometry_point (filter_name : list string)
    (flux : list (f64 * option f64)) (kw : pydict) (ix : nat * f64)
  : option (list draw) :=
  match filter_name !! fst ix, flux !! fst ix with
  | Some fname, Some (value, error) =>
      let flux_scaling := if is_quantity "flux" a then snd ix else F64.one in
      Some [Errorbar [Val (snd ix)]
              [Val (scaled flux_scaling value scaling)]
              (Some (half (filter_fwhm fname)))
              (option_map
                 (fun e => [Val (scaled flux_scaling e scaling)]) error)
              kw]
  | _, _ => None
  end.

(** The points of a [PhotometryBox] whose first point is drawn with the
    keywords [first] and the others with [rest]. *)
Definition styled_photometry (first rest : pydict) (wavelength : list f64)
    (filter_name : list string) (flux : list (f64 * option f64))
  : option (list draw) :=
  collect
    (fun ix =>
       photometry_point filter_name flux
         (if Nat.eqb (fst ix) 0 then first else rest) ix)
    (enumerate wavelength).

(** One round of the loop over the points of a [PhotometryBox]. *)
Definition photometry_round (pk : pyval) (j : nat)
    (filter_name : list string) (flux : list (f64 * option f64))
    (label_check : list pyval) (ix : nat * f64) : M (list pyval) :=
    let item := snd ix in
    match filter_name !! fst ix with
    | None => raise IndexError
    | Some fname =>
        let fwhm := filter_fwhm fname in
        let flux_scaling := if is_quantity "flux" a then item else F64.one in
        kj <- getindex pk j ;;
        given <- truthy kj ;;
        if given then
          has_label <- contains "label" kj ;;
          label_check <-
            (if has_label then
               label <- getitem kj "label" ;;
               if negb (py_in label label_check)
               then ret (label_check ++ [label])
               else delitem kj "label" ;; ret label_check
             else ret label_check) ;;
          match flux !! fst ix with
          | None => raise IndexError
          | Some (value, error) =>
              default_in_place kj "zorder" (num 3) ;;
              d <- star kj ;;
              kw <- keywords ["xerr"; "yerr"] [] d ;;
              on_axes Main
                (add_draw
                   (Errorbar [Val item]
                      [Val (scaled flux_scaling value scaling)]
                      (Some (half fwhm))
                      (option_map
                         (fun e => [Val (scaled flux_scaling e scaling)])
                         error)
                      kw)) ;;
              ret label_check
          end
        else
          match flux !! fst ix with
          | None => raise IndexError
          | Some (value, error) =>
              on_axes Main
                (add_draw
                   (Errorbar [Val item]
                      [Val (scaled flux_scaling value scaling)]
                      (Some (half fwhm))
                      (option_map
                         (fun e => [Val (scaled flux_scaling e scaling)])
                         error)
                      [("marker", VStr "s"); ("ms", num 6);
                       ("color", VStr "black"); ("zorder", num 3)])) ;;
              ret label_check
          end
    end.

End StyledDraws.

(** ** Values plotted against their wavelength *)

Section PlottedAt.
Context `{C : Collab}.
Variables (a : args) (scaling : f64).

(** A flux value of the call: a flux value of one of the boxes or, for an
    envelope, a value of one of the four percentiles of the samples of a
    list among the boxes. *)
Definition flux_value (v : f64) : Prop :=
  (exists b, In b (boxes a) /\ In v (box_flux b))
  \/ (envelope a = true
      /\ exists first items rows q,
           In (BoxList (first :: items)) (boxes a)
           /\ sample_rows (length (mi_flux first)) (first :: items) = Some rows
           /\ In q [3 # 10; 997 # 10; 16 # 1; 84 # 1]%Q
           /\ In v (percentile rows q)).

(** The multiplier [flux_scaling] of the value at position [i] of a draw
    call with the x-values [x]: the float 1.0 or, for the quantity "flux",
    the wavelength the value is plotted at (the only wavelength of the call
    when numpy stretches a single one over the values). *)
Definition multiplier_at (x : list cell) (i : nat) (fs : f64) : Prop :=
  if is_quantity "flux" a then x !! i = Some (Val fs) \/ x = [Val fs]
  else fs = F64.one.

(** The value at position [i]: a gap, or [flux_scaling * v / scaling] for
    a flux value [v] of the call. *)
Definition scaled_at (x : list cell) (i : nat) (c : cell) : Prop :=
  c = Masked
  \/ exists fs v z, c = Val z /\ flux_value v /\ multiplier_at x i fs
                    /\ F64.same z (scaled fs v scaling).

Definition scaled_values (x y : list cell) : Prop :=
  forall i c, y !! i = Some c -> scaled_at x i c.

(** A draw call of the main panel whose values are scaled flux values;
    a horizontal reference line plots no flux. *)
Definition scaled_draw (d : draw) : Prop :=
  match d with
  | Plot x y _ _ => scaled_values x y
  | Errorbar x y _ _ _ => scaled_values x y
  | FillBetween x y1 y2 _ => scaled_values x y1 /\ scaled_values x y2
  | Axhline _ _ => True
  end.

End PlottedAt.

(** ** The style override of an item *)

(** The entry of the list [pk] at index [j] is [None] ([o = None]) or a
    style dictionary [d] ([o = Some d]). *)
Definition override_at (s : state) (pk : pyval) (j : nat) (o : option pydict)
  : Prop :=
  exists apk l,
    pk = VRef apk /\ st_heap s !! apk = Some (OList l)
    /\ match o with
       | None => l !! j = Some VNone
       | Some d =>
           exists k, l !! j = Some (VRef k) /\ st_heap s !! k = Some (ODict d)
                     /\ List.NoDup (dict_keys d)
       end.

(** * Reasoning rules for the monad *)

Section Rules.
Context {A B : Type} (I : state -> Prop).

Lemma preserves_ret (x : A) : preserves I (ret x).
Proof. intros s Hs. exact Hs. Qed.

Lemma preserves_raise (e : exn) : preserves I (raise (A := A) e).
Proof. intros s Hs. exact Hs. Qed.

Lemma preserves_lift (o : outcome A) : preserves I (lift o).
Proof. destruct o; intros s Hs; exact Hs. Qed.

Lemma preserves_bind (m : M A) (k : A -> M B) :
  preserves I m -> (forall x, preserves I (k x)) -> preserves I (bind m k).
Proof.
  intros Hm Hk s Hs. unfold bind.
  specialize (Hm s Hs). destruct (m s) as [[x | e] s']; simpl in *.
  - apply (Hk x s' Hm).
  - exact Hm.
Qed.

Lemma preserves_bind_lift (o : outcome A) (k : A -> M B) :
  (forall x, o = Ok x -> preserves I (k x)) -> preserves I (bind (lift o) k).
Proof.
  intros Hk s Hs. destruct o as [x | e]; unfold bind, lift, ret, raise.
  - apply (Hk x eq_refl s Hs).
  - exact Hs.
Qed.

Lemma preserves_for_each (l : list A) (body : A -> M unit) :
  (forall x, In x l -> preserves I (body x)) -> preserves I (for_each l body).
Proof.
  induction l as [| x l IH]; intros Hb; simpl.
  - intros s Hs. exact Hs.
  - intros s Hs. unfold bind.
    pose proof (Hb x (or_introl eq_refl) s Hs) as H1.
    destruct (body x s) as [[[] | e] s']; simpl in *; [ | exact H1 ].
    apply (IH (fun y Hy => Hb y (or_intror Hy)) s' H1).
Qed.

Lemma preserves_for_fold (l : list A) (acc : B) (body : B -> A -> M B) :
  (forall acc x, In x l -> preserves I (body acc x)) ->
  preserves I (for_fold l acc body).
Proof.
  revert acc. induction l as [| x l IH]; intros acc Hb; simpl.
  - intros s Hs. exact Hs.
  - intros s Hs. unfold bind.
    pose proof (Hb acc x (or_introl eq_refl) s Hs) as H1.
    destruct (body acc x s) as [[acc' | e] s']; simpl in *; [ | exact H1 ].
    apply (IH acc' (fun acc0 y Hy => Hb acc0 y (or_intror Hy)) s' H1).
Qed.

End Rules.

Lemma bind_run {A B} (m : M A) (k : A -> M B) (s : state) :
  bind m k s
  = match m s with
    | (Ok x, s') => k x s'
    | (Raise e, s') => (Raise e, s')
    end.
Proof. reflexivity. Qed.

Lemma preserves_when (I : state -> Prop) (b : bool) (m : M unit) :
  preserves I m -> preserves I (when b m).
Proof. intros Hm. destruct b; [ exact Hm | intros s Hs; exact Hs ]. Qed.

Lemma preserves_get_heap (I : state -> Prop) : preserves I get_heap.
Proof. intros s Hs. exact Hs. Qed.

Lemma preserves_read_axes {A} (I : state -> Prop) (p : panel) (f : axes -> A) :
  preserves I (read_axes p f).
Proof.
  intros s Hs. unfold read_axes.
  destruct (st_fig s) as [fg |]; [ | exact Hs ].
  destruct (get_panel p fg); exact Hs.
Qed.

Lemma state_eta (s : state) :
  mk_state (st_heap s) (st_rc s) (st_fig s) (st_out s) = s.
Proof. destruct s; reflexivity. Qed.

Lemma preserves_put_heap (I : state -> Prop) `{!HeapBlind I} (h : heap) :
  preserves I (put_heap h).
Proof. intros s Hs. apply (heap_blind s h Hs). Qed.

Lemma preserves_set_rc (I : state -> Prop) `{!RcBlind I} k v :
  preserves I (set_rc k v).
Proof. intros s Hs. apply (rc_blind s _ Hs). Qed.

Lemma preserves_put_fig (I : state -> Prop) `{!FigBlind I} f :
  preserves I (put_fig f).
Proof. intros s Hs. apply (fig_blind s _ Hs). Qed.

Lemma preserves_put_out (I : state -> Prop) `{!OutBlind I} o :
  preserves I (put_out o).
Proof. intros s Hs. apply (out_blind s _ Hs). Qed.

Lemma preserves_on_axes (I : state -> Prop) `{!FigBlind I} p f :
  preserves I (on_axes p f).
Proof.
  intros s Hs. unfold on_axes.
  destruct (st_fig s) as [fg |]; [ | exact Hs ].
  destruct (get_panel p fg); [ | exact Hs ].
  apply (fig_blind s _ Hs).
Qed.

#[export] Instance out_is_heap_blind o : HeapBlind (out_is o).
Proof. intros s h Hs. exact Hs. Qed.
#[export] Instance out_is_rc_blind o : RcBlind (out_is o).
Proof. intros s h Hs. exact Hs. Qed.
#[export] Instance out_is_fig_blind o : FigBlind (out_is o).
Proof. intros s h Hs. exact Hs. Qed.

Ltac head_of t :=
  lazymatch t with
  | ?f _ => head_of f
  | _ => t
  end.

(** One syntax-directed step of a proof that a computation maintains a
    property; [prim] closes the primitive steps. *)
Ltac pres_step prim :=
  lazymatch goal with
  | |- preserves _ (ret _) => apply preserves_ret
  | |- preserves _ (raise _) => apply preserves_raise
  | |- preserves _ (lift _) => apply preserves_lift
  | |- preserves _ (bind (lift _) _) => apply preserves_bind_lift; intros
  | |- preserves _ (bind _ _) => apply preserves_bind; [ | intros ]
  | |- preserves _ (when _ _) => apply preserves_when
  | |- preserves _ (for_each _ _) => apply preserves_for_each; intros
  | |- preserves _ (for_fold _ _ _) => apply preserves_for_fold; intros
  | |- preserves _ get_heap => apply preserves_get_heap
  | |- preserves _ (read_axes _ _) => apply preserves_read_axes
  | |- preserves _ (put_heap _) => prim
  | |- preserves _ (set_rc _ _) => prim
  | |- preserves _ (put_fig _) => prim
  | |- preserves _ (put_out _) => prim
  | |- preserves _ (on_axes _ _) => prim
  | |- preserves _ (match ?x with _ => _ end) => destruct x eqn:?
  | |- preserves _ (let _ := _ in _) => cbv zeta
  | |- preserves _ ((fun _ => _) _) => cbv beta
  | |- preserves _ ?m => let h := head_of m in unfold h
  end.

Ltac blind_prim :=
  first [ apply preserves_put_heap; typeclasses eauto
        | apply preserves_set_rc; typeclasses eauto
        | apply preserves_put_fig; typeclasses eauto
        | apply preserves_put_out; typeclasses eauto
        | apply preserves_on_axes; typeclasses eauto ].

(** ** Draw calls added to a panel *)

#[export] Instance panel_grows_heap_blind p P ds : HeapBlind (panel_grows p P ds).
Proof. intros s h Hs. exact Hs. Qed.
#[export] Instance panel_grows_rc_blind p P ds : RcBlind (panel_grows p P ds).
Proof. intros s h Hs. exact Hs. Qed.
#[export] Instance panel_grows_out_blind p P ds : OutBlind (panel_grows p P ds).
Proof. intros s h Hs. exact Hs. Qed.

Lemma get_set_panel_eq p ax fg : get_panel p (set_panel p ax fg) = Some ax.
Proof. destruct p; reflexivity. Qed.

Lemma get_set_panel_ne p q ax fg :
  p <> q -> get_panel p (set_panel q ax fg) = get_panel p fg.
Proof. destruct p, q; intros H; try reflexivity; contradiction H; reflexivity. Qed.

Lemma panel_grows_refl p P s : panel_grows p P (panel_draws p s) s.
Proof. exists []. split; [ symmetry; apply app_nil_r | constructor ]. Qed.

Lemma on_axes_state p f s :
  snd (on_axes p f s)
  = match st_fig s with
    | Some fg =>
        match get_panel p fg with
        | Some ax => with_fig (Some (set_panel p (f ax) fg)) s
        | None => s
        end
    | None => s
    end.
Proof.
  unfold on_axes. destruct (st_fig s) as [fg |]; [ | reflexivity ].
  destruct (get_panel p fg); reflexivity.
Qed.

Lemma panel_draws_on_axes p q f s :
  panel_draws p (snd (on_axes q f s))
  = match st_fig s with
    | Some fg =>
        match get_panel q fg with
        | Some ax =>
            if panel_eq_dec p q then a_draws (f ax) else panel_draws p s
        | None => panel_draws p s
        end
    | None => panel_draws p s
    end.
Proof.
  rewrite on_axes_state.
  destruct (st_fig s) as [fg |] eqn:Hfg; [ | reflexivity ].
  destruct (get_panel q fg) as [ax |] eqn:Hq; [ | reflexivity ].
  unfold panel_draws. cbn [st_fig with_fig]. rewrite Hfg.
  destruct (panel_eq_dec p q) as [-> | Hne].
  - rewrite get_set_panel_eq. reflexivity.
  - rewrite get_set_panel_ne by exact Hne. reflexivity.
Qed.

Lemma panel_draws_get p s fg ax :
  st_fig s = Some fg -> get_panel p fg = Some ax ->
  panel_draws p s = a_draws ax.
Proof. intros Hfg Hp. unfold panel_draws. rewrite Hfg, Hp. reflexivity. Qed.

Lemma grows_on_axes_add p P ds d :
  P d -> preserves (panel_grows p P ds) (on_axes p (add_draw d)).
Proof.
  intros Hd s (added & Heq & Hall). unfold panel_grows.
  rewrite panel_draws_on_axes.
  destruct (st_fig s) as [fg |] eqn:Hfg; [ | exists added; split; assumption ].
  destruct (get_panel p fg) as [ax |] eqn:Hp;
    [ | exists added; split; assumption ].
  destruct (panel_eq_dec p p) as [_ | Hne]; [ | contradiction Hne; reflexivity ].
  exists (added ++ [d]). split.
  - cbn. rewrite <- (panel_draws_get p s fg ax Hfg Hp), Heq, app_assoc.
    reflexivity.
  - apply Forall_app. split; [ exact Hall | repeat constructor; exact Hd ].
Qed.

Lemma grows_on_axes_keep p q P ds f :
  (forall ax, a_draws (f ax) = a_draws ax) ->
  preserves (panel_grows p P ds) (on_axes q f).
Proof.
  intros Hf s (added & Heq & Hall). unfold panel_grows.
  rewrite panel_draws_on_axes.
  destruct (st_fig s) as [fg |] eqn:Hfg; [ | exists added; split; assumption ].
  destruct (get_panel q fg) as [ax |] eqn:Hq;
    [ | exists added; split; assumption ].
  exists added. split; [ | exact Hall ].
  destruct (panel_eq_dec p q) as [-> | Hne]; [ | exact Heq ].
  rewrite Hf, <- (panel_draws_get q s fg ax Hfg Hq). exact Heq.
Qed.

Lemma grows_on_axes_other p q P ds f :
  p <> q -> preserves (panel_grows p P ds) (on_axes q f).
Proof.
  intros Hne s (added & Heq & Hall). unfold panel_grows.
  rewrite panel_draws_on_axes.
  destruct (st_fig s) as [fg |] eqn:Hfg; [ | exists added; split; assumption ].
  destruct (get_panel q fg) as [ax |] eqn:Hq;
    [ | exists added; split; assumption ].
  exists added. split; [ | exact Hall ].
  destruct (panel_eq_dec p q) as [-> | _]; [ contradiction Hne; reflexivity | ].
  exact Heq.
Qed.

Lemma grows_put_fig p P fg :
  match get_panel p fg with Some ax => a_draws ax = [] | None => True end ->
  preserves (panel_grows p P []) (put_fig fg).
Proof.
  intros Hfg s _. exists []. split; [ | constructor ].
  unfold panel_draws. cbn. destruct (get_panel p fg); [ exact Hfg | reflexivity ].
Qed.

(** The primitive steps for [panel_grows]; [side] proves that a draw call
    added to the panel satisfies the property. *)
Ltac grows_prim side :=
  first [ apply preserves_put_heap; typeclasses eauto
        | apply preserves_set_rc; typeclasses eauto
        | apply preserves_put_out; typeclasses eauto
        | apply grows_on_axes_other; discriminate
        | apply grows_on_axes_keep; intros; reflexivity
        | apply grows_put_fig; exact I
        | apply grows_put_fig; reflexivity
        | apply grows_on_axes_add; side ].

(** ** Runs that raise alike *)

Lemma alike_refl s : alike s s.
Proof.
  split; [ reflexivity | ]. destruct (st_fig s); [ reflexivity | exact I ].
Qed.

Lemma sim_eq_ret {A} (x : A) : sim_eq (ret x) (ret x).
Proof. intros s s' H. split; [ reflexivity | exact H ]. Qed.

Lemma sim_eq_raise {A} e : sim_eq (raise (A := A) e) (raise e).
Proof. intros s s' H. split; [ reflexivity | exact H ]. Qed.

Lemma sim_eq_bind {A B} (m m' : M A) (k k' : A -> M B) :
  sim_eq m m' -> (forall x, sim_eq (k x) (k' x)) ->
  sim_eq (bind m k) (bind m' k').
Proof.
  intros Hm Hk s s' H. rewrite !bind_run.
  destruct (Hm s s' H) as [Ho Hs].
  destruct (m s) as [[x | e] s1], (m' s') as [[x' | e'] s1'];
    cbn [fst snd] in *; try discriminate Ho.
  - inversion Ho; subst x'. apply Hk, Hs.
  - inversion Ho; subst e'. split; [ reflexivity | exact Hs ].
Qed.

Lemma sim_eq_bind_lift {A B C'} (o : outcome A) (o' : outcome B)
    (k : A -> M C') (k' : B -> M C') :
  same_outcome o o' ->
  (forall x x', o = Ok x -> o' = Ok x' -> sim_eq (k x) (k' x')) ->
  sim_eq (bind (lift o) k) (bind (lift o') k').
Proof.
  intros Ho Hk s s' H. rewrite !bind_run.
  destruct o as [x | e], o' as [x' | e']; cbn in Ho; try contradiction.
  - apply (Hk x x' eq_refl eq_refl), H.
  - subst e'. split; [ reflexivity | exact H ].
Qed.

Lemma sim_eq_for_each {A} (l : list A) (body body' : A -> M unit) :
  (forall x, In x l -> sim_eq (body x) (body' x)) ->
  sim_eq (for_each l body) (for_each l body').
Proof.
  induction l as [| x l IH]; intros Hb; cbn [for_each].
  - apply sim_eq_ret.
  - apply sim_eq_bind; [ apply Hb; left; reflexivity | ].
    intros _. apply IH. intros y Hy. apply Hb. right. exact Hy.
Qed.

Lemma sim_eq_get_heap : sim_eq get_heap get_heap.
Proof.
  intros s s' H. unfold get_heap. cbn. destruct H as [Hh Hf].
  split; [ rewrite Hh; reflexivity | split; assumption ].
Qed.

Lemma sim_eq_put_heap h : sim_eq (put_heap h) (put_heap h).
Proof.
  intros s s' [Hh Hf]. unfold put_heap. cbn.
  split; [ reflexivity | split; [ reflexivity | exact Hf ] ].
Qed.

Lemma is_some_set_panel p q ax ax' fg fg' :
  (forall r, is_some (get_panel r fg) = is_some (get_panel r fg')) ->
  is_some (get_panel p (set_panel q ax fg))
  = is_some (get_panel p (set_panel q ax' fg')).
Proof.
  intros H. destruct (panel_eq_dec p q) as [-> | Hne].
  - rewrite !get_set_panel_eq. reflexivity.
  - rewrite !get_set_panel_ne by exact Hne. apply H.
Qed.

Lemma sim_eq_on_axes p f f' : sim_eq (on_axes p f) (on_axes p f').
Proof.
  intros s s' [Hh Hf]. unfold on_axes.
  destruct (st_fig s) as [fg |] eqn:E, (st_fig s') as [fg' |] eqn:E';
    try contradiction.
  - pose proof (Hf p) as Hp.
    destruct (get_panel p fg) as [ax |], (get_panel p fg') as [ax' |];
      try discriminate Hp; cbn [fst snd].
    + split; [ reflexivity | ]. split; [ exact Hh | ].
      cbn [st_fig]. intros r. apply is_some_set_panel, Hf.
    + split; [ reflexivity | ]. split; [ exact Hh | ]. rewrite E, E'. exact Hf.
  - cbn [fst snd]. split; [ reflexivity | ]. split; [ exact Hh | ].
    rewrite E, E'. exact I.
Qed.

Ltac sim_step :=
  lazymatch goal with
  | |- sim_eq (ret _) (ret _) => apply sim_eq_ret
  | |- sim_eq (raise _) (raise _) => apply sim_eq_raise
  | |- sim_eq (bind (lift _) _) (bind (lift _) _) =>
      apply sim_eq_bind_lift; [ | intros ]
  | |- sim_eq (bind _ _) (bind _ _) => apply sim_eq_bind; [ | intros ]
  | |- sim_eq (for_each _ _) (for_each _ _) => apply sim_eq_for_each; intros
  | |- sim_eq get_heap get_heap => apply sim_eq_get_heap
  | |- sim_eq (put_heap _) (put_heap _) => apply sim_eq_put_heap
  | |- sim_eq (on_axes _ _) (on_axes _ _) => apply sim_eq_on_axes
  | |- sim_eq (match ?x with _ => _ end) (match ?x with _ => _ end) =>
      destruct x eqn:?
  | |- sim_eq (let _ := _ in _) _ => cbv zeta
  | |- sim_eq ((fun _ => _) _) _ => cbv beta
  | |- sim_eq ?m _ => let h := head_of m in unfold h
  end.

Lemma scaled_masked_shape fs (m m' : list cell) sc :
  length m = length m' ->
  same_outcome (scaled_masked fs m sc) (scaled_masked fs m' sc).
Proof.
  intros Hlen. unfold scaled_masked, same_outcome.
  destruct fs as [| w]; [ exact I | ].
  unfold broadcast2. rewrite <- Hlen.
  destruct (Nat.eqb (length w) (length m)); [ exact I | ].
  destruct w as [| x [| x' w]].
  - destruct m as [| c [| c' m]], m' as [| d [| d' m']];
      try discriminate Hlen; cbn; auto.
  - exact I.
  - destruct m as [| c [| c' m]], m' as [| d [| d' m']];
      try discriminate Hlen; cbn; auto.
Qed.

(** * Running the operations on Python objects *)

Section Runs.
Implicit Types (s : state) (a i : nat) (k : string) (d : pydict).

Lemma deref_run s a : deref (VRef a) s = (Ok (st_heap s !! a), s).
Proof. reflexivity. Qed.

Lemma getindex_run s a l i x :
  st_heap s !! a = Some (OList l) -> l !! i = Some x ->
  getindex (VRef a) i s = (Ok x, s).
Proof.
  intros Ha Hi. unfold getindex. rewrite bind_run, deref_run, Ha, Hi.
  reflexivity.
Qed.

Lemma getindex_out_of_range s a l i :
  st_heap s !! a = Some (OList l) -> l !! i = None ->
  getindex (VRef a) i s = (Raise IndexError, s).
Proof.
  intros Ha Hi. unfold getindex. rewrite bind_run, deref_run, Ha, Hi.
  reflexivity.
Qed.

Lemma getitem_run s a d k x :
  st_heap s !! a = Some (ODict d) -> dict_get k d = Some x ->
  getitem (VRef a) k s = (Ok x, s).
Proof.
  intros Ha Hk. unfold getitem. rewrite bind_run, deref_run, Ha, Hk.
  reflexivity.
Qed.

Lemma contains_run s a d k :
  st_heap s !! a = Some (ODict d) ->
  contains k (VRef a) s = (Ok (dict_mem k d), s).
Proof.
  intros Ha. unfold contains. rewrite bind_run, deref_run, Ha. reflexivity.
Qed.

Lemma truthy_dict_run s a d :
  st_heap s !! a = Some (ODict d) ->
  truthy (VRef a) s = (Ok (negb (Nat.eqb (length d) 0)), s).
Proof.
  intros Ha. unfold truthy. rewrite bind_run, deref_run, Ha. reflexivity.
Qed.

Lemma star_run s a d :
  st_heap s !! a = Some (ODict d) -> star (VRef a) s = (Ok d, s).
Proof.
  intros Ha. unfold star. rewrite bind_run, deref_run, Ha. reflexivity.
Qed.

Lemma isinstance_list_run s v :
  isinstance_list v s
  = (Ok match v with
        | VRef a =>
            match st_heap s !! a with Some (OList _) => true | _ => false end
        | _ => false
        end, s).
Proof.
  unfold isinstance_list. rewrite bind_run.
  destruct v; try reflexivity.
  rewrite deref_run. destruct (st_heap s !! a) as [[] |]; reflexivity.
Qed.

Lemma setitem_run s a d k x :
  st_heap s !! a = Some (ODict d) ->
  setitem (VRef a) k x s
  = (Ok tt, with_heap (<[a := ODict (dict_set k x d)]> (st_heap s)) s).
Proof.
  intros Ha. unfold setitem. rewrite bind_run, deref_run, Ha.
  reflexivity.
Qed.

Lemma default_in_place_run s a d k x :
  st_heap s !! a = Some (ODict d) ->
  default_in_place (VRef a) k x s
  = (Ok tt, with_heap (<[a := ODict (setdefault k x d)]> (st_heap s)) s).
Proof.
  intros Ha. unfold default_in_place.
  rewrite bind_run, (contains_run _ _ _ _ Ha). unfold setdefault.
  destruct (dict_mem k d).
  - unfold ret, with_heap. rewrite (list_insert_id _ _ _ Ha).
    rewrite state_eta. reflexivity.
  - apply setitem_run, Ha.
Qed.

Lemma keywords_run s reserved explicit d :
  existsb (fun k => dict_mem k d) (reserved ++ dict_keys explicit) = false ->
  keywords reserved explicit d s = (Ok (explicit ++ d), s).
Proof. intros H. unfold keywords. rewrite H. reflexivity. Qed.

Lemma on_axes_main_run s fg f :
  st_fig s = Some fg ->
  on_axes Main f s
  = (Ok tt, with_fig (Some (set_panel Main (f (ax1 fg)) fg)) s).
Proof. intros H. unfold on_axes. rewrite H. reflexivity. Qed.

End Runs.

Section DictFacts.
Context {V : Type}.
Implicit Types (d : list (string * V)) (k : string).

Lemma dict_get_set_eq d k v : dict_get k (dict_set k v d) = Some v.
Proof.
  induction d as [| [k' v'] d IH]; cbn.
  - rewrite String.eqb_refl. reflexivity.
  - destruct (String.eqb k k') eqn:E; cbn; rewrite ?String.eqb_refl, ?E; auto.
Qed.

Lemma dict_get_set_ne d k k' v :
  k <> k' -> dict_get k' (dict_set k v d) = dict_get k' d.
Proof.
  intros Hne. induction d as [| [k0 v0] d IH]; cbn.
  - destruct (String.eqb k' k) eqn:E; [ | reflexivity ].
    apply String.eqb_eq in E. congruence.
  - destruct (String.eqb k k0) eqn:E; cbn.
    + apply String.eqb_eq in E. subst k0.
      destruct (String.eqb k' k) eqn:E'; [ | reflexivity ].
      apply String.eqb_eq in E'. congruence.
    + rewrite IH. reflexivity.
Qed.

End DictFacts.

Lemma dict_mem_setdefault_self (d : pydict) k v :
  dict_mem k (setdefault k v d) = true.
Proof.
  unfold setdefault. destruct (dict_mem k d) eqn:E; [ exact E | ].
  unfold dict_mem. rewrite dict_get_set_eq. reflexivity.
Qed.

Lemma dict_get_setdefault (d : pydict) k k' v :
  k <> k' -> dict_get k' (setdefault k v d) = dict_get k' d.
Proof.
  intros Hne. unfold setdefault. destruct (dict_mem k d); [ reflexivity | ].
  apply dict_get_set_ne, Hne.
Qed.

Lemma dict_get_setdefault_some (d : pydict) k k' v x :
  dict_get k' d = Some x -> dict_get k' (setdefault k v d) = Some x.
Proof.
  intros H. destruct (String.eqb_spec k k') as [-> | Hne].
  - unfold setdefault, dict_mem. rewrite H. exact H.
  - rewrite dict_get_setdefault by exact Hne. exact H.
Qed.

Lemma setdefault_idem (d : pydict) k v :
  setdefault k v (setdefault k v d) = setdefault k v d.
Proof.
  unfold setdefault at 1. rewrite dict_mem_setdefault_self. reflexivity.
Qed.

(** ** Enumerated lists *)

Lemma combine_seq_in {A} (l : list A) : forall n k x,
  In (k, x) (combine (seq n (length l)) l) ->
  (n <= k)%nat /\ l !! (k - n)%nat = Some x.
Proof.
  induction l as [| z l IH]; intros n k x H; [ contradiction H | ].
  cbn [length seq combine] in H. destruct H as [H | H].
  - inversion H; subst. rewrite Nat.sub_diag. split; [ lia | reflexivity ].
  - destruct (IH (S n) k x H) as [Hle Hl]. split; [ lia | ].
    replace (k - n)%nat with (S (k - S n)) by lia. exact Hl.
Qed.

Lemma enumerate_lookup {A} (l : list A) (ix : nat * A) :
  In ix (enumerate l) -> l !! fst ix = Some (snd ix).
Proof.
  destruct ix as [k x]. unfold enumerate. intros H.
  destruct (combine_seq_in l 0 k x H) as [_ Hl].
  rewrite Nat.sub_0_r in Hl. exact Hl.
Qed.

Lemma enumerate_in {A} (l : list A) (ix : nat * A) :
  In ix (enumerate l) -> In (snd ix) l.
Proof.
  intros H. apply enumerate_lookup in H.
  apply list_elem_of_In, list_elem_of_lookup. eauto.
Qed.

Lemma zip_lookup_in {A B} (l : list A) (k : list B) i x y :
  l !! i = Some x -> k !! i = Some y -> In (x, y) (zip l k).
Proof.
  intros Hx Hy. apply list_elem_of_In, list_elem_of_lookup. exists i.
  apply lookup_zip_with_Some. eauto.
Qed.

(** * The checks on the configuration *)

Section Checks.
Context `{C : Collab}.

Lemma print_boxes_ok (bs : list box) (s : state) :
  Forall (fun b => b <> BoxList []) bs -> print_boxes bs s = (Ok tt, s).
Proof.
  unfold print_boxes. induction 1 as [| b bs Hb _ IH]; [ reflexivity | ].
  cbn [for_each]. unfold bind.
  destruct b as [ | | items | | | | ]; try (cbn; exact IH).
  destruct items; [ contradiction Hb; reflexivity | cbn; exact IH ].
Qed.

Lemma length_mismatch_run
    (a : args) (addr : nat) (l : list pyval) (s : state) :
  plot_kwargs a = Some addr ->
  st_heap s !! addr = Some (OList l) ->
  length l <> length (boxes a) ->
  Forall (fun b => b <> BoxList []) (boxes a) ->
  plot_spectrum a s
  = (Raise (ValueError (LenMismatch (length (boxes a)) (length l))),
     style_set s).
Proof.
  intros Hpk Hl Hlen Hbs.
  unfold plot_spectrum. rewrite bind_run.
  unfold draw_main. rewrite bind_run.
  unfold setup. rewrite bind_run.
  unfold open_figure. rewrite bind_run, (print_boxes_ok _ _ Hbs).
  do 3 (rewrite bind_run; unfold set_rc at 1).
  rewrite bind_run. unfold init_plot_kwargs. rewrite Hpk.
  rewrite bind_run. unfold len. rewrite bind_run.
  unfold deref. rewrite bind_run. unfold get_heap, ret.
  cbn [st_heap st_rc st_fig st_out]. rewrite Hl.
  destruct (Nat.eqb (length (boxes a)) (length l)) eqn:E.
  - apply Nat.eqb_eq in E. congruence.
  - reflexivity.
Qed.

Lemma print_boxes_empty_list (bs : list box) (s : state) :
  In (BoxList []) bs -> print_boxes bs s = (Raise IndexError, s).
Proof.
  unfold print_boxes. induction bs as [| b bs IH]; [ intros [] | ].
  intros [-> | Hin]; [ reflexivity | ].
  cbn [for_each]. rewrite bind_run.
  destruct b as [ | | [| item items] | | | | ]; cbn; try exact (IH Hin).
  reflexivity.
Qed.

Lemma empty_list_or_none (bs : list box) :
  Forall (fun b => b <> BoxList []) bs \/ In (BoxList []) bs.
Proof.
  induction bs as [| b bs [IH | IH]].
  - left. constructor.
  - destruct b as [ | | [| item items] | | | | ];
      try (left; constructor; [ discriminate | exact IH ]).
    right. left. reflexivity.
  - right. right. exact IH.
Qed.

(** C1 (amended).  A call whose [plot_kwargs] is a list with another
    number of entries than [boxes] raises before anything is drawn: no
    figure has been created, the objects of the store are untouched and
    nothing has been shown or saved.  The exception is the ValueError of
    the length check whenever no box is an empty list (the banner printed
    before the check reads the first element of every list among the
    boxes). *)
Theorem length_mismatch_raises_before_drawing
    (a : args) (addr : nat) (l : list pyval) (s : state) :
  plot_kwargs a = Some addr ->
  st_heap s !! addr = Some (OList l) ->
  length l <> length (boxes a) ->
  (exists e, fst (plot_spectrum a s) = Raise e)
  /\ st_fig (snd (plot_spectrum a s)) = st_fig s
  /\ st_heap (snd (plot_spectrum a s)) = st_heap s
  /\ st_out (snd (plot_spectrum a s)) = st_out s
  /\ (Forall (fun b => b <> BoxList []) (boxes a) ->
      fst (plot_spectrum a s)
      = Raise (ValueError (LenMismatch (length (boxes a)) (length l)))).
Proof.
  intros Hpk Hl Hlen.
  destruct (empty_list_or_none (boxes a)) as [Hbs | Hin].
  - rewrite (length_mismatch_run a addr l s Hpk Hl Hlen Hbs).
    split; [ eexists; reflexivity | ]. repeat split; reflexivity.
  - assert (Hrun : plot_spectrum a s = (Raise IndexError, s)).
    { unfold plot_spectrum, draw_main, setup, open_figure.
      repeat rewrite bind_run. rewrite (print_boxes_empty_list _ s Hin).
      reflexivity. }
    rewrite Hrun. split; [ eexists; reflexivity | ].
    do 3 (split; [ reflexivity | ]).
    intros Hbs. exfalso.
    exact (proj1 (List.Forall_forall _ _) Hbs _ Hin eq_refl).
Qed.

Lemma draw_main_out (o : option sink) (a : args) :
  preserves (out_is o) (draw_main a).
Proof. repeat pres_step blind_prim. Qed.

(** C2, as the routine has it.  A call that asks for residuals while no
    [ObjectBox] is among the boxes never completes: it ends in an exception
    and the figure is neither shown nor saved.  The check sits in front of
    the residual panel, behind the loops over the boxes and the filters: when
    these complete, the exception is the ValueError "ObjectBox not found" and
    the state is the one they left, with their draw calls on the figure. *)
Theorem residuals_without_object_raise_after_main
    (a : args) (r : residuals_box) (s : state) :
  residuals a = Some r ->
  find_object (boxes a) = None ->
  (exists e, fst (plot_spectrum a s) = Raise e)
  /\ st_out (snd (plot_spectrum a s)) = st_out s
  /\ (forall pk, fst (draw_main a s) = Ok pk ->
        plot_spectrum a s
          = (Raise (ValueError NoObjectBox), snd (draw_main a s))).
Proof.
  intros Hr Hfind.
  pose proof (draw_main_out (st_out s) a s eq_refl) as Hout.
  unfold out_is in Hout.
  unfold plot_spectrum. rewrite bind_run.
  destruct (draw_main a s) as [[pk | e] s'] eqn:Hmain; cbn [fst snd] in *.
  - rewrite bind_run, Hr. unfold draw_residuals. rewrite Hfind.
    unfold raise. cbn [fst snd].
    split; [ eexists; reflexivity | ].
    split; [ exact Hout | intros pk' _; reflexivity ].
  - split; [ eexists; reflexivity | ].
    split; [ exact Hout | intros pk Hpk; discriminate Hpk ].
Qed.

End Checks.

(** The residual check comes too late to keep the figure empty: here a
    spectrum has been drawn on the main panel when the ValueError is
    raised. *)
Lemma residual_check_after_drawing :
  let a := Sample.with_residuals
             (default_args [Sample.spectrum3 (Fin 1) (Fin 2) (Fin 3)])
             (mk_residuals None None) in
  let r := @plot_spectrum Sample.collab a (init_state []) in
  fst r = Raise (ValueError NoObjectBox)
  /\ main_draws (snd r)
     = [Plot [Val (Fin 1); Val (Fin 2); Val (Fin 3)]
          [Val (Fin 1); Val (Fin 2); Val (Fin 3)] None
          [("lw", VNum (Fin (1 # 2))); ("label", VNone);
           ("zorder", VNum (Fin 2))]].
Proof. vm_compute. split; reflexivity. Qed.

(** An empty list among the boxes with a list [plot_kwargs] of another
    length: the banner raises IndexError and the length check is never
    reached. *)
Lemma empty_list_precedes_the_length_check :
  let a := Sample.with_kwargs (default_args [BoxList []]) 0 in
  let s := init_state [OList [VNone; VNone]] in
  plot_kwargs a = Some 0%nat
  /\ st_heap s !! 0%nat = Some (OList [VNone; VNone])
  /\ length [VNone; VNone] <> length (boxes a)
  /\ fst (@plot_spectrum Sample.collab a s) = Raise IndexError
  /\ fst (@plot_spectrum Sample.collab a s)
     <> Raise (ValueError (LenMismatch 1 2)).
Proof.
  intros a s. split; [ reflexivity | ]. split; [ reflexivity | ].
  split; [ cbn; lia | ]. split; [ reflexivity | discriminate ].
Qed.

Lemma length_mismatch_raises_before_drawing_witness :
  let a := Sample.with_kwargs
             (default_args [Sample.spectrum3 (Fin 1) (Fin 2) (Fin 3)]) 0 in
  let s := init_state [OList [VNone; VNone]] in
  fst (@plot_spectrum Sample.collab a s) = Raise (ValueError (LenMismatch 1 2))
  /\ st_fig (snd (@plot_spectrum Sample.collab a s)) = None
  /\ st_heap (snd (@plot_spectrum Sample.collab a s)) = [OList [VNone; VNone]]
  /\ st_out (snd (@plot_spectrum Sample.collab a s)) = None.
Proof.
  intros a s.
  destruct (@length_mismatch_raises_before_drawing Sample.collab a 0 [VNone; VNone] s)
    as (_ & H2 & H3 & H4 & H5).
  - reflexivity.
  - reflexivity.
  - cbn. lia.
  - split; [ apply H5; repeat constructor; discriminate | ].
    split; [ exact H2 | ]. split; [ exact H3 | exact H4 ].
Defined.

Lemma residuals_without_object_raise_after_main_witness :
  let a := Sample.with_residuals
             (default_args [Sample.spectrum3 (Fin 1) (Fin 2) (Fin 3)])
             (mk_residuals None None) in
  (exists e, fst (@plot_spectrum Sample.collab a (init_state [])) = Raise e)
  /\ st_out (snd (@plot_spectrum Sample.collab a (init_state []))) = None.
Proof.
  intros a.
  destruct (@residuals_without_object_raise_after_main Sample.collab a
              (mk_residuals None None) (init_state []))
    as (H1 & H2 & _).
  - reflexivity.
  - reflexivity.
  - split; [ exact H1 | exact H2 ].
Defined.

(** * Calling the routine twice *)

(** C8 fails on the code.  A first call with [plot_kwargs = [None]] for
    one box succeeds, but the loop over the boxes appends one [None] per
    box to the caller's list (the guard [j < len(boxes)] always holds), so
    the list has two entries when the call returns and a second call with
    the very same list is refused by the length check. *)
Theorem second_call_same_kwargs_raises :
  let a := Sample.with_kwargs
             (default_args [Sample.spectrum3 (Fin 1) (Fin 2) (Fin 3)]) 0 in
  let first := @plot_spectrum Sample.collab a (init_state [OList [VNone]]) in
  let second := @plot_spectrum Sample.collab a (next_call (snd first)) in
  fst first = Ok tt
  /\ st_heap (snd first) = [OList [VNone; VNone]]
  /\ fst second = Raise (ValueError (LenMismatch 1 2))
  /\ st_fig (snd second) = None.
Proof. vm_compute. repeat split; reflexivity. Qed.

(** * Synthetic photometry borrowing the style of the object *)

(** C9 fails on the code when the borrowed style is a list.  The filter
    "X" of the object has two measurements, styled by a list of two
    dictionaries of which the first sets [mfc]; the [SynphotBox] has no style
    of its own.  The branch for a list deletes only [label] from the copy, so
    the call [errorbar(..., mfc="white", **kwargs_copy)] repeats the keyword
    and Python raises TypeError: the two measured points are on the figure,
    the synthetic point is not.  With the same style given as a dictionary
    the sibling branch deletes [mfc] and the point is drawn with a white
    face and the colour of the object. *)
Theorem synphot_list_style_keeps_mfc :
  let a2 := Sample.with_kwargs
              (default_args [Sample.object_twice; Sample.synphot]) 0 in
  let h2 := [OList [VRef 1; VNone]; ODict [("X", VRef 2)];
             OList [VRef 3; VRef 4];
             ODict [("color", VStr "red"); ("mfc", VStr "red")];
             ODict [("color", VStr "blue")]] in
  let r2 := @plot_spectrum Sample.collab a2 (init_state h2) in
  let a1 := Sample.with_kwargs
              (default_args [Sample.object_once; Sample.synphot]) 0 in
  let h1 := [OList [VRef 1; VNone]; ODict [("X", VRef 2)];
             ODict [("color", VStr "red"); ("mfc", VStr "red")]] in
  let r1 := @plot_spectrum Sample.collab a1 (init_state h1) in
  fst r2 = Raise TypeError
  /\ length (main_draws (snd r2)) = 2%nat
  /\ fst r1 = Ok tt
  /\ nth_error (main_draws (snd r1)) 1
     = Some (Errorbar [Val (Fin 1)] [Val (Fin (3 # 2))] (Some (Fin (1 # 10)))
               None
               [("mfc", VStr "white"); ("color", VStr "red");
                ("zorder", VNum (Fin 3))]).
Proof. vm_compute. repeat split; reflexivity. Qed.

(** * The style of a filter with repeated measurements *)

Section RepeatedFilter.
Context `{C : Collab}.
Variables (a : args) (scaling : f64) (j : nat) (item : string).
Variables (apk akj als : nat) (lpk elems : list pyval).

Local Abbreviation styled := (styled j item apk akj als lpk elems).
Local Abbreviation measurement := (measurement a scaling item).
Local Abbreviation measurement_body := (measurement_body a scaling item akj).

Lemma plain_style_setdefault D :
  plain_style D ->
  existsb (fun k => dict_mem k (setdefault "zorder" (num 3) D))
    (["xerr"; "yerr"] ++ dict_keys (V := pyval) []) = false.
Proof.
  intros [Hx Hy]. cbn [app dict_keys map existsb]. unfold dict_mem in *.
  rewrite !dict_get_setdefault by discriminate.
  rewrite Hx, Hy. reflexivity.
Qed.

Lemma main_draws_add s fg d :
  st_fig s = Some fg ->
  main_draws (with_fig (Some (set_panel Main (add_draw d (ax1 fg)) fg)) s)
  = main_draws s ++ [d].
Proof. intros H. unfold main_draws, panel_draws. cbn. rewrite H. reflexivity. Qed.

Lemma measurement_step k D Ds col s :
  plain_style D ->
  styled k (D :: Ds) s ->
  exists s',
    measurement_body (k, col) s = (Ok tt, s')
    /\ main_draws s' = main_draws s ++ [measurement col D]
    /\ styled (S k) Ds s'.
Proof.
  intros Hplain (Hpk & Hj & (dj & Hkj & Hitem) & Hls & Hel & (fg & Hfg)).
  destruct (Hel 0%nat D eq_refl) as (ad & D' & Had & HD' & Hsame).
  rewrite Nat.add_0_r in Had.
  unfold measurement_body. cbn [fst snd].
  rewrite bind_run, (getitem_run _ _ _ _ _ Hkj Hitem).
  rewrite bind_run, (getindex_run _ _ _ _ _ Hls Had).
  rewrite bind_run, (default_in_place_run _ _ _ _ _ HD').
  set (h' := <[ad := ODict (setdefault "zorder" (num 3) D')]> (st_heap s)).
  assert (Hlen : (ad < length (st_heap s))%nat)
    by (eapply lookup_lt_Some; exact HD').
  assert (Had' : h' !! ad = Some (ODict (setdefault "zorder" (num 3) D')))
    by (apply list_lookup_insert_eq; exact Hlen).
  rewrite bind_run, (star_run (with_heap h' s) ad _ Had').
  rewrite Hsame.
  rewrite bind_run, (keywords_run _ _ _ _ (plain_style_setdefault D Hplain)).
  rewrite (on_axes_main_run _ fg) by exact Hfg.
  eexists. split; [ reflexivity | ]. split.
  - apply (main_draws_add (with_heap h' s) fg). exact Hfg.
  - unfold styled. cbn [st_heap st_fig with_heap with_fig].
    assert (Hother : forall b o, st_heap s !! b = Some o ->
              (forall D0, o <> ODict D0) -> h' !! b = Some o).
    { intros b o Hb Ho. unfold h'.
      rewrite list_lookup_insert_ne; [ exact Hb | ].
      intros ->. rewrite HD' in Hb. inversion Hb. eapply Ho. eauto. }
    split; [ apply Hother; [ exact Hpk | discriminate ] | ].
    split; [ exact Hj | ].
    split.
    { destruct (Nat.eq_dec ad akj) as [-> | Hne].
      - rewrite Hkj in HD'. inversion HD'; subst D'.
        eexists. split; [ exact Had' | ].
        apply dict_get_setdefault_some, Hitem.
      - exists dj. split; [ | exact Hitem ].
        unfold h'. rewrite list_lookup_insert_ne by exact Hne. exact Hkj. }
    split; [ apply Hother; [ exact Hls | discriminate ] | ].
    split; [ | eauto ].
    intros i Di HDi.
    destruct (Hel (S i) Di HDi) as (adi & Di' & Hadi & HDi' & Hsi).
    replace (S k + i)%nat with (k + S i)%nat by lia.
    destruct (Nat.eq_dec adi ad) as [-> | Hne].
    + rewrite HD' in HDi'. inversion HDi'; subst Di'.
      exists ad, (setdefault "zorder" (num 3) D').
      split; [ exact Hadi | ]. split; [ exact Had' | ].
      rewrite setdefault_idem. exact Hsi.
    + exists adi, Di'. split; [ exact Hadi | ]. split; [ | exact Hsi ].
      unfold h'. rewrite list_lookup_insert_ne by (intros E; apply Hne; symmetry; exact E).
      exact HDi'.
Qed.

Lemma measurement_loop cols : forall k Ds s,
  Forall plain_style Ds ->
  styled k Ds s ->
  (length Ds < length cols -> length elems = (k + length Ds)%nat) ->
  exists s',
    for_each (combine (seq k (length cols)) cols) measurement_body s
    = (if Nat.leb (length cols) (length Ds) then Ok tt else Raise IndexError,
       s')
    /\ main_draws s' = main_draws s ++ zip_with measurement cols Ds.
Proof.
  induction cols as [| col cols IH]; intros k Ds s Hplain Hst Hshort.
  - exists s. split; [ reflexivity | ]. cbn. rewrite app_nil_r. reflexivity.
  - destruct Ds as [| D Ds].
    + exists s. split; [ | cbn; rewrite app_nil_r; reflexivity ].
      destruct Hst as (Hpk & Hj & (dj & Hkj & Hitem) & Hls & _ & _).
      cbn [length seq combine for_each Nat.leb].
      rewrite bind_run. unfold measurement_body at 1. cbn [fst snd].
      rewrite bind_run, (getitem_run _ _ _ _ _ Hkj Hitem).
      rewrite bind_run, (getindex_out_of_range _ _ _ _ Hls); [ reflexivity | ].
      apply lookup_ge_None. cbn in Hshort. lia.
    + inversion Hplain as [| ? ? HD HDs]; subst.
      destruct (measurement_step k D Ds col s HD Hst) as (s1 & Hrun & Hdr & Hst1).
      destruct (IH (S k) Ds s1 HDs Hst1) as (s' & Hloop & Hdr').
      { intros Hlt. cbn in Hshort. rewrite Hshort by lia. lia. }
      exists s'. split.
      * cbn [length seq combine for_each Nat.leb].
        rewrite bind_run, Hrun. exact Hloop.
      * rewrite Hdr', Hdr. cbn [zip_with]. rewrite <- app_assoc. reflexivity.
Qed.

End RepeatedFilter.

Section C6.
Context `{C : Collab}.

Lemma no_style_for_present s apk lpk j akj dj key x :
  st_heap s !! apk = Some (OList lpk) ->
  lpk !! j = Some (VRef akj) ->
  st_heap s !! akj = Some (ODict dj) ->
  dict_get key dj = Some x ->
  no_style_for (VRef apk) j key s = (Ok false, s).
Proof.
  intros Hpk Hj Hkj Hkey. unfold no_style_for.
  rewrite bind_run, (getindex_run _ _ _ _ _ Hpk Hj).
  rewrite bind_run, (truthy_dict_run _ _ _ Hkj).
  destruct dj as [| e dj']; [ discriminate Hkey | ].
  cbn [length Nat.eqb negb].
  rewrite bind_run, (contains_run _ _ _ _ Hkj).
  unfold dict_mem. rewrite Hkey. reflexivity.
Qed.

(** C6, as the routine has it.  For a filter of an [ObjectBox] whose flux
    is a 2 x N array and for which [plot_kwargs[j]] holds a style, the
    routine only checks that the style is a list: a style that is not a list
    raises the ValueError "A list with N dictionaries are required" before
    any measurement is drawn.  A list whose first [N] entries are
    dictionaries is accepted, however long it is: measurement [i] is drawn
    with dictionary [i] (and [zorder = 3] when the dictionary sets none),
    entries past [N] are not looked at.  A list of fewer than [N]
    dictionaries draws the measurements it has a dictionary for and then
    fails with IndexError, which is not a configuration error. *)
Theorem repeated_filter_style
    (a : args) (scaling : f64) (j : nat) (flux : list (string * phot_value))
    (item : string) (columns : list (f64 * f64)) (plot_obj : option pyval)
    (apk akj : nat) (lpk : list pyval) (dj : pydict) (style : pyval)
    (s : state) (fg : figure) :
  dict_get item flux = Some (Many columns) ->
  st_heap s !! apk = Some (OList lpk) ->
  lpk !! j = Some (VRef akj) ->
  st_heap s !! akj = Some (ODict dj) ->
  dict_get item dj = Some style ->
  st_fig s = Some fg ->
  let run := draw_object_filter a (VRef apk) scaling j flux plot_obj item s in
  ((forall als elems, style = VRef als ->
      st_heap s !! als <> Some (OList elems)) ->
   run = (Raise (ValueError (ListRequired item (length columns))), s))
  /\ (forall als elems Ds,
        style = VRef als ->
        st_heap s !! als = Some (OList elems) ->
        Forall plain_style Ds ->
        dicts_at (st_heap s) elems Ds ->
        (length columns <= length Ds ->
         fst run = Ok plot_obj
         /\ main_draws (snd run)
            = main_draws s ++ zip_with (measurement a scaling item) columns Ds)
        /\ (length Ds < length columns ->
            length elems = length Ds ->
            fst run = Raise IndexError
            /\ main_draws (snd run)
               = main_draws s
                 ++ zip_with (measurement a scaling item) columns Ds)).
Proof.
  intros Hflux Hpk Hj Hkj Hitem Hfg run.
  assert (Hrun : run
    = (is_list <- isinstance_list style ;;
       if negb is_list
       then raise (ValueError (ListRequired item (length columns)))
       else
         for_each (enumerate columns)
           (measurement_body a scaling item akj) ;;
         ret plot_obj) s).
  { unfold run, draw_object_filter. rewrite Hflux. cbv zeta.
    rewrite bind_run, (no_style_for_present _ _ _ _ _ _ _ _ Hpk Hj Hkj Hitem).
    rewrite bind_run, (getindex_run _ _ _ _ _ Hpk Hj).
    rewrite bind_run, (getitem_run _ _ _ _ _ Hkj Hitem).
    reflexivity. }
  rewrite Hrun. clear Hrun run.
  rewrite bind_run, isinstance_list_run. split.
  - intros Hnot. destruct style as [ | | | | | als ]; try reflexivity.
    destruct (st_heap s !! als) as [[d | elems] |] eqn:E; try reflexivity.
    exfalso. exact (Hnot als elems eq_refl E).
  - intros als elems Ds -> Hls Hplain Hds. rewrite Hls. cbn [negb].
    rewrite bind_run. unfold enumerate.
    assert (Hst : styled j item apk akj als lpk elems 0 Ds s).
    { unfold styled. repeat split; eauto.
      intros i D HD. destruct (Hds i D HD) as (ad & Hel & Had).
      exists ad, D. repeat split; assumption. }
    split.
    + intros Hlen.
      destruct (measurement_loop a scaling j item apk akj als lpk elems
                  columns 0%nat Ds s Hplain Hst) as (s' & Hloop & Hdr);
        [ lia | ].
      rewrite Hloop.
      replace (Nat.leb (length columns) (length Ds)) with true
        by (symmetry; apply Nat.leb_le; exact Hlen).
      split; [ reflexivity | exact Hdr ].
    + intros Hlen Helems.
      destruct (measurement_loop a scaling j item apk akj als lpk elems
                  columns 0%nat Ds s Hplain Hst) as (s' & Hloop & Hdr);
        [ intros _; exact Helems | ].
      rewrite Hloop.
      replace (Nat.leb (length columns) (length Ds)) with false
        by (symmetry; apply Nat.leb_gt; exact Hlen).
      split; [ reflexivity | exact Hdr ].
Qed.

End C6.

(** A list of three dictionaries for a filter with two measurements is
    accepted: the first two are used and the third is ignored. *)
Lemma longer_style_list_accepted :
  let a := Sample.with_kwargs (default_args [Sample.object_twice]) 0 in
  let h := [OList [VRef 1]; ODict [("X", VRef 2)];
            OList [VRef 3; VRef 4; VRef 5];
            ODict [("color", VStr "red")]; ODict [("color", VStr "blue")];
            ODict [("color", VStr "green")]] in
  let r := @plot_spectrum Sample.collab a (init_state h) in
  fst r = Ok tt
  /\ main_draws (snd r)
     = [Errorbar [Val (Fin 1)] [Val (Fin 1)] (Some (Fin (1 # 10)))
          (Some [Val (Fin (1 # 10))])
          [("color", VStr "red"); ("zorder", VNum (Fin 3))];
        Errorbar [Val (Fin 1)] [Val (Fin 2)] (Some (Fin (1 # 10)))
          (Some [Val (Fin (1 # 10))])
          [("color", VStr "blue"); ("zorder", VNum (Fin 3))]].
Proof. vm_compute. split; reflexivity. Qed.

Lemma repeated_filter_style_witness :
  let a := default_args [Sample.object_twice] in
  let flux := [("X", Many [(Fin 1, Fin (1 # 10)); (Fin 2, Fin (1 # 10))])] in
  let h := [OList [VRef 1]; ODict [("X", VRef 2)]; OList [VRef 3; VRef 4];
            ODict [("color", VStr "red")]; ODict [("color", VStr "blue")]] in
  let s := mk_state h [] (Some (mk_figure [1%nat] new_axes None None)) None in
  let run := @draw_object_filter Sample.collab a (VRef 0) F64.one 0 flux None
               "X" s in
  fst run = Ok None /\ length (main_draws (snd run)) = 2%nat.
Proof.
  intros a flux h s run.
  destruct (@repeated_filter_style Sample.collab a F64.one 0 flux "X"
              [(Fin 1, Fin (1 # 10)); (Fin 2, Fin (1 # 10))] None
              0 1 [VRef 1] [("X", VRef 2)] (VRef 2) s
              (mk_figure [1%nat] new_axes None None)
              eq_refl eq_refl eq_refl eq_refl eq_refl eq_refl)
    as [_ Hlist].
  destruct (Hlist 2%nat [VRef 3; VRef 4]
              [[("color", VStr "red")]; [("color", VStr "blue")]]
              eq_refl eq_refl) as [Hok _].
  - repeat constructor.
  - intros i D HD. destruct i as [| [| i]]; cbn in HD; inversion HD; subst.
    + exists 3%nat. split; reflexivity.
    + exists 4%nat. split; reflexivity.
  - destruct Hok as [H1 H2]; [ cbn; lia | ].
    subst run. split; [ exact H1 | ]. rewrite H2. reflexivity.
Defined.

(** * Spectra: non-finite samples are gaps *)

Lemma qsign_pos (q : Q) : (0 < q)%Q -> qsign q = Lt.
Proof.
  unfold Qlt, qsign. intros H. apply Z.compare_lt_iff. cbn in H. lia.
Qed.

Section Spectra.
Context `{C : Collab}.
Variables (a : args) (scaling : f64).

Ltac spectrum_side :=
  eexists _, _, _, _;
  split; [ reflexivity | ];
  split; [ | eassumption ];
  first [ left; reflexivity
        | eapply zip_lookup_in; [ apply enumerate_lookup; eassumption | eassumption ] ].

Lemma draw_spectrum_plots pk j d model ds :
  preserves (panel_grows Main (plots_spectrum a scaling d) ds)
    (draw_spectrum a pk scaling j d model).
Proof.
  repeat pres_step ltac:(grows_prim spectrum_side).
Qed.

Lemma scaled_masked_cells w fl y :
  length w = length fl ->
  scaled_masked (waves_if_flux a (map plain w)) (map mask_nan fl) scaling
  = Ok y ->
  y = zip_with (drawn_cell a scaling) w fl.
Proof.
  intros Hlen. unfold waves_if_flux, drawn_cell, scaled_masked.
  destruct (is_quantity "flux" a).
  - unfold broadcast2. rewrite !length_map, Hlen, Nat.eqb_refl.
    intros H. inversion H; subst y; clear H.
    revert fl Hlen. induction w as [| x w IH]; intros [| f fl] Hlen;
      try discriminate Hlen; [ reflexivity | ].
    cbn. f_equal. apply IH. cbn in Hlen. lia.
  - intros H. inversion H; subst y; clear H.
    revert fl Hlen. induction w as [| x w IH]; intros [| f fl] Hlen;
      try discriminate Hlen; [ reflexivity | ].
    cbn. f_equal. apply IH. cbn in Hlen. lia.
Qed.

Lemma nonfinite_cell_masked w f :
  isfinite f = false -> drawn_cell a scaling w f = Masked.
Proof.
  intros Hf. unfold drawn_cell, ma_mul, ma_div, mask_nan.
  destruct f as [ | | | q ]; try discriminate Hf; cbn [isnan];
    destruct (is_quantity "flux" a); try reflexivity;
    destruct w as [ | | | qw ]; destruct scaling as [ | | | qs ];
    cbn; unfold scale_inf;
    repeat match goal with
           | |- context [qsign ?q] => destruct (qsign q); cbn
           | |- context [match Qnum ?q with _ => _ end] =>
               destruct (Qnum q); cbn
           end;
    reflexivity.
Qed.

Lemma finite_cell_drawn w q mq sc :
  (if is_quantity "flux" a then w else F64.one) = Fin mq ->
  scaling = Fin sc ->
  (0 < sc)%Q ->
  (Qabs (mq * q) * F64.tiny < sc)%Q ->
  exists q', drawn_cell a scaling w (Fin q) = Val (Fin q')
             /\ (q' == mq * q / sc)%Q.
Proof.
  intros Hm Hs Hsc Hsafe. unfold drawn_cell.
  replace (if is_quantity "flux" a then Val w else Val F64.one)
    with (Val (Fin mq)) by (rewrite <- Hm; destruct (is_quantity "flux" a); reflexivity).
  rewrite Hs. cbn [mask_nan isnan ma_mul F64.mul ma_div F64.div].
  rewrite (qsign_pos sc Hsc). cbn [isfinite negb orb].
  unfold unsafe_divide. cbn [F64.abs F64.mul F64.geb].
  destruct (Qle_bool (Qabs sc) (Qred (Qabs (Qred (mq * q)) * F64.tiny))) eqn:E.
  - exfalso. apply Qle_bool_iff in E.
    rewrite !Qred_correct in E.
    rewrite (Qabs_pos sc) in E by (apply Qlt_le_weak; exact Hsc).
    apply (Qlt_irrefl sc). eapply Qle_lt_trans; [ exact E | exact Hsafe ].
  - eexists. split; [ reflexivity | ].
    rewrite !Qred_correct. reflexivity.
Qed.

End Spectra.

Section Alike.
Context `{C : Collab}.

Lemma draw_spectrum_raises_alike a pk scaling j d d' model :
  same_shape d d' ->
  sim_eq (draw_spectrum a pk scaling j d model)
         (draw_spectrum a pk scaling j d' model).
Proof.
  intros Hsh. destruct d as [w fl | w fl n], d' as [w' fl' | w' fl' n'];
    try contradiction Hsh.
  - destruct Hsh as [<- Hlen]. unfold draw_spectrum.
    destruct w as [| x w]; [ apply sim_eq_raise | ].
    repeat first [ apply scaled_masked_shape; rewrite !length_map; exact Hlen
                 | sim_step ].
  - destruct Hsh as (<- & <- & Hrows). unfold draw_spectrum.
    destruct w as [| x w]; [ apply sim_eq_raise | ].
    apply sim_eq_for_each. intros ix Hin. cbv beta.
    destruct (fl !! fst ix) as [row |] eqn:E.
    + destruct (Forall2_lookup_l _ _ _ _ _ Hrows E) as (row' & E' & Hlen).
      rewrite E'.
      repeat first [ apply scaled_masked_shape; rewrite !length_map; exact Hlen
                   | sim_step ].
    + assert (E' : fl' !! fst ix = None).
      { apply lookup_ge_None. apply lookup_ge_None in E.
        rewrite <- (Forall2_length _ _ _ Hrows). exact E. }
      rewrite E'. apply sim_eq_raise.
Qed.

End Alike.

(** * The order of the numbers *)

Lemma ltb_irrefl x : F64.ltb x x = false.
Proof.
  destruct x as [ | | | q ]; try reflexivity. cbn.
  apply negb_false_iff, Qle_bool_iff, Qle_refl.
Qed.

(** [y <= x] and [z <= y] give [z <= x], for numbers that are not NaN. *)
Lemma not_ltb_trans x y z :
  isnan y = false ->
  F64.ltb x y = false -> F64.ltb y z = false -> F64.ltb x z = false.
Proof.
  intros Hy Hxy Hyz.
  destruct x as [ | | | a ], y as [ | | | b ], z as [ | | | c ];
    try reflexivity; try discriminate.
  cbn in *. apply negb_false_iff in Hxy, Hyz. apply negb_false_iff.
  apply Qle_bool_iff in Hxy, Hyz. apply Qle_bool_iff.
  eapply Qle_trans; eassumption.
Qed.

(** [x < y] gives [x <= y]. *)
Lemma ltb_not_gtb x y : F64.ltb x y = true -> F64.ltb y x = false.
Proof.
  destruct x as [ | | | a ], y as [ | | | b ]; try reflexivity; try discriminate.
  cbn. intros H. apply negb_true_iff in H. apply negb_false_iff.
  apply Qle_bool_iff. destruct (Qlt_le_dec a b) as [Hlt | Hle].
  - apply Qlt_le_weak, Hlt.
  - apply Qle_bool_iff in Hle. congruence.
Qed.

Lemma isnan_abs x : isnan (F64.abs x) = isnan x.
Proof. destruct x; reflexivity. Qed.

Lemma isfinite_notnan x : isfinite x = true -> isnan x = false.
Proof. destruct x; try discriminate; reflexivity. Qed.

(** ** The maximum of an array *)

Lemma fold_max_spec (l : list f64) : forall m0,
  isnan m0 = false ->
  Forall (fun y => isnan y = false) l ->
  let m := fold_left (fun m y => if F64.ltb m y then y else m) l m0 in
  isnan m = false
  /\ (m = m0 \/ In m l)
  /\ F64.ltb m m0 = false
  /\ (forall y, In y l -> F64.ltb m y = false).
Proof.
  induction l as [| y l IH]; intros m0 Hm0 Hl; cbn [fold_left].
  - repeat split; auto using ltb_irrefl. intros y [].
  - inversion Hl as [| ? ? Hy Hl']; subst.
    destruct (F64.ltb m0 y) eqn:E.
    + destruct (IH y Hy Hl') as (Hn & Hin & Hge & Hall).
      repeat split; [ exact Hn | | | ].
      * right. destruct Hin as [-> | Hin]; [ left; reflexivity | right; exact Hin ].
      * apply (not_ltb_trans _ y _ Hy Hge). apply ltb_not_gtb, E.
      * intros z [<- | Hz]; [ exact Hge | apply Hall, Hz ].
    + destruct (IH m0 Hm0 Hl') as (Hn & Hin & Hge & Hall).
      repeat split; [ exact Hn | | exact Hge | ].
      * destruct Hin as [-> | Hin]; [ left; reflexivity | right; right; exact Hin ].
      * intros z [<- | Hz]; [ | apply Hall, Hz ].
        apply (not_ltb_trans _ m0 _ Hm0 Hge E).
Qed.

Lemma np_max_spec (l : list f64) (m : f64) :
  Forall (fun y => isnan y = false) l ->
  np_max l = Some m ->
  isnan m = false /\ In m l /\ (forall y, In y l -> F64.ltb m y = false).
Proof.
  intros Hl. destruct l as [| x l]; [ discriminate | ].
  cbn [np_max]. intros H. inversion H; subst m; clear H.
  inversion Hl as [| ? ? Hx Hl']; subst.
  destruct (fold_max_spec l x Hx Hl') as (Hn & Hin & Hge & Hall).
  repeat split; [ exact Hn | | ].
  - destruct Hin as [-> | Hin]; [ left; reflexivity | right; exact Hin ].
  - intros y [<- | Hy]; [ exact Hge | apply Hall, Hy ].
Qed.

(** ** The running maximum *)

Lemma max_after_refl keep m : isnan m = false -> max_after keep m [] m.
Proof.
  intros Hm. repeat split; auto using ltb_irrefl. intros v [].
Qed.

Lemma max_after_trans keep m0 m1 m2 vals1 vals2 :
  isnan m0 = false ->
  max_after keep m0 vals1 m1 -> max_after keep m1 vals2 m2 ->
  max_after keep m0 (vals1 ++ vals2) m2.
Proof.
  intros Hm0 (Hn1 & Hin1 & Hge1 & Hall1) (Hn2 & Hin2 & Hge2 & Hall2).
  repeat split; [ exact Hn2 | | | ].
  - destruct Hin2 as [-> | (v & Hv & Hk & ->)].
    + destruct Hin1 as [-> | (v & Hv & Hk & ->)]; [ left; reflexivity | ].
      right. exists v. rewrite in_app_iff. auto.
    + right. exists v. rewrite in_app_iff. auto.
  - apply (not_ltb_trans _ m1 _ Hn1 Hge2 Hge1).
  - intros v Hv Hk. apply in_app_iff in Hv. destruct Hv as [Hv | Hv].
    + apply (not_ltb_trans _ m1 _ Hn1 Hge2). apply Hall1; assumption.
    + apply Hall2; assumption.
Qed.

(** One group of values: [max_tmp] is the maximum of the kept entries, or
    NaN when the group has no kept entry and the reduction does not raise. *)
Lemma update_max_after keep m0 vals max_tmp :
  isnan m0 = false ->
  (np_max (map F64.abs (List.filter keep vals)) = Some max_tmp
   \/ (List.filter keep vals = [] /\ max_tmp = NaN)) ->
  (forall v, keep v = true -> isnan v = false) ->
  max_after keep m0 vals (update_max m0 max_tmp).
Proof.
  intros Hm0 Hmax Hkeep. unfold update_max, F64.gtb.
  destruct Hmax as [Hmax | [Hnil ->]].
  - apply np_max_spec in Hmax.
    2:{ apply List.Forall_forall. intros y Hy. apply in_map_iff in Hy.
        destruct Hy as (v & <- & Hv). apply filter_In in Hv.
        rewrite isnan_abs. apply Hkeep, Hv. }
    destruct Hmax as (Hn & Hin & Hall).
    apply in_map_iff in Hin. destruct Hin as (v0 & Hv0 & Hin0).
    apply filter_In in Hin0. destruct Hin0 as [Hin0 Hk0].
    assert (Hbound : forall v, In v vals -> keep v = true ->
                      F64.ltb max_tmp (F64.abs v) = false).
    { intros v Hv Hk. apply Hall. apply in_map, filter_In. auto. }
    destruct (F64.ltb m0 max_tmp) eqn:E.
    + repeat split; [ exact Hn | | apply ltb_not_gtb, E | exact Hbound ].
      right. exists v0. auto.
    + repeat split; [ exact Hm0 | left; reflexivity | apply ltb_irrefl | ].
      intros v Hv Hk. apply (not_ltb_trans _ max_tmp _ Hn E). auto.
  - replace (F64.ltb m0 NaN) with false by (destruct m0; reflexivity).
    repeat split; [ exact Hm0 | left; reflexivity | apply ltb_irrefl | ].
    intros v Hv Hk. exfalso.
    assert (In v (List.filter keep vals)) by (apply filter_In; auto).
    rewrite Hnil in H. contradiction H.
Qed.

(** * The residual panel *)

Lemma bind_ok {A B} (m : M A) (k : A -> M B) s b s' :
  bind m k s = (Ok b, s') ->
  exists x s1, m s = (Ok x, s1) /\ k x s1 = (Ok b, s').
Proof.
  rewrite bind_run. destruct (m s) as [[x | e] s1]; [ eauto | discriminate ].
Qed.

Lemma lift_ok {A} (o : outcome A) s x s' :
  lift o s = (Ok x, s') -> o = Ok x /\ s' = s.
Proof.
  destruct o; cbn; intros H; inversion H; subst; auto.
Qed.

Lemma ret_ok {A} (x y : A) s s' : ret x s = (Ok y, s') -> y = x /\ s' = s.
Proof. intros H. inversion H; auto. Qed.

Lemma filter_notnan_abs (value : list (f64 * f64)) :
  List.filter (fun x => negb (isnan x)) (map (fun r => F64.abs (snd r)) value)
  = map F64.abs (List.filter not_nan (map snd value)).
Proof.
  induction value as [| [w r] value IH]; [ reflexivity | ].
  cbn [map List.filter snd]. unfold not_nan at 1. rewrite isnan_abs.
  destruct (negb (isnan r)); cbn [map]; rewrite IH; reflexivity.
Qed.

Section ResidualLoops.
Context `{C : Collab}.
Variables (pk : pyval) (obj_index : nat).

Lemma residual_photometry_max photometry : forall m0 s m1 s',
  isnan m0 = false ->
  draw_residual_photometry pk obj_index photometry m0 s = (Ok m1, s') ->
  max_after isfinite m0
    (concat (map (fun e => residual_values (snd e)) photometry)) m1.
Proof.
  unfold draw_residual_photometry.
  induction photometry as [| entry photometry IH]; intros m0 s m1 s' Hm0 Hrun.
  - apply ret_ok in Hrun. destruct Hrun as [-> _]. apply max_after_refl, Hm0.
  - cbn [for_fold] in Hrun.
    apply bind_ok in Hrun. destruct Hrun as (acc & s1 & Hbody & Hrest).
    apply bind_ok in Hbody. destruct Hbody as (absent & s2 & _ & Hbody).
    apply bind_ok in Hbody. destruct Hbody as (u & s3 & _ & Hbody).
    apply bind_ok in Hbody. destruct Hbody as (max_tmp & s4 & Hmax & Hret).
    apply lift_ok in Hmax. destruct Hmax as [Hmax _].
    apply ret_ok in Hret. destruct Hret as [-> _].
    unfold max_abs_finite in Hmax.
    destruct (np_max (map F64.abs (List.filter isfinite (residual_values (snd entry)))))
      as [m |] eqn:E; [ | discriminate Hmax ].
    inversion Hmax; subst m; clear Hmax.
    assert (Hstep : max_after isfinite m0 (residual_values (snd entry))
                      (update_max m0 max_tmp)).
    { apply update_max_after; [ exact Hm0 | left; exact E | ].
      intros v Hv. apply isfinite_notnan, Hv. }
    cbn [map concat]. eapply max_after_trans; [ exact Hm0 | exact Hstep | ].
    eapply IH; [ | exact Hrest ]. apply Hstep.
Qed.

Lemma residual_spectra_max spectrum : forall m0 s m1 s',
  isnan m0 = false ->
  draw_residual_spectra pk obj_index spectrum m0 s = (Ok m1, s') ->
  max_after not_nan m0 (concat (map (fun e => map snd (snd e)) spectrum)) m1.
Proof.
  unfold draw_residual_spectra.
  induction spectrum as [| entry spectrum IH]; intros m0 s m1 s' Hm0 Hrun.
  - apply ret_ok in Hrun. destruct Hrun as [-> _]. apply max_after_refl, Hm0.
  - cbn [for_fold] in Hrun.
    apply bind_ok in Hrun. destruct Hrun as (acc & s1 & Hbody & Hrest).
    cbv zeta in Hbody.
    apply bind_ok in Hbody. destruct Hbody as (absent & s2 & _ & Hbody).
    apply bind_ok in Hbody. destruct Hbody as (u & s3 & _ & Hbody).
    apply bind_ok in Hbody. destruct Hbody as (max_tmp & s4 & Hmax & Hret).
    apply lift_ok in Hmax. destruct Hmax as [Hmax _].
    apply ret_ok in Hret. destruct Hret as [-> _].
    assert (Hstep : max_after not_nan m0 (map snd (snd entry))
                      (update_max m0 max_tmp)).
    { apply update_max_after; [ exact Hm0 | | ].
      - unfold np_nanmax in Hmax. rewrite filter_notnan_abs in Hmax.
        destruct (map (fun r => F64.abs (snd r)) (snd entry));
          [ discriminate Hmax | ].
        destruct (np_max (map F64.abs (List.filter not_nan (map snd (snd entry)))))
          as [m |] eqn:E; inversion Hmax; subst.
        + left. reflexivity.
        + right. split; [ | reflexivity ].
          destruct (List.filter not_nan (map snd (snd entry))); [ reflexivity | ].
          discriminate E.
      - intros v Hv. unfold not_nan in Hv. apply negb_true_iff, Hv. }
    cbn [map concat]. eapply max_after_trans; [ exact Hm0 | exact Hstep | ].
    eapply IH; [ | exact Hrest ]. apply Hstep.
Qed.

End ResidualLoops.

Lemma residual_max_finite r m1 q :
  max_after isfinite F64.zero (photometric_residuals r) m1 ->
  max_after not_nan m1 (spectral_residuals r) (Fin q) ->
  is_max_abs_finite (all_residuals r) (Fin q).
Proof.
  intros (Hn1 & Hin1 & _ & Hall1) (_ & Hin2 & Hge2 & Hall2).
  unfold all_residuals. split.
  - destruct Hin2 as [<- | (v & Hv & Hk & Hq)].
    + destruct Hin1 as [Hz | (v & Hv & Hk & Hq)]; [ left; exact Hz | ].
      right. exists v. rewrite in_app_iff. auto.
    + right. exists v. rewrite in_app_iff. split; [ auto | ].
      split; [ | exact Hq ]. destruct v; try discriminate; reflexivity.
  - intros v Hv Hf. apply in_app_iff in Hv. destruct Hv as [Hv | Hv].
    + apply (not_ltb_trans _ m1 _ Hn1 Hge2). apply Hall1; assumption.
    + apply Hall2; [ exact Hv | ]. unfold not_nan.
      rewrite (isfinite_notnan v Hf). reflexivity.
Qed.

Lemma residual_limit_finite m L :
  isnan m = false ->
  residual_limit m = Ok L ->
  exists q, m = Fin q
    /\ L = (if (10 <? Qceiling ((11 # 10) * q))%Z then Fin 5
            else F64.of_Z (Qceiling ((11 # 10) * q))).
Proof.
  intros Hm. unfold residual_limit.
  destruct m as [ | | | q ]; try discriminate.
  cbn [F64.mul math_ceil].
  rewrite (Qceiling_comp _ _ (Qred_correct _)).
  intros H. exists q. split; [ reflexivity | ].
  destruct (10 <? Qceiling ((11 # 10) * q))%Z; inversion H; reflexivity.
Qed.

Lemma five_exceeded (c : Z) :
  F64.ltb (Fin 5) (if (10 <? c)%Z then Fin 5 else F64.of_Z c) = true
  <-> (5 < c <= 10)%Z.
Proof.
  destruct (10 <? c)%Z eqn:E.
  - apply Z.ltb_lt in E. rewrite ltb_irrefl. split; [ discriminate | lia ].
  - apply Z.ltb_ge in E. unfold F64.of_Z. cbn [F64.ltb].
    rewrite negb_true_iff. split.
    + intros H. split; [ | exact E ].
      destruct (Z_lt_le_dec 5 c) as [Hlt | Hle]; [ exact Hlt | ].
      exfalso. assert (Qle_bool (inject_Z c) 5 = true); [ | congruence ].
      apply Qle_bool_iff. change 5%Q with (inject_Z 5). rewrite <- Zle_Qle.
      exact Hle.
    + intros [Hlt _]. destruct (Qle_bool (inject_Z c) 5) eqn:E'; [ | reflexivity ].
      apply Qle_bool_iff in E'. change 5%Q with (inject_Z 5) in E'.
      rewrite <- Zle_Qle in E'. lia.
Qed.

(** ** The state of the residual panel *)

Lemma on_axes_ok p f s u s' :
  on_axes p f s = (Ok u, s') ->
  exists fg ax, st_fig s = Some fg /\ get_panel p fg = Some ax
                /\ s' = with_fig (Some (set_panel p (f ax) fg)) s.
Proof.
  unfold on_axes. destruct (st_fig s) as [fg |] eqn:Hfg; [ | discriminate ].
  destruct (get_panel p fg) as [ax |] eqn:Hp; [ | discriminate ].
  intros H. inversion H; subst. exists fg, ax.
  split; [ reflexivity | ]. split; [ exact Hp | reflexivity ].
Qed.

#[export] Instance panel_is_heap_blind p ax : HeapBlind (panel_is p ax).
Proof. intros s h Hs. exact Hs. Qed.
#[export] Instance panel_is_rc_blind p ax : RcBlind (panel_is p ax).
Proof. intros s h Hs. exact Hs. Qed.
#[export] Instance panel_is_out_blind p ax : OutBlind (panel_is p ax).
Proof. intros s h Hs. exact Hs. Qed.

Lemma panel_is_on_axes_other p q ax f :
  p <> q -> preserves (panel_is p ax) (on_axes q f).
Proof.
  intros Hne s (fg & Hfg & Hp). rewrite on_axes_state, Hfg.
  destruct (get_panel q fg) as [axq |]; [ | exists fg; auto ].
  eexists. split; [ reflexivity | ].
  rewrite get_set_panel_ne by exact Hne. exact Hp.
Qed.

Ltac panel_is_prim :=
  first [ apply preserves_put_heap; typeclasses eauto
        | apply preserves_set_rc; typeclasses eauto
        | apply preserves_put_out; typeclasses eauto
        | apply panel_is_on_axes_other; discriminate ].

Ltac data_prim := grows_prim ltac:(exact I).

Section ResidualPanel.
Context `{C : Collab}.

Lemma open_figure_fresh a s pk s0 p P :
  open_figure a s = (Ok pk, s0) -> panel_grows p P [] s0.
Proof.
  unfold open_figure. intros H.
  do 5 (apply bind_ok in H; destruct H as (? & ? & _ & H)).
  apply bind_ok in H. destruct H as (u & s1 & Hfig & H).
  apply ret_ok in H. destruct H as [_ ->].
  exists []. split; [ | constructor ].
  unfold make_figure, put_fig in Hfig.
  destruct (residuals a), (filters a); inversion Hfig; subst;
    destruct p; reflexivity.
Qed.

Lemma setup_axes_data a ds : preserves (panel_grows Resid is_data ds) (setup_axes a).
Proof. repeat pres_step data_prim. Qed.

Lemma draw_boxes_data a pk scaling ds :
  preserves (panel_grows Resid is_data ds) (draw_boxes a pk scaling).
Proof. repeat pres_step data_prim. Qed.

Lemma draw_filters_data a ds :
  preserves (panel_grows Resid is_data ds) (draw_filters a).
Proof. repeat pres_step data_prim. Qed.

Lemma residual_photometry_data pk oi photometry m0 ds :
  preserves (panel_grows Resid is_data ds)
    (draw_residual_photometry pk oi photometry m0).
Proof. repeat pres_step data_prim. Qed.

Lemma residual_spectra_data pk oi spectrum m0 ds :
  preserves (panel_grows Resid is_data ds)
    (draw_residual_spectra pk oi spectrum m0).
Proof. repeat pres_step data_prim. Qed.

Lemma finish_keeps_residual_panel a ax :
  preserves (panel_is Resid ax) (finish a).
Proof. repeat pres_step panel_is_prim. Qed.

Lemma draw_main_data a s pk s1 :
  draw_main a s = (Ok pk, s1) -> panel_grows Resid is_data [] s1.
Proof.
  unfold draw_main. intros H.
  apply bind_ok in H. destruct H as (ps & s2 & Hsetup & H).
  unfold setup in Hsetup.
  apply bind_ok in Hsetup. destruct Hsetup as (pk0 & s3 & Hopen & Hsetup).
  apply bind_ok in Hsetup. destruct Hsetup as (sc & s4 & Haxes & Hret).
  apply ret_ok in Hret. destruct Hret as [-> ->].
  apply bind_ok in H. destruct H as (u & s5 & Hboxes & H).
  apply bind_ok in H. destruct H as (u' & s6 & Hfilters & H).
  apply ret_ok in H. destruct H as [_ ->].
  pose proof (open_figure_fresh a s pk0 s3 Resid is_data Hopen) as H3.
  pose proof (setup_axes_data a [] s3 H3) as H4. rewrite Haxes in H4.
  pose proof (draw_boxes_data a pk0 sc [] s4 H4) as H5.
  cbn [fst snd] in Hboxes. rewrite Hboxes in H5.
  pose proof (draw_filters_data a [] s5 H5) as H6. rewrite Hfilters in H6.
  exact H6.
Qed.

End ResidualPanel.

Lemma panel_is_unique p ax ax' s : panel_is p ax s -> panel_is p ax' s -> ax = ax'.
Proof.
  intros (fg & Hfg & Hp) (fg' & Hfg' & Hp'). congruence.
Qed.

Lemma on_axes_panel_is p f s u s' :
  on_axes p f s = (Ok u, s') ->
  exists ax, panel_is p ax s /\ panel_is p (f ax) s'.
Proof.
  intros H. apply on_axes_ok in H. destruct H as (fg & ax & Hfg & Hp & ->).
  exists ax. split; [ exists fg; auto | ].
  eexists. split; [ reflexivity | apply get_set_panel_eq ].
Qed.

Lemma panel_is_draws p ax s : panel_is p ax s -> panel_draws p s = a_draws ax.
Proof. intros (fg & Hfg & Hp). eapply panel_draws_get; eassumption. Qed.

Lemma panel_is_ylim p ax s : panel_is p ax s -> panel_ylim p s = a_ylim ax.
Proof.
  intros (fg & Hfg & Hp). unfold panel_ylim. rewrite Hfg, Hp. reflexivity.
Qed.

Lemma is_data_not_in (d : draw) (data : list draw) :
  Forall is_data data -> ~ is_data d -> ~ In d data.
Proof.
  intros Hall Hd Hin. apply Hd. rewrite List.Forall_forall in Hall. auto.
Qed.

Section ResidualTheorem.
Context `{C : Collab}.

(** The draw calls on the residual panel once its reference lines are in
    place: the data, the dashed line at zero and, if wanted, the dotted lines
    at -5 and +5. *)
Lemma residual_lines a pk r s s2 :
  panel_grows Resid is_data [] s ->
  draw_residuals a pk r s = (Ok tt, s2) ->
  exists q data ax,
    is_max_abs_finite (all_residuals r) (Fin q)
    /\ Forall is_data data
    /\ panel_is Resid ax s2
    /\ let limit :=
         if (10 <? Qceiling ((11 # 10) * q))%Z then Fin 5
         else F64.of_Z (Qceiling ((11 # 10) * q)) in
       a_draws ax
       = data ++ [zero_line]
         ++ (if wants_five_lines limit (ylim_res a)
             then [five_line (Fin (-5)); five_line (Fin 5)] else [])
       /\ a_ylim ax
          = Some match ylim_res a with
                 | None => (F64.neg limit, limit)
                 | Some l => l
                 end.
Proof.
  intros Hdata H. unfold draw_residuals in H.
  destruct (find_object (boxes a)) as [oi |]; [ | discriminate H ].
  apply bind_ok in H. destruct H as (m1 & sa & Hphot & H).
  apply bind_ok in H. destruct H as (m2 & sb & Hspec & H).
  apply bind_ok in H. destruct H as (L & sb' & Hlim & H).
  apply lift_ok in Hlim. destruct Hlim as [Hlim ->].
  apply bind_ok in H. destruct H as (u1 & sc & Hzero & H).
  apply bind_ok in H. destruct H as (u2 & sd & Hfive & Hylim).
  (* the running maximum *)
  assert (Hm1 : max_after isfinite F64.zero (photometric_residuals r) m1
                /\ panel_grows Resid is_data [] sa).
  { unfold photometric_residuals.
    destruct (res_photometry r) as [photometry |].
    - split; [ eapply residual_photometry_max; [ reflexivity | exact Hphot ] | ].
      pose proof (residual_photometry_data pk oi photometry F64.zero [] s Hdata) as Hp.
      rewrite Hphot in Hp. exact Hp.
    - apply ret_ok in Hphot. destruct Hphot as [-> ->].
      split; [ apply max_after_refl; reflexivity | exact Hdata ]. }
  destruct Hm1 as [Hm1 Hsa].
  assert (Hm2 : max_after not_nan m1 (spectral_residuals r) m2
                /\ panel_grows Resid is_data [] sb).
  { unfold spectral_residuals.
    destruct (res_spectrum r) as [spectrum |].
    - split; [ eapply residual_spectra_max; [ apply Hm1 | exact Hspec ] | ].
      pose proof (residual_spectra_data pk oi spectrum m1 [] sa Hsa) as Hp.
      rewrite Hspec in Hp. exact Hp.
    - apply ret_ok in Hspec. destruct Hspec as [-> ->].
      split; [ apply max_after_refl, Hm1 | exact Hsa ]. }
  destruct Hm2 as [Hm2 Hsb].
  destruct (residual_limit_finite m2 L) as (q & -> & HL);
    [ apply Hm2 | exact Hlim | ].
  destruct Hsb as (data & Hdraws & Hall). cbn [app] in Hdraws.
  (* the reference lines *)
  apply on_axes_panel_is in Hzero. destruct Hzero as (ax0 & Hb & Hc).
  rewrite (panel_is_draws _ _ _ Hb) in Hdraws.
  assert (Hd : exists axd,
             panel_is Resid axd sd
             /\ a_draws axd
                = data ++ [zero_line]
                  ++ (if wants_five_lines L (ylim_res a)
                      then [five_line (Fin (-5)); five_line (Fin 5)] else [])
             /\ a_ylim axd = a_ylim ax0).
  { destruct (wants_five_lines L (ylim_res a)); cbn [when] in Hfive.
    - apply bind_ok in Hfive. destruct Hfive as (u3 & se & Hminus & Hplus).
      apply on_axes_panel_is in Hminus. destruct Hminus as (ax1' & Hc' & He).
      rewrite <- (panel_is_unique _ _ _ _ Hc Hc') in He.
      apply on_axes_panel_is in Hplus. destruct Hplus as (ax2' & He' & Hd).
      rewrite <- (panel_is_unique _ _ _ _ He He') in Hd.
      eexists. split; [ exact Hd | ]. cbn. rewrite Hdraws, <- !app_assoc.
      split; reflexivity.
    - apply ret_ok in Hfive. destruct Hfive as [_ ->].
      eexists. split; [ exact Hc | ]. cbn. rewrite Hdraws. split; reflexivity. }
  destruct Hd as (axd & Hd & Hdd & Hdy).
  exists q, data. subst L.
  destruct (ylim_res a) as [[lo hi] |];
    apply on_axes_panel_is in Hylim; destruct Hylim as (axd' & Hd' & H2);
    rewrite <- (panel_is_unique _ _ _ _ Hd Hd') in H2;
    (eexists; split; [ eapply residual_max_finite; eassumption | ];
     split; [ exact Hall | ]; split; [ exact H2 | ];
     split; [ exact Hdd | reflexivity ]).
Qed.

End ResidualTheorem.

Lemma wants_five_lines_iff limit ylim_res :
  wants_five_lines limit ylim_res = true
  <-> (F64.ltb (Fin 5) limit = true
       \/ exists lo hi, ylim_res = Some (lo, hi)
                        /\ F64.ltb lo (Fin (-5)) = true
                        /\ F64.ltb (Fin 5) hi = true).
Proof.
  unfold wants_five_lines, F64.gtb. rewrite orb_true_iff. split.
  - intros [H | H]; [ left; exact H | right ].
    destruct ylim_res as [[lo hi] |]; [ | discriminate H ].
    apply andb_true_iff in H. exists lo, hi. tauto.
  - intros [H | (lo & hi & -> & H1 & H2)]; [ left; exact H | right ].
    rewrite H1, H2. reflexivity.
Qed.

Section ResidualPanel.
Context `{C : Collab}.

(** The residual panel of a call that completes.  Let [q] be the largest
    absolute value among the finite residuals (zero if there is none) and
    [ceiling] the ceiling of 1.1 [q].  The limit of the residual panel is
    [ceiling], reset to 5 exactly when [ceiling] exceeds 10; with [ylim_res]
    unset the y-range of the panel is symmetric at that limit, else it is
    [ylim_res].  The dashed line at 0 is always drawn.  The dotted lines at
    -5 and +5 are drawn exactly when the limit exceeds 5 (that is, for a
    ceiling from 6 to 10) or [ylim_res] is given with a lower bound below
    -5 and an upper bound above 5. *)
Theorem residual_limit_and_reference_lines
    (a : args) (r : residuals_box) (s : state) :
  residuals a = Some r ->
  fst (plot_spectrum a s) = Ok tt ->
  exists q,
    is_max_abs_finite (all_residuals r) (Fin q)
    /\ let ceiling := Qceiling ((11 # 10) * q) in
       let limit := if (10 <? ceiling)%Z then Fin 5 else F64.of_Z ceiling in
       let final := snd (plot_spectrum a s) in
       (ylim_res a = None ->
        panel_ylim Resid final = Some (F64.neg limit, limit))
       /\ (forall l, ylim_res a = Some l -> panel_ylim Resid final = Some l)
       /\ In zero_line (panel_draws Resid final)
       /\ (forall y, y = Fin 5 \/ y = Fin (-5) ->
             (In (five_line y) (panel_draws Resid final)
              <-> (F64.ltb (Fin 5) limit = true
                   \/ exists lo hi, ylim_res a = Some (lo, hi)
                                    /\ F64.ltb lo (Fin (-5)) = true
                                    /\ F64.ltb (Fin 5) hi = true)))
       /\ (F64.ltb (Fin 5) limit = true <-> (5 < ceiling <= 10)%Z).
Proof.
  intros Hr Hok.
  destruct (plot_spectrum a s) as [o s3] eqn:Hrun. cbn [fst snd] in *. subst o.
  unfold plot_spectrum in Hrun.
  apply bind_ok in Hrun. destruct Hrun as (pk & s1 & Hmain & Hrun).
  rewrite Hr in Hrun.
  apply bind_ok in Hrun. destruct Hrun as ([] & s2 & Hres & Hfin).
  destruct (residual_lines a pk r s1 s2 (draw_main_data a s pk s1 Hmain) Hres)
    as (q & data & ax & Hmax & Hall & Hax & Hdraws & Hylim).
  pose proof (finish_keeps_residual_panel a ax s2 Hax) as Hax3.
  rewrite Hfin in Hax3. cbn [snd] in Hax3.
  exists q. split; [ exact Hmax | ]. cbv zeta.
  rewrite (panel_is_ylim _ _ _ Hax3), (panel_is_draws _ _ _ Hax3), Hylim, Hdraws.
  split; [ intros ->; reflexivity | ].
  split; [ intros l ->; reflexivity | ].
  split; [ apply in_or_app; right; left; reflexivity | ].
  split; [ | apply five_exceeded ].
  intros y Hy. rewrite <- wants_five_lines_iff. split.
  - intros Hin. apply in_app_or in Hin. destruct Hin as [Hin | Hin].
    + exfalso. revert Hin. apply is_data_not_in; [ exact Hall | ].
      intros H. exact H.
    + destruct Hin as [Hz | Hin].
      * exfalso. destruct Hy as [-> | ->]; inversion Hz.
      * destruct (wants_five_lines _ _); [ reflexivity | contradiction Hin ].
  - intros ->. apply in_or_app. right. right.
    destruct Hy as [-> | ->]; [ right; left | left ]; reflexivity.
Qed.

End ResidualPanel.

(** The residuals -3.2, 4.9 and 1.0 of the filter "X": the largest is 4.9,
    the ceiling of 5.39 is 6, the panel runs from -6 to 6 and the dotted
    lines are drawn. *)
Lemma residual_limit_and_reference_lines_witness :
  let r := mk_residuals
             (Some [("X", RMany [(Fin 1, Fin (-32 # 10)); (Fin 1, Fin (49 # 10));
                                 (Fin 1, Fin 1)])]) None in
  let a := Sample.with_residuals (default_args [Sample.object_once]) r in
  let final := snd (@plot_spectrum Sample.collab a (init_state [])) in
  In zero_line (panel_draws Resid final).
Proof.
  intros r a final.
  destruct (@residual_limit_and_reference_lines Sample.collab a r
              (init_state []) eq_refl)
    as (q & _ & _ & _ & Hzero & _).
  - vm_compute. reflexivity.
  - exact Hzero.
Defined.

Example residual_limit_six :
  let r := mk_residuals
             (Some [("X", RMany [(Fin 1, Fin (-32 # 10)); (Fin 1, Fin (49 # 10));
                                 (Fin 1, Fin 1)])]) None in
  let a := Sample.with_residuals (default_args [Sample.object_once]) r in
  let final := snd (@plot_spectrum Sample.collab a (init_state [])) in
  panel_ylim Resid final = Some (Fin (-6), Fin 6)
  /\ In (five_line (Fin 5)) (panel_draws Resid final)
  /\ In (five_line (Fin (-5))) (panel_draws Resid final).
Proof.
  vm_compute. split; [ reflexivity | ].
  split; [ do 5 right | do 4 right ]; left; reflexivity.
Qed.

(** C4 fails on the code.  The photometric residuals are filtered with
    [np.isfinite] before the maximum is taken, the spectral residuals go
    through [np.nanmax], which skips NaN only.  With the residuals 2 and
    +inf of a spectrum the maximum is infinite and [math.ceil] raises
    OverflowError: the residual panel gets neither its limits nor the line
    at zero and the figure is not shown.  With the same two residuals for a
    filter the infinite one is skipped, as the claim has it: the ceiling of
    2.2 is 3, the panel runs from -3 to 3 and the line at zero is drawn. *)
Theorem infinite_spectral_residual_raises :
  let spectral :=
    mk_residuals None (Some [("S", [(Fin 1, Fin 2); (Fin 2, PInf)])]) in
  let photometric :=
    mk_residuals (Some [("X", RMany [(Fin 1, Fin 2); (Fin 1, PInf)])]) None in
  let run r :=
    @plot_spectrum Sample.collab
      (Sample.with_residuals (default_args [Sample.object_once]) r)
      (init_state []) in
  fst (run spectral) = Raise OverflowError
  /\ panel_ylim Resid (snd (run spectral)) = None
  /\ ~ In zero_line (panel_draws Resid (snd (run spectral)))
  /\ st_out (snd (run spectral)) = None
  /\ fst (run photometric) = Ok tt
  /\ panel_ylim Resid (snd (run photometric)) = Some (Fin (-3), Fin 3)
  /\ In zero_line (panel_draws Resid (snd (run photometric))).
Proof.
  intros spectral photometric run.
  split; [ vm_compute; reflexivity | ].
  split; [ vm_compute; reflexivity | ].
  split; [ vm_compute; intros [H | []]; discriminate H | ].
  split; [ vm_compute; reflexivity | ].
  split; [ vm_compute; reflexivity | ].
  split; [ vm_compute; reflexivity | ].
  vm_compute. do 2 right. left. reflexivity.
Qed.

(** * The decimal exponent *)

Section DecimalExponent.
Local Open Scope Z_scope.

Lemma ilog10_up_spec fuel : forall n d k0,
  0 < d <= n -> n < d * 2 ^ Z.of_nat fuel ->
  let k := ilog10_up fuel n d k0 in
  k0 <= k /\ d * 10 ^ (k - k0) <= n < d * 10 ^ (k - k0 + 1).
Proof.
  induction fuel as [| fuel IH]; intros n d k0 Hd Hn; cbn [ilog10_up].
  - cbn in Hn. lia.
  - destruct (d * 10 <=? n) eqn:E.
    + apply Z.leb_le in E.
      destruct (IH n (d * 10) (k0 + 1)) as (Hk & Hlo & Hhi); [ lia | | ].
      { rewrite Nat2Z.inj_succ, Z.pow_succ_r in Hn by lia. nia. }
      set (k := ilog10_up fuel n (d * 10) (k0 + 1)) in *.
      replace (k - k0) with (Z.succ (k - (k0 + 1))) by lia.
      replace (Z.succ (k - (k0 + 1)) + 1) with (Z.succ (k - (k0 + 1) + 1)) by lia.
      rewrite !Z.pow_succ_r by lia.
      split; [ lia | ]. split; [ nia | nia ].
    + apply Z.leb_gt in E. rewrite Z.sub_diag. cbn. lia.
Qed.

Lemma ilog10_down_spec fuel : forall n d k0,
  0 < n < d -> d < n * 2 ^ Z.of_nat fuel ->
  let k := ilog10_down fuel n d k0 in
  k0 + 1 <= k /\ n * 10 ^ (k - k0 - 1) < d <= n * 10 ^ (k - k0).
Proof.
  induction fuel as [| fuel IH]; intros n d k0 Hd Hn; cbn [ilog10_down].
  - cbn in Hn. lia.
  - destruct (d <=? n * 10) eqn:E.
    + apply Z.leb_le in E.
      replace (k0 + 1 - k0 - 1) with 0 by lia.
      replace (k0 + 1 - k0) with 1 by lia.
      change (10 ^ 0) with 1. change (10 ^ 1) with 10.
      clear IH Hn. lia.
    + apply Z.leb_gt in E.
      destruct (IH (n * 10) d (k0 + 1)) as (Hk & Hlo & Hhi); [ lia | | ].
      { rewrite Nat2Z.inj_succ, Z.pow_succ_r in Hn by lia. nia. }
      set (k := ilog10_down fuel (n * 10) d (k0 + 1)) in *.
      remember (k - (k0 + 1) - 1) as j eqn:Hj.
      assert (Hj0 : 0 <= j) by lia.
      replace (k - (k0 + 1)) with (Z.succ j) in Hhi by lia.
      replace (k - k0 - 1) with (Z.succ j) by lia.
      replace (k - k0) with (Z.succ (Z.succ j)) by lia.
      rewrite !Z.pow_succ_r in * by lia.
      assert (0 < 10 ^ j) by (apply Z.pow_pos_nonneg; lia).
      split; [ lia | ]. split; [ nia | nia ].
Qed.

Lemma log2_fuel n : 0 < n -> n < 2 ^ Z.of_nat (S (Z.to_nat (Z.log2 n))).
Proof.
  intros Hn. rewrite Nat2Z.inj_succ, Z2Nat.id by apply Z.log2_nonneg.
  apply Z.log2_spec, Hn.
Qed.

(** [pow10q e] as a fraction of powers of ten. *)
Lemma pow10q_nonneg e : 0 <= e -> pow10q e = inject_Z (10 ^ e).
Proof.
  destruct e as [| p | p]; intros H; try reflexivity. lia.
Qed.

Lemma pow10q_neg e : e < 0 -> pow10q e = Qmake 1 (Z.to_pos (10 ^ (- e))).
Proof.
  destruct e as [| p | p]; intros H; try lia. reflexivity.
Qed.

Lemma pow10q_pos e : (0 < pow10q e)%Q.
Proof.
  destruct e as [| p | p]; unfold Qlt; cbn [pow10q Qnum Qden inject_Z];
    try lia.
  all: assert (0 < 10 ^ Z.pos p) by (apply Z.pow_pos_nonneg; lia); lia.
Qed.

(** The exponent is the floor of the decimal logarithm. *)
Lemma floor_log10q_spec (q : Q) :
  (0 < q)%Q ->
  (pow10q (floor_log10q q) <= q < pow10q (floor_log10q q + 1))%Q.
Proof.
  intros Hq. destruct q as [n d]. unfold Qlt in Hq. cbn in Hq.
  assert (Hn : 0 < n) by lia. clear Hq.
  unfold floor_log10q. cbn [Qnum Qden].
  destruct (Z.pos d <=? n) eqn:E.
  - apply Z.leb_le in E.
    destruct (ilog10_up_spec (S (Z.to_nat (Z.log2 n))) n (Z.pos d) 0)
      as (Hk & Hlo & Hhi); [ lia | | ].
    { pose proof (log2_fuel n Hn). nia. }
    set (k := ilog10_up _ n (Z.pos d) 0) in *. rewrite Z.sub_0_r in *.
    rewrite !pow10q_nonneg by lia.
    unfold Qle, Qlt. cbn [Qnum Qden inject_Z]. lia.
  - apply Z.leb_gt in E.
    destruct (ilog10_down_spec (S (Z.to_nat (Z.log2 (Z.pos d)))) n (Z.pos d) 0)
      as (Hk & Hlo & Hhi); [ lia | | ].
    { pose proof (log2_fuel (Z.pos d) ltac:(lia)). nia. }
    set (k := ilog10_down _ n (Z.pos d) 0) in *. rewrite Z.sub_0_r in *.
    rewrite (pow10q_neg (- k)) by lia. rewrite Z.opp_involutive.
    assert (Hp : forall j, 0 <= j -> Z.pos (Z.to_pos (10 ^ j)) = 10 ^ j).
    { intros j Hj. apply Z2Pos.id. apply Z.pow_pos_nonneg; lia. }
    split.
    + unfold Qle. cbn [Qnum Qden]. rewrite Hp by lia. lia.
    + destruct (Z.eq_dec k 1) as [Hk1 | Hne].
      * rewrite Hk1 in *. change (pow10q (- (1) + 1)) with 1%Q.
        unfold Qlt. cbn [Qnum Qden]. change (10 ^ (1 - 1)) with 1 in Hlo. lia.
      * rewrite (pow10q_neg (- k + 1)) by lia.
        unfold Qlt. cbn [Qnum Qden]. rewrite Hp by lia.
        replace (- (- k + 1)) with (k - 1) by lia. lia.
Qed.

End DecimalExponent.

Example floor_log10_500 : floor_log10q 500 = 2%Z /\ pow10 2 = Fin 100.
Proof. split; reflexivity. Qed.

(** * Plotted flux values and the scaling factor *)

Lemma same_refl x : F64.same x x.
Proof. destruct x; cbn; auto. apply Qeq_refl. Qed.

Lemma qsign_red q : qsign (Qred q) = qsign q.
Proof.
  unfold qsign. pose proof (Qred_correct q) as H. unfold Qeq in H.
  destruct (Qnum (Qred q)) eqn:E1, (Qnum q) eqn:E2; try reflexivity; lia.
Qed.

Lemma qsign_mul_pos q r : (0 < r)%Q -> qsign (q * r) = qsign q.
Proof.
  unfold qsign, Qlt. cbn. intros H.
  destruct (Qnum q) eqn:E; cbn; destruct (Qnum r) eqn:E'; cbn in *; try lia;
    reflexivity.
Qed.

Lemma qsign_div_pos q r : (0 < r)%Q -> qsign (q / r) = qsign q.
Proof.
  intros H. unfold Qdiv. apply qsign_mul_pos. apply Qinv_lt_0_compat, H.
Qed.

(** [(fs / scaling) * v] is [fs * v / scaling] for a positive scaling. *)
Lemma mul_div_same fs v sc :
  (0 < sc)%Q ->
  F64.same (F64.mul (F64.div fs (Fin sc)) v) (scaled fs v (Fin sc)).
Proof.
  intros Hsc. unfold scaled.
  destruct fs as [ | | | f ], v as [ | | | x ];
    cbn [F64.div F64.mul]; rewrite ?(qsign_pos sc Hsc);
    cbn [F64.mul F64.div]; try exact I.
  all: try (unfold scale_inf;
            rewrite ?qsign_red, ?(qsign_div_pos _ _ Hsc);
            match goal with
            | |- context [qsign ?q] => destruct (qsign q)
            end; cbn [F64.div]; rewrite ?(qsign_pos sc Hsc); exact I).
  unfold F64.same.
  rewrite !Qred_correct. field. intros E. rewrite E in Hsc.
  exact (Qlt_irrefl 0 Hsc).
Qed.

Lemma broadcast2_elems {A B D} (f : A -> B -> D) (u : list A) (w : list B) p :
  broadcast2 f u w = Ok p ->
  forall z, In z p -> exists x y, In y w /\ z = f x y.
Proof.
  unfold broadcast2. destruct (Nat.eqb (length u) (length w)).
  - intros H. inversion H; subst p; clear H.
    revert w. induction u as [| x u IH]; intros [| y w] z Hz;
      try contradiction Hz.
    cbn in Hz. destruct Hz as [<- | Hz].
    + exists x, y. split; [ left; reflexivity | reflexivity ].
    + destruct (IH w z Hz) as (x' & y' & Hy' & ->).
      exists x', y'. split; [ right; exact Hy' | reflexivity ].
  - intros H z Hz.
    destruct u as [| x [| x' u]].
    + destruct w as [| y [| y' w]]; inversion H; subst; contradiction Hz.
    + inversion H; subst. apply in_map_iff in Hz.
      destruct Hz as (y & <- & Hy). eauto.
    + destruct w as [| y [| y' w]]; inversion H; subst.
      change (In z (map (fun x0 => f x0 y) (x :: x' :: u))) in Hz.
      apply in_map_iff in Hz. destruct Hz as (x0 & <- & Hx).
      exists x0, y. split; [ left; reflexivity | reflexivity ].
Qed.

Section Good.
Context `{C : Collab}.
Variables (a : args) (scaling : f64).

Lemma raw_cells_mask_nan fl :
  (forall v, In v fl -> raw_flux a v) -> raw_cells a (map mask_nan fl).
Proof.
  intros H c Hc. apply in_map_iff in Hc. destruct Hc as (v & <- & Hv).
  unfold mask_nan. destruct (isnan v); [ left; reflexivity | right; eauto ].
Qed.

Lemma good_cell_scaled fs v :
  raw_flux a v -> multiplier_ok a fs ->
  good_cell a scaling (Val (scaled fs v scaling)).
Proof.
  intros Hv Hfs. right. exists fs, v, (scaled fs v scaling).
  repeat split; auto using same_refl.
Qed.

Lemma good_cell_ma fs c :
  (c = Masked \/ exists v, c = Val v /\ raw_flux a v) ->
  multiplier_ok a fs ->
  good_cell a scaling (ma_div (ma_mul (Val fs) c) scaling).
Proof.
  intros [-> | (v & -> & Hv)] Hfs; [ left; reflexivity | ].
  cbn [ma_mul ma_div].
  destruct (negb (isfinite (F64.div (F64.mul fs v) scaling))
            || unsafe_divide (F64.mul fs v) scaling);
    [ left; reflexivity | apply good_cell_scaled; assumption ].
Qed.

Lemma scaled_masked_good w m y :
  raw_cells a m ->
  scaled_masked (waves_if_flux a w) m scaling = Ok y ->
  Forall (good_cell a scaling) y.
Proof.
  intros Hm. unfold waves_if_flux, scaled_masked.
  destruct (is_quantity "flux" a) eqn:Hq.
  - destruct (broadcast2 ma_mul w m) as [p |] eqn:Hp; [ | discriminate ].
    intros H. inversion H; subst y; clear H.
    apply List.Forall_forall. intros c Hc. apply in_map_iff in Hc.
    destruct Hc as (z & <- & Hz).
    destruct (broadcast2_elems _ _ _ _ Hp z Hz) as (wc & c & Hc & ->).
    destruct wc as [| fs]; [ left; reflexivity | ].
    apply good_cell_ma; [ apply Hm, Hc | ].
    intros Hf. congruence.
  - intros H. inversion H; subst y; clear H.
    apply List.Forall_forall. intros c Hc. apply in_map_iff in Hc.
    destruct Hc as (z & <- & Hz).
    apply (good_cell_ma F64.one z); [ apply Hm, Hz | intros _; reflexivity ].
Qed.

Lemma scaled_plain_good w fl y :
  (forall v, In v fl -> raw_flux a v) ->
  scaled_plain (flux_if_flux a w) fl scaling = Ok y ->
  Forall (good_cell a scaling) y.
Proof.
  intros Hfl. unfold flux_if_flux, scaled_plain.
  destruct (is_quantity "flux" a) eqn:Hq.
  - destruct (broadcast2 F64.mul w fl) as [p |] eqn:Hp; [ | discriminate ].
    intros H. inversion H; subst y; clear H.
    apply List.Forall_forall. intros c Hc. apply in_map_iff in Hc.
    destruct Hc as (z & <- & Hz).
    destruct (broadcast2_elems _ _ _ _ Hp z Hz) as (fs & v & Hv & ->).
    apply (good_cell_scaled fs v); [ apply Hfl, Hv | ].
    intros Hf. congruence.
  - intros H. inversion H; subst y; clear H.
    apply List.Forall_forall. intros c Hc. apply in_map_iff in Hc.
    destruct Hc as (v & <- & Hv).
    apply (good_cell_scaled F64.one v); [ apply Hfl, Hv | intros _; reflexivity ].
Qed.

Lemma multiplier_if w :
  multiplier_ok a (if is_quantity "flux" a then w else F64.one).
Proof. intros H. rewrite H. reflexivity. Qed.

End Good.

Lemma dict_get_in {V} (d : list (string * V)) k v :
  dict_get k d = Some v -> In (k, v) d.
Proof.
  induction d as [| [k' v'] d IH]; cbn; [ discriminate | ].
  destruct (String.eqb_spec k k') as [-> | Hne].
  - intros H. inversion H. left. reflexivity.
  - intros H. right. apply IH, H.
Qed.

Lemma lookup_in {A} (l : list A) i x : l !! i = Some x -> In x l.
Proof. intros H. apply list_elem_of_In, list_elem_of_lookup. eauto. Qed.

Section GoodItems.
Context `{C : Collab}.
Variables (a : args) (scaling : f64) (sc : Q).
Hypothesis Hscaling : scaling = Fin sc.
Hypothesis Hpos : (0 < sc)%Q.

Local Abbreviation good := (panel_grows Main (good_draw a scaling)).

Ltac good_masked raw :=
  unfold good_draw; cbn [plotted_values];
  eapply scaled_masked_good; [ | eassumption ];
  first [ apply raw_cells_mask_nan; intros v Hv; raw v Hv | raw ].

Lemma draw_spectrum_good pk j d model ds :
  (forall v, In v (spectrum_flux d) -> raw_flux a v) ->
  preserves (good ds) (draw_spectrum a pk scaling j d model).
Proof.
  intros Hraw.
  repeat pres_step ltac:(grows_prim idtac).
  all: unfold good_draw; cbn [plotted_values];
    (eapply scaled_masked_good; [ | eassumption ]);
    apply raw_cells_mask_nan; intros v Hv; apply Hraw; subst d;
    cbn [spectrum_flux]; try exact Hv.
  all: apply in_concat; eexists; split; [ eapply lookup_in; eassumption | exact Hv ].
Qed.

Lemma fill_band_good wavelength rows p_lo p_hi explicit d ds :
  envelope a = true ->
  preserves (good ds)
    (fill_band a scaling wavelength rows p_lo p_hi explicit d).
Proof.
  intros Henv.
  repeat pres_step ltac:(grows_prim idtac).
  unfold good_draw. cbn [plotted_values]. apply Forall_app. split.
  all: eapply scaled_plain_good; [ | eassumption ];
    intros v Hv; right; split; [ exact Henv | eauto ].
Qed.

Lemma draw_box_list_good pk j items ds :
  (forall v, In v (concat (map mi_flux items)) -> raw_flux a v) ->
  preserves (good ds) (draw_box_list a pk scaling j items).
Proof.
  intros Hraw.
  repeat first [ apply fill_band_good; assumption
               | pres_step ltac:(grows_prim idtac) ].
  all: unfold good_draw; cbn [plotted_values];
    (eapply scaled_masked_good; [ | eassumption ]);
    apply raw_cells_mask_nan; intros v Hv; apply Hraw;
    apply in_concat; eexists; split; [ apply in_map; eassumption | exact Hv ].
Qed.

Lemma good_point x fs v fwhm yerr kw :
  raw_flux a v -> multiplier_ok a fs ->
  good_draw a scaling (point x (scaled fs v scaling) fwhm yerr kw).
Proof.
  intros Hv Hfs. unfold good_draw, point. cbn [plotted_values].
  constructor; [ | constructor ]. apply good_cell_scaled; assumption.
Qed.

Lemma good_point_tmp x fs v fwhm yerr kw :
  raw_flux a v -> multiplier_ok a fs ->
  good_draw a scaling
    (point x (F64.mul (F64.div fs scaling) v) fwhm yerr kw).
Proof.
  intros Hv Hfs. unfold good_draw, point. cbn [plotted_values].
  constructor; [ | constructor ]. right. exists fs, v. eexists.
  split; [ reflexivity | ]. split; [ exact Hv | ]. split; [ exact Hfs | ].
  rewrite Hscaling. apply mul_div_same, Hpos.
Qed.

Lemma draw_photometry_good pk j wavelength filter_name flux ds :
  (forall v, In v (map fst flux) -> raw_flux a v) ->
  preserves (good ds)
    (draw_photometry a pk scaling j wavelength filter_name flux).
Proof.
  intros Hraw.
  repeat pres_step ltac:(grows_prim idtac).
  all: unfold good_draw; cbn [plotted_values];
    (constructor; [ | constructor ]);
    apply good_cell_scaled; [ | apply multiplier_if ];
    apply Hraw;
    match goal with
    | H : _ !! _ = Some (?v, ?e) |- _ =>
        apply (in_map fst _ (v, e)); eapply lookup_in; exact H
    end.
Qed.

Lemma draw_object_spectra_good pk j spectrum plot_obj ds :
  (forall e r, In e spectrum -> In r (snd e) -> raw_flux a (snd (fst r))) ->
  preserves (good ds) (draw_object_spectra a pk scaling j spectrum plot_obj).
Proof.
  intros Hraw.
  repeat pres_step ltac:(grows_prim idtac).
  all: unfold good_draw; cbn [plotted_values];
    (eapply scaled_masked_good; [ | eassumption ]);
    intros c Hc; apply in_map_iff in Hc; destruct Hc as (r & <- & Hr);
    unfold mask_nan; destruct (isnan (snd (fst r)));
    [ left; reflexivity | right; eexists; split; [ reflexivity | ] ];
    match goal with
    | H : dict_get _ _ = Some _ |- _ =>
        apply dict_get_in in H; exact (Hraw _ r H Hr)
    end.
Qed.

Lemma draw_object_filter_good pk j flux plot_obj item ds :
  (forall e v, In e flux -> In v (phot_flux (snd e)) -> raw_flux a v) ->
  preserves (good ds) (draw_object_filter a pk scaling j flux plot_obj item).
Proof.
  intros Hraw. unfold draw_object_filter.
  destruct (dict_get item flux) as [value |] eqn:Hvalue;
    [ | apply preserves_raise ].
  apply dict_get_in in Hvalue.
  assert (Hv : forall v, In v (phot_flux value) -> raw_flux a v)
    by (intros v Hv; exact (Hraw _ v Hvalue Hv)).
  clear Hraw Hvalue.
  repeat pres_step ltac:(grows_prim idtac).
  all: first [ apply good_point_tmp | apply good_point ];
    try apply multiplier_if; apply Hv; cbn [phot_flux];
    try (left; reflexivity).
  all: match goal with
       | H : In ?x _ |- _ => first [ apply in_map; exact H
                                   | apply (in_map fst _ (snd x)); eapply enumerate_in; exact H ]
       end.
Qed.

Lemma draw_object_photometry_good pk j flux plot_obj ds :
  (forall e v, In e flux -> In v (phot_flux (snd e)) -> raw_flux a v) ->
  preserves (good ds) (draw_object_photometry a pk scaling j flux plot_obj).
Proof.
  intros Hraw. unfold draw_object_photometry. cbv zeta.
  apply preserves_for_fold. intros acc item _.
  apply draw_object_filter_good, Hraw.
Qed.

Lemma draw_synphot_good pk j flux ds :
  (forall v, In v (map snd flux) -> raw_flux a v) ->
  preserves (good ds) (draw_synphot a pk scaling j flux).
Proof.
  intros Hraw.
  repeat pres_step ltac:(grows_prim idtac).
  all: apply good_point; [ | apply multiplier_if ];
    apply Hraw, in_map; assumption.
Qed.

Lemma draw_box_good pk plot_obj jb ds :
  In (snd jb) (boxes a) ->
  preserves (good ds) (draw_box a pk scaling plot_obj jb).
Proof.
  intros Hin. unfold draw_box. cbv zeta.
  apply preserves_bind; [ repeat pres_step ltac:(grows_prim idtac) | intros _ ].
  assert (Hraw : forall v, In v (box_flux (snd jb)) -> raw_flux a v)
    by (intros v Hv; left; eauto).
  destruct (snd jb) as [ d | d model parameters | items | w fn fl | sp fl | fl | ];
    cbn [box_flux] in Hraw.
  - apply preserves_bind; [ apply draw_spectrum_good, Hraw | intros; apply preserves_ret ].
  - apply preserves_bind; [ apply draw_spectrum_good, Hraw | intros; apply preserves_ret ].
  - apply preserves_bind; [ apply draw_box_list_good, Hraw | intros; apply preserves_ret ].
  - apply preserves_bind; [ apply draw_photometry_good, Hraw | intros; apply preserves_ret ].
  - apply preserves_bind.
    + destruct sp as [sp |]; [ | apply preserves_ret ].
      apply draw_object_spectra_good. intros e r He Hr. apply Hraw.
      apply in_or_app. left. apply in_concat. eexists.
      split; [ apply (in_map (fun e => map (fun r => snd (fst r)) (snd e))); exact He | ].
      exact (in_map (fun r0 : f64 * f64 * f64 => snd (fst r0)) _ r Hr).
    + intros po. destruct fl as [fl |]; [ | apply preserves_ret ].
      apply draw_object_photometry_good. intros e v He Hv. apply Hraw.
      apply in_or_app. right. apply in_concat. eexists.
      split; [ apply (in_map (fun e => phot_flux (snd e))); exact He | exact Hv ].
  - apply preserves_bind; [ apply draw_synphot_good, Hraw | intros; apply preserves_ret ].
  - apply preserves_ret.
Qed.

Lemma draw_boxes_good pk ds :
  preserves (good ds) (draw_boxes a pk scaling).
Proof.
  unfold draw_boxes.
  apply preserves_bind; [ | intros; apply preserves_ret ].
  apply preserves_for_fold. intros acc jb Hjb.
  apply draw_box_good. eapply enumerate_in, Hjb.
Qed.

End GoodItems.

(** * The stages of a completed call *)

Lemma read_axes_ok {A} p (f : axes -> A) s x s' :
  read_axes p f s = (Ok x, s') ->
  exists ax, panel_is p ax s /\ x = f ax /\ s' = s.
Proof.
  unfold read_axes. destruct (st_fig s) as [fg |] eqn:Hfg; [ | discriminate ].
  destruct (get_panel p fg) as [ax |] eqn:Hp; [ | discriminate ].
  intros H. inversion H; subst. exists ax. split; [ exists fg; auto | auto ].
Qed.

#[export] Instance main_axis_heap_blind l y : HeapBlind (main_axis_is l y).
Proof. intros s h Hs. exact Hs. Qed.
#[export] Instance main_axis_rc_blind l y : RcBlind (main_axis_is l y).
Proof. intros s h Hs. exact Hs. Qed.
#[export] Instance main_axis_out_blind l y : OutBlind (main_axis_is l y).
Proof. intros s h Hs. exact Hs. Qed.

Lemma main_axis_on_axes_other l y p f :
  p <> Main -> preserves (main_axis_is l y) (on_axes p f).
Proof.
  intros Hne s (fg & Hfg & Hl & Hy). rewrite on_axes_state, Hfg.
  destruct (get_panel p fg) as [ax |]; [ | exists fg; auto ].
  eexists. split; [ reflexivity | ].
  destruct p; [ contradiction Hne; reflexivity | | ]; cbn; auto.
Qed.

Lemma main_axis_on_axes_keep l y f :
  (forall ax, a_ylabel (f ax) = a_ylabel ax /\ a_ylim (f ax) = a_ylim ax) ->
  preserves (main_axis_is l y) (on_axes Main f).
Proof.
  intros Hf s (fg & Hfg & Hl & Hy). rewrite on_axes_state, Hfg. cbn.
  eexists. split; [ reflexivity | ]. cbn.
  destruct (Hf (ax1 fg)) as [-> ->]. auto.
Qed.

Ltac main_axis_prim :=
  first [ apply preserves_put_heap; typeclasses eauto
        | apply preserves_set_rc; typeclasses eauto
        | apply preserves_put_out; typeclasses eauto
        | apply main_axis_on_axes_other; discriminate
        | apply main_axis_on_axes_keep; intros; split; reflexivity ].

Lemma main_axis_panel l y s :
  main_axis_is l y s <->
  exists ax, panel_is Main ax s /\ a_ylabel ax = l /\ a_ylim ax = y.
Proof.
  split.
  - intros (fg & Hfg & Hl & Hy). exists (ax1 fg). split; [ exists fg; auto | auto ].
  - intros (ax & (fg & Hfg & Hp) & Hl & Hy). cbn in Hp. inversion Hp; subst.
    exists fg. auto.
Qed.

Section StagesOfACall.
Context `{C : Collab}.

Lemma completed_call a s :
  fst (plot_spectrum a s) = Ok tt ->
  exists pk s0 s4 scaling s5,
    open_figure a s = (Ok pk, s0)
    /\ before_yaxis a s0 = (Ok tt, s4)
    /\ set_main_yaxis a s4 = (Ok scaling, s5)
    /\ after_yaxis a pk scaling s5 = (Ok tt, snd (plot_spectrum a s)).
Proof.
  destruct (plot_spectrum a s) as [o final] eqn:Hrun. cbn [fst snd].
  intros ->. unfold plot_spectrum in Hrun.
  apply bind_ok in Hrun. destruct Hrun as (pk' & s8 & Hmain & Hrun).
  apply bind_ok in Hrun. destruct Hrun as ([] & s9 & Hres & Hfin).
  unfold draw_main in Hmain.
  apply bind_ok in Hmain. destruct Hmain as (ps & s6 & Hsetup & Hmain).
  apply bind_ok in Hmain. destruct Hmain as ([] & s7 & Hboxes & Hmain).
  apply bind_ok in Hmain. destruct Hmain as ([] & s8' & Hfilters & Hret).
  apply ret_ok in Hret. destruct Hret as [-> ->].
  unfold setup in Hsetup.
  apply bind_ok in Hsetup. destruct Hsetup as (pk & s0 & Hopen & Hsetup).
  apply bind_ok in Hsetup. destruct Hsetup as (scaling & s6' & Haxes & Hret).
  apply ret_ok in Hret. destruct Hret as [-> ->]. cbn [fst snd] in *.
  unfold setup_axes in Haxes.
  apply bind_ok in Haxes. destruct Haxes as ([] & s1 & H1 & Haxes).
  apply bind_ok in Haxes. destruct Haxes as ([] & s2 & H2 & Haxes).
  apply bind_ok in Haxes. destruct Haxes as ([] & s3 & H3 & Haxes).
  apply bind_ok in Haxes. destruct Haxes as ([] & s4 & H4 & Haxes).
  apply bind_ok in Haxes. destruct Haxes as (sc & s5 & Hy & Haxes).
  apply bind_ok in Haxes. destruct Haxes as ([] & s6 & Hshare & Hret).
  apply ret_ok in Hret. destruct Hret as [-> ->].
  exists pk, s0, s4, sc, s5. split; [ exact Hopen | ].
  split.
  { unfold before_yaxis. rewrite bind_run, H1, bind_run, H2, bind_run, H3.
    exact H4. }
  split; [ exact Hy | ].
  unfold after_yaxis.
  rewrite bind_run, Hshare, bind_run, Hboxes, bind_run, Hfilters, bind_run, Hres.
  exact Hfin.
Qed.

Lemma open_figure_main_axis a s pk s0 :
  open_figure a s = (Ok pk, s0) -> main_axis_is None None s0.
Proof.
  unfold open_figure. intros H.
  do 5 (apply bind_ok in H; destruct H as (? & ? & _ & H)).
  apply bind_ok in H. destruct H as (u & s1 & Hfig & H).
  apply ret_ok in H. destruct H as [_ ->].
  unfold make_figure, put_fig in Hfig.
  destruct (residuals a), (filters a); inversion Hfig; subst;
    eexists; (split; [ reflexivity | split; reflexivity ]).
Qed.

Lemma before_yaxis_main_axis a l y :
  preserves (main_axis_is l y) (before_yaxis a).
Proof. repeat pres_step main_axis_prim. Qed.

Lemma before_yaxis_draws a P ds :
  preserves (panel_grows Main P ds) (before_yaxis a).
Proof. repeat pres_step ltac:(grows_prim idtac). Qed.

Lemma after_yaxis_main_axis a pk scaling l y :
  preserves (main_axis_is l y) (after_yaxis a pk scaling).
Proof. repeat pres_step main_axis_prim. Qed.

Lemma set_main_yaxis_good a sc ds :
  preserves (panel_grows Main (good_draw a sc) ds) (set_main_yaxis a).
Proof.
  repeat pres_step ltac:(grows_prim idtac).
  all: constructor.
Qed.

Lemma after_yaxis_good a pk scaling sc ds :
  scaling = Fin sc -> (0 < sc)%Q ->
  preserves (panel_grows Main (good_draw a scaling) ds)
    (after_yaxis a pk scaling).
Proof.
  intros Hs Hsc.
  repeat first [ eapply draw_boxes_good; eassumption
               | pres_step ltac:(grows_prim idtac) ].
Qed.

End StagesOfACall.

(** * The y-axis of the main panel *)

Lemma on_axes_main_axis f s u s' l y l' y' :
  on_axes Main f s = (Ok u, s') ->
  main_axis_is l y s ->
  (forall ax, a_ylabel ax = l -> a_ylim ax = y ->
              a_ylabel (f ax) = l' /\ a_ylim (f ax) = y') ->
  main_axis_is l' y' s'.
Proof.
  intros Hrun (fg & Hfg & Hl & Hy) Hf.
  apply on_axes_ok in Hrun. destruct Hrun as (fg' & ax & Hfg' & Hp & ->).
  rewrite Hfg in Hfg'. inversion Hfg'; subst fg'. cbn in Hp.
  inversion Hp; subst ax.
  eexists. split; [ reflexivity | ]. cbn. apply Hf; assumption.
Qed.

Lemma get_ylim_main s yl s' l lim :
  get_ylim Main s = (Ok yl, s') ->
  main_axis_is l (Some lim) s ->
  yl = lim /\ s' = s.
Proof.
  intros Hrun (fg & Hfg & Hl & Hy).
  apply read_axes_ok in Hrun. destruct Hrun as (ax & (fg' & Hfg' & Hp) & -> & ->).
  rewrite Hfg in Hfg'. inversion Hfg'; subst fg'. cbn in Hp.
  inversion Hp; subst ax. rewrite Hy. auto.
Qed.

Lemma when_ok b m s u s' :
  when b m s = (Ok u, s') ->
  (b = true /\ m s = (Ok u, s')) \/ (b = false /\ s' = s).
Proof.
  destruct b; cbn; [ left; auto | ].
  intros H. apply ret_ok in H. right. split; [ reflexivity | apply H ].
Qed.

Lemma floor_log10_ok `{C : Collab} x e :
  floor_log10 x = Ok e ->
  exists q, x = Fin q /\ (0 < q)%Q /\ e = log10_floor q.
Proof.
  destruct x as [ | | | q]; cbn; try discriminate.
  destruct (Qle_bool q 0) eqn:Hq; [ discriminate | ].
  intros H. inversion H. exists q. split; [ reflexivity | ].
  split; [ | reflexivity ].
  apply Qnot_le_lt. intros Hle. apply Qle_bool_iff in Hle. congruence.
Qed.

Section YAxis.
Context `{C : Collab}.
Variables (a : args).

Lemma exponent_and_scaling_run hi s :
  exponent_and_scaling a hi s
  = (if String.eqb (snd (the_scale a)) "linear"
     then match floor_log10 hi with
          | Ok e => Ok (Some e, pow10 e)
          | Raise x => Raise x
          end
     else Ok (None, F64.one), s).
Proof.
  unfold exponent_and_scaling.
  destruct (String.eqb (snd (the_scale a)) "linear"); [ | reflexivity ].
  rewrite bind_run. unfold lift. destruct (floor_log10 hi); reflexivity.
Qed.

(** In magnitude mode the scaling factor is 1 and the limits are the
    given ones. *)
Lemma yaxis_magnitude s scaling s' l :
  is_quantity "magnitude" a = true ->
  main_axis_is l None s ->
  set_main_yaxis a s = (Ok scaling, s') ->
  scaling = F64.one /\ main_axis_is (Some "Contrast (mag)") (ylim a) s'.
Proof.
  intros Hq Hs Hrun. unfold set_main_yaxis in Hrun. rewrite Hq in Hrun.
  apply bind_ok in Hrun. destruct Hrun as ([] & s1 & H1 & Hrun).
  apply bind_ok in Hrun. destruct Hrun as ([] & s2 & H2 & Hrun).
  apply ret_ok in Hrun. destruct Hrun as [-> ->]. split; [ reflexivity | ].
  assert (H1' : main_axis_is (Some "Contrast (mag)") None s1).
  { eapply on_axes_main_axis; [ exact H1 | exact Hs | ].
    intros ax _ Hy. split; [ reflexivity | exact Hy ]. }
  destruct (ylim a) as [[lo hi] |].
  - eapply on_axes_main_axis; [ exact H2 | exact H1' | ].
    intros ax Hl _. split; [ exact Hl | reflexivity ].
  - apply ret_ok in H2. destruct H2 as [_ ->]. exact H1'.
Qed.

(** With explicit limits the label and the divided limits are set. *)
Lemma yaxis_explicit s scaling s' l y lo hi :
  is_quantity "magnitude" a = false ->
  ylim a = Some (lo, hi) ->
  main_axis_is l y s ->
  set_main_yaxis a s = (Ok scaling, s') ->
  exists exponent,
    exponent_and_scaling a hi s = (Ok (exponent, scaling), s)
    /\ main_axis_is
         (Some (flux_label (is_quantity "flux density" a) exponent))
         (Some (F64.div lo scaling, F64.div hi scaling)) s'.
Proof.
  intros Hq Hlim Hs Hrun. unfold set_main_yaxis in Hrun.
  rewrite Hq, Hlim in Hrun.
  apply bind_ok in Hrun. destruct Hrun as ([] & s1 & H1 & Hrun).
  apply bind_ok in Hrun. destruct Hrun as (yl & s2 & H2 & Hrun).
  apply bind_ok in Hrun. destruct Hrun as ([e sc] & s3 & H3 & Hrun).
  apply bind_ok in Hrun. destruct Hrun as (lbl & s4 & H4 & Hrun).
  apply bind_ok in Hrun. destruct Hrun as ([] & s5 & H5 & Hrun).
  apply bind_ok in Hrun. destruct Hrun as ([] & s6 & H6 & Hrun).
  apply bind_ok in Hrun. destruct Hrun as ([] & s7 & H7 & Hrun).
  apply ret_ok in Hrun. destruct Hrun as [-> ->]. cbn [fst snd] in *.
  assert (H1' : main_axis_is l (Some (lo, hi)) s1).
  { eapply on_axes_main_axis; [ exact H1 | exact Hs | ].
    intros ax Hl _. split; [ exact Hl | reflexivity ]. }
  destruct (get_ylim_main _ _ _ _ _ H2 H1') as [-> ->]. cbn [fst snd] in *.
  assert (Hs3 : s3 = s1).
  { unfold exponent_and_scaling in H3.
    destruct (String.eqb (snd (the_scale a)) "linear").
    - apply bind_ok in H3. destruct H3 as (e' & s3' & Hl & H3).
      apply lift_ok in Hl. destruct Hl as [_ ->].
      apply ret_ok in H3. apply H3.
    - apply ret_ok in H3. apply H3. }
  subst s3.
  assert (Hlbl : lbl = flux_label (is_quantity "flux density" a) e /\ s4 = s1).
  { unfold flux_ylabel in H4.
    destruct (is_quantity "flux density" a).
    - apply ret_ok in H4. exact H4.
    - destruct (is_quantity "flux" a); [ | discriminate ].
      apply ret_ok in H4. exact H4. }
  destruct Hlbl as [-> ->].
  exists e. split.
  { rewrite exponent_and_scaling_run in H3 |- *.
    inversion H3 as [He]. reflexivity. }
  assert (H6' : main_axis_is
                  (Some (flux_label (is_quantity "flux density" a) e))
                  (Some (F64.div lo sc, F64.div hi sc)) s6).
  { assert (H5' : main_axis_is
                    (Some (flux_label (is_quantity "flux density" a) e))
                    (Some (lo, hi)) s5).
    { eapply on_axes_main_axis; [ exact H5 | exact H1' | ].
      intros ax _ Hy. split; [ reflexivity | exact Hy ]. }
    eapply on_axes_main_axis; [ exact H6 | exact H5' | ].
    intros ax Hl _. split; [ exact Hl | reflexivity ]. }
  apply when_ok in H7. destruct H7 as [[_ H7] | [_ ->]]; [ | exact H6' ].
  eapply on_axes_main_axis; [ exact H7 | exact H6' | ].
  intros ax Hl Hy. split; assumption.
Qed.

(** Without explicit limits nothing is factored out. *)
Lemma yaxis_default s scaling s' :
  is_quantity "magnitude" a = false ->
  ylim a = None ->
  main_axis_is None None s ->
  set_main_yaxis a s = (Ok scaling, s') ->
  scaling = F64.one
  /\ main_axis_is
       (if is_quantity "flux density" a then Some (density_label None)
        else if is_quantity "flux" a then Some (lambda_label None)
        else None)
       None s'.
Proof.
  intros Hq Hlim Hs Hrun. unfold set_main_yaxis in Hrun.
  rewrite Hq, Hlim in Hrun.
  apply bind_ok in Hrun. destruct Hrun as ([] & s1 & H1 & Hrun).
  apply ret_ok in Hrun. destruct Hrun as [-> ->]. split; [ reflexivity | ].
  destruct (is_quantity "flux density" a).
  - eapply on_axes_main_axis; [ exact H1 | exact Hs | ].
    intros ax _ Hy. split; [ reflexivity | exact Hy ].
  - destruct (is_quantity "flux" a).
    + eapply on_axes_main_axis; [ exact H1 | exact Hs | ].
      intros ax _ Hy. split; [ reflexivity | exact Hy ].
    + apply ret_ok in H1. destruct H1 as [_ ->]. exact Hs.
Qed.

(** The exponent and the scaling factor of a linear axis. *)
Lemma exponent_linear hi s e scaling :
  snd (the_scale a) = "linear" ->
  exponent_and_scaling a hi s = (Ok (e, scaling), s) ->
  exists q, hi = Fin q /\ (0 < q)%Q
            /\ e = Some (log10_floor q) /\ scaling = pow10 (log10_floor q).
Proof.
  intros Hlin Hrun. unfold exponent_and_scaling in Hrun. rewrite Hlin in Hrun.
  cbn in Hrun. apply bind_ok in Hrun. destruct Hrun as (e' & s1 & Hl & Hrun).
  apply lift_ok in Hl. destruct Hl as [Hl ->].
  apply ret_ok in Hrun. destruct Hrun as [Hrun _]. inversion Hrun; subst.
  apply floor_log10_ok in Hl. destruct Hl as (q & -> & Hq & ->).
  exists q. auto.
Qed.

Lemma exponent_other hi s e scaling :
  snd (the_scale a) <> "linear" ->
  exponent_and_scaling a hi s = (Ok (e, scaling), s) ->
  e = None /\ scaling = F64.one.
Proof.
  intros Hlin Hrun. unfold exponent_and_scaling in Hrun.
  destruct (String.eqb_spec (snd (the_scale a)) "linear") as [E | _];
    [ contradiction | ].
  apply ret_ok in Hrun. destruct Hrun as [Hrun _]. inversion Hrun; auto.
Qed.

End YAxis.

(** * The scaling factor of a completed call *)

Lemma same_trans x y z : F64.same x y -> F64.same y z -> F64.same x z.
Proof.
  destruct x, y, z; cbn; try tauto. intros H1 H2. rewrite H1. exact H2.
Qed.

Lemma scaled_one v : F64.same (scaled F64.one v F64.one) v.
Proof.
  destruct v as [ | | | q]; cbn; try exact I.
  rewrite Qred_correct. unfold Qdiv. rewrite Qred_correct.
  change (/ 1)%Q with 1%Q. rewrite Qmult_1_l, Qmult_1_r. reflexivity.
Qed.

Lemma panel_grows_fresh P s : panel_grows Main P [] s -> Forall P (main_draws s).
Proof. intros (added & Hd & HP). unfold main_draws. rewrite Hd. exact HP. Qed.

Section Scaling.
Context `{C : Collab}.
Variables (a : args) (s : state).

Lemma magnitude_not_flux :
  is_quantity "magnitude" a = true -> is_quantity "flux" a = false.
Proof.
  unfold is_quantity. intros H. apply String.eqb_eq in H. rewrite H. reflexivity.
Qed.

Lemma good_unscaled d :
  is_quantity "flux" a = false -> good_draw a F64.one d -> unscaled_draw a d.
Proof.
  intros Hq Hd. unfold good_draw in Hd. unfold unscaled_draw.
  eapply List.Forall_impl; [ | exact Hd ].
  intros c [-> | (fs & v & x & -> & Hv & Hfs & Hx)]; [ left; reflexivity | ].
  right. exists v, x. split; [ reflexivity | ]. split; [ exact Hv | ].
  rewrite (Hfs Hq) in Hx. exact (same_trans _ _ _ Hx (scaled_one v)).
Qed.

(** The draw calls of the main panel of a completed call. *)
Lemma completed_draws scaling sc :
  scaling = Fin sc -> (0 < sc)%Q ->
  completes_with_scaling a s scaling ->
  Forall (good_draw a scaling) (main_draws (snd (plot_spectrum a s))).
Proof.
  intros Hsc Hpos (pk & s0 & s4 & s5 & Hopen & Hbefore & Hy & Hafter).
  apply panel_grows_fresh.
  pose proof (open_figure_fresh a s pk s0 Main (good_draw a scaling) Hopen) as G0.
  pose proof (before_yaxis_draws a _ _ s0 G0) as G4. rewrite Hbefore in G4.
  pose proof (set_main_yaxis_good a scaling [] s4 G4) as G5. rewrite Hy in G5.
  pose proof (after_yaxis_good a pk scaling sc [] Hsc Hpos s5 G5) as G.
  rewrite Hafter in G. exact G.
Qed.

Lemma completed_axis scaling l y :
  completes_with_scaling a s scaling ->
  (forall s4 s5, main_axis_is None None s4 ->
                 set_main_yaxis a s4 = (Ok scaling, s5) ->
                 main_axis_is l y s5) ->
  main_axis_is l y (snd (plot_spectrum a s)).
Proof.
  intros (pk & s0 & s4 & s5 & Hopen & Hbefore & Hy & Hafter) Hstep.
  pose proof (open_figure_main_axis a s pk s0 Hopen) as A0.
  pose proof (before_yaxis_main_axis a _ _ s0 A0) as A4. rewrite Hbefore in A4.
  pose proof (Hstep s4 s5 A4 Hy) as A5.
  pose proof (after_yaxis_main_axis a pk scaling _ _ s5 A5) as A.
  rewrite Hafter in A. exact A.
Qed.

End Scaling.

Section ScalingTheorems.
Context `{C : Collab}.

(** C10: in a call that completes with the quantity "magnitude" the
    variable [scaling] is 1, the label of the y-axis is "Contrast (mag)",
    the limits of the axis are the given [ylim], whatever the scale of the
    axis, and every value plotted in the main panel is a gap or a raw flux
    value, undivided. *)
Theorem magnitude_bypasses_scaling (a : args) (s : state) :
  is_quantity "magnitude" a = true ->
  fst (plot_spectrum a s) = Ok tt ->
  let final := snd (plot_spectrum a s) in
  completes_with_scaling a s F64.one
  /\ main_axis_is (Some "Contrast (mag)") (ylim a) final
  /\ Forall (unscaled_draw a) (main_draws final).
Proof.
  intros Hmag Hok final.
  destruct (completed_call a s Hok)
    as (pk & s0 & s4 & scaling & s5 & Hopen & Hbefore & Hy & Hafter).
  assert (Hcomp : completes_with_scaling a s scaling)
    by (exists pk, s0, s4, s5; auto).
  assert (Hone : scaling = F64.one).
  { pose proof (open_figure_main_axis a s pk s0 Hopen) as A0.
    pose proof (before_yaxis_main_axis a _ _ s0 A0) as A4.
    rewrite Hbefore in A4.
    exact (proj1 (yaxis_magnitude a s4 scaling s5 None Hmag A4 Hy)). }
  subst scaling. split; [ exact Hcomp | ]. split.
  - apply (completed_axis a s F64.one _ _ Hcomp). intros t4 t5 A4 Ht.
    exact (proj2 (yaxis_magnitude a t4 F64.one t5 None Hmag A4 Ht)).
  - eapply List.Forall_impl;
      [ intros d; apply good_unscaled, magnitude_not_flux, Hmag | ].
    apply (completed_draws a s F64.one 1 eq_refl); [ reflexivity | exact Hcomp ].
Qed.

End ScalingTheorems.

Lemma magnitude_bypasses_scaling_witness :
  let a := Sample.with_quantity
             (Sample.with_ylim
                (default_args [Sample.spectrum3 (Fin 100) (Fin 250) (Fin 400)])
                (Fin (1 # 1000)) (Fin 500))
             "magnitude" in
  let final := snd (@plot_spectrum Sample.collab a (init_state [])) in
  @completes_with_scaling Sample.collab a (init_state []) F64.one
  /\ main_axis_is (Some "Contrast (mag)") (Some (Fin (1 # 1000), Fin 500)) final
  /\ Forall (@unscaled_draw Sample.collab a) (main_draws final).
Proof.
  intros a final.
  apply (@magnitude_bypasses_scaling Sample.collab a (init_state [])).
  - reflexivity.
  - vm_compute. reflexivity.
Defined.

(** * The caller's style overrides *)

#[export] Instance store_kept_rc_blind a h0 : RcBlind (store_kept a h0).
Proof. intros s h Hs. exact Hs. Qed.
#[export] Instance store_kept_fig_blind a h0 : FigBlind (store_kept a h0).
Proof. intros s h Hs. exact Hs. Qed.
#[export] Instance store_kept_out_blind a h0 : OutBlind (store_kept a h0).
Proof. intros s h Hs. exact Hs. Qed.

Lemma preserves_bind_result {A B} (I : state -> Prop) (Q : A -> Prop)
    (m : M A) (k : A -> M B) :
  preserves I m ->
  (forall s x s', I s -> m s = (Ok x, s') -> Q x) ->
  (forall x, Q x -> preserves I (k x)) ->
  preserves I (bind m k).
Proof.
  intros Hm HQ Hk s Hs. rewrite bind_run.
  pose proof (Hm s Hs) as Hs'. pose proof (HQ s) as HQs.
  destruct (m s) as [[x | e] s']; cbn [snd] in *; [ | exact Hs' ].
  apply (Hk x (HQs x s' Hs eq_refl) s' Hs').
Qed.





Section Kept.
Context `{C : Collab}.
Variables (a : args) (h0 : heap).

Local Abbreviation kept := (store_kept a h0).
















End Kept.



(** C5 fails on the code.  The branches for a spectrum and for synthetic
    photometry copy the style dictionary before they change it; the branch
    for a list of model samples writes [zorder] into the dictionary of the
    caller.  A list of one sample with the override [{'color': 'red'}]: after
    the call the caller's dictionary has the entry [zorder], and the
    caller's list the second item that the loop over the boxes appends. *)
Lemma sample_list_changes_the_override :
  let item := mk_model_item [Fin 1; Fin 2] [Fin 3; Fin 4] in
  let a := Sample.with_kwargs (default_args [BoxList [item]]) 0 in
  let h := [OList [VRef 1]; ODict [("color", VStr "red")]] in
  let r := @plot_spectrum Sample.collab a (init_state h) in
  fst r = Ok tt
  /\ st_heap (snd r)
     = [OList [VRef 1; VNone];
        ODict [("color", VStr "red"); ("zorder", VNum (Fin 1))]].
Proof. vm_compute. split; reflexivity. Qed.

(** * The stages of a call *)

Lemma preserved_by {A} (I : state -> Prop) (m : M A) s o s' :
  preserves I m -> I s -> m s = (o, s') -> I s'.
Proof. intros Hm Hs Hrun. pose proof (Hm s Hs) as H. rewrite Hrun in H. exact H. Qed.

Lemma bind_then {A B} (m : M A) (k : A -> M B) s x s1 :
  m s = (Ok x, s1) -> bind m k s = k x s1.
Proof. intros H. rewrite bind_run, H. reflexivity. Qed.

Lemma bind_raises {A B} (m : M A) (k : A -> M B) s e s1 :
  m s = (Raise e, s1) -> bind m k s = (Raise e, s1).
Proof. intros H. rewrite bind_run, H. reflexivity. Qed.

Section Completed.
Context `{C : Collab}.

Lemma completed_run a s :
  fst (plot_spectrum a s) = Ok tt -> completed a s (snd (plot_spectrum a s)).
Proof.
  destruct (plot_spectrum a s) as [o final] eqn:Hrun. cbn [fst snd].
  intros ->. unfold plot_spectrum in Hrun.
  apply bind_ok in Hrun. destruct Hrun as (pk' & s8 & Hmain & Hrun).
  apply bind_ok in Hrun. destruct Hrun as ([] & s9 & Hres & Hfin).
  unfold draw_main in Hmain.
  apply bind_ok in Hmain. destruct Hmain as (ps & s6 & Hsetup & Hmain).
  apply bind_ok in Hmain. destruct Hmain as ([] & s7 & Hboxes & Hmain).
  apply bind_ok in Hmain. destruct Hmain as ([] & s8' & Hfilters & Hret).
  apply ret_ok in Hret. destruct Hret as [-> ->].
  unfold setup in Hsetup.
  apply bind_ok in Hsetup. destruct Hsetup as (pk & s0 & Hopen & Hsetup).
  apply bind_ok in Hsetup. destruct Hsetup as (scaling & s6' & Haxes & Hret).
  apply ret_ok in Hret. destruct Hret as [-> ->]. cbn [fst snd] in *.
  unfold setup_axes in Haxes.
  apply bind_ok in Haxes. destruct Haxes as ([] & s1 & H1 & Haxes).
  apply bind_ok in Haxes. destruct Haxes as ([] & s2 & H2 & Haxes).
  apply bind_ok in Haxes. destruct Haxes as ([] & s3 & H3 & Haxes).
  apply bind_ok in Haxes. destruct Haxes as ([] & s4 & H4 & Haxes).
  apply bind_ok in Haxes. destruct Haxes as (sc & s5 & Hy & Haxes).
  apply bind_ok in Haxes. destruct Haxes as ([] & s6 & Hshare & Hret).
  apply ret_ok in Hret. destruct Hret as [-> ->].
  econstructor; eassumption.
Qed.

Lemma completed_inv a s final :
  completed a s final -> plot_spectrum a s = (Ok tt, final).
Proof.
  intros [pk sc s0 s1 s2 s3 s4 s5 s6 s7 s8 s9
            Hopen H1 H2 H3 H4 Hy Hshare Hboxes Hfilters Hres Hfin].
  assert (Haxes : setup_axes a s0 = (Ok sc, s6)).
  { unfold setup_axes.
    rewrite (bind_then _ _ _ _ _ H1), (bind_then _ _ _ _ _ H2),
      (bind_then _ _ _ _ _ H3), (bind_then _ _ _ _ _ H4),
      (bind_then _ _ _ _ _ Hy), (bind_then _ _ _ _ _ Hshare).
    reflexivity. }
  assert (Hmain : draw_main a s = (Ok pk, s8)).
  { assert (Hsetup : setup a s = (Ok (pk, sc), s6)).
    { unfold setup.
      rewrite (bind_then _ _ _ _ _ Hopen), (bind_then _ _ _ _ _ Haxes).
      reflexivity. }
    unfold draw_main. rewrite (bind_then _ _ _ _ _ Hsetup). cbn [fst snd].
    rewrite (bind_then _ _ _ _ _ Hboxes), (bind_then _ _ _ _ _ Hfilters).
    reflexivity. }
  unfold plot_spectrum. rewrite (bind_then _ _ _ _ _ Hmain).
  unfold residual_stage in Hres. rewrite (bind_then _ _ _ _ _ Hres).
  exact Hfin.
Qed.

End Completed.

(** ** Properties of a panel *)

#[export] Instance panel_has_heap_blind p P : HeapBlind (panel_has p P).
Proof. intros s h Hs. exact Hs. Qed.
#[export] Instance panel_has_rc_blind p P : RcBlind (panel_has p P).
Proof. intros s h Hs. exact Hs. Qed.
#[export] Instance panel_has_out_blind p P : OutBlind (panel_has p P).
Proof. intros s h Hs. exact Hs. Qed.

Lemma panel_has_on_axes_other p q P f :
  p <> q -> preserves (panel_has p P) (on_axes q f).
Proof.
  intros Hne s (ax & Hax & HP). exists ax. split; [ | exact HP ].
  exact (panel_is_on_axes_other p q ax f Hne s Hax).
Qed.

Lemma panel_has_on_axes_keep p q (P : axes -> Prop) f :
  (forall ax, P ax -> P (f ax)) -> preserves (panel_has p P) (on_axes q f).
Proof.
  intros Hf. destruct (panel_eq_dec p q) as [<- | Hne];
    [ | apply panel_has_on_axes_other; exact Hne ].
  intros s (ax & (fg & Hfg & Hp) & HP). rewrite on_axes_state, Hfg, Hp.
  exists (f ax). split; [ | exact (Hf ax HP) ].
  eexists. split; [ reflexivity | apply get_set_panel_eq ].
Qed.

Lemma on_axes_panel_has p (P : axes -> Prop) f s u s' :
  on_axes p f s = (Ok u, s') -> (forall ax, P (f ax)) -> panel_has p P s'.
Proof.
  intros Hrun HP. apply on_axes_panel_is in Hrun.
  destruct Hrun as (ax & _ & Hax). exists (f ax). split; [ exact Hax | apply HP ].
Qed.

Lemma panel_get_has {X} p (field : axes -> X) v s :
  panel_get p field s = Some v <-> panel_has p (fun ax => field ax = v) s.
Proof.
  unfold panel_get, panel_has, panel_is. split.
  - destruct (st_fig s) as [fg |] eqn:Hfg; [ | discriminate ].
    destruct (get_panel p fg) as [ax |] eqn:Hp; [ | discriminate ].
    cbn. intros H. inversion H. exists ax.
    split; [ exists fg; split; [ reflexivity | exact Hp ] | reflexivity ].
  - intros (ax & (fg & -> & ->) & <-). reflexivity.
Qed.

(** The primitive steps for a property of a panel that the axes updates
    of the computation keep. *)
Ltac panel_has_prim :=
  first [ apply preserves_put_heap; typeclasses eauto
        | apply preserves_set_rc; typeclasses eauto
        | apply preserves_put_out; typeclasses eauto
        | apply panel_has_on_axes_other; discriminate
        | apply panel_has_on_axes_keep; intros ? ?; assumption
        | apply panel_has_on_axes_keep; intros ? ?; auto ].

Section PanelStages.
Context `{C : Collab}.
Variables (a : args) (p : panel) (P : axes -> Prop).
Hypothesis Hdraw : forall d ax, P ax -> P (add_draw d ax).

Local Abbreviation keeps := (preserves (panel_has p P)).

Lemma draw_boxes_keeps pk scaling : keeps (draw_boxes a pk scaling).
Proof. repeat pres_step panel_has_prim. Qed.

Lemma draw_filters_keeps : keeps (draw_filters a).
Proof. repeat pres_step panel_has_prim. Qed.

End PanelStages.

(** * What every call does *)

Lemma bound_state {A B} (I : state -> Prop) (m : M A) (k : A -> M B) s :
  I (snd (m s)) -> (forall x, preserves I (k x)) -> I (snd (bind m k s)).
Proof.
  intros Hm Hk. rewrite bind_run.
  destruct (m s) as [[x | e] s']; cbn [snd] in *; [ apply (Hk x s' Hm) | exact Hm ].
Qed.

Section EveryCall.
Context `{C : Collab}.

Lemma residual_stage_out o a pk : preserves (out_is o) (residual_stage a pk).
Proof. unfold residual_stage. repeat pres_step blind_prim. Qed.

(** The figure is shown or saved by the last statement of the routine and
    by no other: a call that completes has shown the figure (no [output])
    or saved it under [output]; a call that raises has done neither. *)
Theorem output_only_on_completion (a : args) (s : state) :
  match fst (plot_spectrum a s) with
  | Ok _ =>
      st_out (snd (plot_spectrum a s))
      = Some (match output a with Some path => Saved path | None => Shown end)
  | Raise _ => st_out (snd (plot_spectrum a s)) = st_out s
  end.
Proof.
  unfold plot_spectrum. rewrite bind_run.
  pose proof (draw_main_out (st_out s) a s eq_refl) as H1.
  destruct (draw_main a s) as [[pk | e] s1]; cbn [fst snd] in *;
    [ | exact H1 ].
  rewrite bind_run.
  pose proof (residual_stage_out (st_out s) a pk s1 H1) as H2.
  unfold residual_stage in H2.
  destruct (match residuals a with
            | Some r => draw_residuals a pk r
            | None => ret tt
            end s1) as [[[] | e] s2]; cbn [fst snd] in *; [ | exact H2 ].
  unfold finish. rewrite bind_run.
  assert (K1 : preserves (out_is (st_out s))
                 (when (is_some (filters a))
                    (on_axes Filters (set_ylim F64.zero (Fin (11 # 10))))))
    by (repeat pres_step blind_prim).
  pose proof (K1 s2 H2) as H3.
  destruct (when (is_some (filters a))
              (on_axes Filters (set_ylim F64.zero (Fin (11 # 10)))) s2)
    as [[[] | e] s3]; cbn [fst snd] in *; [ | exact H3 ].
  rewrite bind_run.
  assert (K2 : preserves (out_is (st_out s))
                 (match title a with
                  | None => ret tt
                  | Some t =>
                      match filters a with
                      | Some (_ :: _) => on_axes Filters (set_title t)
                      | _ => on_axes Main (set_title t)
                      end
                  end))
    by (repeat pres_step blind_prim).
  pose proof (K2 s3 H3) as H4.
  destruct (match title a with
            | None => ret tt
            | Some t =>
                match filters a with
                | Some (_ :: _) => on_axes Filters (set_title t)
                | _ => on_axes Main (set_title t)
                end
            end s3) as [[[] | e] s4]; cbn [fst snd] in *; [ | exact H4 ].
  destruct (output a); reflexivity.
Qed.

(** The banner reads the first element of every list among the boxes: a
    call with an empty list among them raises IndexError before anything
    else has happened. *)
Theorem empty_list_among_boxes (a : args) (s : state) :
  In (BoxList []) (boxes a) -> plot_spectrum a s = (Raise IndexError, s).
Proof.
  intros Hin. unfold plot_spectrum, draw_main, setup, open_figure.
  repeat rewrite bind_run. rewrite (print_boxes_empty_list _ s Hin).
  reflexivity.
Qed.

#[export] Instance rc_is_heap_blind rc : HeapBlind (fun s => st_rc s = rc).
Proof. intros s h Hs. exact Hs. Qed.
#[export] Instance rc_is_fig_blind rc : FigBlind (fun s => st_rc s = rc).
Proof. intros s h Hs. exact Hs. Qed.
#[export] Instance rc_is_out_blind rc : OutBlind (fun s => st_rc s = rc).
Proof. intros s h Hs. exact Hs. Qed.

Ltac rc_prim :=
  first [ apply preserves_put_heap; typeclasses eauto
        | apply preserves_put_fig; typeclasses eauto
        | apply preserves_put_out; typeclasses eauto
        | apply preserves_on_axes; typeclasses eauto ].

Lemma open_figure_run a s :
  Forall (fun b => b <> BoxList []) (boxes a) ->
  open_figure a s
  = (pk <- init_plot_kwargs a ;; make_figure a ;; ret pk) (style_set s).
Proof.
  intros Hbs. unfold open_figure.
  rewrite (bind_then _ _ _ _ _ (print_boxes_ok _ s Hbs)). reflexivity.
Qed.

(** The three entries of the global style that the routine sets stay set,
    whether the call returns or raises; no other entry is touched.  (The
    boxes hold no empty list, on which the banner fails first.) *)
Theorem global_style_is_left_changed (a : args) (s : state) :
  Forall (fun b => b <> BoxList []) (boxes a) ->
  st_rc (snd (plot_spectrum a s))
  = dict_set "axes.axisbelow" (VBool false)
      (dict_set "mathtext.fontset" (VStr "dejavuserif")
         (dict_set "font.family" (VStr "serif") (st_rc s))).
Proof.
  intros Hbs.
  change (st_rc (snd (plot_spectrum a s)) = st_rc (style_set s)).
  apply (bound_state (fun t => st_rc t = st_rc (style_set s)));
    [ | intros; repeat pres_step rc_prim ].
  apply (bound_state (fun t => st_rc t = st_rc (style_set s)));
    [ | intros; repeat pres_step rc_prim ].
  apply (bound_state (fun t => st_rc t = st_rc (style_set s)));
    [ | intros; repeat pres_step rc_prim ].
  rewrite (open_figure_run a s Hbs).
  assert (K : preserves (fun t => st_rc t = st_rc (style_set s))
                (pk <- init_plot_kwargs a ;; make_figure a ;; ret pk))
    by (repeat pres_step rc_prim).
  exact (K (style_set s) eq_refl).
Qed.

End EveryCall.

Lemma empty_list_among_boxes_witness :
  @plot_spectrum Sample.collab
    (default_args [Sample.spectrum3 (Fin 1) (Fin 2) (Fin 3); BoxList []])
    (init_state [])
  = (Raise IndexError, init_state []).
Proof.
  apply (@empty_list_among_boxes Sample.collab). right. left. reflexivity.
Defined.

Lemma global_style_is_left_changed_witness :
  st_rc (snd (@plot_spectrum Sample.collab
                (default_args [Sample.spectrum3 (Fin 1) (Fin 2) (Fin 3)])
                (init_state [])))
  = dict_set "axes.axisbelow" (VBool false)
      (dict_set "mathtext.fontset" (VStr "dejavuserif")
         (dict_set "font.family" (VStr "serif") [])).
Proof.
  apply (@global_style_is_left_changed Sample.collab
           (default_args [Sample.spectrum3 (Fin 1) (Fin 2) (Fin 3)])
           (init_state [])).
  repeat constructor; discriminate.
Defined.

(** * The figure of a completed call *)

Section OtherPanels.
Context `{C : Collab}.
Variables (a : args) (p : panel) (P : axes -> Prop).
Hypothesis Hp : p <> Main.

Lemma draw_boxes_keeps_other pk scaling :
  preserves (panel_has p P) (draw_boxes a pk scaling).
Proof.
  repeat pres_step ltac:(first
    [ apply preserves_put_heap; typeclasses eauto
    | apply panel_has_on_axes_other; exact Hp ]).
Qed.

End OtherPanels.

(** [carry H Hrun]: the property [H] of the state before a stage holds
    after it, [Hrun] being the run of the stage. *)
Ltac keep_panel :=
  first [ apply draw_boxes_keeps; intros ? ? ?; assumption
        | apply draw_boxes_keeps_other; discriminate
        | unfold residual_stage; repeat pres_step panel_has_prim ].

Ltac carry H Hrun :=
  lazymatch type of Hrun with
  | ?m ?s = (_, ?s') =>
      lazymatch type of H with
      | ?I s =>
          let K := fresh "K" in
          assert (K : I s')
            by (refine (preserved_by I m s _ s' _ H Hrun); keep_panel);
          clear H; rename K into H
      end
  end.

#[export] Instance grid_heap_blind Q :
  HeapBlind (fun s => exists fg, st_fig s = Some fg /\ Q fg).
Proof. intros s h Hs. exact Hs. Qed.
#[export] Instance grid_rc_blind Q :
  RcBlind (fun s => exists fg, st_fig s = Some fg /\ Q fg).
Proof. intros s h Hs. exact Hs. Qed.
#[export] Instance grid_out_blind Q :
  OutBlind (fun s => exists fg, st_fig s = Some fg /\ Q fg).
Proof. intros s h Hs. exact Hs. Qed.

Lemma grid_on_axes a p f :
  preserves (fun s => exists fg, st_fig s = Some fg /\ grid_of a fg)
    (on_axes p f).
Proof.
  intros s (fg & Hfg & H2 & H3 & Hr). rewrite on_axes_state, Hfg.
  destruct (get_panel p fg) as [ax |] eqn:Hp;
    [ | exists fg; split; [ exact Hfg | split; [ exact H2 | split; assumption ] ] ].
  eexists. split; [ reflexivity | ].
  destruct p; cbn in Hp |- *.
  - split; [ exact H2 | split; assumption ].
  - rewrite Hp in H2. split; [ | split; assumption ].
    split; [ intros _; apply H2; discriminate | discriminate ].
  - rewrite Hp in H3. split; [ exact H2 | split; [ | exact Hr ] ].
    split; [ intros _; apply H3; discriminate | discriminate ].
Qed.

Ltac grid_prim :=
  first [ apply preserves_put_heap; typeclasses eauto
        | apply preserves_set_rc; typeclasses eauto
        | apply preserves_put_out; typeclasses eauto
        | apply grid_on_axes ].

Section FinalFigure.
Context `{C : Collab}.

Lemma make_figure_grid a s u s' :
  make_figure a s = (Ok u, s') -> exists fg, st_fig s' = Some fg /\ grid_of a fg.
Proof.
  unfold make_figure, put_fig, grid_of.
  destruct (residuals a), (filters a); intros H; inversion H; subst;
    (eexists; split; [ reflexivity | ]); cbn;
    repeat split; intros; congruence.
Qed.

Lemma after_grid a pk :
  preserves (fun s => exists fg, st_fig s = Some fg /\ grid_of a fg)
    (scaling <- setup_axes a ;;
     draw_boxes a pk scaling ;;
     draw_filters a ;;
     residual_stage a pk ;;
     finish a).
Proof. unfold residual_stage. repeat pres_step grid_prim. Qed.

(** The grid of a completed call: a filter panel exactly when [filters]
    is given, a residual panel exactly when [residuals] is given, and rows
    in the height ratios 1:3:1, 4:1, 1:4 or a single row. *)
Theorem grid_of_a_completed_call (a : args) (s : state) :
  fst (plot_spectrum a s) = Ok tt ->
  exists fg, st_fig (snd (plot_spectrum a s)) = Some fg /\ grid_of a fg.
Proof.
  intros Hok. pose proof (completed_run a s Hok) as Hc.
  destruct Hc as [pk sc s0 s1 s2 s3 s4 s5 s6 s7 s8 s9
                    Hopen H1 H2 H3 H4 Hy Hshare Hboxes Hfilters Hres Hfin].
  assert (G0 : exists fg, st_fig s0 = Some fg /\ grid_of a fg).
  { unfold open_figure in Hopen.
    do 5 (apply bind_ok in Hopen; destruct Hopen as (? & ? & _ & Hopen)).
    apply bind_ok in Hopen. destruct Hopen as (u & t & Hfig & Hopen).
    apply ret_ok in Hopen. destruct Hopen as [_ ->].
    exact (make_figure_grid a _ u t Hfig). }
  assert (Hrest : (scaling <- setup_axes a ;;
                   draw_boxes a pk scaling ;;
                   draw_filters a ;;
                   residual_stage a pk ;;
                   finish a) s0 = (Ok tt, snd (plot_spectrum a s))).
  { assert (Haxes : setup_axes a s0 = (Ok sc, s6)).
    { unfold setup_axes.
      rewrite (bind_then _ _ _ _ _ H1), (bind_then _ _ _ _ _ H2),
        (bind_then _ _ _ _ _ H3), (bind_then _ _ _ _ _ H4),
        (bind_then _ _ _ _ _ Hy), (bind_then _ _ _ _ _ Hshare).
      reflexivity. }
    rewrite (bind_then _ _ _ _ _ Haxes), (bind_then _ _ _ _ _ Hboxes),
      (bind_then _ _ _ _ _ Hfilters), (bind_then _ _ _ _ _ Hres).
    exact Hfin. }
  exact (preserved_by _ _ _ _ _ (after_grid a pk) G0 Hrest).
Qed.

End FinalFigure.

Lemma grid_of_a_completed_call_witness :
  let a := default_args [Sample.spectrum3 (Fin 1) (Fin 2) (Fin 3)] in
  exists fg,
    st_fig (snd (@plot_spectrum Sample.collab a (init_state []))) = Some fg
    /\ grid_of a fg.
Proof.
  intros a. apply (@grid_of_a_completed_call Sample.collab a (init_state [])).
  vm_compute. reflexivity.
Defined.

Section Labels.
Context `{C : Collab}.

(** The wavelength label sits under the bottom panel only: the residual
    panel when there is one, else the main panel; the panels above it
    have an empty x-label. *)
Theorem wavelength_label_under_bottom_panel (a : args) (s : state) :
  fst (plot_spectrum a s) = Ok tt ->
  let final := snd (plot_spectrum a s) in
  panel_get (bottom_panel a) a_xlabel final = Some (Some wavelength_label)
  /\ (residuals a <> None -> panel_get Main a_xlabel final = Some (Some ""))
  /\ (filters a <> None -> panel_get Filters a_xlabel final = Some (Some "")).
Proof.
  intros Hok final. pose proof (completed_run a s Hok) as Hc. fold final in Hc.
  destruct Hc as [pk sc s0 s1 s2 s3 s4 s5 s6 s7 s8 s9
                    Hopen H1 H2 H3 H4 Hy Hshare Hboxes Hfilters Hres Hfin].
  assert (Hlater : forall p v,
             panel_has p (fun ax => a_xlabel ax = v) s2 ->
             panel_get p a_xlabel final = Some v).
  { intros p v H. carry H H3. carry H H4. carry H Hy. carry H Hshare.
    carry H Hboxes. carry H Hfilters. carry H Hres. carry H Hfin.
    apply panel_get_has. exact H. }
  unfold set_xlabels, bottom_panel in *.
  destruct (residuals a) as [r |], (filters a) as [names |].
  - apply bind_ok in H2. destruct H2 as ([] & t1 & Hm & H2).
    apply bind_ok in H2. destruct H2 as ([] & t2 & Hf & Hr).
    assert (Km : panel_has Main (fun ax => a_xlabel ax = Some "") t1)
      by (apply (on_axes_panel_has _ _ _ _ _ _ Hm); reflexivity).
    assert (Kf : panel_has Filters (fun ax => a_xlabel ax = Some "") t2)
      by (apply (on_axes_panel_has _ _ _ _ _ _ Hf); reflexivity).
    carry Km Hf. carry Km Hr. carry Kf Hr.
    split; [ | split; intros _; apply Hlater; assumption ].
    apply Hlater. apply (on_axes_panel_has _ _ _ _ _ _ Hr). reflexivity.
  - apply bind_ok in H2. destruct H2 as ([] & t1 & Hm & Hr).
    assert (Km : panel_has Main (fun ax => a_xlabel ax = Some "") t1)
      by (apply (on_axes_panel_has _ _ _ _ _ _ Hm); reflexivity).
    carry Km Hr.
    split; [ | split; [ intros _; apply Hlater; assumption
                      | intros H; contradiction H; reflexivity ] ].
    apply Hlater. apply (on_axes_panel_has _ _ _ _ _ _ Hr). reflexivity.
  - apply bind_ok in H2. destruct H2 as ([] & t1 & Hm & Hf).
    assert (Km : panel_has Main (fun ax => a_xlabel ax = Some wavelength_label) t1)
      by (apply (on_axes_panel_has _ _ _ _ _ _ Hm); reflexivity).
    carry Km Hf.
    split; [ apply Hlater; assumption | ].
    split; [ intros H; contradiction H; reflexivity | intros _ ].
    apply Hlater. apply (on_axes_panel_has _ _ _ _ _ _ Hf). reflexivity.
  - split; [ | split; intros H; contradiction H; reflexivity ].
    apply Hlater. apply (on_axes_panel_has _ _ _ _ _ _ H2). reflexivity.
Qed.

(** The x-range: the given [xlim], or 0.5 to 5 micron; the filter panel
    and the residual panel take over the range of the main panel.  (For
    limits that the backend takes as they are, so that reading the range
    of the main panel back gives what was set.) *)
Theorem panels_share_the_x_range (a : args) (s : state) :
  backend_accepts a ->
  fst (plot_spectrum a s) = Ok tt ->
  let final := snd (plot_spectrum a s) in
  panel_get Main a_xlim final = Some (Some (x_range a))
  /\ (filters a <> None ->
      panel_get Filters a_xlim final = Some (Some (x_range a)))
  /\ (residuals a <> None ->
      panel_get Resid a_xlim final = Some (Some (x_range a))).
Proof.
  intros _ Hok final. pose proof (completed_run a s Hok) as Hc. fold final in Hc.
  destruct Hc as [pk sc s0 s1 s2 s3 s4 s5 s6 s7 s8 s9
                    Hopen H1 H2 H3 H4 Hy Hshare Hboxes Hfilters Hres Hfin].
  assert (Hlater : forall p v,
             panel_has p (fun ax => a_xlim ax = v) s6 ->
             panel_get p a_xlim final = Some v).
  { intros p v H. carry H Hboxes. carry H Hfilters. carry H Hres.
    carry H Hfin. apply panel_get_has. exact H. }
  assert (Km : panel_has Main (fun ax => a_xlim ax = Some (x_range a)) s4).
  { unfold set_main_xlim, x_range in *.
    destruct (xlim a) as [[lo hi] |];
      apply (on_axes_panel_has _ _ _ _ _ _ H4); reflexivity. }
  carry Km Hy.
  unfold share_xlim in Hshare.
  apply bind_ok in Hshare. destruct Hshare as (xl & t0 & Hget & Hshare).
  apply read_axes_ok in Hget. destruct Hget as (ax & Hax & -> & ->).
  destruct Km as (ax' & Hax' & Hlim).
  rewrite <- (panel_is_unique _ _ _ _ Hax Hax') in Hlim. rewrite Hlim in Hshare.
  cbn [fst snd] in Hshare.
  assert (Km : panel_has Main (fun ax => a_xlim ax = Some (x_range a)) s5)
    by (exists ax; split; assumption).
  apply bind_ok in Hshare. destruct Hshare as ([] & t1 & Hf & Hr).
  split; [ | split ].
  - carry Km Hf. carry Km Hr. apply Hlater. exact Km.
  - intros Hsome. destruct (filters a) as [names |]; [ | contradiction Hsome; reflexivity ].
    cbn [is_some when] in Hf.
    apply bind_ok in Hf. destruct Hf as ([] & t2 & Hf1 & Hf2).
    assert (Kf : panel_has Filters (fun ax => a_xlim ax = Some (x_range a)) t2).
    { apply (on_axes_panel_has _ _ _ _ _ _ Hf1). intros ax0.
      destruct (x_range a); reflexivity. }
    carry Kf Hf2. carry Kf Hr. apply Hlater. exact Kf.
  - intros Hsome. destruct (residuals a) as [r |]; [ | contradiction Hsome; reflexivity ].
    cbn [is_some when] in Hr. apply Hlater.
    apply (on_axes_panel_has _ _ _ _ _ _ Hr). intros ax0.
    destruct (x_range a); reflexivity.
Qed.

End Labels.

Lemma wavelength_label_under_bottom_panel_witness :
  let r := mk_residuals (Some [("X", ROne (Fin 1) (Fin 2))]) None in
  let a := Sample.with_residuals (default_args [Sample.object_once]) r in
  let final := snd (@plot_spectrum Sample.collab a (init_state [])) in
  panel_get (bottom_panel a) a_xlabel final = Some (Some wavelength_label)
  /\ (residuals a <> None -> panel_get Main a_xlabel final = Some (Some ""))
  /\ (filters a <> None -> panel_get Filters a_xlabel final = Some (Some "")).
Proof.
  intros r a final.
  apply (@wavelength_label_under_bottom_panel Sample.collab a (init_state [])).
  vm_compute. reflexivity.
Defined.

Lemma panels_share_the_x_range_witness :
  let r := mk_residuals (Some [("X", ROne (Fin 1) (Fin 2))]) None in
  let a := Sample.with_residuals (default_args [Sample.object_once]) r in
  let final := snd (@plot_spectrum Sample.collab a (init_state [])) in
  panel_get Main a_xlim final = Some (Some (x_range a))
  /\ (filters a <> None ->
      panel_get Filters a_xlim final = Some (Some (x_range a)))
  /\ (residuals a <> None ->
      panel_get Resid a_xlim final = Some (Some (x_range a))).
Proof.
  intros r a final.
  apply (@panels_share_the_x_range Sample.collab a (init_state [])).
  - repeat split; left; reflexivity.
  - vm_compute. reflexivity.
Defined.

Section FilterPanel.
Context `{C : Collab}.

Lemma on_axes_panel_has_from p (P Q : axes -> Prop) f s u s' :
  on_axes p f s = (Ok u, s') ->
  panel_has p P s -> (forall ax, P ax -> Q (f ax)) -> panel_has p Q s'.
Proof.
  intros Hrun (ax & Hax & HP) HQ. apply on_axes_panel_is in Hrun.
  destruct Hrun as (ax' & Hax' & Hafter).
  rewrite (panel_is_unique _ _ _ _ Hax' Hax) in Hafter.
  exists (f ax). split; [ exact Hafter | exact (HQ ax HP) ].
Qed.

Lemma draw_filter_curves names : forall ds s s',
  panel_has Filters (fun ax => a_draws ax = ds) s ->
  for_each names (fun item =>
    on_axes Filters (add_draw (filter_curve (get_filter item)))) s
  = (Ok tt, s') ->
  panel_has Filters
    (fun ax => a_draws ax
               = ds ++ map (fun item => filter_curve (get_filter item)) names)
    s'.
Proof.
  induction names as [| item names IH]; intros ds s s' Hs H; cbn [for_each] in H.
  - apply ret_ok in H. destruct H as [_ ->]. cbn. rewrite app_nil_r. exact Hs.
  - apply bind_ok in H. destruct H as ([] & s1 & H1 & H).
    cbn [map]. change (?x :: ?l) with ([x] ++ l). rewrite app_assoc.
    apply (IH _ s1 s'); [ | exact H ].
    apply (on_axes_panel_has_from _ _ _ _ _ _ _ H1 Hs).
    intros ax Hax. cbn. rewrite Hax. reflexivity.
Qed.

Lemma open_figure_panel a s pk s0 p :
  open_figure a s = (Ok pk, s0) ->
  (p = Main \/ (p = Filters /\ filters a <> None)
   \/ (p = Resid /\ residuals a <> None)) ->
  panel_is p new_axes s0.
Proof.
  unfold open_figure. intros H Hp.
  do 5 (apply bind_ok in H; destruct H as (? & ? & _ & H)).
  apply bind_ok in H. destruct H as (u & s1 & Hfig & H).
  apply ret_ok in H. destruct H as [_ ->].
  unfold make_figure, put_fig in Hfig.
  destruct (residuals a), (filters a); inversion Hfig; subst;
    (eexists; split; [ reflexivity | ]);
    destruct Hp as [-> | [[-> Hp] | [-> Hp]]]; try reflexivity;
    contradiction Hp; reflexivity.
Qed.

(** The filter panel of a completed call shows the transmission curve of
    every filter, in the order of [filters] and nothing else; its y-axis
    runs from 0 to 1.1 and is labelled T_lambda. *)
Theorem filter_panel_shows_the_profiles (a : args) (s : state)
    (names : list string) :
  filters a = Some names ->
  fst (plot_spectrum a s) = Ok tt ->
  let final := snd (plot_spectrum a s) in
  panel_draws Filters final
  = map (fun item => filter_curve (get_filter item)) names
  /\ panel_get Filters a_ylim final = Some (Some (F64.zero, Fin (11 # 10)))
  /\ panel_get Filters a_ylabel final = Some (Some "$T_\lambda$").
Proof.
  intros Hnames Hok final. pose proof (completed_run a s Hok) as Hc.
  fold final in Hc.
  destruct Hc as [pk sc s0 s1 s2 s3 s4 s5 s6 s7 s8 s9
                    Hopen H1 H2 H3 H4 Hy Hshare Hboxes Hfilters Hres Hfin].
  split; [ | split ].
  - assert (G : panel_has Filters (fun ax => a_draws ax = []) s0).
    { exists new_axes. split; [ | reflexivity ].
      apply (open_figure_panel a s pk s0 Filters Hopen).
      right. left. split; [ reflexivity | congruence ]. }
    carry G H1. carry G H2. carry G H3. carry G H4. carry G Hy.
    carry G Hshare. carry G Hboxes.
    unfold draw_filters in Hfilters. rewrite Hnames in Hfilters.
    pose proof (draw_filter_curves names [] s7 s8 G Hfilters) as K8.
    cbn [app] in K8.
    carry K8 Hres. carry K8 Hfin.
    destruct K8 as (ax & Hax & Hd8).
    rewrite (panel_is_draws _ _ _ Hax). exact Hd8.
  - unfold finish in Hfin. rewrite Hnames in Hfin. cbn [is_some when] in Hfin.
    apply bind_ok in Hfin. destruct Hfin as ([] & t & Hf1 & Hfin).
    assert (K : panel_has Filters
                  (fun ax => a_ylim ax = Some (F64.zero, Fin (11 # 10))) t)
      by (apply (on_axes_panel_has _ _ _ _ _ _ Hf1); reflexivity).
    carry K Hfin. apply panel_get_has. exact K.
  - unfold set_panel_ylabels in H3. rewrite Hnames in H3.
    cbn [is_some when] in H3.
    apply bind_ok in H3. destruct H3 as ([] & t & Hf1 & H3).
    assert (K : panel_has Filters (fun ax => a_ylabel ax = Some "$T_\lambda$") t)
      by (apply (on_axes_panel_has _ _ _ _ _ _ Hf1); reflexivity).
    carry K H3. carry K H4. carry K Hy. carry K Hshare. carry K Hboxes.
    carry K Hfilters. carry K Hres. carry K Hfin.
    apply panel_get_has. exact K.
Qed.

(** The title goes on the filter panel when [filters] is a list with at
    least one name, else on the main panel - also when [filters] is the
    empty list, although the grid then has a filter panel. *)
Theorem title_on_the_top_panel (a : args) (s : state) (t : string) :
  title a = Some t ->
  fst (plot_spectrum a s) = Ok tt ->
  let final := snd (plot_spectrum a s) in
  match filters a with
  | Some (_ :: _) =>
      panel_get Filters a_title final = Some (Some t)
      /\ panel_get Main a_title final = Some None
  | Some [] =>
      panel_get Main a_title final = Some (Some t)
      /\ panel_get Filters a_title final = Some None
  | None => panel_get Main a_title final = Some (Some t)
  end.
Proof.
  intros Htitle Hok final. pose proof (completed_run a s Hok) as Hc.
  fold final in Hc.
  destruct Hc as [pk sc s0 s1 s2 s3 s4 s5 s6 s7 s8 s9
                    Hopen H1 H2 H3 H4 Hy Hshare Hboxes Hfilters Hres Hfin].
  assert (Hearlier : forall p,
             panel_is p new_axes s0 ->
             panel_has p (fun ax => a_title ax = None) s9).
  { intros p Hp.
    assert (G : panel_has p (fun ax => a_title ax = None) s0)
      by (exists new_axes; split; [ exact Hp | reflexivity ]).
    carry G H1. carry G H2. carry G H3. carry G H4. carry G Hy.
    carry G Hshare. carry G Hboxes. carry G Hfilters. carry G Hres.
    exact G. }
  unfold finish in Hfin. rewrite Htitle in Hfin.
  apply bind_ok in Hfin. destruct Hfin as ([] & t1 & Hf1 & Hfin).
  apply bind_ok in Hfin. destruct Hfin as ([] & t2 & Hf2 & Hfin).
  destruct (filters a) as [[| name names] |] eqn:Hnames.
  - assert (K : panel_has Main (fun ax => a_title ax = Some t) t2)
      by (apply (on_axes_panel_has _ _ _ _ _ _ Hf2); reflexivity).
    carry K Hfin.
    assert (G : panel_has Filters (fun ax => a_title ax = None) s9).
    { apply Hearlier. apply (open_figure_panel a s pk s0 Filters Hopen).
      right. left. split; [ reflexivity | congruence ]. }
    carry G Hf1. carry G Hf2. carry G Hfin.
    split; apply panel_get_has; assumption.
  - assert (K : panel_has Filters (fun ax => a_title ax = Some t) t2)
      by (apply (on_axes_panel_has _ _ _ _ _ _ Hf2); reflexivity).
    carry K Hfin.
    assert (G : panel_has Main (fun ax => a_title ax = None) s9).
    { apply Hearlier. apply (open_figure_panel a s pk s0 Main Hopen).
      left. reflexivity. }
    carry G Hf1. carry G Hf2. carry G Hfin.
    split; apply panel_get_has; assumption.
  - assert (K : panel_has Main (fun ax => a_title ax = Some t) t2)
      by (apply (on_axes_panel_has _ _ _ _ _ _ Hf2); reflexivity).
    carry K Hfin. apply panel_get_has. exact K.
Qed.

End FilterPanel.

Lemma filter_panel_shows_the_profiles_witness :
  let a := mk_args [Sample.spectrum3 (Fin 1) (Fin 2) (Fin 3)]
             (Some ["J"; "H"]) None None false None None None None None
             "planet" "flux density" None None None false in
  let final := snd (@plot_spectrum Sample.collab a (init_state [])) in
  panel_draws Filters final
  = map (fun item => filter_curve (@get_filter Sample.collab item)) ["J"; "H"]
  /\ panel_get Filters a_ylim final = Some (Some (F64.zero, Fin (11 # 10)))
  /\ panel_get Filters a_ylabel final = Some (Some "$T_\lambda$").
Proof.
  intros a final.
  apply (@filter_panel_shows_the_profiles Sample.collab a (init_state [])).
  - reflexivity.
  - vm_compute. reflexivity.
Defined.

Lemma title_on_the_top_panel_witness :
  let a := mk_args [Sample.spectrum3 (Fin 1) (Fin 2) (Fin 3)]
             (Some []) None None false None None None None (Some "HR 8799 b")
             "planet" "flux density" None None None false in
  let final := snd (@plot_spectrum Sample.collab a (init_state [])) in
  panel_get Main a_title final = Some (Some "HR 8799 b")
  /\ panel_get Filters a_title final = Some None.
Proof.
  intros a final.
  apply (@title_on_the_top_panel Sample.collab a (init_state []) "HR 8799 b").
  - reflexivity.
  - vm_compute. reflexivity.
Defined.

(** * Calls that fail at the y-axis *)

Section Succeeds.
Context {A B : Type} (I : state -> Prop).

Lemma succeeds_ret (x : A) : succeeds I (ret x).
Proof. intros s Hs. exists x, s. split; [ reflexivity | exact Hs ]. Qed.

Lemma succeeds_bind (m : M A) (k : A -> M B) :
  succeeds I m -> (forall x, succeeds I (k x)) -> succeeds I (bind m k).
Proof.
  intros Hm Hk s Hs. destruct (Hm s Hs) as (x & s1 & Hrun & H1).
  destruct (Hk x s1 H1) as (y & s2 & Hrun2 & H2).
  exists y, s2. split; [ | exact H2 ].
  rewrite (bind_then _ _ _ _ _ Hrun). exact Hrun2.
Qed.

End Succeeds.

Lemma succeeds_when (I : state -> Prop) (b : bool) (m : M unit) :
  (b = true -> succeeds I m) -> succeeds I (when b m).
Proof.
  intros Hm. destruct b; [ exact (Hm eq_refl) | apply succeeds_ret ].
Qed.

Lemma grid_panel a p s :
  has_grid a s -> in_grid a p -> exists ax, panel_is p ax s.
Proof.
  intros (fg & Hfg & H2 & H3 & _) Hp. destruct p; cbn in Hp.
  - exists (ax1 fg), fg. auto.
  - apply H2 in Hp. destruct (ax2 fg) as [ax |] eqn:E;
      [ | contradiction Hp; reflexivity ].
    exists ax, fg. auto.
  - apply H3 in Hp. destruct (ax3 fg) as [ax |] eqn:E;
      [ | contradiction Hp; reflexivity ].
    exists ax, fg. auto.
Qed.

Lemma succeeds_on_axes a p f :
  in_grid a p -> succeeds (has_grid a) (on_axes p f).
Proof.
  intros Hp s Hs. destruct (grid_panel a p s Hs Hp) as (ax & fg & Hfg & Hax).
  exists tt. eexists. split.
  - unfold on_axes. rewrite Hfg, Hax. reflexivity.
  - pose proof (grid_on_axes a p f s Hs) as H. unfold on_axes in H.
    rewrite Hfg, Hax in H. exact H.
Qed.

Lemma succeeds_read_axes {X} a p (f : axes -> X) :
  in_grid a p -> succeeds (has_grid a) (read_axes p f).
Proof.
  intros Hp s Hs. destruct (grid_panel a p s Hs Hp) as (ax & fg & Hfg & Hax).
  exists (f ax), s. split; [ | exact Hs ].
  unfold read_axes. rewrite Hfg, Hax. reflexivity.
Qed.

(** One syntax-directed step of a proof that a computation on the axes
    cannot raise. *)
Ltac succ_step :=
  lazymatch goal with
  | |- succeeds _ (ret _) => apply succeeds_ret
  | |- succeeds _ (bind _ _) => apply succeeds_bind; [ | intros ]
  | |- succeeds _ (when (is_some ?o) _) =>
      apply succeeds_when; destruct o eqn:?; [ intros _ | discriminate ]
  | |- succeeds _ (on_axes _ _) =>
      apply succeeds_on_axes; cbn; first [ exact I | congruence ]
  | |- succeeds _ (read_axes _ _) =>
      apply succeeds_read_axes; cbn; first [ exact I | congruence ]
  | |- succeeds _ (match ?x with _ => _ end) => destruct x eqn:?
  | |- succeeds _ (if ?x then _ else _) => destruct x eqn:?
  | |- succeeds _ ?m => let h := head_of m in unfold h
  end.

Section Axes.
Context `{C : Collab}.

Lemma before_yaxis_succeeds a : succeeds (has_grid a) (before_yaxis a).
Proof. repeat succ_step. Qed.

Lemma share_xlim_succeeds a : succeeds (has_grid a) (share_xlim a).
Proof. repeat succ_step. Qed.

Lemma draw_filters_succeeds a : succeeds (has_grid a) (draw_filters a).
Proof.
  unfold draw_filters. destruct (filters a) as [names |] eqn:Hf;
    [ | apply succeeds_ret ].
  assert (Hin : in_grid a Filters) by (cbn; congruence).
  clear Hf. induction names as [| item names IH]; cbn [for_each];
    [ apply succeeds_ret | ].
  apply succeeds_bind; [ | intros _; exact IH ].
  apply succeeds_on_axes. exact Hin.
Qed.

Lemma finish_succeeds a : succeeds (has_grid a) (finish a).
Proof.
  unfold finish.
  apply succeeds_bind; [ repeat succ_step | intros _ ].
  apply succeeds_bind; [ repeat succ_step | intros _ ].
  destruct (output a) as [path |]; intros t Ht; eexists tt, _;
    (split; [ reflexivity | exact Ht ]).
Qed.

(** The preamble of a call. *)
Lemma open_figure_passes a s :
  preamble_passes a s ->
  exists pk s0,
    open_figure a s = (Ok pk, s0)
    /\ has_grid a s0
    /\ st_out s0 = st_out s
    /\ (forall p, in_grid a p -> panel_is p new_axes s0)
    /\ match plot_kwargs a with
       | Some addr => pk = VRef addr /\ st_heap s0 = st_heap s
       | None => pk = VRef (length (st_heap s))
                 /\ st_heap s0 = st_heap s ++ [OList []]
       end.
Proof.
  intros [Hbs Hpk]. rewrite (open_figure_run a s Hbs).
  assert (Hfig : forall (pk : pyval) (t : state),
             exists s0, (make_figure a ;; ret pk) t = (Ok pk, s0)
                        /\ has_grid a s0 /\ st_out s0 = st_out t
                        /\ st_heap s0 = st_heap t
                        /\ (forall p, in_grid a p -> panel_is p new_axes s0)).
  { intros pk t.
    assert (Hm : exists fg,
               make_figure a t = (Ok tt, with_fig (Some fg) t)
               /\ (forall p, in_grid a p -> get_panel p fg = Some new_axes)).
    { unfold make_figure, put_fig, in_grid.
      destruct (residuals a), (filters a); (eexists; split; [ reflexivity | ]);
        intros p Hp; destruct p; try reflexivity; contradiction Hp; reflexivity. }
    destruct Hm as (fg & Hm & Hp).
    exists (with_fig (Some fg) t). rewrite (bind_then _ _ _ _ _ Hm).
    split; [ reflexivity | ].
    split; [ exact (make_figure_grid a t tt _ Hm) | ].
    split; [ reflexivity | ]. split; [ reflexivity | ].
    intros p Hin. exists fg. split; [ reflexivity | exact (Hp p Hin) ]. }
  unfold init_plot_kwargs. destruct (plot_kwargs a) as [addr |].
  - destruct Hpk as (l & Hl & Hlen).
    destruct (Hfig (VRef addr) (style_set s)) as (s0 & Hrun & Hg & Ho & Hh & Hp).
    exists (VRef addr), s0. split; [ | auto ].
    assert (Hlen' : len (VRef addr) (style_set s)
                    = (Ok (length (boxes a)), style_set s)).
    { unfold len, deref. rewrite !bind_run. unfold get_heap, ret.
      change (st_heap (style_set s)) with (st_heap s). rewrite Hl, Hlen.
      reflexivity. }
    assert (Hinit : (n <- len (VRef addr) ;;
                     if negb (Nat.eqb (length (boxes a)) n)
                     then raise (ValueError (LenMismatch (length (boxes a)) n))
                     else ret (VRef addr)) (style_set s)
                    = (Ok (VRef addr), style_set s)).
    { rewrite (bind_then _ _ _ _ _ Hlen'), Nat.eqb_refl. reflexivity. }
    rewrite (bind_then _ _ _ _ _ Hinit). exact Hrun.
  - destruct (Hfig (VRef (length (st_heap s)))
                (with_heap (st_heap s ++ [OList []]) (style_set s)))
      as (s0 & Hrun & Hg & Ho & Hh & Hp).
    exists (VRef (length (st_heap s))), s0. split; [ exact Hrun | auto ].
Qed.

Lemma raises_at_the_y_axis a s pk s0 s4 e s5 :
  open_figure a s = (Ok pk, s0) ->
  before_yaxis a s0 = (Ok tt, s4) ->
  set_main_yaxis a s4 = (Raise e, s5) ->
  plot_spectrum a s = (Raise e, s5) /\ st_out s5 = st_out s.
Proof.
  intros Hopen Hbefore Hy. unfold before_yaxis in Hbefore.
  apply bind_ok in Hbefore. destruct Hbefore as ([] & s1 & H1 & Hbefore).
  apply bind_ok in Hbefore. destruct Hbefore as ([] & s2 & H2 & Hbefore).
  apply bind_ok in Hbefore. destruct Hbefore as ([] & s3 & H3 & H4).
  assert (Haxes : setup_axes a s0 = (Raise e, s5)).
  { unfold setup_axes.
    rewrite (bind_then _ _ _ _ _ H1), (bind_then _ _ _ _ _ H2),
      (bind_then _ _ _ _ _ H3), (bind_then _ _ _ _ _ H4).
    apply bind_raises. exact Hy. }
  assert (Hmain : draw_main a s = (Raise e, s5)).
  { unfold draw_main, setup.
    apply bind_raises. rewrite (bind_then _ _ _ _ _ Hopen).
    apply bind_raises. exact Haxes. }
  split; [ unfold plot_spectrum; apply bind_raises; exact Hmain | ].
  pose proof (draw_main_out (st_out s) a s eq_refl) as Hout.
  rewrite Hmain in Hout. exact Hout.
Qed.

(** The state in which the y-axis of the main panel is set up. *)
Lemma reaches_the_y_axis a s :
  preamble_passes a s ->
  exists pk s0 s4,
    open_figure a s = (Ok pk, s0)
    /\ before_yaxis a s0 = (Ok tt, s4)
    /\ has_grid a s4
    /\ panel_draws Main s4 = [].
Proof.
  intros Hpre.
  destruct (open_figure_passes a s Hpre) as (pk & s0 & Hopen & Hg & _ & Hp & _).
  destruct (before_yaxis_succeeds a s0 Hg) as ([] & s4 & Hbefore & Hg4).
  exists pk, s0, s4. split; [ exact Hopen | ]. split; [ exact Hbefore | ].
  split; [ exact Hg4 | ].
  pose proof (open_figure_fresh a s pk s0 Main (fun _ => False) Hopen) as G.
  pose proof (before_yaxis_draws a _ _ s0 G) as G4. rewrite Hbefore in G4.
  destruct G4 as (added & Hd & Hall). destruct added as [| d added];
    [ exact Hd | inversion Hall as [| ? ? [] _] ].
Qed.

End Axes.

Lemma on_axes_add_draws p d s u s' :
  on_axes p (add_draw d) s = (Ok u, s') ->
  panel_draws p s' = panel_draws p s ++ [d].
Proof.
  intros H. apply on_axes_panel_is in H. destruct H as (ax & H0 & H1).
  rewrite (panel_is_draws _ _ _ H0), (panel_is_draws _ _ _ H1). reflexivity.
Qed.

Section YAxisErrors.
Context `{C : Collab}.

Lemma set_ylim_then_read a lo hi s :
  has_grid a s ->
  exists s1,
    on_axes Main (set_ylim lo hi) s = (Ok tt, s1)
    /\ get_ylim Main s1 = (Ok (lo, hi), s1)
    /\ panel_draws Main s1 = panel_draws Main s.
Proof.
  intros (fg & Hfg & _). eexists. split; [ apply on_axes_main_run, Hfg | ].
  split; [ reflexivity | ].
  unfold panel_draws. cbn. rewrite Hfg. reflexivity.
Qed.

(** On a linear y-axis an upper limit that is not positive has no decimal
    logarithm: a call that passes the preamble, with scales and limits
    that the backend takes as given, raises the ValueError of [math.log10]
    before anything is drawn. *)
Theorem nonpositive_upper_limit_raises (a : args) (s : state) (lo : f64)
    (q : Q) :
  preamble_passes a s ->
  backend_accepts a ->
  is_quantity "magnitude" a = false ->
  ylim a = Some (lo, Fin q) ->
  snd (the_scale a) = "linear" ->
  (q <= 0)%Q ->
  fst (plot_spectrum a s) = Raise (ValueError MathDomain)
  /\ main_draws (snd (plot_spectrum a s)) = []
  /\ st_out (snd (plot_spectrum a s)) = st_out s.
Proof.
  intros Hpre _ Hmag Hlim Hlin Hq.
  destruct (reaches_the_y_axis a s Hpre)
    as (pk & s0 & s4 & Hopen & Hbefore & Hg & Hd).
  destruct (set_ylim_then_read a lo (Fin q) s4 Hg) as (s5 & Hset & Hget & Hd5).
  assert (Hy : set_main_yaxis a s4 = (Raise (ValueError MathDomain), s5)).
  { unfold set_main_yaxis. rewrite Hmag, Hlim.
    rewrite (bind_then _ _ _ _ _ Hset), (bind_then _ _ _ _ _ Hget).
    cbn [fst snd]. apply bind_raises.
    rewrite exponent_and_scaling_run, Hlin. cbn [String.eqb Ascii.eqb Bool.eqb].
    cbn [floor_log10].
    replace (Qle_bool q 0) with true
      by (symmetry; apply Qle_bool_iff; exact Hq).
    reflexivity. }
  destruct (raises_at_the_y_axis a s pk s0 s4 _ s5 Hopen Hbefore Hy)
    as [Hrun Hout].
  rewrite Hrun. cbn [fst snd]. split; [ reflexivity | ].
  split; [ | exact Hout ].
  unfold main_draws. rewrite Hd5. exact Hd.
Qed.

(** With explicit y-limits a quantity other than "flux density", "flux"
    and "magnitude" leaves the label of the y-axis unbound: a call that
    passes the preamble, with scales and limits that the backend takes as
    given and, on a linear y-axis, a positive upper limit (else the
    logarithm raises first), raises UnboundLocalError before anything is
    drawn. *)
Theorem unknown_quantity_with_limits_raises (a : args) (s : state)
    (lo hi : f64) :
  preamble_passes a s ->
  backend_accepts a ->
  is_quantity "magnitude" a = false ->
  is_quantity "flux density" a = false ->
  is_quantity "flux" a = false ->
  ylim a = Some (lo, hi) ->
  (snd (the_scale a) = "linear" -> F64.ltb F64.zero hi = true) ->
  fst (plot_spectrum a s) = Raise UnboundLocalError
  /\ main_draws (snd (plot_spectrum a s)) = []
  /\ st_out (snd (plot_spectrum a s)) = st_out s.
Proof.
  intros Hpre Hacc Hmag Hden Hflux Hlim Hpos.
  destruct (reaches_the_y_axis a s Hpre)
    as (pk & s0 & s4 & Hopen & Hbefore & Hg & Hd).
  destruct (set_ylim_then_read a lo hi s4 Hg) as (s5 & Hset & Hget & Hd5).
  assert (Hexp : exists es, exponent_and_scaling a hi s5 = (Ok es, s5)).
  { rewrite exponent_and_scaling_run.
    destruct (String.eqb_spec (snd (the_scale a)) "linear") as [E | _];
      [ | eexists; reflexivity ].
    destruct Hacc as (_ & _ & _ & Hy). rewrite Hlim in Hy. cbn in Hy.
    destruct lo as [ | | | l]; try contradiction.
    destruct hi as [ | | | h]; try contradiction.
    specialize (Hpos E). cbn in Hpos. cbn [floor_log10].
    destruct (Qle_bool h 0); [ discriminate | eexists; reflexivity ]. }
  destruct Hexp as (es & Hexp).
  assert (Hy : set_main_yaxis a s4 = (Raise UnboundLocalError, s5)).
  { unfold set_main_yaxis. rewrite Hmag, Hlim.
    rewrite (bind_then _ _ _ _ _ Hset), (bind_then _ _ _ _ _ Hget).
    cbn [fst snd]. rewrite (bind_then _ _ _ _ _ Hexp).
    apply bind_raises. unfold flux_ylabel. rewrite Hden, Hflux. reflexivity. }
  destruct (raises_at_the_y_axis a s pk s0 s4 _ s5 Hopen Hbefore Hy)
    as [Hrun Hout].
  rewrite Hrun. cbn [fst snd]. split; [ reflexivity | ].
  split; [ | exact Hout ].
  unfold main_draws. rewrite Hd5. exact Hd.
Qed.

Lemma after_yaxis_data a pk scaling ds :
  preserves (panel_grows Main is_data ds) (after_yaxis a pk scaling).
Proof. repeat pres_step data_prim. Qed.

(** The dashed line at zero is on the main panel of a completed call
    exactly when explicit y-limits with a negative lower limit are given
    for a quantity other than the magnitude.  (For limits that the backend
    takes as they are, so that the lower limit read back is the given
    one.) *)
Theorem zero_line_for_a_negative_lower_limit (a : args) (s : state) :
  backend_accepts a ->
  fst (plot_spectrum a s) = Ok tt ->
  In zero_line (main_draws (snd (plot_spectrum a s)))
  <-> is_quantity "magnitude" a = false
      /\ exists lo hi, ylim a = Some (lo, hi) /\ F64.ltb lo F64.zero = true.
Proof.
  intros _ Hok.
  destruct (completed_call a s Hok)
    as (pk & s0 & s4 & scaling & s5 & Hopen & Hbefore & Hy & Hafter).
  pose proof (open_figure_fresh a s pk s0 Main (fun _ => False) Hopen) as G0.
  pose proof (before_yaxis_draws a _ _ s0 G0) as G4. rewrite Hbefore in G4.
  assert (Hd4 : panel_draws Main s4 = []).
  { destruct G4 as (added & Hd & Hall). destruct added as [| d added];
      [ exact Hd | inversion Hall as [| ? ? [] _] ]. }
  assert (Hfinal : forall ds, panel_draws Main s5 = ds ->
             exists data, main_draws (snd (plot_spectrum a s)) = ds ++ data
                          /\ Forall is_data data).
  { intros ds Hds.
    pose proof (after_yaxis_data a pk scaling ds s5) as K.
    rewrite Hafter in K. apply K. rewrite <- Hds. apply panel_grows_refl. }
  assert (Hnot : forall data, Forall is_data data -> ~ In zero_line data).
  { intros data Hall Hin. rewrite List.Forall_forall in Hall.
    exact (Hall _ Hin). }
  unfold set_main_yaxis in Hy.
  destruct (is_quantity "magnitude" a) eqn:Hmag.
  - assert (Hd5 : panel_draws Main s5 = []).
    { assert (K : preserves (panel_grows Main (fun _ => False) [])
                    (on_axes Main (set_ylabel "Contrast (mag)") ;;
                     match ylim a with
                     | Some (lo, hi) => on_axes Main (set_ylim lo hi)
                     | None => ret tt
                     end ;;
                     ret F64.one))
        by (repeat pres_step ltac:(grows_prim fail)).
      pose proof (K s4 G4) as G5. rewrite Hy in G5.
      destruct G5 as (added & Hd & Hall). destruct added as [| d added];
        [ exact Hd | inversion Hall as [| ? ? [] _] ]. }
    destruct (Hfinal [] Hd5) as (data & -> & Hall). cbn [app].
    split; [ intros Hin; destruct (Hnot data Hall Hin) | intros [H _]; discriminate ].
  - destruct (ylim a) as [[lo hi] |] eqn:Hlim.
    + apply bind_ok in Hy. destruct Hy as ([] & t1 & Ht1 & Hy).
      apply bind_ok in Hy. destruct Hy as (yl & t2 & Ht2 & Hy).
      apply bind_ok in Hy. destruct Hy as (es & t3 & Ht3 & Hy).
      apply bind_ok in Hy. destruct Hy as (lbl & t4 & Ht4 & Hy).
      apply bind_ok in Hy. destruct Hy as ([] & t5 & Ht5 & Hy).
      apply bind_ok in Hy. destruct Hy as ([] & t6 & Ht6 & Hy).
      apply bind_ok in Hy. destruct Hy as ([] & t7 & Ht7 & Hy).
      apply ret_ok in Hy. destruct Hy as [_ ->].
      assert (Hyl : yl = (lo, hi)).
      { apply on_axes_panel_is in Ht1. destruct Ht1 as (ax & _ & Hax).
        apply read_axes_ok in Ht2. destruct Ht2 as (ax' & Hax' & -> & _).
        rewrite (panel_is_unique _ _ _ _ Hax' Hax). reflexivity. }
      subst yl. cbn [fst snd] in Ht7.
      assert (Hd6 : panel_draws Main t6 = []).
      { assert (K : forall {A} (m : M A) t o t',
                   preserves (panel_grows Main (fun _ => False) []) m ->
                   panel_grows Main (fun _ => False) [] t ->
                   m t = (o, t') -> panel_grows Main (fun _ => False) [] t')
          by (intros A m t o t' Hm Ht Hr; exact (preserved_by _ m t o t' Hm Ht Hr)).
        assert (G6 : panel_grows Main (fun _ => False) [] t6).
        { eapply K; [ | | exact Ht6 ]; [ repeat pres_step ltac:(grows_prim fail) | ].
          eapply K; [ | | exact Ht5 ]; [ repeat pres_step ltac:(grows_prim fail) | ].
          eapply K; [ | | exact Ht4 ]; [ repeat pres_step ltac:(grows_prim fail) | ].
          eapply K; [ | | exact Ht3 ]; [ repeat pres_step ltac:(grows_prim fail) | ].
          eapply K; [ | | exact Ht2 ]; [ repeat pres_step ltac:(grows_prim fail) | ].
          eapply K; [ | | exact Ht1 ]; [ repeat pres_step ltac:(grows_prim fail) | ].
          exact G4. }
        destruct G6 as (added & Hd & Hall). destruct added as [| d added];
          [ exact Hd | inversion Hall as [| ? ? [] _] ]. }
      destruct (F64.ltb lo F64.zero) eqn:Hneg; cbn [when] in Ht7.
      * pose proof (on_axes_add_draws _ _ _ _ _ Ht7) as Hd7.
        rewrite Hd6 in Hd7. cbn [app] in Hd7.
        destruct (Hfinal _ Hd7) as (data & -> & Hall).
        split; [ intros _ | intros _; left; reflexivity ].
        split; [ reflexivity | ]. exists lo, hi. auto.
      * apply ret_ok in Ht7. destruct Ht7 as [_ ->].
        destruct (Hfinal [] Hd6) as (data & -> & Hall). cbn [app].
        split; [ intros Hin; destruct (Hnot data Hall Hin) | ].
        intros (_ & lo' & hi' & E & Hlt). inversion E; subst. congruence.
    + assert (Hd5 : panel_draws Main s5 = []).
      { assert (K : preserves (panel_grows Main (fun _ => False) [])
                      ((if is_quantity "flux density" a then
                          on_axes Main
                            (set_ylabel ("$F_\lambda$" +:+ " (W m$^{-2}$ "
                                         +:+ mu +:+ "m$^{-1}$)"))
                        else if is_quantity "flux" a then
                          on_axes Main (set_ylabel "$\lambda$$F_\lambda$ (W m$^{-2}$)")
                        else ret tt) ;;
                       ret F64.one))
          by (repeat pres_step ltac:(grows_prim fail)).
        pose proof (K s4 G4) as G5. rewrite Hy in G5.
        destruct G5 as (added & Hd & Hall). destruct added as [| d added];
          [ exact Hd | inversion Hall as [| ? ? [] _] ]. }
      destruct (Hfinal [] Hd5) as (data & -> & Hall). cbn [app].
      split; [ intros Hin; destruct (Hnot data Hall Hin) | ].
      intros (_ & lo' & hi' & E & _). discriminate.
Qed.

End YAxisErrors.

Lemma nonpositive_upper_limit_raises_witness :
  let a := Sample.with_ylim
             (default_args [Sample.spectrum3 (Fin 1) (Fin 2) (Fin 3)])
             (Fin (-2)) (Fin 0) in
  let r := @plot_spectrum Sample.collab a (init_state []) in
  fst r = Raise (ValueError MathDomain)
  /\ main_draws (snd r) = []
  /\ st_out (snd r) = None.
Proof.
  intros a r.
  apply (@nonpositive_upper_limit_raises Sample.collab a (init_state [])
           (Fin (-2)) 0).
  - split; [ repeat constructor; discriminate | exact I ].
  - repeat split; try (left; reflexivity); discriminate.
  - reflexivity.
  - reflexivity.
  - reflexivity.
  - discriminate.
Defined.

Lemma unknown_quantity_with_limits_raises_witness :
  let a := Sample.with_quantity
             (Sample.with_ylim
                (default_args [Sample.spectrum3 (Fin 1) (Fin 2) (Fin 3)])
                (Fin 0) (Fin 10))
             "luminosity" in
  let r := @plot_spectrum Sample.collab a (init_state []) in
  fst r = Raise UnboundLocalError
  /\ main_draws (snd r) = []
  /\ st_out (snd r) = None.
Proof.
  intros a r.
  apply (@unknown_quantity_with_limits_raises Sample.collab a (init_state [])
           (Fin 0) (Fin 10)).
  - split; [ repeat constructor; discriminate | exact I ].
  - repeat split; try (left; reflexivity); discriminate.
  - reflexivity.
  - reflexivity.
  - reflexivity.
  - reflexivity.
  - reflexivity.
Defined.

Lemma zero_line_for_a_negative_lower_limit_witness :
  let a := Sample.with_ylim
             (default_args [Sample.spectrum3 (Fin 1) (Fin 2) (Fin 3)])
             (Fin (-2)) (Fin 5) in
  In zero_line
    (main_draws (snd (@plot_spectrum Sample.collab a (init_state [])))).
Proof.
  intros a.
  apply (@zero_line_for_a_negative_lower_limit Sample.collab a (init_state [])).
  - repeat split; try (left; reflexivity); discriminate.
  - vm_compute. reflexivity.
  - split; [ reflexivity | ]. exists (Fin (-2)), (Fin 5).
    split; reflexivity.
Defined.

(** * Parameter formats *)

Lemma dict_mem_get {V} k (d : list (string * V)) :
  dict_mem k d = match dict_get k d with Some _ => true | None => false end.
Proof. reflexivity. Qed.

Lemma add_formats_get names fmt : forall p k,
  dict_get k (add_formats names fmt p)
  = match dict_get k p with
    | Some f => Some f
    | None => if existsb (String.eqb k) names then Some fmt else None
    end.
Proof.
  unfold add_formats.
  induction names as [| n names IH]; intros p k; cbn [fold_left existsb].
  - destruct (dict_get k p); reflexivity.
  - rewrite IH. unfold dict_mem.
    destruct (dict_get n p) as [f |] eqn:Hn.
    + destruct (dict_get k p) as [g |] eqn:Hk; [ reflexivity | ].
      destruct (String.eqb_spec k n) as [-> | _]; [ congruence | reflexivity ].
    + destruct (String.eqb_spec k n) as [-> | Hne].
      * rewrite dict_get_set_eq, Hn. reflexivity.
      * rewrite dict_get_set_ne by (intros E; apply Hne; symmetry; exact E).
        reflexivity.
Qed.

(** A format that the caller gives for a parameter is kept; a parameter
    without one gets the format of its group (.0f for temperatures and the
    disk radius, .1f, .2f or .2e for the others), and a parameter outside
    the groups gets none. *)
Theorem parameter_formats_are_completed (p : list (string * string))
    (k : string) :
  dict_get k (fill_param_fmt p)
  = match dict_get k p with
    | Some f => Some f
    | None => default_format k
    end.
Proof.
  unfold fill_param_fmt. cbv zeta. rewrite !add_formats_get.
  unfold default_format.
  destruct (dict_get k p); [ reflexivity | ].
  destruct (existsb (String.eqb k) ["teff"; "disk_teff"; "disk_radius"]);
    [ reflexivity | ].
  destruct (existsb (String.eqb k)
              ["radius"; "logg"; "feh"; "metallicity"; "fsed"; "distance";
               "parallax"; "mass"; "ism_ext"; "lognorm_ext"; "powerlaw_ext";
               "log_flux_scaling"]); [ reflexivity | ].
  destruct (existsb (String.eqb k) ["co"; "c_o_ratio"; "ad_index"; "luminosity"]);
    reflexivity.
Qed.

(** * The residuals a call can take *)

Section ResidualData.
Context `{C : Collab}.

Lemma np_max_some_nonempty (l : list f64) m : np_max l = Some m -> l <> [].
Proof. destruct l; [ discriminate | discriminate ]. Qed.

Lemma photometry_has_finite pk oi photometry : forall m0 s m1 s',
  draw_residual_photometry pk oi photometry m0 s = (Ok m1, s') ->
  forall item v, In (item, v) photometry ->
    exists x, In x (residual_values v) /\ isfinite x = true.
Proof.
  unfold draw_residual_photometry.
  induction photometry as [| entry photometry IH]; intros m0 s m1 s' Hrun item v Hin;
    [ destruct Hin | ].
  cbn [for_fold] in Hrun.
  apply bind_ok in Hrun. destruct Hrun as (acc & s1 & Hbody & Hrest).
  destruct Hin as [-> | Hin]; [ | exact (IH _ _ _ _ Hrest item v Hin) ].
  apply bind_ok in Hbody. destruct Hbody as (absent & s2 & _ & Hbody).
  apply bind_ok in Hbody. destruct Hbody as (u & s3 & _ & Hbody).
  apply bind_ok in Hbody. destruct Hbody as (max_tmp & s4 & Hmax & _).
  apply lift_ok in Hmax. destruct Hmax as [Hmax _].
  unfold max_abs_finite in Hmax. cbn [snd] in Hmax.
  destruct (List.filter isfinite (residual_values v)) as [| x l] eqn:E;
    [ discriminate Hmax | ].
  assert (Hx : In x (List.filter isfinite (residual_values v)))
    by (rewrite E; left; reflexivity).
  apply filter_In in Hx. exists x. exact Hx.
Qed.

Lemma spectra_have_rows pk oi spectrum : forall m0 s m1 s',
  draw_residual_spectra pk oi spectrum m0 s = (Ok m1, s') ->
  forall key rows, In (key, rows) spectrum -> rows <> [].
Proof.
  unfold draw_residual_spectra.
  induction spectrum as [| entry spectrum IH]; intros m0 s m1 s' Hrun key rows Hin;
    [ destruct Hin | ].
  cbn [for_fold] in Hrun.
  apply bind_ok in Hrun. destruct Hrun as (acc & s1 & Hbody & Hrest).
  destruct Hin as [-> | Hin]; [ | exact (IH _ _ _ _ Hrest key rows Hin) ].
  cbv zeta in Hbody.
  apply bind_ok in Hbody. destruct Hbody as (absent & s2 & _ & Hbody).
  apply bind_ok in Hbody. destruct Hbody as (u & s3 & _ & Hbody).
  apply bind_ok in Hbody. destruct Hbody as (max_tmp & s4 & Hmax & _).
  apply lift_ok in Hmax. destruct Hmax as [Hmax _]. cbn [snd] in Hmax.
  intros ->. discriminate Hmax.
Qed.

(** What a completed call says about the residuals it was given: every
    filter of the photometric residuals has at least one finite value
    (the maximum over the finite ones is taken of an empty array
    otherwise), every spectrum of residuals has at least one row, and no
    residual of a spectrum is infinite - there NaN is skipped, but an
    infinity reaches [math.ceil]. *)
Theorem residuals_of_a_completed_call (a : args) (r : residuals_box)
    (s : state) :
  residuals a = Some r ->
  fst (plot_spectrum a s) = Ok tt ->
  (forall photometry item v,
      res_photometry r = Some photometry -> In (item, v) photometry ->
      exists x, In x (residual_values v) /\ isfinite x = true)
  /\ (forall spectrum key rows,
         res_spectrum r = Some spectrum -> In (key, rows) spectrum ->
         rows <> []
         /\ forall row, In row rows -> snd row <> PInf /\ snd row <> NInf).
Proof.
  intros Hr Hok. pose proof (completed_run a s Hok) as Hc.
  destruct Hc as [pk sc s0 s1 s2 s3 s4 s5 s6 s7 s8 s9
                    Hopen H1 H2 H3 H4 Hy Hshare Hboxes Hfilters Hres Hfin].
  clear - Hr Hres. unfold residual_stage in Hres. rewrite Hr in Hres.
  unfold draw_residuals in Hres.
  destruct (find_object (boxes a)) as [oi |]; [ | discriminate Hres ].
  apply bind_ok in Hres. destruct Hres as (m1 & sa & Hphot & H).
  apply bind_ok in H. destruct H as (m2 & sb & Hspec & H).
  apply bind_ok in H. destruct H as (L & sb' & Hlim & _).
  apply lift_ok in Hlim. destruct Hlim as [Hlim _].
  split.
  - intros photometry item v Hp Hin. rewrite Hp in Hphot.
    exact (photometry_has_finite pk oi photometry _ _ _ _ Hphot item v Hin).
  - intros spectrum key rows Hs Hin. rewrite Hs in Hspec.
    split; [ exact (spectra_have_rows pk oi spectrum _ _ _ _ Hspec key rows Hin) | ].
    assert (Hm1 : isnan m1 = false).
    { destruct (res_photometry r) as [photometry |].
      - exact (proj1 (residual_photometry_max pk oi photometry F64.zero _ m1 _
                        eq_refl Hphot)).
      - apply ret_ok in Hphot. destruct Hphot as [-> _]. reflexivity. }
    pose proof (residual_spectra_max pk oi spectrum m1 sa m2 sb Hm1 Hspec)
      as (Hn2 & _ & _ & Hall).
    destruct (residual_limit_finite m2 L Hn2 Hlim) as (q & -> & _).
    intros row Hrow.
    assert (Hv : In (snd row) (concat (map (fun e => map snd (snd e)) spectrum))).
    { apply in_concat. exists (map snd rows). split.
      - exact (in_map (fun e : string * list (f64 * f64) => map snd (snd e))
                 spectrum (key, rows) Hin).
      - apply in_map. exact Hrow. }
    split; intros E; specialize (Hall _ Hv); rewrite E in Hall;
      specialize (Hall eq_refl); discriminate Hall.
Qed.

End ResidualData.

Lemma residuals_of_a_completed_call_witness :
  let r := mk_residuals
             (Some [("X", RMany [(Fin 1, PInf); (Fin 1, Fin 2)])])
             (Some [("S", [(Fin 1, NaN); (Fin 2, Fin 1)])]) in
  let a := Sample.with_residuals (default_args [Sample.object_once]) r in
  (forall photometry item v,
      res_photometry r = Some photometry -> In (item, v) photometry ->
      exists x, In x (residual_values v) /\ isfinite x = true)
  /\ (forall spectrum key rows,
         res_spectrum r = Some spectrum -> In (key, rows) spectrum ->
         rows <> []
         /\ forall row, In row rows -> snd row <> PInf /\ snd row <> NInf).
Proof.
  intros r a.
  apply (@residuals_of_a_completed_call Sample.collab a r (init_state [])).
  - reflexivity.
  - vm_compute. reflexivity.
Defined.

(** * A call without style overrides *)

Section Renders.
Context {A : Type} (h : heap).

Lemma renders_for_each (l : list A) (body : A -> M unit)
    (f : A -> option (list draw)) :
  (forall x, In x l -> renders h (body x) (f x)) ->
  renders h (for_each l body) (collect f l).
Proof.
  induction l as [| x l IH]; intros Hb s u s' Hs Hrun; cbn [for_each collect] in *.
  - apply ret_ok in Hrun. destruct Hrun as [_ ->].
    exists []. rewrite app_nil_r. auto.
  - apply bind_ok in Hrun. destruct Hrun as ([] & s1 & H1 & Hrun).
    destruct (Hb x (or_introl eq_refl) s tt s1 Hs H1) as (ds & -> & Hd & Hs1).
    destruct (IH (fun y Hy => Hb y (or_intror Hy)) s1 u s' Hs1 Hrun)
      as (ds' & -> & Hd' & Hs').
    exists (ds ++ ds'). rewrite Hd', Hd, app_assoc. auto.
Qed.

Lemma renders_for_fold {S} (l : list A) (body : S -> A -> M S)
    (f : A -> option (list draw)) : forall acc,
  (forall acc x, In x l -> renders h (body acc x) (f x)) ->
  renders h (for_fold l acc body) (collect f l).
Proof.
  induction l as [| x l IH]; intros acc Hb s u s' Hs Hrun;
    cbn [for_fold collect] in *.
  - apply ret_ok in Hrun. destruct Hrun as [_ ->].
    exists []. rewrite app_nil_r. auto.
  - apply bind_ok in Hrun. destruct Hrun as (acc' & s1 & H1 & Hrun).
    destruct (Hb acc x (or_introl eq_refl) s acc' s1 Hs H1)
      as (ds & -> & Hd & Hs1).
    destruct (IH acc' (fun c y Hy => Hb c y (or_intror Hy)) s1 u s' Hs1 Hrun)
      as (ds' & -> & Hd' & Hs').
    exists (ds ++ ds'). rewrite Hd', Hd, app_assoc. auto.
Qed.

End Renders.

Lemma on_axes_heap p f s u s' :
  on_axes p f s = (Ok u, s') -> st_heap s' = st_heap s.
Proof.
  intros H. apply on_axes_ok in H. destruct H as (fg & ax & _ & _ & ->).
  reflexivity.
Qed.

Lemma renders_draw {A} h (d : draw) (x : A) :
  renders h (on_axes Main (add_draw d) ;; ret x) (Some [d]).
Proof.
  intros s y s' Hs Hrun.
  apply bind_ok in Hrun. destruct Hrun as ([] & s1 & H1 & Hrun).
  apply ret_ok in Hrun. destruct Hrun as [_ ->].
  exists [d]. split; [ reflexivity | ].
  split; [ exact (on_axes_add_draws _ _ _ _ _ H1) | ].
  rewrite (on_axes_heap _ _ _ _ _ H1). exact Hs.
Qed.

Lemma renders_draw_unit h (d : draw) :
  renders h (on_axes Main (add_draw d)) (Some [d]).
Proof.
  intros s y s' Hs H1.
  exists [d]. split; [ reflexivity | ].
  split; [ exact (on_axes_add_draws _ _ _ _ _ H1) | ].
  rewrite (on_axes_heap _ _ _ _ _ H1). exact Hs.
Qed.

Section NoOverride.
Context `{C : Collab}.
Variables (a : args) (scaling : f64) (h : heap) (apk j : nat) (l : list pyval).
Hypothesis Hpk : h !! apk = Some (OList l).
Hypothesis Hj : l !! j = Some VNone.

Lemma none_at_index s : st_heap s = h -> getindex (VRef apk) j s = (Ok VNone, s).
Proof. intros Hs. apply (getindex_run s apk l j VNone); [ rewrite Hs | ]; assumption. Qed.

(** A line whose style is fixed. *)
Lemma renders_line wavelength flux style :
  renders h
    (y <- lift (scaled_masked (waves_if_flux a (map plain wavelength))
                  (map mask_nan flux) scaling) ;;
     on_axes Main (add_draw (Plot (map plain wavelength) y None style)))
    (default_line a scaling wavelength flux style).
Proof.
  intros s u s' Hs Hrun.
  apply bind_ok in Hrun. destruct Hrun as (y & s1 & Hy & Hrun).
  apply lift_ok in Hy. destruct Hy as [Hy ->].
  unfold default_line. rewrite Hy.
  exact (renders_draw_unit h _ s u s' Hs Hrun).
Qed.

Lemma draw_spectrum_default d model :
  renders h (draw_spectrum a (VRef apk) scaling j d model)
    (default_spectrum a scaling d (model_label a model)).
Proof.
  destruct d as [wavelength flux | wavelength flux name].
  - destruct wavelength as [| w0 w]; [ intros s u s' _ H; discriminate H | ].
    intros s u s' Hs Hrun. unfold draw_spectrum in Hrun. cbv zeta in Hrun.
    rewrite (bind_then _ _ _ _ _ (none_at_index s Hs)) in Hrun.
    rewrite (bind_then _ _ _ _ _ (eq_refl : truthy VNone s = (Ok false, s)))
      in Hrun.
    exact (renders_line (w0 :: w) flux _ s u s' Hs Hrun).
  - destruct wavelength as [| w0 w]; [ intros s u s' _ H; discriminate H | ].
    unfold draw_spectrum, default_spectrum.
    apply renders_for_each. intros ix _.
    destruct (flux !! fst ix) as [row |]; [ | intros s u s' _ H; discriminate H ].
    destruct (name !! fst ix) as [label |]; [ | intros s u s' _ H; discriminate H ].
    apply renders_line.
Qed.

Lemma draw_photometry_default wavelength filter_name flux :
  renders h (draw_photometry a (VRef apk) scaling j wavelength filter_name flux)
    (default_photometry a scaling wavelength filter_name flux).
Proof.
  unfold draw_photometry, default_photometry.
  intros s u s' Hs Hrun.
  apply bind_ok in Hrun. destruct Hrun as (acc & s1 & Hrun & Hret).
  apply ret_ok in Hret. destruct Hret as [_ ->].
  refine (renders_for_fold h _ _ _ _ _ s acc s1 Hs Hrun).
  intros acc0 ix _. cbv zeta.
  destruct (filter_name !! fst ix) as [fname |];
    [ | intros t v t' _ H; discriminate H ].
  intros t v t' Ht Hstep.
  rewrite (bind_then _ _ _ _ _ (none_at_index t Ht)) in Hstep.
  rewrite (bind_then _ _ _ _ _ (eq_refl : truthy VNone t = (Ok false, t)))
    in Hstep.
  destruct (flux !! fst ix) as [[value error] |]; [ | discriminate Hstep ].
  exact (renders_draw h _ _ t v t' Ht Hstep).
Qed.

Hypothesis Hobj : find_object (boxes a) = None.

Lemma draw_synphot_default flux :
  renders h (draw_synphot a (VRef apk) scaling j flux)
    (default_synphot a scaling flux).
Proof.
  unfold draw_synphot, default_synphot. cbv zeta. rewrite Hobj.
  apply renders_for_each. intros entry _ t v t' Ht Hstep.
  rewrite (bind_then _ _ _ _ _ (none_at_index t Ht)) in Hstep.
  rewrite (bind_then _ _ _ _ _ (eq_refl : ret false t = (Ok false, t)))
    in Hstep.
  rewrite (bind_then _ _ _ _ _ (eq_refl : ret true t = (Ok true, t)))
    in Hstep.
  exact (renders_draw_unit h _ t v t' Ht Hstep).
Qed.

Lemma sample_rows_loop size items : forall acc t rows t',
  for_fold items acc (fun rows item =>
    row <- lift (assign_row size (mi_flux item)) ;;
    ret (rows ++ [row])) t = (Ok rows, t') ->
  exists new, sample_rows size items = Some new /\ rows = acc ++ new /\ t' = t.
Proof.
  induction items as [| item items IH]; intros acc t rows t' Hrun;
    cbn [for_fold sample_rows] in *.
  - apply ret_ok in Hrun. destruct Hrun as [-> ->].
    exists []. rewrite app_nil_r. auto.
  - apply bind_ok in Hrun. destruct Hrun as (acc' & t1 & H1 & Hrun).
    apply bind_ok in H1. destruct H1 as (row & t2 & Hrow & H1).
    apply lift_ok in Hrow. destruct Hrow as [Hrow ->].
    apply ret_ok in H1. destruct H1 as [-> ->].
    destruct (IH _ _ _ _ Hrun) as (new & Hnew & -> & ->).
    rewrite Hrow, Hnew. exists (row :: new).
    rewrite <- app_assoc. auto.
Qed.

Lemma fill_band_default wavelength rows p_lo p_hi style :
  renders h (fill_band a scaling wavelength rows p_lo p_hi style [])
    (option_map (fun d => [d])
       (default_band a scaling wavelength rows p_lo p_hi style)).
Proof.
  intros t v t' Ht Hrun. unfold fill_band in Hrun.
  apply bind_ok in Hrun. destruct Hrun as (y1 & t1 & H1 & Hrun).
  apply lift_ok in H1. destruct H1 as [H1 ->].
  apply bind_ok in Hrun. destruct Hrun as (y2 & t2 & H2 & Hrun).
  apply lift_ok in H2. destruct H2 as [H2 ->].
  unfold keywords in Hrun.
  assert (Hno : existsb (fun k : string => dict_mem (V := pyval) k [])
                  (["x"; "y1"; "y2"] ++ dict_keys style) = false).
  { clear. induction (["x"; "y1"; "y2"] ++ dict_keys style) as [| k ks IH];
      [ reflexivity | exact IH ]. }
  rewrite Hno in Hrun.
  rewrite (bind_then _ _ _ _ _
             (eq_refl : ret (style ++ []) t = (Ok (style ++ []), t))) in Hrun.
  rewrite app_nil_r in Hrun.
  unfold default_band. rewrite H1, H2. cbn [option_map].
  exact (renders_draw_unit h _ t v t' Ht Hrun).
Qed.

Lemma draw_box_list_default items :
  renders h (draw_box_list a (VRef apk) scaling j items)
    (default_samples a scaling items).
Proof.
  unfold draw_box_list, default_samples. cbv zeta.
  destruct (envelope a) eqn:Henv.
  - intros t v t' Ht Hrun.
    destruct items as [| first items]; [ discriminate Hrun | ].
    rewrite (bind_then _ _ _ _ _
               (eq_refl : ret (length (mi_flux first)) t = (Ok _, t))) in Hrun.
    apply bind_ok in Hrun. destruct Hrun as (rows & t1 & Hrows & Hrun).
    apply sample_rows_loop in Hrows. destruct Hrows as (new & Hnew & -> & ->).
    cbn [app] in Hrun. rewrite Hnew.
    rewrite (bind_then _ _ _ _ _ (none_at_index t Ht)) in Hrun.
    rewrite (bind_then _ _ _ _ _ (eq_refl : truthy VNone t = (Ok false, t)))
      in Hrun.
    apply bind_ok in Hrun. destruct Hrun as ([] & t1 & Hb1 & Hb2).
    destruct (fill_band_default _ _ _ _ _ t tt t1 Ht Hb1) as (d1 & E1 & Hd1 & Ht1).
    destruct (fill_band_default _ _ _ _ _ t1 v t' Ht1 Hb2) as (d2 & E2 & Hd2 & Ht2).
    destruct (default_band a scaling _ new (3 # 10) (997 # 10) _) as [outer |];
      [ | discriminate E1 ].
    destruct (default_band a scaling _ new 16 84 _) as [inner |];
      [ | discriminate E2 ].
    cbn [option_map] in E1, E2. inversion E1; inversion E2; subst d1 d2.
    exists [outer; inner]. split; [ reflexivity | ].
    split; [ | exact Ht2 ].
    rewrite Hd2, Hd1, <- app_assoc. reflexivity.
  - intros t v t' Ht Hrun.
    rewrite (bind_then _ _ _ _ _ (eq_refl : ret 0%nat t = (Ok 0%nat, t)))
      in Hrun.
    apply bind_ok in Hrun. destruct Hrun as (rows & t1 & Hrows & Hrun).
    apply ret_ok in Hrun. destruct Hrun as [_ ->].
    refine (renders_for_fold h _ _ _ _ _ t rows t1 Ht Hrows).
    intros acc item _ u w u' Hu Hstep.
    rewrite (bind_then _ _ _ _ _ (none_at_index u Hu)) in Hstep.
    rewrite (bind_then _ _ _ _ _ (eq_refl : truthy VNone u = (Ok false, u)))
      in Hstep.
    apply bind_ok in Hstep. destruct Hstep as ([] & u1 & Hline & Hret).
    apply ret_ok in Hret. destruct Hret as [_ ->].
    exact (renders_line _ _ _ u tt u1 Hu Hline).
Qed.

(** A box that is no [ObjectBox], drawn without override. *)
Lemma draw_kind_default (b : box) (plot_obj : option pyval) :
  is_object_box b = false ->
  renders h
    (match b with
     | SpectrumBox d =>
         draw_spectrum a (VRef apk) scaling j d None ;; ret plot_obj
     | ModelBox d model parameters =>
         draw_spectrum a (VRef apk) scaling j d (Some (model, parameters)) ;;
         ret plot_obj
     | BoxList items =>
         draw_box_list a (VRef apk) scaling j items ;; ret plot_obj
     | PhotometryBox wavelength filter_name flux =>
         draw_photometry a (VRef apk) scaling j wavelength filter_name flux ;;
         ret plot_obj
     | ObjectBox spectrum flux =>
         plot_obj <- match spectrum with
                     | Some sp =>
                         draw_object_spectra a (VRef apk) scaling j sp plot_obj
                     | None => ret plot_obj
                     end ;;
         match flux with
         | Some fl =>
             draw_object_photometry a (VRef apk) scaling j fl plot_obj
         | None => ret plot_obj
         end
     | SynphotBox flux =>
         draw_synphot a (VRef apk) scaling j flux ;; ret plot_obj
     | OtherBox => ret plot_obj
     end)
    (default_draws a scaling b).
Proof.
  assert (Hthen : forall (m : M unit) f,
             renders h m f -> renders h (m ;; ret plot_obj) f).
  { intros m f Hm t v t' Ht Hrun.
    apply bind_ok in Hrun. destruct Hrun as ([] & t1 & H1 & Hret).
    apply ret_ok in Hret. destruct Hret as [_ ->].
    exact (Hm t tt t1 Ht H1). }
  intros Hb. destruct b; try discriminate Hb; cbn [default_draws].
  - apply Hthen. exact (draw_spectrum_default d None).
  - apply Hthen. exact (draw_spectrum_default d (Some (model, parameters))).
  - apply Hthen, draw_box_list_default.
  - apply Hthen, draw_photometry_default.
  - apply Hthen, draw_synphot_default.
  - intros t v t' Ht Hrun. apply ret_ok in Hrun. destruct Hrun as [_ ->].
    exists []. rewrite app_nil_r. auto.
Qed.

End NoOverride.

Lemma replicate_snoc {A} (n : nat) (x : A) :
  replicate n x ++ [x] = replicate (S n) x.
Proof. induction n as [| n IH]; [ reflexivity | cbn; rewrite IH; reflexivity ]. Qed.

Lemma lookup_replicate_last {A} (n : nat) (x : A) :
  replicate (S n) x !! n = Some x.
Proof. apply lookup_replicate. split; [ reflexivity | lia ]. Qed.

#[export] Instance heap_is_rc_blind h : RcBlind (fun s => st_heap s = h).
Proof. intros s x Hs. exact Hs. Qed.
#[export] Instance heap_is_fig_blind h : FigBlind (fun s => st_heap s = h).
Proof. intros s x Hs. exact Hs. Qed.
#[export] Instance heap_is_out_blind h : OutBlind (fun s => st_heap s = h).
Proof. intros s x Hs. exact Hs. Qed.

Ltac heap_prim :=
  first [ apply preserves_set_rc; typeclasses eauto
        | apply preserves_put_fig; typeclasses eauto
        | apply preserves_put_out; typeclasses eauto
        | apply preserves_on_axes; typeclasses eauto ].

Section DefaultCall.
Context `{C : Collab}.
Variables (a : args) (scaling : f64) (apk : nat).
Hypothesis Hobj : find_object (boxes a) = None.

Lemma append_none_run s l :
  st_heap s !! apk = Some (OList l) ->
  append (VRef apk) VNone s
  = (Ok tt, with_heap (<[apk := OList (l ++ [VNone])]> (st_heap s)) s).
Proof.
  intros Hl. unfold append. rewrite bind_run, deref_run, Hl. reflexivity.
Qed.

Lemma draw_box_default j b plot_obj s po s' :
  is_object_box b = false ->
  j < length (boxes a) ->
  st_heap s !! apk = Some (OList (replicate j VNone)) ->
  draw_box a (VRef apk) scaling plot_obj (j, b) s = (Ok po, s') ->
  exists ds,
    default_draws a scaling b = Some ds
    /\ panel_draws Main s' = panel_draws Main s ++ ds
    /\ st_heap s' !! apk = Some (OList (replicate (S j) VNone)).
Proof.
  intros Hb Hlt Hl Hrun. unfold draw_box in Hrun. cbn [fst snd] in Hrun.
  replace (Nat.ltb j (length (boxes a))) with true in Hrun
    by (symmetry; apply Nat.ltb_lt; exact Hlt).
  cbn [when] in Hrun.
  rewrite (bind_then _ _ _ _ _ (append_none_run s _ Hl)) in Hrun.
  rewrite replicate_snoc in Hrun.
  set (h := <[apk := OList (replicate (S j) VNone)]> (st_heap s)) in *.
  assert (Hh : h !! apk = Some (OList (replicate (S j) VNone))).
  { subst h. apply list_lookup_insert_eq. apply lookup_lt_Some in Hl. exact Hl. }
  destruct (draw_kind_default a scaling h apk j (replicate (S j) VNone) Hh
              (lookup_replicate_last j VNone) Hobj b plot_obj Hb
              (with_heap h s) po s' eq_refl Hrun) as (ds & Hds & Hd & Hs').
  exists ds. split; [ exact Hds | ]. split; [ exact Hd | ].
  rewrite Hs'. exact Hh.
Qed.

Lemma draw_boxes_loop bs : forall k plot_obj s po s',
  Forall (fun b => is_object_box b = false) bs ->
  k + length bs <= length (boxes a) ->
  st_heap s !! apk = Some (OList (replicate k VNone)) ->
  for_fold (combine (seq k (length bs)) bs) plot_obj
    (draw_box a (VRef apk) scaling) s = (Ok po, s') ->
  exists dss,
    Forall2 (fun b ds => default_draws a scaling b = Some ds) bs dss
    /\ panel_draws Main s' = panel_draws Main s ++ concat dss.
Proof.
  induction bs as [| b bs IH]; intros k plot_obj s po s' Hall Hlen Hl Hrun.
  - cbn in Hrun. apply ret_ok in Hrun. destruct Hrun as [_ ->].
    exists []. split; [ constructor | ]. cbn. rewrite app_nil_r. reflexivity.
  - cbn [length seq combine for_fold] in Hrun.
    apply bind_ok in Hrun. destruct Hrun as (po1 & s1 & H1 & Hrun).
    inversion Hall as [| ? ? Hb Hall']; subst. cbn [length] in Hlen.
    destruct (draw_box_default k b plot_obj s po1 s1 Hb ltac:(lia) Hl H1)
      as (ds & Hds & Hd & Hl1).
    destruct (IH (S k) po1 s1 po s' Hall' ltac:(lia) Hl1 Hrun)
      as (dss & Hdss & Hd').
    exists (ds :: dss). split; [ constructor; assumption | ].
    cbn [concat]. rewrite Hd', Hd, app_assoc. reflexivity.
Qed.

End DefaultCall.

Lemma no_draws_on {A} p (m : M A) s o s' :
  preserves (panel_grows p (fun _ => False) (panel_draws p s)) m ->
  m s = (o, s') -> panel_draws p s' = panel_draws p s.
Proof.
  intros Hm Hrun. pose proof (Hm s (panel_grows_refl p _ s)) as H.
  rewrite Hrun in H. cbn [snd] in H. destruct H as (added & Hd & Hall).
  destruct added as [| d added]; [ | inversion Hall as [| ? ? [] _] ].
  rewrite Hd. apply app_nil_r.
Qed.

Section DefaultTheorem.
Context `{C : Collab}.

Lemma find_object_from_none_iff bs : forall i,
  Forall (fun b => is_object_box b = false) bs -> find_object_from i bs = None.
Proof.
  induction bs as [| b bs IH]; intros i Hall; [ reflexivity | ].
  inversion Hall as [| ? ? Hb Hall']; subst. cbn. rewrite Hb. apply IH, Hall'.
Qed.

(** The draw calls that the set-up of the y-axis adds to the main panel. *)
Lemma yaxis_reference_lines a s4 scaling s5 :
  set_main_yaxis a s4 = (Ok scaling, s5) ->
  panel_draws Main s5 = panel_draws Main s4 ++ reference_lines a.
Proof.
  intros Hy.
  assert (Hkeep : forall f t u t',
             on_axes Main f t = (Ok u, t') ->
             (forall ax, a_draws (f ax) = a_draws ax) ->
             panel_draws Main t' = panel_draws Main t).
  { intros f t u t' H Hf. apply on_axes_panel_is in H.
    destruct H as (ax & H0 & H1).
    rewrite (panel_is_draws _ _ _ H0), (panel_is_draws _ _ _ H1). apply Hf. }
  unfold set_main_yaxis in Hy. unfold reference_lines.
  destruct (is_quantity "magnitude" a).
  - apply bind_ok in Hy. destruct Hy as ([] & t1 & Ht1 & Hy).
    apply bind_ok in Hy. destruct Hy as ([] & t2 & Ht2 & Hy).
    apply ret_ok in Hy. destruct Hy as [_ ->]. rewrite app_nil_r.
    rewrite <- (Hkeep _ _ _ _ Ht1 (fun _ => eq_refl)).
    destruct (ylim a) as [[lo hi] |].
    + exact (Hkeep _ _ _ _ Ht2 (fun _ => eq_refl)).
    + apply ret_ok in Ht2. destruct Ht2 as [_ ->]. reflexivity.
  - destruct (ylim a) as [[lo hi] |].
    + apply bind_ok in Hy. destruct Hy as ([] & t1 & Ht1 & Hy).
      apply bind_ok in Hy. destruct Hy as (yl & t2 & Ht2 & Hy).
      assert (Hyl : yl = (lo, hi) /\ t2 = t1).
      { apply on_axes_panel_is in Ht1. destruct Ht1 as (ax & _ & Hax).
        apply read_axes_ok in Ht2. destruct Ht2 as (ax' & Hax' & -> & ->).
        rewrite (panel_is_unique _ _ _ _ Hax' Hax). auto. }
      destruct Hyl as [-> ->]. cbn [fst snd] in Hy.
      apply bind_ok in Hy. destruct Hy as (es & t3 & Ht3 & Hy).
      rewrite exponent_and_scaling_run in Ht3.
      assert (t3 = t1) by (inversion Ht3; reflexivity). subst t3.
      apply bind_ok in Hy. destruct Hy as (lbl & t4 & Ht4 & Hy).
      assert (t4 = t1).
      { unfold flux_ylabel in Ht4.
        destruct (is_quantity "flux density" a);
          [ apply ret_ok in Ht4; apply Ht4 | ].
        destruct (is_quantity "flux" a); [ | discriminate Ht4 ].
        apply ret_ok in Ht4; apply Ht4. }
      subst t4.
      apply bind_ok in Hy. destruct Hy as ([] & t5 & Ht5 & Hy).
      apply bind_ok in Hy. destruct Hy as ([] & t6 & Ht6 & Hy).
      apply bind_ok in Hy. destruct Hy as ([] & t7 & Ht7 & Hy).
      apply ret_ok in Hy. destruct Hy as [_ ->].
      assert (Hd6 : panel_draws Main t6 = panel_draws Main s4).
      { rewrite (Hkeep _ _ _ _ Ht6 (fun _ => eq_refl)),
          (Hkeep _ _ _ _ Ht5 (fun _ => eq_refl)).
        exact (Hkeep _ _ _ _ Ht1 (fun _ => eq_refl)). }
      destruct (F64.ltb lo F64.zero); cbn [when] in Ht7.
      * rewrite (on_axes_add_draws _ _ _ _ _ Ht7), Hd6. reflexivity.
      * apply ret_ok in Ht7. destruct Ht7 as [_ ->].
        rewrite app_nil_r. exact Hd6.
    + apply bind_ok in Hy. destruct Hy as ([] & t1 & Ht1 & Hy).
      apply ret_ok in Hy. destruct Hy as [_ ->]. rewrite app_nil_r.
      destruct (is_quantity "flux density" a);
        [ exact (Hkeep _ _ _ _ Ht1 (fun _ => eq_refl)) | ].
      destruct (is_quantity "flux" a);
        [ exact (Hkeep _ _ _ _ Ht1 (fun _ => eq_refl)) | ].
      apply ret_ok in Ht1. destruct Ht1 as [_ ->]. reflexivity.
Qed.

(** A call without [plot_kwargs] and without an [ObjectBox]: when it
    completes, the main panel holds the reference line of the y-axis, if
    any, followed by the draw calls of each box in its default style, box
    after box in the order of [boxes]. *)
Theorem boxes_are_drawn_in_their_default_style (a : args) (s : state) :
  plot_kwargs a = None ->
  Forall (fun b => is_object_box b = false) (boxes a) ->
  backend_accepts a ->
  fst (plot_spectrum a s) = Ok tt ->
  exists scaling dss,
    completes_with_scaling a s scaling
    /\ Forall2 (fun b ds => default_draws a scaling b = Some ds) (boxes a) dss
    /\ main_draws (snd (plot_spectrum a s)) = reference_lines a ++ concat dss.
Proof.
  intros Hnone Hall _ Hok.
  destruct (completed_call a s Hok)
    as (pk & s0 & s4 & sc & s5 & Hopen & Hbefore & Hy & Hafter).
  exists sc.
  assert (Hcomp : completes_with_scaling a s sc)
    by (exists pk, s0, s4, s5; auto).
  unfold after_yaxis in Hafter.
  apply bind_ok in Hafter. destruct Hafter as ([] & s6 & Hshare & Hafter).
  apply bind_ok in Hafter. destruct Hafter as ([] & s7 & Hboxes & Hafter).
  apply bind_ok in Hafter. destruct Hafter as ([] & s8 & Hfilters & Hafter).
  apply bind_ok in Hafter. destruct Hafter as ([] & s9 & Hres & Hfin).
  (* the list of overrides *)
  assert (Hpk : pk = VRef (length (st_heap s))
                /\ st_heap s0 = st_heap s ++ [OList []]).
  { assert (Hpre : preamble_passes a s).
    { split; [ | rewrite Hnone; exact I ].
      apply List.Forall_forall. intros b Hb ->.
      pose proof (print_boxes_empty_list _ s Hb) as Hrun.
      unfold open_figure in Hopen.
      apply bind_ok in Hopen. destruct Hopen as (u & t & Hprint & _).
      congruence. }
    destruct (open_figure_passes a s Hpre) as (pk' & s0' & Hopen' & _ & _ & _ & Hk).
    rewrite Hopen in Hopen'. inversion Hopen'; subst pk' s0'.
    rewrite Hnone in Hk. exact Hk. }
  destruct Hpk as [-> Hh0].
  set (apk := length (st_heap s)) in *.
  assert (Hh6 : st_heap s6 = st_heap s ++ [OList []]).
  { assert (K : forall {A} (m : M A) t o t',
               preserves (fun u => st_heap u = st_heap s ++ [OList []]) m ->
               st_heap t = st_heap s ++ [OList []] -> m t = (o, t') ->
               st_heap t' = st_heap s ++ [OList []])
      by (intros A m t o t' Hm Ht Hr;
          exact (preserved_by (fun u => st_heap u = st_heap s ++ [OList []])
                   m t o t' Hm Ht Hr)).
    eapply K; [ | | exact Hshare ]; [ repeat pres_step heap_prim | ].
    eapply K; [ | | exact Hy ]; [ repeat pres_step heap_prim | ].
    eapply K; [ | | exact Hbefore ]; [ repeat pres_step heap_prim | ].
    exact Hh0. }
  assert (Hl6 : st_heap s6 !! apk = Some (OList (replicate 0 VNone))).
  { rewrite Hh6. subst apk. rewrite lookup_app_r by lia.
    rewrite Nat.sub_diag. reflexivity. }
  (* the main panel before the boxes *)
  assert (Hd4 : panel_draws Main s4 = []).
  { pose proof (open_figure_fresh a s (VRef apk) s0 Main (fun _ => False) Hopen)
      as G0.
    pose proof (before_yaxis_draws a _ _ s0 G0) as G4. rewrite Hbefore in G4.
    destruct G4 as (added & Hd & Hall'). destruct added as [| d added];
      [ exact Hd | inversion Hall' as [| ? ? [] _] ]. }
  assert (Hd6 : panel_draws Main s6 = reference_lines a).
  { pose proof (yaxis_reference_lines a s4 sc s5 Hy) as Hd5.
    rewrite Hd4 in Hd5. cbn [app] in Hd5. rewrite <- Hd5.
    refine (no_draws_on Main _ _ _ _ _ Hshare).
    repeat pres_step ltac:(grows_prim fail). }
  (* the boxes *)
  assert (Hobj : find_object (boxes a) = None)
    by (apply find_object_from_none_iff, Hall).
  unfold draw_boxes in Hboxes.
  apply bind_ok in Hboxes. destruct Hboxes as (po & t7 & Hloop & Hret).
  apply ret_ok in Hret. destruct Hret as [_ ->].
  destruct (draw_boxes_loop a sc apk Hobj (boxes a) 0 None s6 po t7 Hall
              ltac:(cbn; lia) Hl6 Hloop) as (dss & Hdss & Hd7).
  exists dss. split; [ exact Hcomp | ]. split; [ exact Hdss | ].
  unfold main_draws. rewrite <- Hd6, <- Hd7.
  transitivity (panel_draws Main s9);
    [ refine (no_draws_on Main _ _ _ _ _ Hfin);
      repeat pres_step ltac:(grows_prim fail) | ].
  transitivity (panel_draws Main s8);
    [ refine (no_draws_on Main _ _ _ _ _ Hres);
      repeat pres_step ltac:(grows_prim fail) | ].
  refine (no_draws_on Main _ _ _ _ _ Hfilters).
  repeat pres_step ltac:(grows_prim fail).
Qed.

End DefaultTheorem.

Lemma boxes_are_drawn_in_their_default_style_witness :
  let a := default_args
             [Sample.spectrum3 (Fin 1) (Fin 2) (Fin 3);
              PhotometryBox [Fin 1; Fin 2] ["J"; "H"]
                [(Fin 3, Some (Fin (1 # 10))); (Fin 4, None)];
              BoxList [mk_model_item [Fin 1; Fin 2] [Fin 3; Fin 4]];
              Sample.synphot] in
  exists scaling dss,
    @completes_with_scaling Sample.collab a (init_state []) scaling
    /\ Forall2 (fun b ds => @default_draws Sample.collab a scaling b = Some ds)
         (boxes a) dss
    /\ main_draws (snd (@plot_spectrum Sample.collab a (init_state [])))
       = reference_lines a ++ concat dss.
Proof.
  intros a.
  apply (@boxes_are_drawn_in_their_default_style Sample.collab a (init_state [])).
  - reflexivity.
  - repeat constructor.
  - repeat split; left; reflexivity.
  - vm_compute. reflexivity.
Defined.

Example default_style_of_a_spectrum_and_a_point :
  let a := default_args
             [Sample.spectrum3 (Fin 1) (Fin 2) (Fin 3);
              PhotometryBox [Fin 2] ["J"] [(Fin 4, None)]] in
  main_draws (snd (@plot_spectrum Sample.collab a (init_state [])))
  = [Plot [Val (Fin 1); Val (Fin 2); Val (Fin 3)]
       [Val (Fin 1); Val (Fin 2); Val (Fin 3)] None
       [("lw", VNum (Fin (1 # 2))); ("label", VNone); ("zorder", VNum (Fin 2))];
     Errorbar [Val (Fin 2)] [Val (Fin 4)] (Some (Fin (1 # 10))) None
       [("marker", VStr "s"); ("ms", VNum (Fin 6)); ("color", VStr "black");
        ("zorder", VNum (Fin 3))]].
Proof. vm_compute. reflexivity. Qed.

(** * The growth of the caller's list *)

#[export] Instance list_shape_rc_blind addr n k : RcBlind (list_shape addr n k).
Proof. intros s x Hs. exact Hs. Qed.
#[export] Instance list_shape_fig_blind addr n k : FigBlind (list_shape addr n k).
Proof. intros s x Hs. exact Hs. Qed.
#[export] Instance list_shape_out_blind addr n k : OutBlind (list_shape addr n k).
Proof. intros s x Hs. exact Hs. Qed.

Section Shape.
Variables (addr n k : nat).

Local Abbreviation shape := (list_shape addr n k).

Lemma alloc_shape o : preserves shape (alloc o).
Proof.
  intros s (l1 & Hl & Hn). unfold alloc, bind, get_heap, put_heap, ret.
  cbn [snd]. exists l1. split; [ | exact Hn ]. cbn [st_heap].
  rewrite lookup_app_l by (apply lookup_lt_Some in Hl; exact Hl). exact Hl.
Qed.

(** A dictionary is stored: the list is another object. *)
Lemma store_dict_shape a d d' s :
  shape s -> st_heap s !! a = Some (ODict d) ->
  shape (snd (store (VRef a) (ODict d') s)).
Proof.
  intros (l1 & Hl & Hn) Ha. unfold store, bind, get_heap, put_heap. cbn [snd].
  exists l1. split; [ | exact Hn ]. cbn [st_heap].
  rewrite list_lookup_insert_ne by congruence. exact Hl.
Qed.

Lemma setitem_shape v key x : preserves shape (setitem v key x).
Proof.
  intros s Hs. unfold setitem. rewrite bind_run.
  destruct v as [ | | | | | a]; try exact Hs.
  rewrite deref_run. destruct (st_heap s !! a) as [[d | l] |] eqn:Ha; try exact Hs.
  exact (store_dict_shape a d _ s Hs Ha).
Qed.

Lemma delitem_shape v key : preserves shape (delitem v key).
Proof.
  intros s Hs. unfold delitem. rewrite bind_run.
  destruct v as [ | | | | | a]; try exact Hs.
  rewrite deref_run. destruct (st_heap s !! a) as [[d | l] |] eqn:Ha; try exact Hs.
  destruct (dict_mem key d); [ | exact Hs ].
  exact (store_dict_shape a d _ s Hs Ha).
Qed.

(** [plot_kwargs[j] = x] for the index [j] of a box. *)
Lemma setindex_shape j x :
  j < n -> preserves shape (setindex (VRef addr) j x).
Proof.
  intros Hj s (l1 & Hl & Hn). unfold setindex. rewrite bind_run, deref_run, Hl.
  destruct (Nat.ltb j (length (l1 ++ replicate k VNone))) eqn:E;
    [ | exists l1; auto ].
  unfold store, bind, get_heap, put_heap. cbn [snd].
  exists (<[j := x]> l1). split; [ | rewrite length_insert; exact Hn ].
  cbn [st_heap].
  rewrite list_lookup_insert_eq by (apply lookup_lt_Some in Hl; exact Hl).
  rewrite insert_app_l by lia. reflexivity.
Qed.

End Shape.

Lemma append_shape addr n k :
  forall s, list_shape addr n k s ->
    list_shape addr n (S k) (snd (append (VRef addr) VNone s)).
Proof.
  intros s (l1 & Hl & Hn). unfold append. rewrite bind_run, deref_run, Hl.
  unfold store, bind, get_heap, put_heap. cbn [snd].
  exists l1. split; [ | exact Hn ]. cbn [st_heap].
  rewrite list_lookup_insert_eq by (apply lookup_lt_Some in Hl; exact Hl).
  rewrite <- app_assoc, replicate_snoc. reflexivity.
Qed.

(** One step of a proof that a computation keeps the shape of the list:
    the operations on objects of the store are taken as wholes. *)
Ltac shape_step Hj :=
  first [ apply alloc_shape
        | apply setitem_shape
        | apply delitem_shape
        | apply setindex_shape; exact Hj
        | pres_step ltac:(first
            [ apply preserves_set_rc; typeclasses eauto
            | apply preserves_put_fig; typeclasses eauto
            | apply preserves_put_out; typeclasses eauto
            | apply preserves_on_axes; typeclasses eauto ]) ].

Section ShapeOfACall.
Context `{C : Collab}.
Variables (a : args) (addr n k : nat).

Lemma box_shape scaling plot_obj j b :
  j < n ->
  preserves (list_shape addr n k)
    (match b with
     | SpectrumBox d =>
         draw_spectrum a (VRef addr) scaling j d None ;; ret plot_obj
     | ModelBox d model parameters =>
         draw_spectrum a (VRef addr) scaling j d (Some (model, parameters)) ;;
         ret plot_obj
     | BoxList items =>
         draw_box_list a (VRef addr) scaling j items ;; ret plot_obj
     | PhotometryBox wavelength filter_name flux =>
         draw_photometry a (VRef addr) scaling j wavelength filter_name flux ;;
         ret plot_obj
     | ObjectBox spectrum flux =>
         plot_obj <- match spectrum with
                     | Some sp =>
                         draw_object_spectra a (VRef addr) scaling j sp plot_obj
                     | None => ret plot_obj
                     end ;;
         match flux with
         | Some fl =>
             draw_object_photometry a (VRef addr) scaling j fl plot_obj
         | None => ret plot_obj
         end
     | SynphotBox flux =>
         draw_synphot a (VRef addr) scaling j flux ;; ret plot_obj
     | OtherBox => ret plot_obj
     end).
Proof. intros Hj. repeat shape_step Hj. Qed.

Lemma residual_stage_shape pk : preserves (list_shape addr n k) (residual_stage a pk).
Proof.
  assert (Hj : 0 < 0 -> False) by lia.
  unfold residual_stage. repeat shape_step Hj.
Qed.

End ShapeOfACall.

Section GrowthTheorem.
Context `{C : Collab}.
Variables (a : args) (addr : nat).

Lemma draw_box_shape scaling plot_obj j b k s :
  j < length (boxes a) ->
  list_shape addr (length (boxes a)) k s ->
  list_shape addr (length (boxes a)) (S k)
    (snd (draw_box a (VRef addr) scaling plot_obj (j, b) s)).
Proof.
  intros Hj Hs. unfold draw_box. cbn [fst snd].
  replace (Nat.ltb j (length (boxes a))) with true
    by (symmetry; apply Nat.ltb_lt; exact Hj).
  cbn [when]. rewrite bind_run.
  pose proof (append_shape addr _ k s Hs) as H1.
  destruct (append (VRef addr) VNone s) as [[[] | e] s1] eqn:Happ.
  - exact (box_shape a addr _ (S k) scaling plot_obj j b Hj s1 H1).
  - exfalso. destruct Hs as (l1 & Hl & _). unfold append in Happ.
    rewrite bind_run, deref_run, Hl in Happ. discriminate Happ.
Qed.

Lemma draw_boxes_shape scaling bs : forall j plot_obj k s po s',
  j + length bs <= length (boxes a) ->
  list_shape addr (length (boxes a)) k s ->
  for_fold (combine (seq j (length bs)) bs) plot_obj
    (draw_box a (VRef addr) scaling) s = (Ok po, s') ->
  list_shape addr (length (boxes a)) (k + length bs) s'.
Proof.
  induction bs as [| b bs IH]; intros j plot_obj k s po s' Hlen Hs Hrun.
  - cbn in Hrun. apply ret_ok in Hrun. destruct Hrun as [_ ->].
    cbn. rewrite Nat.add_0_r. exact Hs.
  - cbn [length seq combine for_fold] in Hrun. cbn [length] in Hlen.
    apply bind_ok in Hrun. destruct Hrun as (po1 & s1 & H1 & Hrun).
    pose proof (draw_box_shape scaling plot_obj j b k s ltac:(lia) Hs) as Hs1.
    rewrite H1 in Hs1. cbn [snd] in Hs1.
    pose proof (IH (S j) po1 (S k) s1 po s' ltac:(lia) Hs1 Hrun) as Hs'.
    cbn [length]. replace (k + S (length bs)) with (S k + length bs) by lia.
    exact Hs'.
Qed.

(** The list after a completed call. *)
Lemma list_after_a_completed_call s l :
  plot_kwargs a = Some addr ->
  st_heap s !! addr = Some (OList l) ->
  fst (plot_spectrum a s) = Ok tt ->
  length l = length (boxes a)
  /\ list_shape addr (length (boxes a)) (length (boxes a))
       (snd (plot_spectrum a s)).
Proof.
  intros Hpk Hl Hok. pose proof (completed_run a s Hok) as Hc.
  destruct Hc as [pk sc s0 s1 s2 s3 s4 s5 s6 s7 s8 s9
                    Hopen H1 H2 H3 H4 Hy Hshare Hboxes Hfilters Hres Hfin].
  assert (H0 : pk = VRef addr /\ length l = length (boxes a)
               /\ list_shape addr (length (boxes a)) 0 s0).
  { unfold open_figure in Hopen.
    apply bind_ok in Hopen. destruct Hopen as ([] & t1 & Hp & Hopen).
    assert (Ht1 : st_heap t1 = st_heap s).
    { refine (preserved_by (fun u => st_heap u = st_heap s) _ _ _ _ _ eq_refl Hp).
      repeat pres_step heap_prim. }
    apply bind_ok in Hopen. destruct Hopen as ([] & t2 & Hrc1 & Hopen).
    apply bind_ok in Hopen. destruct Hopen as ([] & t3 & Hrc2 & Hopen).
    apply bind_ok in Hopen. destruct Hopen as ([] & t4 & Hrc3 & Hopen).
    assert (Ht4 : st_heap t4 = st_heap s).
    { inversion Hrc1; inversion Hrc2; inversion Hrc3; subst. exact Ht1. }
    apply bind_ok in Hopen. destruct Hopen as (pk' & t5 & Hinit & Hopen).
    apply bind_ok in Hopen. destruct Hopen as ([] & t6 & Hfig & Hret).
    apply ret_ok in Hret. destruct Hret as [-> ->].
    unfold init_plot_kwargs in Hinit. rewrite Hpk in Hinit.
    apply bind_ok in Hinit. destruct Hinit as (m & t7 & Hlen & Hinit).
    unfold len in Hlen. rewrite bind_run, deref_run, Ht4, Hl in Hlen.
    inversion Hlen; subst m t7.
    destruct (Nat.eqb (length (boxes a)) (length l)) eqn:E;
      [ | discriminate Hinit ].
    apply Nat.eqb_eq in E. apply ret_ok in Hinit. destruct Hinit as [-> ->].
    split; [ reflexivity | ]. split; [ symmetry; exact E | ].
    assert (Ht6 : st_heap t6 = st_heap s).
    { unfold make_figure, put_fig in Hfig.
      destruct (residuals a), (filters a); inversion Hfig; exact Ht4. }
    exists l. rewrite Ht6, app_nil_r. split; [ exact Hl | symmetry; exact E ]. }
  destruct H0 as (-> & Hlen & Hs0). split; [ exact Hlen | ].
  assert (K : forall {A} (m : M A) k t o t',
             preserves (list_shape addr (length (boxes a)) k) m ->
             list_shape addr (length (boxes a)) k t -> m t = (o, t') ->
             list_shape addr (length (boxes a)) k t')
    by (intros A m k t o t' Hm Ht Hr; exact (preserved_by _ m t o t' Hm Ht Hr)).
  assert (Hj : 0 < 0 -> False) by lia.
  assert (Hs6 : list_shape addr (length (boxes a)) 0 s6).
  { eapply K; [ | | exact Hshare ]; [ repeat shape_step Hj | ].
    eapply K; [ | | exact Hy ]; [ repeat shape_step Hj | ].
    eapply K; [ | | exact H4 ]; [ repeat shape_step Hj | ].
    eapply K; [ | | exact H3 ]; [ repeat shape_step Hj | ].
    eapply K; [ | | exact H2 ]; [ repeat shape_step Hj | ].
    eapply K; [ | | exact H1 ]; [ repeat shape_step Hj | ].
    exact Hs0. }
  unfold draw_boxes in Hboxes.
  apply bind_ok in Hboxes. destruct Hboxes as (po & t7 & Hloop & Hret).
  apply ret_ok in Hret. destruct Hret as [_ ->].
  pose proof (draw_boxes_shape sc (boxes a) 0 None 0 s6 po t7
                ltac:(cbn; lia) Hs6 Hloop) as Hs7.
  cbn [Nat.add] in Hs7.
  eapply K; [ | | exact Hfin ]; [ repeat shape_step Hj | ].
  eapply K; [ | | exact Hres ]; [ apply residual_stage_shape | ].
  eapply K; [ | | exact Hfilters ]; [ repeat shape_step Hj | ].
  exact Hs7.
Qed.

(** After a completed call with a list [plot_kwargs], the caller's list
    has twice as many entries as there are boxes: the entries it had, or
    the dictionaries put in their place, followed by one [None] for each
    box. *)
Theorem override_list_doubles (s : state) (l : list pyval) :
  plot_kwargs a = Some addr ->
  st_heap s !! addr = Some (OList l) ->
  fst (plot_spectrum a s) = Ok tt ->
  length l = length (boxes a)
  /\ exists l1,
       st_heap (snd (plot_spectrum a s)) !! addr
       = Some (OList (l1 ++ replicate (length (boxes a)) VNone))
       /\ length l1 = length (boxes a).
Proof. exact (list_after_a_completed_call s l). Qed.

(** A second call with the same arguments, and so with the same list, on
    the state that a completed call with at least one box has left, fails
    the check of the length of [plot_kwargs] before a figure is made. *)
Theorem second_call_with_the_same_list_raises (s : state) (l : list pyval) :
  plot_kwargs a = Some addr ->
  st_heap s !! addr = Some (OList l) ->
  boxes a <> [] ->
  fst (plot_spectrum a s) = Ok tt ->
  fst (plot_spectrum a (next_call (snd (plot_spectrum a s))))
  = Raise (ValueError (LenMismatch (length (boxes a))
                         (2 * length (boxes a)))).
Proof.
  intros Hpk Hl Hne Hok.
  destruct (list_after_a_completed_call s l Hpk Hl Hok)
    as (_ & l1 & Hfinal & Hlen).
  assert (Hbs : Forall (fun b => b <> BoxList []) (boxes a)).
  { apply List.Forall_forall. intros b Hb ->.
    pose proof (completed_run a s Hok) as Hc.
    destruct Hc as [pk sc s0 s1 s2 s3 s4 s5 s6 s7 s8 s9 Hopen].
    pose proof (print_boxes_empty_list _ s Hb) as Hrun.
    unfold open_figure in Hopen.
    apply bind_ok in Hopen. destruct Hopen as (u & t & Hprint & _).
    congruence. }
  rewrite (length_mismatch_run a addr (l1 ++ replicate (length (boxes a)) VNone)
             (next_call (snd (plot_spectrum a s))) Hpk Hfinal).
  - cbn [fst]. rewrite length_app, length_replicate, Hlen.
    do 3 f_equal. lia.
  - rewrite length_app, length_replicate, Hlen.
    destruct (boxes a); [ contradiction Hne; reflexivity | cbn; lia ].
  - exact Hbs.
Qed.

End GrowthTheorem.

Lemma override_list_doubles_witness :
  let a := Sample.with_kwargs
             (default_args [Sample.object_once;
                            Sample.spectrum3 (Fin 1) (Fin 2) (Fin 3)]) 0 in
  let h := [OList [VNone; VRef 1]; ODict [("color", VStr "red")]] in
  length [VNone; VRef 1] = length (boxes a)
  /\ exists l1,
       st_heap (snd (@plot_spectrum Sample.collab a (init_state h))) !! 0%nat
       = Some (OList (l1 ++ replicate (length (boxes a)) VNone))
       /\ length l1 = length (boxes a).
Proof.
  intros a h.
  apply (@override_list_doubles Sample.collab a 0%nat (init_state h)
           [VNone; VRef 1]).
  - reflexivity.
  - reflexivity.
  - vm_compute. reflexivity.
Defined.

Lemma second_call_with_the_same_list_raises_witness :
  let a := Sample.with_kwargs
             (default_args [Sample.object_once;
                            Sample.spectrum3 (Fin 1) (Fin 2) (Fin 3)]) 0 in
  let h := [OList [VNone; VRef 1]; ODict [("color", VStr "red")]] in
  let first := @plot_spectrum Sample.collab a (init_state h) in
  fst (@plot_spectrum Sample.collab a (next_call (snd first)))
  = Raise (ValueError (LenMismatch 2 4)).
Proof.
  intros a h first.
  apply (@second_call_with_the_same_list_raises Sample.collab a 0%nat
           (init_state h) [VNone; VRef 1]).
  - reflexivity.
  - reflexivity.
  - discriminate.
  - vm_compute. reflexivity.
Defined.

(** * Items with a style override *)

Section DictDelete.
Context {V : Type}.
Implicit Types (d : list (string * V)) (k : string).

Lemma dict_get_not_in d k : ~ In k (dict_keys d) -> dict_get k d = None.
Proof.
  induction d as [| [k' v] d IH]; [ reflexivity | ].
  cbn. intros Hk. destruct (String.eqb_spec k k') as [-> | _].
  - contradiction Hk. left. reflexivity.
  - apply IH. intros H. apply Hk. right. exact H.
Qed.

Lemma dict_get_del_eq d k :
  List.NoDup (dict_keys d) -> dict_get k (dict_del k d) = None.
Proof.
  induction d as [| [k' v] d IH]; [ reflexivity | ].
  cbn. intros Hnd. inversion Hnd as [| ? ? Hk Hnd']; subst.
  destruct (String.eqb_spec k k') as [-> | Hne].
  - apply dict_get_not_in. exact Hk.
  - cbn. destruct (String.eqb_spec k k') as [E | _]; [ contradiction | ].
    apply IH, Hnd'.
Qed.

Lemma dict_get_del_ne d k k' :
  k <> k' -> dict_get k' (dict_del k d) = dict_get k' d.
Proof.
  intros Hne. induction d as [| [k0 v] d IH]; [ reflexivity | ].
  cbn. destruct (String.eqb_spec k k0) as [-> | _].
  - destruct (String.eqb_spec k' k0) as [E | _]; [ congruence | reflexivity ].
  - cbn. rewrite IH. reflexivity.
Qed.

Lemma dict_keys_set d k v :
  List.NoDup (dict_keys d) -> List.NoDup (dict_keys (dict_set k v d)).
Proof.
  induction d as [| [k0 v0] d IH]; cbn.
  - intros _. constructor; [ intros [] | constructor ].
  - intros Hnd. inversion Hnd as [| ? ? Hk Hnd']; subst.
    destruct (String.eqb_spec k k0) as [-> | Hne]; cbn.
    + constructor; assumption.
    + constructor; [ | apply IH, Hnd' ].
      intros Hin. apply Hk. clear - Hin Hne.
      induction d as [| [k1 v1] d IH]; cbn in *.
      * destruct Hin as [E | []]. congruence.
      * destruct (String.eqb_spec k k1) as [-> | _]; cbn in Hin.
        -- exact Hin.
        -- destruct Hin as [E | Hin]; [ left; exact E | right; apply IH, Hin ].
Qed.

End DictDelete.

Lemma setdefault_nodup (d : pydict) k v :
  List.NoDup (dict_keys d) -> List.NoDup (dict_keys (setdefault k v d)).
Proof.
  intros H. unfold setdefault. destruct (dict_mem k d); [ exact H | ].
  apply dict_keys_set, H.
Qed.

Lemma setdefault_present (d : pydict) k v :
  dict_mem k d = true -> setdefault k v d = d.
Proof. intros H. unfold setdefault. rewrite H. reflexivity. Qed.

Section SpectrumOverride.
Context `{C : Collab}.

(** A single spectrum with a style override: the dictionary is copied;
    its label, if it has one, replaces the label of the model and is passed
    as the keyword [label]; [zorder] is 2 unless the dictionary has one; the
    dictionary of the caller stays as it was. *)
Theorem spectrum_with_override (a : args) (scaling : f64) (s : state)
    (apk j k : nat) (l : list pyval) (d : pydict) (fg : figure)
    (wavelength flux : list f64) (model : option (string * list (string * f64)))
    (y : list cell) :
  st_heap s !! apk = Some (OList l) ->
  l !! j = Some (VRef k) ->
  st_heap s !! k = Some (ODict d) ->
  d <> [] ->
  List.NoDup (dict_keys d) ->
  st_fig s = Some fg ->
  wavelength <> [] ->
  scaled_masked (waves_if_flux a (map plain wavelength)) (map mask_nan flux)
    scaling = Ok y ->
  let label := match dict_get "label" d with
               | Some v => v
               | None => model_label a model
               end in
  let style := setdefault "zorder" (num 2)
                 (if dict_mem "label" d then dict_del "label" d else d) in
  exists s',
    draw_spectrum a (VRef apk) scaling j (Spec1D wavelength flux) model s
    = (Ok tt, s')
    /\ main_draws s'
       = main_draws s
         ++ [Plot (map plain wavelength) y None (("label", label) :: style)]
    /\ st_heap s' = st_heap s.
Proof.
  intros Hl Hj Hk Hd Hnd Hfg Hw Hy label style.
  destruct wavelength as [| w0 w]; [ contradiction Hw; reflexivity | ].
  unfold draw_spectrum. cbv zeta.
  rewrite (bind_then _ _ _ _ _ (getindex_run s apk l j _ Hl Hj)).
  rewrite (bind_then _ _ _ _ _ (truthy_dict_run s k d Hk)).
  replace (negb (Nat.eqb (length d) 0)) with true
    by (destruct d; [ contradiction Hd; reflexivity | reflexivity ]).
  assert (Hcopy : copy (VRef k) s = (Ok d, s))
    by (unfold copy; rewrite bind_run, deref_run, Hk; reflexivity).
  rewrite (bind_then _ _ _ _ _ Hcopy).
  rewrite Hy. cbn [lift]. rewrite (bind_then _ _ _ _ _ (eq_refl : ret y s = (Ok y, s))).
  fold style. fold label.
  assert (Hno : dict_get "label" style = None).
  { subst style. rewrite dict_get_setdefault by discriminate.
    unfold dict_mem. destruct (dict_get "label" d) eqn:E;
      [ exact (dict_get_del_eq d "label" Hnd) | exact E ]. }
  assert (Hkw : keywords [] [("label", label)] style s
                = (Ok ([("label", label)] ++ style), s)).
  { apply keywords_run. cbn. unfold dict_mem. rewrite Hno. reflexivity. }
  rewrite (bind_then _ _ _ _ _ Hkw).
  rewrite (on_axes_main_run s fg _ Hfg).
  eexists. split; [ reflexivity | ].
  split; [ | reflexivity ].
  unfold main_draws, panel_draws. cbn. rewrite Hfg. reflexivity.
Qed.

End SpectrumOverride.

Lemma spectrum_with_override_witness :
  let a := default_args [] in
  let h := [OList [VRef 1]; ODict [("color", VStr "red"); ("label", VStr "data")]] in
  let s := mk_state h [] (Some (mk_figure [1%nat] new_axes None None)) None in
  exists s',
    @draw_spectrum Sample.collab a (VRef 0) F64.one 0
      (Spec1D [Fin 1; Fin 2] [Fin 3; Fin 4]) None s = (Ok tt, s')
    /\ main_draws s'
       = main_draws s
         ++ [Plot (map plain [Fin 1; Fin 2]) [Val (Fin 3); Val (Fin 4)] None
               (("label", VStr "data")
                :: setdefault "zorder" (num 2) [("color", VStr "red")])]
    /\ st_heap s' = st_heap s.
Proof.
  intros a h s.
  apply (@spectrum_with_override Sample.collab a F64.one s 0%nat 0%nat 1%nat
           [VRef 1] [("color", VStr "red"); ("label", VStr "data")]
           (mk_figure [1%nat] new_axes None None) [Fin 1; Fin 2] [Fin 3; Fin 4]
           None [Val (Fin 3); Val (Fin 4)]).
  - reflexivity.
  - reflexivity.
  - reflexivity.
  - discriminate.
  - repeat constructor; cbn; intuition discriminate.
  - reflexivity.
  - discriminate.
  - vm_compute. reflexivity.
Defined.

Section PhotometryLabel.
Context `{C : Collab}.
Variables (a : args) (scaling : f64) (apk j k : nat) (l : list pyval).
Variables (filter_name : list string) (flux : list (f64 * option f64)).
Hypothesis Hj : l !! j = Some (VRef k).

Lemma draw_photometry_rounds wavelength :
  draw_photometry a (VRef apk) scaling j wavelength filter_name flux
  = (for_fold (enumerate wavelength) []
       (photometry_round a scaling (VRef apk) j filter_name flux) ;;
     ret tt).
Proof. reflexivity. Qed.

Lemma delitem_run s d key :
  st_heap s !! k = Some (ODict d) -> dict_mem key d = true ->
  delitem (VRef k) key s
  = (Ok tt, with_heap (<[k := ODict (dict_del key d)]> (st_heap s)) s).
Proof.
  intros Hk Hm. unfold delitem. rewrite bind_run, deref_run, Hk, Hm.
  reflexivity.
Qed.

(** One round: whether the label is dropped, the keywords of the point
    and the dictionary afterwards. *)
Lemma photometry_round_run lc ix dk t lc' t' :
  st_heap t !! apk = Some (OList l) ->
  st_heap t !! k = Some (ODict dk) ->
  dk <> [] ->
  photometry_round a scaling (VRef apk) j filter_name flux lc ix t
  = (Ok lc', t') ->
  let drop := match dict_get "label" dk with
              | Some label => py_in label lc
              | None => false
              end in
  let dk' := setdefault "zorder" (num 3)
               (if drop then dict_del "label" dk else dk) in
  exists ds,
    photometry_point a scaling filter_name flux dk' ix = Some ds
    /\ panel_draws Main t' = panel_draws Main t ++ ds
    /\ st_heap t' = <[k := ODict dk']> (st_heap t)
    /\ lc' = match dict_get "label" dk with
             | Some label => if py_in label lc then lc else lc ++ [label]
             | None => lc
             end.
Proof.
  intros Hl Hk Hne Hrun drop dk'.
  unfold photometry_round in Hrun. cbv zeta in Hrun.
  unfold photometry_point.
  destruct (filter_name !! fst ix) as [fname |]; [ | discriminate Hrun ].
  rewrite (bind_then _ _ _ _ _ (getindex_run t apk l j _ Hl Hj)) in Hrun.
  rewrite (bind_then _ _ _ _ _ (truthy_dict_run t k dk Hk)) in Hrun.
  replace (negb (Nat.eqb (length dk) 0)) with true in Hrun
    by (destruct dk; [ contradiction Hne; reflexivity | reflexivity ]).
  rewrite (bind_then _ _ _ _ _ (contains_run t k dk "label" Hk)) in Hrun.
  apply bind_ok in Hrun. destruct Hrun as (lc1 & t1 & Hcheck & Hrun).
  assert (Hstate : lc1 = match dict_get "label" dk with
                         | Some label => if py_in label lc then lc else lc ++ [label]
                         | None => lc
                         end
                   /\ st_heap t1
                      = <[k := ODict (if drop then dict_del "label" dk else dk)]>
                          (st_heap t)
                   /\ panel_draws Main t1 = panel_draws Main t).
  { subst drop. unfold dict_mem in Hcheck.
    destruct (dict_get "label" dk) as [label |] eqn:Hlab.
    - rewrite (bind_then _ _ _ _ _ (getitem_run t k dk "label" label Hk Hlab))
        in Hcheck.
      destruct (py_in label lc); cbn [negb] in Hcheck.
      + rewrite (bind_then _ _ _ _ _
                   (delitem_run t dk "label" Hk
                      ltac:(unfold dict_mem; rewrite Hlab; reflexivity)))
          in Hcheck.
        apply ret_ok in Hcheck. destruct Hcheck as [-> ->]. auto.
      + apply ret_ok in Hcheck. destruct Hcheck as [-> ->].
        rewrite (list_insert_id _ _ _ Hk). auto.
    - apply ret_ok in Hcheck. destruct Hcheck as [-> ->].
      rewrite (list_insert_id _ _ _ Hk). auto. }
  destruct Hstate as (-> & Hh1 & Hd1).
  destruct (flux !! fst ix) as [[value error] |]; [ | discriminate Hrun ].
  assert (Hk1 : st_heap t1 !! k
                = Some (ODict (if drop then dict_del "label" dk else dk))).
  { rewrite Hh1. apply list_lookup_insert_eq.
    apply lookup_lt_Some in Hk. exact Hk. }
  rewrite (bind_then _ _ _ _ _ (default_in_place_run t1 k _ "zorder" (num 3) Hk1))
    in Hrun.
  fold dk' in Hrun.
  set (t2 := with_heap (<[k := ODict dk']> (st_heap t1)) t1) in *.
  assert (Hk2 : st_heap t2 !! k = Some (ODict dk')).
  { subst t2. cbn [with_heap st_heap]. apply list_lookup_insert_eq.
    apply lookup_lt_Some in Hk1. exact Hk1. }
  rewrite (bind_then _ _ _ _ _ (star_run t2 k dk' Hk2)) in Hrun.
  apply bind_ok in Hrun. destruct Hrun as (kw & t3 & Hkw & Hrun).
  unfold keywords in Hkw.
  destruct (existsb (fun k0 => dict_mem k0 dk') (["xerr"; "yerr"] ++ dict_keys []));
    [ discriminate Hkw | ].
  apply ret_ok in Hkw. destruct Hkw as [-> ->]. cbn [app] in Hrun.
  apply bind_ok in Hrun. destruct Hrun as ([] & t4 & Hdraw & Hret).
  apply ret_ok in Hret. destruct Hret as [-> ->].
  eexists. split; [ reflexivity | ].
  split; [ | split; [ | reflexivity ] ].
  - rewrite (on_axes_add_draws _ _ _ _ _ Hdraw). subst t2.
    unfold panel_draws in *. cbn [with_heap st_fig]. rewrite Hd1. reflexivity.
  - rewrite (on_axes_heap _ _ _ _ _ Hdraw). subst t2. cbn [with_heap st_heap].
    rewrite Hh1, list_insert_insert_eq. reflexivity.
Qed.

Variables (d : pydict) (label : pyval).
Hypothesis Hlabel : dict_get "label" d = Some label.
Hypothesis Hsame : py_eqb label label = true.
Hypothesis Hnodup : List.NoDup (dict_keys d).

Local Abbreviation first := (setdefault "zorder" (num 3) d).
Local Abbreviation rest := (dict_del "label" (setdefault "zorder" (num 3) d)).

Lemma rest_is_stable : setdefault "zorder" (num 3) rest = rest.
Proof.
  apply setdefault_present. unfold dict_mem.
  rewrite dict_get_del_ne by discriminate.
  pose proof (dict_mem_setdefault_self d "zorder" (num 3)) as H.
  unfold dict_mem in H. exact H.
Qed.

Lemma rest_has_no_label : dict_get "label" rest = None.
Proof. apply dict_get_del_eq, setdefault_nodup, Hnodup. Qed.

Lemma first_is_not_empty : first <> [].
Proof.
  intros E. pose proof (dict_get_setdefault_some d "zorder" "label" (num 3) label
                          Hlabel) as H.
  rewrite E in H. discriminate H.
Qed.

Lemma rest_is_not_empty : rest <> [].
Proof.
  intros E. pose proof rest_is_stable as H. rewrite E in H.
  unfold setdefault in H. cbn in H. discriminate H.
Qed.

(** The rounds after the second: the label is gone and [zorder] is
    there, so the dictionary stays as it is. *)
Lemma later_rounds items : forall lc t lc' t',
  (forall ix, In ix items -> fst ix <> 0) ->
  st_heap t !! apk = Some (OList l) ->
  st_heap t !! k = Some (ODict rest) ->
  for_fold items lc (photometry_round a scaling (VRef apk) j filter_name flux) t
  = (Ok lc', t') ->
  exists ds,
    collect (fun ix => photometry_point a scaling filter_name flux
                         (if Nat.eqb (fst ix) 0 then first else rest) ix) items
    = Some ds
    /\ panel_draws Main t' = panel_draws Main t ++ ds
    /\ st_heap t' = st_heap t.
Proof.
  induction items as [| ix items IH]; intros lc t lc' t' Hix Hl Hk Hrun;
    cbn [for_fold collect] in *.
  - apply ret_ok in Hrun. destruct Hrun as [_ ->].
    exists []. rewrite app_nil_r. auto.
  - apply bind_ok in Hrun. destruct Hrun as (lc1 & t1 & H1 & Hrun).
    destruct (photometry_round_run lc ix rest t lc1 t1 Hl Hk rest_is_not_empty H1)
      as (ds & Hds & Hd & Hh & _).
    rewrite rest_has_no_label, rest_is_stable in Hds, Hh.
    rewrite (list_insert_id _ _ _ Hk) in Hh.
    destruct (IH lc1 t1 lc' t' (fun y Hy => Hix y (or_intror Hy))
                ltac:(rewrite Hh; exact Hl) ltac:(rewrite Hh; exact Hk) Hrun)
      as (ds' & Hds' & Hd' & Hh').
    replace (Nat.eqb (fst ix) 0) with false
      by (symmetry; apply Nat.eqb_neq, Hix; left; reflexivity).
    rewrite Hds, Hds'. exists (ds ++ ds').
    split; [ reflexivity | ].
    split; [ rewrite Hd', Hd, app_assoc; reflexivity | congruence ].
Qed.

(** A [PhotometryBox] whose style override has a label: the first point
    is drawn with the label, at the second point the label is deleted from
    the dictionary of the caller, and the second and all later points are
    drawn without it - the box gets one entry in the legend. *)
Theorem photometry_label_once (wavelength : list f64) (s s' : state) :
  st_heap s !! apk = Some (OList l) ->
  st_heap s !! k = Some (ODict d) ->
  draw_photometry a (VRef apk) scaling j wavelength filter_name flux s
  = (Ok tt, s') ->
  exists ds,
    styled_photometry a scaling first rest wavelength filter_name flux = Some ds
    /\ main_draws s' = main_draws s ++ ds
    /\ st_heap s' !! k
       = Some (ODict match wavelength with
                     | [] => d
                     | [_] => first
                     | _ => rest
                     end).
Proof.
  intros Hl Hk Hrun. rewrite draw_photometry_rounds in Hrun.
  apply bind_ok in Hrun. destruct Hrun as (lc & t & Hrun & Hret).
  apply ret_ok in Hret. destruct Hret as [_ ->].
  assert (Hne : apk <> k) by (intros E; rewrite E in Hl; congruence).
  assert (Hd : d <> []) by (intros E; rewrite E in Hlabel; discriminate Hlabel).
  unfold styled_photometry, main_draws, enumerate in *.
  destruct wavelength as [| w0 ws]; cbn [length seq combine for_fold collect] in *.
  { apply ret_ok in Hrun. destruct Hrun as [_ ->].
    exists []. rewrite app_nil_r. auto. }
  apply bind_ok in Hrun. destruct Hrun as (lc1 & t1 & H0 & Hrun).
  destruct (photometry_round_run [] (0%nat, w0) d s lc1 t1 Hl Hk Hd H0)
    as (ds0 & Hds0 & Hd0 & Hh0 & Hlc).
  rewrite Hlabel in Hds0, Hh0, Hlc. cbn [py_in existsb app] in Hds0, Hh0, Hlc.
  subst lc1. cbn [fst Nat.eqb]. rewrite Hds0.
  assert (Hl1 : st_heap t1 !! apk = Some (OList l))
    by (rewrite Hh0, list_lookup_insert_ne by (intros E; apply Hne; symmetry; exact E);
        exact Hl).
  assert (Hk1 : st_heap t1 !! k = Some (ODict first))
    by (rewrite Hh0; apply list_lookup_insert_eq;
        apply lookup_lt_Some in Hk; exact Hk).
  destruct ws as [| w1 ws]; cbn [length seq combine for_fold collect] in *.
  { apply ret_ok in Hrun. destruct Hrun as [_ ->].
    exists ds0. rewrite app_nil_r. auto. }
  apply bind_ok in Hrun. destruct Hrun as (lc2 & t2 & H1 & Hrun).
  destruct (photometry_round_run [label] (1%nat, w1) first t1 lc2 t2 Hl1 Hk1
              first_is_not_empty H1) as (ds1 & Hds1 & Hd1 & Hh1 & _).
  rewrite (dict_get_setdefault_some d "zorder" "label" (num 3) label Hlabel)
    in Hds1, Hh1.
  cbn [py_in existsb] in Hds1, Hh1. rewrite Hsame in Hds1, Hh1.
  cbn [orb] in Hds1, Hh1. rewrite rest_is_stable in Hds1, Hh1.
  cbn [fst Nat.eqb]. rewrite Hds1.
  assert (Hl2 : st_heap t2 !! apk = Some (OList l))
    by (rewrite Hh1, list_lookup_insert_ne by (intros E; apply Hne; symmetry; exact E);
        exact Hl1).
  assert (Hk2 : st_heap t2 !! k = Some (ODict rest))
    by (rewrite Hh1; apply list_lookup_insert_eq;
        apply lookup_lt_Some in Hk1; exact Hk1).
  destruct (later_rounds (combine (seq 2 (length ws)) ws) lc2 t2 lc t) 
    as (ds2 & Hds2 & Hd2 & Hh2); [ | exact Hl2 | exact Hk2 | exact Hrun | ].
  { intros [i w] Hin. apply combine_seq_in in Hin. cbn [fst]. lia. }
  rewrite Hds2. exists (ds0 ++ ds1 ++ ds2). split; [ reflexivity | ].
  split; [ rewrite Hd2, Hd1, Hd0, <- !app_assoc; reflexivity | ].
  rewrite Hh2. exact Hk2.
Qed.

End PhotometryLabel.

Lemma photometry_label_once_witness :
  let a := default_args [] in
  let d := [("color", VStr "red"); ("label", VStr "data")] in
  let h := [OList [VRef 1]; ODict d] in
  let s := mk_state h [] (Some (mk_figure [1%nat] new_axes None None)) None in
  let run := @draw_photometry Sample.collab a (VRef 0) F64.one 0
               [Fin 1; Fin 2; Fin 3] ["J"; "H"; "K"]
               [(Fin 4, None); (Fin 5, None); (Fin 6, None)] s in
  exists ds,
    @styled_photometry Sample.collab a F64.one
      (setdefault "zorder" (num 3) d)
      (dict_del "label" (setdefault "zorder" (num 3) d))
      [Fin 1; Fin 2; Fin 3] ["J"; "H"; "K"]
      [(Fin 4, None); (Fin 5, None); (Fin 6, None)] = Some ds
    /\ main_draws (snd run) = main_draws s ++ ds
    /\ st_heap (snd run) !! 1%nat
       = Some (ODict (dict_del "label" (setdefault "zorder" (num 3) d))).
Proof.
  intros a d h s run.
  apply (@photometry_label_once Sample.collab a F64.one 0%nat 0%nat 1%nat
           [VRef 1] ["J"; "H"; "K"]
           [(Fin 4, None); (Fin 5, None); (Fin 6, None)] eq_refl
           d (VStr "data") eq_refl eq_refl
           ltac:(repeat constructor; cbn; intuition discriminate)
           [Fin 1; Fin 2; Fin 3] s (snd run)).
  - reflexivity.
  - reflexivity.
  - vm_compute. reflexivity.
Defined.

(** * Plotted values and their wavelengths *)

Lemma broadcast2_lookup {A B D} (f : A -> B -> D) (u : list A) (w : list B)
    p i z :
  broadcast2 f u w = Ok p -> p !! i = Some z ->
  exists x y, (u !! i = Some x \/ u = [x]) /\ In y w /\ z = f x y.
Proof.
  unfold broadcast2. destruct (Nat.eqb (length u) (length w)).
  - intros H Hz. inversion H; subst p; clear H.
    apply lookup_zip_with_Some in Hz. destruct Hz as (x & y & -> & Hx & Hy).
    exists x, y. split; [ left; exact Hx | ].
    split; [ eapply lookup_in; exact Hy | reflexivity ].
  - intros H Hz.
    destruct u as [| x [| x' u]].
    + destruct w as [| y [| y' w]]; inversion H; subst; discriminate Hz.
    + inversion H; subst p; clear H.
      apply list_lookup_fmap_Some in Hz. destruct Hz as (y & -> & Hy).
      exists x, y. split; [ right; reflexivity | ].
      split; [ eapply lookup_in; exact Hy | reflexivity ].
    + destruct w as [| y [| y' w]]; inversion H; subst p; clear H.
      change ((map (fun x0 => f x0 y) (x :: x' :: u)) !! i = Some z) in Hz.
      apply list_lookup_fmap_Some in Hz. destruct Hz as (x0 & -> & Hx0).
      exists x0, y. split; [ left; exact Hx0 | ].
      split; [ left; reflexivity | reflexivity ].
Qed.

Section ScaledValues.
Context `{C : Collab}.
Variables (a : args) (scaling : f64).

Lemma scaled_at_ma x i fs c :
  (c = Masked \/ exists v, c = Val v /\ flux_value a v) ->
  multiplier_at a x i fs ->
  scaled_at a scaling x i (ma_div (ma_mul (Val fs) c) scaling).
Proof.
  intros [-> | (v & -> & Hv)] Hfs; [ left; reflexivity | ].
  cbn [ma_mul ma_div].
  destruct (negb (isfinite (F64.div (F64.mul fs v) scaling))
            || unsafe_divide (F64.mul fs v) scaling);
    [ left; reflexivity | ].
  right. exists fs, v, (scaled fs v scaling).
  repeat split; auto using same_refl.
Qed.

Lemma scaled_masked_at x m y :
  (forall c, In c m -> c = Masked \/ exists v, c = Val v /\ flux_value a v) ->
  scaled_masked (waves_if_flux a x) m scaling = Ok y ->
  scaled_values a scaling x y.
Proof.
  intros Hm. unfold waves_if_flux, scaled_masked.
  destruct (is_quantity "flux" a) eqn:Hq.
  - destruct (broadcast2 ma_mul x m) as [p |] eqn:Hp; [ | discriminate ].
    intros H i c Hc. inversion H; subst y; clear H.
    apply list_lookup_fmap_Some in Hc. destruct Hc as (z & -> & Hz).
    destruct (broadcast2_lookup _ _ _ _ _ _ Hp Hz) as (wc & mc & Hwc & Hmc & ->).
    destruct wc as [| fs]; [ left; reflexivity | ].
    apply scaled_at_ma; [ apply Hm, Hmc | ].
    unfold multiplier_at. rewrite Hq. exact Hwc.
  - intros H i c Hc. inversion H; subst y; clear H.
    apply list_lookup_fmap_Some in Hc. destruct Hc as (z & -> & Hz).
    apply (scaled_at_ma x i F64.one z);
      [ apply Hm; eapply lookup_in; exact Hz | ].
    unfold multiplier_at. rewrite Hq. reflexivity.
Qed.

Lemma scaled_plain_at w fl y :
  (forall v, In v fl -> flux_value a v) ->
  scaled_plain (flux_if_flux a w) fl scaling = Ok y ->
  scaled_values a scaling (map plain w) y.
Proof.
  intros Hfl. unfold flux_if_flux, scaled_plain.
  destruct (is_quantity "flux" a) eqn:Hq.
  - destruct (broadcast2 F64.mul w fl) as [p |] eqn:Hp; [ | discriminate ].
    intros H i c Hc. inversion H; subst y; clear H.
    apply list_lookup_fmap_Some in Hc. destruct Hc as (z & -> & Hz).
    destruct (broadcast2_lookup _ _ _ _ _ _ Hp Hz) as (fs & v & Hfs & Hv & ->).
    right. exists fs, v, (scaled fs v scaling).
    split; [ reflexivity | ]. split; [ apply Hfl, Hv | ].
    split; [ | apply same_refl ].
    unfold multiplier_at. rewrite Hq.
    destruct Hfs as [Hfs | ->]; [ left | right; reflexivity ].
    change ((plain <$> w) !! i = Some (plain fs)).
    apply list_lookup_fmap_Some_2, Hfs.
  - intros H i c Hc. inversion H; subst y; clear H.
    apply list_lookup_fmap_Some in Hc. destruct Hc as (v & -> & Hv).
    right. exists F64.one, v, (scaled F64.one v scaling).
    split; [ reflexivity | ].
    split; [ apply Hfl; eapply lookup_in; exact Hv | ].
    split; [ | apply same_refl ].
    unfold multiplier_at. rewrite Hq. reflexivity.
Qed.

Lemma masked_flux fl :
  (forall v, In v fl -> flux_value a v) ->
  forall c, In c (map mask_nan fl) ->
            c = Masked \/ exists v, c = Val v /\ flux_value a v.
Proof.
  intros H c Hc. apply in_map_iff in Hc. destruct Hc as (v & <- & Hv).
  unfold mask_nan. destruct (isnan v); [ left; reflexivity | right; eauto ].
Qed.

Lemma multiplier_of_point w :
  multiplier_at a [Val w] 0 (if is_quantity "flux" a then w else F64.one).
Proof.
  unfold multiplier_at. destruct (is_quantity "flux" a);
    [ left; reflexivity | reflexivity ].
Qed.

Lemma scaled_errorbar w v xerr yerr kw :
  flux_value a v ->
  scaled_draw a scaling
    (Errorbar [Val w]
       [Val (scaled (if is_quantity "flux" a then w else F64.one) v scaling)]
       xerr yerr kw).
Proof.
  intros Hv [| i] c Hc; [ | discriminate Hc ].
  inversion Hc; subst c. right. eexists _, v, _.
  split; [ reflexivity | ]. split; [ exact Hv | ].
  split; [ apply multiplier_of_point | apply same_refl ].
Qed.

Lemma scaled_point w v fwhm yerr kw :
  flux_value a v ->
  scaled_draw a scaling
    (point w (scaled (if is_quantity "flux" a then w else F64.one) v scaling)
       fwhm yerr kw).
Proof. apply scaled_errorbar. Qed.

End ScaledValues.

Section ScaledItems.
Context `{C : Collab}.
Variables (a : args) (scaling : f64) (sc : Q).
Hypothesis Hscaling : scaling = Fin sc.
Hypothesis Hpos : (0 < sc)%Q.

Local Abbreviation tied := (panel_grows Main (scaled_draw a scaling)).

Lemma scaled_point_tmp w v fwhm yerr kw :
  flux_value a v ->
  scaled_draw a scaling
    (point w
       (F64.mul (F64.div (if is_quantity "flux" a then w else F64.one) scaling)
          v)
       fwhm yerr kw).
Proof.
  intros Hv [| i] c Hc; [ | discriminate Hc ].
  inversion Hc; subst c. right. eexists _, v, _.
  split; [ reflexivity | ]. split; [ exact Hv | ].
  split; [ apply multiplier_of_point | ].
  rewrite Hscaling. apply mul_div_same, Hpos.
Qed.

Lemma draw_spectrum_scaled pk j d model ds :
  (forall v, In v (spectrum_flux d) -> flux_value a v) ->
  preserves (tied ds) (draw_spectrum a pk scaling j d model).
Proof.
  intros Hraw.
  repeat pres_step ltac:(grows_prim idtac).
  all: cbn [scaled_draw];
    (eapply scaled_masked_at; [ | eassumption ]);
    apply masked_flux; intros v Hv; apply Hraw; subst d;
    cbn [spectrum_flux]; try exact Hv.
  all: apply in_concat; eexists; split; [ eapply lookup_in; eassumption | exact Hv ].
Qed.

Lemma fill_band_scaled wavelength rows p_lo p_hi explicit d ds :
  (forall v, In v (percentile rows p_lo) -> flux_value a v) ->
  (forall v, In v (percentile rows p_hi) -> flux_value a v) ->
  preserves (tied ds)
    (fill_band a scaling wavelength rows p_lo p_hi explicit d).
Proof.
  intros Hlo Hhi.
  repeat pres_step ltac:(grows_prim idtac).
  cbn [scaled_draw]. split.
  all: eapply scaled_plain_at; [ | eassumption ]; assumption.
Qed.

Lemma rows_of_the_samples size items s rows s' :
  for_fold items []
    (fun rows item =>
       row <- lift (assign_row size (mi_flux item)) ;; ret (rows ++ [row])) s
  = (Ok rows, s') ->
  sample_rows size items = Some rows.
Proof.
  intros H. apply sample_rows_loop in H.
  destruct H as (new & Hnew & -> & _). exact Hnew.
Qed.

Lemma draw_box_list_scaled pk j items ds :
  In (BoxList items) (boxes a) ->
  preserves (tied ds) (draw_box_list a pk scaling j items).
Proof.
  intros Hin.
  assert (Hraw : forall v, In v (concat (map mi_flux items)) -> flux_value a v)
    by (intros v Hv; left; exists (BoxList items); split; [ exact Hin | exact Hv ]).
  unfold draw_box_list. destruct (envelope a) eqn:Henv; cbv beta iota zeta.
  - destruct items as [| first items].
    { apply (preserves_bind_result _ (fun _ => False));
        [ apply preserves_raise | discriminate | intros x [] ]. }
    apply (preserves_bind_result _ (fun size => size = length (mi_flux first)));
      [ apply preserves_ret
      | intros s x s' _ H; apply ret_ok in H; apply H
      | intros size -> ].
    apply (preserves_bind_result _
             (fun rows => sample_rows (length (mi_flux first)) (first :: items)
                          = Some rows)).
    + repeat pres_step ltac:(grows_prim idtac).
    + intros s rows s' _ H. exact (rows_of_the_samples _ _ _ _ _ H).
    + intros rows Hrows.
      assert (Hband : forall q v,
                 In q [3 # 10; 997 # 10; 16 # 1; 84 # 1]%Q ->
                 In v (percentile rows q) -> flux_value a v).
      { intros q v Hq Hv. right. split; [ exact Henv | ].
        exists first, items, rows, q. auto. }
      repeat first
        [ apply fill_band_scaled; intros v; apply Hband; cbn; auto 6
        | pres_step ltac:(grows_prim idtac) ].
  - repeat pres_step ltac:(grows_prim idtac).
    all: cbn [scaled_draw];
      (eapply scaled_masked_at; [ | eassumption ]);
      apply masked_flux; intros v Hv; apply Hraw;
      apply in_concat; eexists; split; [ apply in_map; eassumption | exact Hv ].
Qed.

Lemma draw_photometry_scaled pk j wavelength filter_name flux ds :
  (forall v, In v (map fst flux) -> flux_value a v) ->
  preserves (tied ds)
    (draw_photometry a pk scaling j wavelength filter_name flux).
Proof.
  intros Hraw.
  repeat pres_step ltac:(grows_prim idtac).
  all: apply scaled_errorbar; apply Hraw;
    match goal with
    | H : _ !! _ = Some (?v, ?e) |- _ =>
        apply (in_map fst _ (v, e)); eapply lookup_in; exact H
    end.
Qed.

Lemma draw_object_spectra_scaled pk j spectrum plot_obj ds :
  (forall e r, In e spectrum -> In r (snd e) -> flux_value a (snd (fst r))) ->
  preserves (tied ds) (draw_object_spectra a pk scaling j spectrum plot_obj).
Proof.
  intros Hraw.
  repeat pres_step ltac:(grows_prim idtac).
  all: cbn [scaled_draw];
    (eapply scaled_masked_at; [ | eassumption ]);
    intros c Hc; apply in_map_iff in Hc; destruct Hc as (r & <- & Hr);
    unfold mask_nan; destruct (isnan (snd (fst r)));
    [ left; reflexivity | right; eexists; split; [ reflexivity | ] ];
    match goal with
    | H : dict_get _ _ = Some _ |- _ =>
        apply dict_get_in in H; exact (Hraw _ r H Hr)
    end.
Qed.

Lemma draw_object_filter_scaled pk j flux plot_obj item ds :
  (forall e v, In e flux -> In v (phot_flux (snd e)) -> flux_value a v) ->
  preserves (tied ds) (draw_object_filter a pk scaling j flux plot_obj item).
Proof.
  intros Hraw. unfold draw_object_filter.
  destruct (dict_get item flux) as [value |] eqn:Hvalue;
    [ | apply preserves_raise ].
  apply dict_get_in in Hvalue.
  assert (Hv : forall v, In v (phot_flux value) -> flux_value a v)
    by (intros v Hv; exact (Hraw _ v Hvalue Hv)).
  clear Hraw Hvalue.
  repeat pres_step ltac:(grows_prim idtac).
  all: first [ apply scaled_point_tmp | apply scaled_point ];
    apply Hv; cbn [phot_flux];
    try (left; reflexivity).
  all: match goal with
       | H : In ?x _ |- _ => first [ apply in_map; exact H
                                   | apply (in_map fst _ (snd x)); eapply enumerate_in; exact H ]
       end.
Qed.

Lemma draw_object_photometry_scaled pk j flux plot_obj ds :
  (forall e v, In e flux -> In v (phot_flux (snd e)) -> flux_value a v) ->
  preserves (tied ds) (draw_object_photometry a pk scaling j flux plot_obj).
Proof.
  intros Hraw. unfold draw_object_photometry. cbv zeta.
  apply preserves_for_fold. intros acc item _.
  apply draw_object_filter_scaled, Hraw.
Qed.

Lemma draw_synphot_scaled pk j flux ds :
  (forall v, In v (map snd flux) -> flux_value a v) ->
  preserves (tied ds) (draw_synphot a pk scaling j flux).
Proof.
  intros Hraw.
  repeat pres_step ltac:(grows_prim idtac).
  all: apply scaled_point; apply Hraw, in_map; assumption.
Qed.

Lemma draw_box_scaled pk plot_obj jb ds :
  In (snd jb) (boxes a) ->
  preserves (tied ds) (draw_box a pk scaling plot_obj jb).
Proof.
  intros Hin. unfold draw_box. cbv zeta.
  apply preserves_bind; [ repeat pres_step ltac:(grows_prim idtac) | intros _ ].
  assert (Hraw : forall v, In v (box_flux (snd jb)) -> flux_value a v)
    by (intros v Hv; left; eauto).
  destruct (snd jb) as [ d | d model parameters | items | w fn fl | sp fl | fl | ];
    cbn [box_flux] in Hraw.
  - apply preserves_bind; [ apply draw_spectrum_scaled, Hraw | intros; apply preserves_ret ].
  - apply preserves_bind; [ apply draw_spectrum_scaled, Hraw | intros; apply preserves_ret ].
  - apply preserves_bind; [ apply draw_box_list_scaled, Hin | intros; apply preserves_ret ].
  - apply preserves_bind; [ apply draw_photometry_scaled, Hraw | intros; apply preserves_ret ].
  - apply preserves_bind.
    + destruct sp as [sp |]; [ | apply preserves_ret ].
      apply draw_object_spectra_scaled. intros e r He Hr. apply Hraw.
      apply in_or_app. left. apply in_concat. eexists.
      split; [ apply (in_map (fun e => map (fun r => snd (fst r)) (snd e))); exact He | ].
      exact (in_map (fun r0 : f64 * f64 * f64 => snd (fst r0)) _ r Hr).
    + intros po. destruct fl as [fl |]; [ | apply preserves_ret ].
      apply draw_object_photometry_scaled. intros e v He Hv. apply Hraw.
      apply in_or_app. right. apply in_concat. eexists.
      split; [ apply (in_map (fun e => phot_flux (snd e))); exact He | exact Hv ].
  - apply preserves_bind; [ apply draw_synphot_scaled, Hraw | intros; apply preserves_ret ].
  - apply preserves_ret.
Qed.

Lemma draw_boxes_scaled pk ds :
  preserves (tied ds) (draw_boxes a pk scaling).
Proof.
  unfold draw_boxes.
  apply preserves_bind; [ | intros; apply preserves_ret ].
  apply preserves_for_fold. intros acc jb Hjb.
  apply draw_box_scaled. eapply enumerate_in, Hjb.
Qed.

Lemma after_yaxis_scaled pk ds :
  preserves (tied ds) (after_yaxis a pk scaling).
Proof.
  repeat first [ apply draw_boxes_scaled
               | pres_step ltac:(grows_prim idtac) ].
Qed.

End ScaledItems.

Section ScaledCall.
Context `{C : Collab}.
Variables (a : args) (s : state).

Lemma set_main_yaxis_scaled sc ds :
  preserves (panel_grows Main (scaled_draw a sc) ds) (set_main_yaxis a).
Proof.
  repeat pres_step ltac:(grows_prim idtac).
  all: exact I.
Qed.

(** The draw calls of the main panel of a completed call. *)
Lemma completed_scaled_draws scaling sc :
  scaling = Fin sc -> (0 < sc)%Q ->
  completes_with_scaling a s scaling ->
  Forall (scaled_draw a scaling) (main_draws (snd (plot_spectrum a s))).
Proof.
  intros Hsc Hpos (pk & s0 & s4 & s5 & Hopen & Hbefore & Hy & Hafter).
  apply panel_grows_fresh.
  pose proof (open_figure_fresh a s pk s0 Main (scaled_draw a scaling) Hopen)
    as G0.
  pose proof (before_yaxis_draws a _ _ s0 G0) as G4. rewrite Hbefore in G4.
  pose proof (set_main_yaxis_scaled scaling [] s4 G4) as G5. rewrite Hy in G5.
  pose proof (after_yaxis_scaled a scaling sc Hsc Hpos pk [] s5 G5) as G.
  rewrite Hafter in G. exact G.
Qed.

End ScaledCall.

Section ScalingClaim.
Context `{C : Collab}.

(** C3 (amended): for a call that completes with another quantity than
    the magnitude, with scales and limits that the backend takes as given.
    With an explicit [ylim] and a linear y-axis the upper limit is a
    positive number, the exponent [e] is [math.floor(math.log10(upper))]
    as the platform computes it, the variable [scaling] is [10^e], the
    label of the y-axis embeds [e], the limits of the axis are the given
    ones divided by [10^e], and every value plotted in the main panel is a
    gap or [flux_scaling * v / 10^e] for a flux value [v] of the call,
    where [flux_scaling] is 1.0 or, for the quantity "flux", the wavelength
    at which the value is plotted.  When no [ylim] is given or the y-axis
    is not linear, [scaling] is 1, the label carries no exponent and the
    plotted values are [flux_scaling * v / 1]. *)
Theorem explicit_ylim_scaling (a : args) (s : state) :
  is_quantity "magnitude" a = false ->
  backend_accepts a ->
  fst (plot_spectrum a s) = Ok tt ->
  let final := snd (plot_spectrum a s) in
  (forall lo hi,
      ylim a = Some (lo, hi) -> snd (the_scale a) = "linear" ->
      exists q,
        hi = Fin q /\ (0 < q)%Q
        /\ completes_with_scaling a s (pow10 (log10_floor q))
        /\ main_axis_is
             (Some (flux_label (is_quantity "flux density" a)
                      (Some (log10_floor q))))
             (Some (F64.div lo (pow10 (log10_floor q)),
                    F64.div hi (pow10 (log10_floor q))))
             final
        /\ Forall (scaled_draw a (pow10 (log10_floor q))) (main_draws final))
  /\ (ylim a = None \/ snd (the_scale a) <> "linear" ->
      completes_with_scaling a s F64.one
      /\ (exists label limits,
             main_axis_is label limits final
             /\ (label = None
                 \/ label = Some (flux_label (is_quantity "flux density" a)
                                    None)))
      /\ Forall (scaled_draw a F64.one) (main_draws final)).
Proof.
  intros Hmag _ Hok final.
  destruct (completed_call a s Hok)
    as (pk & s0 & s4 & scaling & s5 & Hopen & Hbefore & Hy & Hafter).
  assert (Hcomp : completes_with_scaling a s scaling)
    by (exists pk, s0, s4, s5; auto).
  assert (Hplain : ylim a = None ->
            completes_with_scaling a s F64.one
            /\ (exists label limits,
                   main_axis_is label limits final
                   /\ (label = None
                       \/ label = Some (flux_label
                                          (is_quantity "flux density" a) None)))
            /\ Forall (scaled_draw a F64.one) (main_draws final)).
  { intros Hnone.
    assert (Hone : scaling = F64.one).
    { pose proof (open_figure_main_axis a s pk s0 Hopen) as A0.
      pose proof (before_yaxis_main_axis a _ _ s0 A0) as A4.
      rewrite Hbefore in A4.
      exact (proj1 (yaxis_default a s4 scaling s5 Hmag Hnone A4 Hy)). }
    subst scaling. split; [ exact Hcomp | ]. split.
    - eexists _, None. split.
      + apply (completed_axis a s F64.one _ _ Hcomp). intros t4 t5 A4 Ht.
        exact (proj2 (yaxis_default a t4 F64.one t5 Hmag Hnone A4 Ht)).
      + unfold flux_label. destruct (is_quantity "flux density" a); [ auto | ].
        destruct (is_quantity "flux" a); auto.
    - apply (completed_scaled_draws a s F64.one 1 eq_refl);
        [ reflexivity | exact Hcomp ]. }
  split.
  - intros lo hi Hlim Hlin.
    assert (A4 : main_axis_is None None s4).
    { pose proof (open_figure_main_axis a s pk s0 Hopen) as A0.
      pose proof (before_yaxis_main_axis a _ _ s0 A0) as A4.
      rewrite Hbefore in A4. exact A4. }
    destruct (yaxis_explicit a s4 scaling s5 None None lo hi Hmag Hlim A4 Hy)
      as (e & He & _).
    destruct (exponent_linear a hi s4 e scaling Hlin He)
      as (q & -> & Hq & -> & ->).
    exists q. split; [ reflexivity | ]. split; [ exact Hq | ].
    split; [ exact Hcomp | ]. split.
    + apply (completed_axis a s _ _ _ Hcomp). intros t4 t5 B4 Ht.
      destruct (yaxis_explicit a t4 _ t5 None None lo (Fin q) Hmag Hlim B4 Ht)
        as (e' & He' & Hax).
      destruct (exponent_linear a (Fin q) t4 e' _ Hlin He')
        as (q' & Hq' & _ & -> & _).
      inversion Hq'; subst q'. exact Hax.
    + apply (completed_scaled_draws a s _ (pow10q (log10_floor q)) eq_refl);
        [ apply pow10q_pos | exact Hcomp ].
  - intros [Hnone | Hnl]; [ exact (Hplain Hnone) | ].
    destruct (ylim a) as [[lo hi] |] eqn:Hlim; [ | exact (Hplain eq_refl) ].
    assert (A4 : main_axis_is None None s4).
    { pose proof (open_figure_main_axis a s pk s0 Hopen) as A0.
      pose proof (before_yaxis_main_axis a _ _ s0 A0) as A4.
      rewrite Hbefore in A4. exact A4. }
    destruct (yaxis_explicit a s4 scaling s5 None None lo hi Hmag Hlim A4 Hy)
      as (e & He & _).
    destruct (exponent_other a hi s4 e scaling Hnl He) as [-> ->].
    split; [ exact Hcomp | ]. split.
    + eexists _, _. split.
      * apply (completed_axis a s F64.one _ _ Hcomp). intros t4 t5 B4 Ht.
        destruct (yaxis_explicit a t4 _ t5 None None lo hi Hmag Hlim B4 Ht)
          as (e' & He' & Hax).
        destruct (exponent_other a hi t4 e' _ Hnl He') as [-> _].
        exact Hax.
      * right. reflexivity.
    + apply (completed_scaled_draws a s F64.one 1 eq_refl);
        [ reflexivity | exact Hcomp ].
Qed.

End ScalingClaim.

(** The limits 1e-3 and 5e2 on a linear axis, where the logarithm of 500
    has the floor 2: the scaling factor is 100. *)
Lemma explicit_ylim_scaling_witness :
  let a := Sample.with_ylim
             (default_args [Sample.spectrum3 (Fin 100) (Fin 250) (Fin 400)])
             (Fin (1 # 1000)) (Fin 500) in
  let final := snd (@plot_spectrum Sample.collab a (init_state [])) in
  @completes_with_scaling Sample.collab a (init_state []) (Fin 100)
  /\ main_axis_is (Some (density_label (Some 2%Z)))
       (Some (Fin (1 # 100000), Fin 5)) final
  /\ Forall (@scaled_draw Sample.collab a (Fin 100)) (main_draws final).
Proof.
  intros a final.
  destruct (@explicit_ylim_scaling Sample.collab a (init_state []))
    as [Hlinear _].
  - reflexivity.
  - repeat split; try (left; reflexivity); try discriminate.
  - vm_compute. reflexivity.
  - destruct (Hlinear (Fin (1 # 1000)) (Fin 500) eq_refl eq_refl)
      as (q & Hq & _ & Hcall & Haxis & Hdraws).
    inversion Hq; subst q.
    split; [ exact Hcall | ]. split; [ exact Haxis | exact Hdraws ].
Defined.

Example ylim_500_on_a_linear_axis :
  let a := Sample.with_ylim
             (default_args [Sample.spectrum3 (Fin 100) (Fin 250) (Fin 400)])
             (Fin (1 # 1000)) (Fin 500) in
  let final := snd (@plot_spectrum Sample.collab a (init_state [])) in
  @floor_log10 Sample.collab (Fin 500) = Ok 2%Z
  /\ pow10 2 = Fin 100
  /\ map plotted_values (main_draws final)
     = [[Val (Fin 1); Val (Fin (5 # 2)); Val (Fin 4)]].
Proof. vm_compute. repeat split; reflexivity. Qed.

(** With the quantity "magnitude" the same limits leave the values as
    they are: nothing is divided by 100 and no exponent is shown. *)
Lemma magnitude_ignores_explicit_ylim :
  let a := Sample.with_quantity
             (Sample.with_ylim
                (default_args [Sample.spectrum3 (Fin 100) (Fin 250) (Fin 400)])
                (Fin (1 # 1000)) (Fin 500))
             "magnitude" in
  let r := @plot_spectrum Sample.collab a (init_state []) in
  ylim a = Some (Fin (1 # 1000), Fin 500)
  /\ snd (the_scale a) = "linear"
  /\ fst r = Ok tt
  /\ main_axis_is (Some "Contrast (mag)") (Some (Fin (1 # 1000), Fin 500))
       (snd r)
  /\ map plotted_values (main_draws (snd r))
     = [[Val (Fin 100); Val (Fin 250); Val (Fin 400)]].
Proof.
  intros a r.
  split; [ reflexivity | ]. split; [ reflexivity | ].
  split; [ vm_compute; reflexivity | ].
  split; [ | vm_compute; reflexivity ].
  apply main_axis_panel. eexists. split.
  - eexists. split; [ vm_compute; reflexivity | reflexivity ].
  - split; reflexivity.
Qed.

(** The same limits with the quantity "flux": every value is multiplied
    by its wavelength (1, 2 and 3 micron) before it is divided by 100. *)
Example flux_values_carry_the_wavelength :
  let a := Sample.with_quantity
             (Sample.with_ylim
                (default_args [Sample.spectrum3 (Fin 100) (Fin 250) (Fin 400)])
                (Fin (1 # 1000)) (Fin 500))
             "flux" in
  let r := @plot_spectrum Sample.collab a (init_state []) in
  fst r = Ok tt
  /\ main_draws (snd r)
     = [Plot [Val (Fin 1); Val (Fin 2); Val (Fin 3)]
          [Val (Fin 1); Val (Fin 5); Val (Fin 12)] None
          [("lw", num (1 # 2)); ("label", VNone); ("zorder", num 2)]].
Proof. vm_compute. split; reflexivity. Qed.

(** * The line of a spectrum and its gaps *)

Section SpectrumLine.
Context `{C : Collab}.
Variables (a : args) (scaling : f64).

Lemma scaled_masked_line w fl :
  length fl = length w ->
  scaled_masked (waves_if_flux a (map plain w)) (map mask_nan fl) scaling
  = Ok (zip_with (drawn_cell a scaling) w fl).
Proof.
  intros Hlen.
  destruct (scaled_masked (waves_if_flux a (map plain w)) (map mask_nan fl)
              scaling) as [y | e] eqn:Hy.
  - f_equal. apply (scaled_masked_cells a scaling w fl y); [ | exact Hy ].
    symmetry. exact Hlen.
  - exfalso. revert Hy. unfold waves_if_flux, scaled_masked.
    destruct (is_quantity "flux" a); [ | discriminate ].
    unfold broadcast2. rewrite !length_map, Hlen, Nat.eqb_refl. discriminate.
Qed.

Lemma finite_cell_unsafe w q mq sc :
  (if is_quantity "flux" a then w else F64.one) = Fin mq ->
  scaling = Fin sc ->
  (0 < sc)%Q ->
  (sc <= Qabs (mq * q) * F64.tiny)%Q ->
  drawn_cell a scaling w (Fin q) = Masked.
Proof.
  intros Hm Hs Hsc Hunsafe. unfold drawn_cell.
  replace (if is_quantity "flux" a then Val w else Val F64.one)
    with (Val (Fin mq)) by (rewrite <- Hm; destruct (is_quantity "flux" a); reflexivity).
  rewrite Hs. cbn [mask_nan isnan ma_mul F64.mul ma_div F64.div].
  rewrite (qsign_pos sc Hsc). cbn [isfinite negb orb].
  unfold unsafe_divide. cbn [F64.abs F64.mul F64.geb].
  destruct (Qle_bool (Qabs sc) (Qred (Qabs (Qred (mq * q)) * F64.tiny))) eqn:E;
    [ reflexivity | ].
  exfalso. assert (E' : Qle_bool (Qabs sc)
                          (Qred (Qabs (Qred (mq * q)) * F64.tiny)) = true);
    [ | congruence ].
  apply Qle_bool_iff. rewrite !Qred_correct.
  rewrite (Qabs_pos sc) by (apply Qlt_le_weak; exact Hsc). exact Hunsafe.
Qed.

Lemma draw_spectrum_line s pk j o fg wavelength flux model :
  override_at s pk j o ->
  st_fig s = Some fg ->
  wavelength <> [] ->
  length flux = length wavelength ->
  exists s' kw,
    draw_spectrum a pk scaling j (Spec1D wavelength flux) model s = (Ok tt, s')
    /\ main_draws s'
       = main_draws s
         ++ [Plot (map plain wavelength)
               (zip_with (drawn_cell a scaling) wavelength flux) None kw]
    /\ st_heap s' = st_heap s.
Proof.
  intros (apk & l & -> & Hl & Ho) Hfg Hw Hlen.
  pose proof (scaled_masked_line wavelength flux Hlen) as Hy.
  destruct wavelength as [| w0 w]; [ contradiction Hw; reflexivity | ].
  assert (Hdraws : forall d,
             main_draws (with_fig (Some (set_panel Main (add_draw d (ax1 fg)) fg)) s)
             = main_draws s ++ [d]).
  { intros d. unfold main_draws, panel_draws. cbn. rewrite Hfg. reflexivity. }
  unfold draw_spectrum. cbv zeta.
  assert (Hplain : forall kj,
             l !! j = Some kj -> truthy kj s = (Ok false, s) ->
             exists s' kw,
               (kj <- getindex (VRef apk) j ;;
                given <- truthy kj ;;
                if given then
                  kwargs_copy <- copy kj ;;
                  y <- lift (scaled_masked
                               (waves_if_flux a (map plain (w0 :: w)))
                               (map mask_nan flux) scaling) ;;
                  kw <- keywords [] [("label",
                                      match dict_get "label" kwargs_copy with
                                      | Some v => v
                                      | None => model_label a model
                                      end)]
                          (setdefault "zorder" (num 2)
                             (if dict_mem "label" kwargs_copy
                              then dict_del "label" kwargs_copy
                              else kwargs_copy)) ;;
                  on_axes Main (add_draw (Plot (map plain (w0 :: w)) y None kw))
                else
                  y <- lift (scaled_masked
                               (waves_if_flux a (map plain (w0 :: w)))
                               (map mask_nan flux) scaling) ;;
                  on_axes Main
                    (add_draw (Plot (map plain (w0 :: w)) y None
                                 [("lw", num (1 # 2));
                                  ("label", model_label a model);
                                  ("zorder", num 2)]))) s = (Ok tt, s')
               /\ main_draws s'
                  = main_draws s
                    ++ [Plot (map plain (w0 :: w))
                          (zip_with (drawn_cell a scaling) (w0 :: w) flux)
                          None kw]
               /\ st_heap s' = st_heap s).
  { intros kj Hj Hfalse.
    rewrite (bind_then _ _ _ _ _ (getindex_run s apk l j _ Hl Hj)).
    rewrite (bind_then _ _ _ _ _ Hfalse).
    rewrite Hy. cbn [lift].
    rewrite (bind_then _ _ _ _ _ (eq_refl : ret _ s = (Ok _, s))).
    rewrite (on_axes_main_run s fg _ Hfg).
    eexists _, _. split; [ reflexivity | ].
    split; [ apply Hdraws | reflexivity ]. }
  destruct o as [d |].
  - destruct Ho as (k & Hj & Hk & Hnd).
    destruct d as [| entry d'].
    { apply (Hplain _ Hj). rewrite (truthy_dict_run s k [] Hk). reflexivity. }
    set (d := entry :: d') in *.
    rewrite (bind_then _ _ _ _ _ (getindex_run s apk l j _ Hl Hj)).
    rewrite (bind_then _ _ _ _ _ (truthy_dict_run s k d Hk)).
    change (negb (Nat.eqb (length d) 0)) with true. cbv iota.
    assert (Hcopy : copy (VRef k) s = (Ok d, s))
      by (unfold copy; rewrite bind_run, deref_run, Hk; reflexivity).
    rewrite (bind_then _ _ _ _ _ Hcopy).
    rewrite Hy. cbn [lift].
    rewrite (bind_then _ _ _ _ _ (eq_refl : ret _ s = (Ok _, s))).
    set (style := setdefault "zorder" (num 2)
                    (if dict_mem "label" d then dict_del "label" d else d)).
    assert (Hno : dict_get "label" style = None).
    { subst style. rewrite dict_get_setdefault by discriminate.
      unfold dict_mem. destruct (dict_get "label" d) eqn:E;
        [ exact (dict_get_del_eq d "label" Hnd) | exact E ]. }
    match goal with
    | |- context [keywords [] ?explicit style] =>
        assert (Hkw : keywords [] explicit style s = (Ok (explicit ++ style), s))
          by (apply keywords_run; cbn; unfold dict_mem; rewrite Hno; reflexivity);
        rewrite (bind_then _ _ _ _ _ Hkw)
    end.
    rewrite (on_axes_main_run s fg _ Hfg).
    eexists _, _. split; [ reflexivity | ].
    split; [ apply Hdraws | reflexivity ].
  - apply (Hplain _ Ho). reflexivity.
Qed.

End SpectrumLine.

(** C7 (amended).  For a [SpectrumBox] or [ModelBox] item, a flux sample
    that is not finite is never an error and is always a gap:
    - an item with one-dimensional data, as many flux samples as
      wavelengths and a style override that is [None] or a dictionary is
      drawn without an exception as one line, whose value [i] is
      [drawn_cell] of wavelength [i] and flux sample [i]; the store is left
      as it was;
    - [drawn_cell] of a NaN or an infinite sample is masked (NaN by the
      explicit mask, the infinities by the masked division by [scaling]);
    - [drawn_cell] of a finite sample [q] is [flux_scaling * q / scaling]
      when this quotient is in the range that numpy's masked division
      accepts, and masked as well outside that range;
    - for every item, with one- or two-dimensional data, whether it raises,
      and what, does not depend on the values of its flux samples (another
      item of the same shape raises alike), and every draw call it adds to
      the main panel is the line of one of its spectra. *)
Theorem nonfinite_flux_samples_are_gaps `{C : Collab}
    (a : args) (pk : pyval) (scaling : f64) (j : nat)
    (model : option (string * list (string * f64))) :
  (forall s o fg wavelength flux,
      override_at s pk j o ->
      st_fig s = Some fg ->
      wavelength <> [] ->
      length flux = length wavelength ->
      exists s' kw,
        draw_spectrum a pk scaling j (Spec1D wavelength flux) model s
        = (Ok tt, s')
        /\ main_draws s'
           = main_draws s
             ++ [Plot (map plain wavelength)
                   (zip_with (drawn_cell a scaling) wavelength flux) None kw]
        /\ st_heap s' = st_heap s)
  /\ (forall w f, isfinite f = false -> drawn_cell a scaling w f = Masked)
  /\ (forall w q mq sc,
        (if is_quantity "flux" a then w else F64.one) = Fin mq ->
        scaling = Fin sc ->
        (0 < sc)%Q ->
        ((Qabs (mq * q) * F64.tiny < sc)%Q ->
         exists q', drawn_cell a scaling w (Fin q) = Val (Fin q')
                    /\ (q' == mq * q / sc)%Q)
        /\ ((sc <= Qabs (mq * q) * F64.tiny)%Q ->
            drawn_cell a scaling w (Fin q) = Masked))
  /\ (forall d d' s,
        same_shape d d' ->
        fst (draw_spectrum a pk scaling j d' model s)
        = fst (draw_spectrum a pk scaling j d model s))
  /\ (forall d s,
        panel_grows Main (plots_spectrum a scaling d) (main_draws s)
          (snd (draw_spectrum a pk scaling j d model s))).
Proof.
  split; [ | split; [ | split; [ | split ] ] ].
  - intros s o fg wavelength flux.
    apply (draw_spectrum_line a scaling s pk j o fg wavelength flux model).
  - apply nonfinite_cell_masked.
  - intros w q mq sc Hm Hs Hsc. split.
    + apply finite_cell_drawn; assumption.
    + apply finite_cell_unsafe; assumption.
  - intros d d' s Hsh.
    symmetry. apply (draw_spectrum_raises_alike a pk scaling j d d' model Hsh s s).
    apply alike_refl.
  - intros d s. apply draw_spectrum_plots, panel_grows_refl.
Qed.

(** A spectrum with a NaN and an infinite sample at the default settings,
    without override: the line is drawn, both samples are gaps and the
    finite sample is drawn as it is. *)
Lemma nonfinite_flux_samples_are_gaps_witness :
  let a := default_args [Sample.spectrum3 (Fin 3) NaN PInf] in
  let s := mk_state [OList [VNone; VNone]] []
             (Some (mk_figure [1%nat] new_axes None None)) None in
  exists s' kw,
    @draw_spectrum Sample.collab a (VRef 0) F64.one 0
      (Spec1D [Fin 1; Fin 2; Fin 3] [Fin 3; NaN; PInf]) None s = (Ok tt, s')
    /\ main_draws s'
       = [Plot [Val (Fin 1); Val (Fin 2); Val (Fin 3)]
            [Val (Fin 3); Masked; Masked] None kw].
Proof.
  intros a s.
  destruct (@nonfinite_flux_samples_are_gaps Sample.collab a (VRef 0) F64.one
              0 None) as (Hline & _).
  destruct (Hline s None (mk_figure [1%nat] new_axes None None)
              [Fin 1; Fin 2; Fin 3] [Fin 3; NaN; PInf])
    as (s' & kw & Hrun & Hdraws & _).
  - exists 0%nat, [VNone; VNone]. repeat split; reflexivity.
  - reflexivity.
  - discriminate.
  - reflexivity.
  - exists s', kw. split; [ exact Hrun | exact Hdraws ].
Defined.

(** Finite samples that are not drawn as they are: at the default
    settings the finite sample 2^1023 (about 9e307) is outside the range of
    numpy's masked division and becomes a gap; with the limits 1e-3 and 5e2 on a linear
    axis the samples 100, 250 and 400 are drawn at 1, 2.5 and 4. *)
Lemma finite_samples_masked_or_scaled :
  let huge := Fin (inject_Z (2 ^ 1023)) in
  let a := default_args [Sample.spectrum3 (Fin 1) huge (Fin 3)] in
  let r := @plot_spectrum Sample.collab a (init_state []) in
  let a' := Sample.with_ylim
              (default_args [Sample.spectrum3 (Fin 100) (Fin 250) (Fin 400)])
              (Fin (1 # 1000)) (Fin 500) in
  let r' := @plot_spectrum Sample.collab a' (init_state []) in
  isfinite huge = true
  /\ fst r = Ok tt
  /\ map plotted_values (main_draws (snd r))
     = [[Val (Fin 1); Masked; Val (Fin 3)]]
  /\ fst r' = Ok tt
  /\ map plotted_values (main_draws (snd r'))
     = [[Val (Fin 1); Val (Fin (5 # 2)); Val (Fin 4)]].
Proof. vm_compute. repeat split; reflexivity. Qed.
